(* ===== verification/_CoqProject ===== *)
-Q . S2P
Prelude.v
Awareness.v
Keyring.v
GoFloat.v
Timing.v
Compound.v
Label.v
Security.v
Lzw.v
Queue.v
Suspicion.v
Config.v
Addr.v
Members.v
Membership.v
Guarantees.v
Learning.v
Events.v
Acks.v
Calls.v
Waiting.v
Wire.v
Probe.v
Net.v
Delivery.v
Transport.v
NetTransport.v
Listeners.v
Stream.v
Exchange.v
Lifecycle.v
Background.v
Startup.v
MockNet.v
Retry.v
