(* ===== verification/Prelude.v ===== *)
(** * A verification library for memberlist

    memberlist (src/*.go) keeps the list of the members of a cluster by gossip:
    members probe each other, spread what they learn in packets, exchange their
    whole state over streams, and agree in the end on who is alive. This library
    translates the code into Rocq and proves what makes it correct.

    ** The program and the files

    The files follow the program from the bottom up. Each holds one [Module] of
    the same name; definitions have the names of the Go code.

    - [Prelude] (this file): Go integers with their wrap-around, panics as
      [outcome], errors as [res], bytes, time; shared lemmas, hints and tactics.
    - [GoFloat], [Timing] (util.go): float64 and the functions that scale with the
      number of nodes. [Awareness] (awareness.go): the health score. [Keyring]
      (keyring.go): the keys, with the slices that share an array.
    - [Compound] (util.go, net.go): message types, compound messages, checksum.
      [Label] (label.go, peeked_conn.go): label headers. [Security] (security.go,
      and encryptLocalState and decryptRemoteState of net.go): encryption.
      [Lzw]: package compress/lzw. [Wire] (util.go): encode, decode, compression.
    - [Queue] (queue.go, broadcast.go): the broadcast queue over google/btree.
      [Suspicion] (suspicion.go): the suspicion timer.
    - [Config] (config.go), [Addr] (ParseCIDRs; packages net and netip): settings,
      addresses and networks.
    - [Members] (state.go, memberlist.go): the state machine of the membership;
      the [Memberlist] record has the tables as the code has them (objects on a
      heap, a list and a map that point to them, timers). [Membership] proves its
      invariant, [Guarantees] its refinement of the abstract SWIM protocol and the
      properties of its users, [Learning] what each message and each push/pull does
      to each entry.
    - [Events] (event_delegate.go): ChannelEventDelegate and its reader.
    - [Acks] (state.go, net.go): ack handlers, their timers and channels, pings
      and indirect pings. [Calls] (state.go): the calls of probeNode and Ping with
      the timers, handlers and goroutines that run beside them. [Probe] (state.go,
      util.go): the probe loop, probeNode, random nodes, schedule and deschedule. [Waiting] (memberlist.go, broadcast.go,
      state.go): the waits of Leave, UpdateNode and Ping.
    - [Net] (net.go, state.go, transport.go): sending and receiving packets,
      gossip, handoff queues and packet handlers, on a [runtime] that holds the
      states of [Members] and [Acks]. [Delivery] proves it.
    - [Transport] (transport.go, logging.go): the interfaces as records of
      operations, the shim and the label wrapper. [NetTransport] (net_transport.go):
      the sockets. [Listeners] (net_transport.go, net.go, memberlist.go): the
      goroutines around the transport's channels and both Shutdowns.
    - [Stream] (net.go, state.go): stream connections and the push/pull. [Exchange]
      proves it.
    - [Lifecycle] (memberlist.go): configuration checks, Create, Join, Shutdown,
      user messages. [Startup]: Create on the sockets of [NetTransport].
      [Background] (state.go): triggerFunc, pushPullTrigger, pushPull.
    - [MockNet] (mock_transport.go, net.go): the mock network and clusters on it.
      [Retry] (internal/retry/retry.go): the repetition of tests.

    Code that memberlist only calls is a class with the laws it is documented to
    have, and has an instance that satisfies them: [Queue.BTree] (sorted lists),
    [Security.AEAD] (a toy cipher), [Wire.Codec] (an encoding of countable types),
    [Members.GossipCodec] (from codecs, in [Wire]), [NetTransport.Sockets] (a list of
    what is bound). Delegates, name servers, the answers of the network, random
    numbers, nonces and the time are arguments.

    ** How state and effects are translated

    A handler is a function from the state to the state, with its guards in the
    order of the code. The code runs handlers under a lock, so interleavings are
    sequences of handlers ([Members.step], [Calls.sysStep]); a function that releases
    the lock in between is several steps (the timeout of a suspicion: [runTimeout],
    then [deliverDead]; a probe: [Probe.probeRun]; the start of a member: [Create] has
    the messages handled before [setAlive] as an argument). Goroutines that meet at channels are step relations with
    program counters ([Calls], [Listeners], [Background], [Waiting], [Events]); a [select]
    with several ready cases takes any. A Go panic is [Panic] with its message. What
    is sent or told to a delegate is appended to a list of the state. Log lines and
    metrics are left out.

    ** What the theorems show

    - Membership ([Guarantees]): every step refines the SWIM rules; tables, timers
      and counters stay consistent in every reachable state; incarnations only
      advance; the local node refutes accusations and stays alive until it leaves,
      and then stays away; delegates are told of the members, once the member has
      announced itself; an unrefuted suspicion ends in death; merging never declares
      a node dead ([Learning]).
    - Convergence ([Learning], [Background], [MockNet]): a merge acts on each node
      by itself, as a function of its entry; after a push/pull two members agree on
      whoever one of them knew to be alive; the periodic one is with a live peer
      and spreads what the peer knows; gossip from one member of a cluster changes
      the table of another as [hearAlive] says.
    - Dissemination ([Queue], [Delivery]): a round sends the least transmitted
      messages that fit and accounts for each; queues drain; packets fit the
      configured size up to the checksum header.
    - Failure detection ([Calls], [Probe], [Suspicion]): every probe and ping returns,
      whatever runs beside it, if IndirectChecks is at least 1; nodes are probed in
      turn, a silent node is suspected, timers fire once and not early.
    - Transport of messages ([Delivery], [Exchange], [Wire], [Security], [Label],
      [Compound]): what one member sends, a compatible one receives, through
      compression, checksum, encryption, labels and any fragmentation of a stream.
    - Starting, joining, stopping ([Startup], [NetTransport], [Lifecycle],
      [Listeners], [Background], [Waiting]): a created member listens where it says
      it does, and is alive there if its own settings admit it; a failed start closes its sockets, with one exception; a join through
      a peer merges exactly the peer's state; the transport hands over each
      connection and packet once and in order; Shutdown and deschedule come to an
      end, and Leave returns when its message is out.
    - Users ([Events], [Waiting]): the reader of an event channel knows the members;
      a ping returns what the peer answers.
    - Failures: the inputs on which the code panics, loses a message or departs
      from its documentation are theorems too.

    ** Bounds and fuel

    Loops that are not structural have fuel, and a theorem that it is enough:
    [Queue.GetBroadcasts] the items and the tiers ([getBroadcasts_round]), [Probe]
    one more than the nodes ([probe_terminates]), [NetTransport.setUDPRecvBuf] 23
    halvings of 2 MB ([setUDPRecvBuf_fuel]), [Retry.run] one more than the attempts
    its retryer allows ([timer_repeats]), [Lzw] the bytes of the input
    and 4096 links of the code table ([lzwRead_total]), compound messages one for
    each message. The theorems on float64 functions are by evaluation, for up to
    1000 nodes ([Timing]; 1024 for the push/pull interval, 60 for the defaults of
    [Suspicion]). [Net.handleCommand]
    has the depth of nesting the stack allows as an argument, since compressed
    messages may be nested arbitrarily deep; [packet_delivered] needs one level
    more than the command. Slices above 2^48 bytes are a panic, as on amd64.

    ** Not modelled

    Log lines and metrics, the choice of the logger and of the resolver file; the
    deadlines of connections, whose expiry is an error of the connection; the data
    races of fields read without a lock. Formatting with a format string and the
    addresses of the machine's interfaces are given by their results. Memory
    exhaustion is not a panic here. *)

From Stdlib Require Import ZArith Lia Strings.Byte.
From stdpp Require Import tactics base numbers strings gmap list.

Local Open Scope Z_scope.

(** ** Machine integers

    A Go integer is a [Z]; the width is applied where the source computes. *)

(** Wrap-around of an unsigned [w]-bit integer. *)
Definition wrapU (w z : Z) : Z := z mod 2 ^ w.

(** Wrap-around of a signed two's complement [w]-bit integer. *)
Definition wrapS (w z : Z) : Z := (z + 2 ^ (w - 1)) mod 2 ^ w - 2 ^ (w - 1).

Definition u8 (z : Z) : Z := wrapU 8 z.
Definition u16 (z : Z) : Z := wrapU 16 z.
Definition u32 (z : Z) : Z := wrapU 32 z.
Definition u64 (z : Z) : Z := wrapU 64 z.
Definition i32 (z : Z) : Z := wrapS 32 z.
Definition i64 (z : Z) : Z := wrapS 64 z.

Definition maxU32 : Z := 2 ^ 32 - 1.
Definition maxI64 : Z := 2 ^ 63 - 1.
Definition minI64 : Z := - 2 ^ 63.

(** Go integer division and remainder truncate towards zero. *)
Definition goDiv (a b : Z) : Z := Z.quot a b.
Definition goMod (a b : Z) : Z := Z.rem a b.

(** ** Outcomes

    A Go call either returns or panics (index out of range, nil dereference,
    an explicit [panic]). *)
Inductive outcome (A : Type) : Type :=
| Ret (a : A)
| Panic (why : string).

Arguments Ret {A} _.
Arguments Panic {A} _.

Definition obind {A B : Type} (c : outcome A) (k : A -> outcome B) : outcome B :=
  match c with
  | Ret a => k a
  | Panic w => Panic w
  end.

(** A Go pair [(T, error)]: exactly one of the two is meaningful. *)
Inductive res (E A : Type) : Type :=
| Ok (a : A)
| Err (e : E).

Arguments Ok {E A} _.
Arguments Err {E A} _.

Definition rbind {E A B : Type} (c : res E A) (k : A -> res E B) : res E B :=
  match c with
  | Ok a => k a
  | Err e => Err e
  end.

Declare Scope go_scope.
Delimit Scope go_scope with go.
Notation "'let?' x ':=' c 'in' k" := (rbind c (fun x => k))
  (at level 10, x name, k at level 200) : go_scope.
Notation "'let!' x ':=' c 'in' k" := (obind c (fun x => k))
  (at level 10, x name, k at level 200) : go_scope.
Notation "'let!' ' p ':=' c 'in' k" := (obind c (fun x => match x with p => k end))
  (at level 10, p pattern, k at level 200) : go_scope.

(** ** Bytes *)

Abbreviation bytes := (list byte).

#[global] Instance byte_eq_decision : EqDecision byte := byte_eq_dec.

Definition Z_of_byte (b : byte) : Z := Z.of_N (Byte.to_N b).

(** The conversion [byte(z)]: the low eight bits. *)
Definition byte_of_Z (z : Z) : byte :=
  match Byte.of_N (Z.to_N (z mod 256)) with
  | Some b => b
  | None => x00
  end.

Definition blen (b : bytes) : Z := Z.of_nat (length b).

(** [binary.BigEndian.PutUint16] and [Uint16], [PutUint32] and [Uint32]. *)
Definition putBE16 (z : Z) : bytes := [byte_of_Z (z / 2 ^ 8); byte_of_Z z].

Definition putBE32 (z : Z) : bytes :=
  [byte_of_Z (z / 2 ^ 24); byte_of_Z (z / 2 ^ 16); byte_of_Z (z / 2 ^ 8); byte_of_Z z].

Definition getBE16 (a b : byte) : Z := Z_of_byte a * 2 ^ 8 + Z_of_byte b.

Definition getBE32 (a b c d : byte) : Z :=
  Z_of_byte a * 2 ^ 24 + Z_of_byte b * 2 ^ 16 + Z_of_byte c * 2 ^ 8 + Z_of_byte d.

(** A Go [string] is its bytes. *)
Definition bytes_of_string (s : string) : bytes := String.list_byte_of_string s.
Definition string_of_bytes (b : bytes) : string := String.string_of_list_byte b.

(** ** Time

    A [time.Duration] is an [int64] of nanoseconds; a [time.Time] is the number
    of nanoseconds since the zero time. [time.Since] saturates. *)
Abbreviation duration := Z (only parsing).
Abbreviation gotime := Z (only parsing).

Definition zeroTime : gotime := 0.

Definition timeSub (t u : gotime) : duration := Z.max minI64 (Z.min maxI64 (t - u)).

Definition nsMillisecond : duration := 1000000.
Definition nsSecond : duration := 1000000000.

(** ** Bounded checks by evaluation *)

(** [P] on the [k] integers from [lo] on. *)
Fixpoint checkFrom (lo : Z) (k : nat) (P : Z -> bool) : bool :=
  match k with
  | O => true
  | S k' => if P lo then checkFrom (lo + 1) k' P else false
  end.

Lemma checkFrom_sound lo k P :
  checkFrom lo k P = true -> forall z, lo <= z < lo + Z.of_nat k -> P z = true.
Proof.
  revert lo. induction k as [|k IH]; intros lo Hc z Hz; [lia|].
  simpl in Hc. destruct (P lo) eqn:E; [|done].
  destruct (decide (z = lo)) as [->|]; [done|].
  apply (IH (lo + 1)); [done|lia].
Qed.

(** ** Facts on machine integers *)

Create HintDb go discriminated.
Create Rewrite HintDb go_simpl.

Lemma wrapU_range w z : 0 <= w -> 0 <= wrapU w z < 2 ^ w.
Proof. intros Hw. apply Z.mod_pos_bound. by apply Z.pow_pos_nonneg. Qed.

Lemma wrapU_small w z : 0 <= z < 2 ^ w -> wrapU w z = z.
Proof. intros Hz. by apply Z.mod_small. Qed.

Lemma wrapS_small w z : - 2 ^ (w - 1) <= z < 2 ^ w - 2 ^ (w - 1) -> wrapS w z = z.
Proof. intros Hz. unfold wrapS. rewrite Z.mod_small; lia. Qed.

Lemma wrapS_range w z : 1 <= w -> - 2 ^ (w - 1) <= wrapS w z < 2 ^ (w - 1).
Proof.
  intros Hw. unfold wrapS.
  assert (0 < 2 ^ w) as Hp by (apply Z.pow_pos_nonneg; lia).
  pose proof (Z.mod_pos_bound (z + 2 ^ (w - 1)) (2 ^ w) Hp) as Hb.
  assert (2 ^ w = 2 * 2 ^ (w - 1)) as He.
  { rewrite <- Z.pow_succ_r by lia. f_equal. lia. }
  lia.
Qed.

Lemma i64_small z : minI64 <= z <= maxI64 -> i64 z = z.
Proof. intros Hz. apply wrapS_small. unfold minI64, maxI64 in Hz. lia. Qed.

Lemma i64_range z : minI64 <= i64 z <= maxI64.
Proof. pose proof (wrapS_range 64 z). unfold minI64, maxI64, i64. lia. Qed.

Lemma i32_range z : - 2 ^ 31 <= i32 z <= 2 ^ 31 - 1.
Proof. pose proof (wrapS_range 32 z). unfold i32. lia. Qed.

Lemma i32_small z : - 2 ^ 31 <= z <= 2 ^ 31 - 1 -> i32 z = z.
Proof. intros Hz. apply wrapS_small. lia. Qed.

Lemma u32_small z : 0 <= z <= maxU32 -> u32 z = z.
Proof. intros Hz. apply wrapU_small. unfold maxU32 in Hz. lia. Qed.

Lemma u16_small z : 0 <= z < 2 ^ 16 -> u16 z = z.
Proof. apply wrapU_small. Qed.

Lemma u32_range z : 0 <= u32 z <= maxU32.
Proof. pose proof (wrapU_range 32 z ltac:(lia)). unfold u32, maxU32. lia. Qed.

(** ** Facts on bytes *)

Lemma Z_of_byte_range b : 0 <= Z_of_byte b < 256.
Proof. unfold Z_of_byte. pose proof (Byte.to_N_bounded b). lia. Qed.

Lemma Z_of_byte_of_Z z : Z_of_byte (byte_of_Z z) = z mod 256.
Proof.
  unfold Z_of_byte, byte_of_Z.
  pose proof (Z.mod_pos_bound z 256 ltac:(lia)) as Hb.
  destruct (Byte.of_N (Z.to_N (z mod 256))) as [b|] eqn:E.
  - apply Byte.to_of_N in E. rewrite E. rewrite Z2N.id; lia.
  - apply Byte.of_N_None_iff in E. lia.
Qed.

Lemma byte_of_Z_of_byte b : byte_of_Z (Z_of_byte b) = b.
Proof.
  unfold byte_of_Z. rewrite Z.mod_small by apply Z_of_byte_range.
  unfold Z_of_byte. rewrite N2Z.id. by rewrite Byte.of_to_N.
Qed.

Lemma Z_of_byte_small z : 0 <= z < 256 -> Z_of_byte (byte_of_Z z) = z.
Proof. intros Hz. rewrite Z_of_byte_of_Z. by apply Z.mod_small. Qed.

Lemma getBE16_put z a b : 0 <= z < 2 ^ 16 -> putBE16 z = [a; b] -> getBE16 a b = z.
Proof.
  intros Hz [= <- <-]. unfold getBE16. rewrite !Z_of_byte_of_Z.
  rewrite (Z.mod_small (z / 2 ^ 8)) by (split; [apply Z.div_pos|apply Z.div_lt_upper_bound]; lia).
  change 256 with (2 ^ 8). rewrite Z.mul_comm. symmetry. apply Z.div_mod. lia.
Qed.

Lemma getBE32_put z :
  0 <= z < 2 ^ 32 ->
  getBE32 (byte_of_Z (z / 2 ^ 24)) (byte_of_Z (z / 2 ^ 16))
          (byte_of_Z (z / 2 ^ 8)) (byte_of_Z z) = z.
Proof.
  intros Hz. unfold getBE32. rewrite !Z_of_byte_of_Z.
  change (2 ^ 24) with 16777216. change (2 ^ 16) with 65536.
  change (2 ^ 8) with 256. change (2 ^ 32) with 4294967296 in Hz.
  Z.to_euclidean_division_equations. lia.
Qed.

Lemma bytes_string_id s : string_of_bytes (bytes_of_string s) = s.
Proof. apply String.string_of_list_byte_of_string. Qed.

Lemma string_bytes_id b : bytes_of_string (string_of_bytes b) = b.
Proof. apply String.list_byte_of_string_of_list_byte. Qed.

Lemma blen_nonneg b : 0 <= blen b.
Proof. unfold blen. lia. Qed.

Lemma blen_app a b : blen (a ++ b) = blen a + blen b.
Proof. unfold blen. rewrite length_app. lia. Qed.

Lemma blen_cons x b : blen (x :: b) = 1 + blen b.
Proof. unfold blen. simpl. lia. Qed.

Lemma blen_nil : blen [] = 0.
Proof. reflexivity. Qed.

#[export] Hint Rewrite blen_app blen_cons blen_nil Z_of_byte_of_Z byte_of_Z_of_byte
  bytes_string_id string_bytes_id : go_simpl.
#[export] Hint Resolve blen_nonneg Z_of_byte_range u32_range : go.

(** ** Facts on lists *)

Lemma filter_all {A} (P : A -> Prop) `{forall x, Decision (P x)} (l : list A) :
  (forall x, x ∈ l -> P x) -> filter P l = l.
Proof.
  induction l as [|x l IH]; intros HP; [done|].
  rewrite filter_cons_True by (apply HP; left).
  f_equal. apply IH. intros y Hy. apply HP. by right.
Qed.

Lemma Forall_filter_sub {A} (Q P : A -> Prop) `{forall x, Decision (P x)} (l : list A) :
  Forall Q l -> Forall Q (filter P l).
Proof. rewrite !Forall_forall. intros HQ x [_ Hx]%list_elem_of_filter. auto. Qed.

Lemma elem_of_drop {A} (x : A) n l : x ∈ drop n l -> x ∈ l.
Proof. intros Hx. rewrite <- (take_drop n l). apply elem_of_app. by right. Qed.

Lemma elem_of_take_sub {A} (x : A) n l : x ∈ take n l -> x ∈ l.
Proof. intros Hx. rewrite <- (take_drop n l). apply elem_of_app. by left. Qed.

Lemma sum_insert {A} (f : A -> nat) (l : list A) i x y :
  l !! i = Some x -> (sum_list_with f (<[i := y]> l) + f x = sum_list_with f l + f y)%nat.
Proof.
  revert i. induction l as [|z l IH]; intros [|i] H; simplify_eq/=; [lia|]. specialize (IH i H). lia.
Qed.

Lemma filter_sublist {A} (P : A -> Prop) `{!forall x, Decision (P x)} l k :
  sublist l k -> sublist (filter P l) (filter P k).
Proof.
  induction 1 as [|x l k Hs IH|x l k Hs IH]; [done|rewrite !filter_cons; by case_decide; [constructor|]|].
  rewrite filter_cons. case_decide; [by constructor|done].
Qed.

Lemma filter_ext_elem {A} (P P' : A -> Prop) `{!forall x, Decision (P x)} `{!forall x, Decision (P' x)} (l : list A) :
  (forall x, x ∈ l -> P x <-> P' x) -> filter P l = filter P' l.
Proof.
  induction l as [|x l IH]; intros Hext; [done|]. rewrite !filter_cons, IH by (intros; apply Hext; by right).
  destruct (Hext x) as [H1 H2]; [by left|]. by repeat case_decide; auto; exfalso; auto.
Qed.

Lemma filter_none {A} (P : A -> Prop) `{!forall x, Decision (P x)} (l : list A) :
  (forall x, x ∈ l -> ~ P x) -> filter P l = [].
Proof.
  intros Hext. destruct (filter P l) as [|x k] eqn:E; [done|].
  assert (Hx : x ∈ filter P l) by (rewrite E; by left).
  apply list_elem_of_filter in Hx as [? ?]. by destruct (Hext x).
Qed.

Lemma filter_of_map {A A'} (f : A -> A') (P : A' -> Prop) `{!forall x, Decision (P x)} l :
  filter P (map f l) = map f (filter (fun x => P (f x)) l).
Proof.
  induction l as [|x l IH]; [done|]. simpl. rewrite !filter_cons, IH. by case_decide.
Qed.

(** A filter with at most one answer. *)
Lemma filter_one {A} (P : A -> Prop) `{!forall x, Decision (P x)} (l : list A) (o : option A) :
  NoDup l -> (forall x, o = Some x <-> P x /\ x ∈ l) ->
  filter P l = match o with Some x => [x] | None => [] end.
Proof.
  intros Hnd Ho. destruct o as [x|].
  - symmetry. apply Permutation_singleton_l, NoDup_Permutation.
    + apply NoDup_singleton.
    + by apply NoDup_filter.
    + intros y. rewrite list_elem_of_singleton, list_elem_of_filter, <- Ho. split; congruence.
  - apply filter_none. intros x Hx HP. by specialize (proj2 (Ho x) (conj HP Hx)).
Qed.

(** ** Tactics *)

(** Split the innermost [if] or [match] of the goal, keeping the equation. *)
Ltac gocase :=
  match goal with
  | |- context [if decide ?c then _ else _] => destruct (decide c)
  | |- context [if ?c then _ else _] => destruct c eqn:?
  | |- context [match ?c with _ => _ end] => destruct c eqn:?
  end.

(** The same on a hypothesis. *)
Ltac gocase_in H :=
  match type of H with
  | context [if decide ?c then _ else _] => destruct (decide c)
  | context [if ?c then _ else _] => destruct c eqn:?
  | context [match ?c with _ => _ end] => destruct c eqn:?
  end.

(** Turn boolean comparisons on [Z] in the context into propositions. *)
Ltac zify_bool :=
  repeat match goal with
  | H : (_ >? _) = _ |- _ => rewrite Z.gtb_ltb in H
  | H : (_ >=? _) = _ |- _ => rewrite Z.geb_leb in H
  | H : (_ <? _) = true |- _ => apply Z.ltb_lt in H
  | H : (_ <? _) = false |- _ => apply Z.ltb_ge in H
  | H : (_ <=? _) = true |- _ => apply Z.leb_le in H
  | H : (_ <=? _) = false |- _ => apply Z.leb_gt in H
  | H : (_ =? _) = true |- _ => apply Z.eqb_eq in H
  | H : (_ =? _) = false |- _ => apply Z.eqb_neq in H
  | H : (_ && _) = true |- _ => apply andb_true_iff in H as [? ?]
  | H : (_ || _) = false |- _ => apply orb_false_iff in H as [? ?]
  | H : negb _ = true |- _ => apply negb_true_iff in H
  | H : negb _ = false |- _ => apply negb_false_iff in H
  | H : bool_decide _ = true |- _ => apply bool_decide_eq_true in H
  | H : bool_decide _ = false |- _ => apply bool_decide_eq_false in H
  end.
