(* ===== verification/Awareness.v ===== *)
(** * Health awareness (awareness.go)

    The local node's health score: a counter that probes raise and lower and
    that scales the probe interval. The mutex makes every operation atomic, so
    an operation is a function on the state. The gauge metric is not modelled. *)

From Stdlib Require Import ZArith Lia.
From stdpp Require Import tactics base numbers strings gmap list.
From S2P Require Import Prelude.

Local Open Scope Z_scope.

Module Awareness.

(** The struct [awareness]; both fields are Go [int]s. *)
Record awareness := mkAwareness {
  max : Z;
  score : Z
}.

Definition newAwareness (m : Z) : awareness := {| max := m; score := 0 |}.

(** [ApplyDelta]: add, then rail the sum at zero and at [max - 1]. *)
Definition ApplyDelta (delta : Z) (a : awareness) : awareness :=
  let s := i64 (score a + delta) in
  let s' := if s <? 0 then 0
            else if s >? i64 (max a - 1) then i64 (max a - 1)
            else s in
  {| max := max a; score := s' |}.

Definition GetHealthScore (a : awareness) : Z := score a.

(** [timeout * (time.Duration(score) + 1)], an [int64] product. *)
Definition ScaleTimeout (timeout : duration) (a : awareness) : duration :=
  i64 (timeout * i64 (score a + 1)).

(** A run of the component: the deltas in the order the lock serialised them. *)
Definition applyDeltas (ds : list Z) (a : awareness) : awareness :=
  fold_left (fun s d => ApplyDelta d s) ds a.

(** The documented range of the score. *)
Definition wf (a : awareness) : Prop :=
  1 <= max a <= maxI64 /\ 0 <= score a < max a.

Lemma wf_new m : 1 <= m <= maxI64 -> wf (newAwareness m).
Proof. unfold wf, newAwareness; simpl. lia. Qed.

Lemma ApplyDelta_max d a : max (ApplyDelta d a) = max a.
Proof. reflexivity. Qed.

Lemma ApplyDelta_wf d a : wf a -> wf (ApplyDelta d a).
Proof.
  intros [Hm Hs]. split; [by rewrite ApplyDelta_max|].
  unfold ApplyDelta; simpl.
  rewrite (i64_small (max a - 1)) by (unfold minI64, maxI64 in *; lia).
  destruct (Z.ltb_spec (i64 (score a + d)) 0); [lia|].
  destruct (Z.gtb_spec (i64 (score a + d)) (max a - 1)); lia.
Qed.

Lemma applyDeltas_wf ds a : wf a -> wf (applyDeltas ds a).
Proof. revert a. induction ds as [|d ds IH]; simpl; auto using ApplyDelta_wf. Qed.

Lemma applyDeltas_max ds a : max (applyDeltas ds a) = max a.
Proof. revert a. induction ds as [|d ds IH]; intros a; simpl; [done|]. by rewrite IH. Qed.

Lemma ApplyDelta_clamp d a :
  wf a -> minI64 <= score a + d <= maxI64 ->
  score (ApplyDelta d a) = Z.max 0 (Z.min (max a - 1) (score a + d)).
Proof.
  intros [Hm Hs] Hd. unfold ApplyDelta; simpl.
  rewrite (i64_small (max a - 1)) by (unfold minI64, maxI64 in *; lia).
  rewrite i64_small by done.
  destruct (Z.ltb_spec (score a + d) 0); [lia|].
  destruct (Z.gtb_spec (score a + d) (max a - 1)); lia.
Qed.

(** Whatever sequence of deltas probes and refutations apply to a fresh awareness
    object, additions that wrap included, the score stays in the documented range
    [0 <= score < max]. *)
Theorem health_score_in_range (m : Z) (ds : list Z) :
  1 <= m <= maxI64 ->
  0 <= GetHealthScore (applyDeltas ds (newAwareness m)) < m.
Proof.
  intros Hm. pose proof (applyDeltas_wf ds _ (wf_new m Hm)) as [_ Hs].
  by rewrite applyDeltas_max in Hs.
Qed.

Lemma health_score_in_range_witness :
  0 <= GetHealthScore (applyDeltas [3; -1; 20; -2] (newAwareness 8)) < 8.
Proof. apply (health_score_in_range 8 [3; -1; 20; -2]). unfold maxI64. lia. Defined.

(** The scaled timeout is the timeout times [score + 1], so it is never shorter
    than the configured one and at most [max] times as long, as long as that
    product fits an [int64]. *)
Theorem ScaleTimeout_bounds (t : duration) (a : awareness) :
  wf a -> 0 <= t -> t * max a <= maxI64 ->
  ScaleTimeout t a = t * (score a + 1) /\ t <= ScaleTimeout t a <= t * max a.
Proof.
  intros [Hm Hs] Ht Hmax. unfold ScaleTimeout.
  rewrite (i64_small (score a + 1)) by (unfold minI64, maxI64 in *; lia).
  rewrite i64_small by (unfold minI64, maxI64 in *; nia).
  split; [done|nia].
Qed.

Lemma ScaleTimeout_bounds_witness :
  ScaleTimeout nsSecond (mkAwareness 8 2) = nsSecond * (2 + 1)
  /\ nsSecond <= ScaleTimeout nsSecond (mkAwareness 8 2) <= nsSecond * 8.
Proof.
  apply (ScaleTimeout_bounds nsSecond (mkAwareness 8 2));
    unfold wf, nsSecond, maxI64; simpl; lia.
Defined.

(** Without overflow, [ApplyDelta] is exactly addition clamped to [0 .. max-1]; in
    particular a railed score does not move further. *)
Theorem ApplyDelta_is_clamped_add (d : Z) (a : awareness) :
  wf a -> minI64 <= score a + d <= maxI64 ->
  score (ApplyDelta d a) = Z.max 0 (Z.min (max a - 1) (score a + d))
  /\ (score a = max a - 1 -> 0 <= d -> ApplyDelta d a = a)
  /\ (score a = 0 -> d <= 0 -> ApplyDelta d a = a).
Proof.
  intros Hwf Hd. pose proof (ApplyDelta_clamp d a Hwf Hd) as Hc.
  destruct Hwf as [Hm Hs]. split; [done|].
  assert (forall a', max a' = max a -> score a' = score a -> a' = a) as Hext.
  { intros [??]; destruct a; simpl; congruence. }
  split; intros He Hdd; apply Hext; try done; rewrite Hc; lia.
Qed.

Lemma ApplyDelta_is_clamped_add_witness :
  score (ApplyDelta 20 (mkAwareness 8 2)) = 7
  /\ (2 = 7 -> 0 <= 20 -> ApplyDelta 20 (mkAwareness 8 2) = mkAwareness 8 2)
  /\ (2 = 0 -> 20 <= 0 -> ApplyDelta 20 (mkAwareness 8 2) = mkAwareness 8 2).
Proof.
  apply (ApplyDelta_is_clamped_add 20 (mkAwareness 8 2));
    unfold wf, minI64, maxI64; simpl; lia.
Defined.

(** With a multiplier of zero the floor of the score is not enforced: the
    first delta sends it to [-1]. *)
Lemma ApplyDelta_zero_multiplier : score (ApplyDelta 0 (newAwareness 0)) = -1.
Proof. reflexivity. Qed.

End Awareness.
