(* ===== verification/Keyring.v ===== *)
(** * The keyring (keyring.go)

    The ordered set of encryption keys; position 0 is the primary key. A key is
    a byte slice, compared with [bytes.Equal]. [RemoveKey] shifts the backing
    array of [k.keys] in place while it ranges over it, and [GetKeys] hands the
    same array out, so the loop is modelled on the array and the result says
    what a slice obtained before the call holds afterwards. *)

From Stdlib Require Import ZArith Lia Strings.Byte.
From stdpp Require Import tactics base numbers strings gmap list.
From S2P Require Import Prelude.

Local Open Scope Z_scope.

Module Keyring.

Record Keyring := mkKeyring { keys : list bytes }.

Inductive keyErr :=
| ErrEmptyPrimary
| ErrKeySize
| ErrNotInRing
| ErrRemovePrimary.

(** ** Operations *)

Definition init : Keyring := {| keys := [] |}.

Definition ValidateKey (key : bytes) : res keyErr unit :=
  let l := blen key in
  if negb (l =? 16) && negb (l =? 24) && negb (l =? 32) then Err ErrKeySize else Ok tt.

(** [installKeys]: the primary key, then every other key in order. *)
Definition installKeys (ks : list bytes) (primaryKey : bytes) : Keyring :=
  {| keys := primaryKey :: filter (fun key => key <> primaryKey) ks |}.

Definition GetKeys (k : Keyring) : list bytes := keys k.

(** [GetPrimaryKey]: [nil] when the ring is empty. *)
Definition GetPrimaryKey (k : Keyring) : option bytes := head (keys k).

(** The loop [for _, installedKey := range k.keys] with its equality test. *)
Definition installed (key : bytes) (k : Keyring) : bool :=
  existsb (fun installedKey => bool_decide (installedKey = key)) (keys k).

Definition AddKey (key : bytes) (k : Keyring) : res keyErr Keyring :=
  match ValidateKey key with
  | Err e => Err e
  | Ok _ =>
      if installed key k then Ok k
      else
        let ks := keys k ++ [key] in
        let primaryKey := match GetPrimaryKey k with None => key | Some p => p end in
        Ok (installKeys ks primaryKey)
  end.

Definition UseKey (key : bytes) (k : Keyring) : res keyErr Keyring :=
  if installed key k then Ok (installKeys (keys k) key) else Err ErrNotInRing.

(** One loop body of [RemoveKey] that matched at [i]: [append(k.keys[:i],
    k.keys[i+1:]...)] moves the tail one place down inside the array [cur] of
    [k.keys] and leaves the last cell as it was. *)
Definition shiftDown (i : nat) (cur : list bytes) : list bytes :=
  take i cur ++ drop (S i) cur ++ drop (length cur - 1) cur.

(** The loop of [RemoveKey]: [arr] is the array being ranged over; [fresh] is
    the array installed by an earlier match, [None] while [k.keys] is still the
    ranged one. Element [i] is read from [arr] at iteration [i]. *)
Fixpoint removeLoop (n i : nat) (key : bytes) (arr : list bytes)
    (fresh : option (list bytes)) : outcome (list bytes * option (list bytes)) :=
  match n with
  | O => Ret (arr, fresh)
  | S n' =>
      match arr !! i with
      | None => Panic "index out of range"
      | Some installedKey =>
          if bool_decide (key = installedKey) then
            let cur := match fresh with None => arr | Some f => f end in
            if bool_decide (S i <= length cur)%nat then
              let cur' := shiftDown i cur in
              match cur' !! 0%nat with
              | None => Panic "index out of range"
              | Some primary =>
                  let newKeys := keys (installKeys (take i cur ++ drop (S i) cur) primary) in
                  let arr' := match fresh with None => cur' | Some _ => arr end in
                  removeLoop n' (S i) key arr' (Some newKeys)
              end
            else Panic "slice bounds out of range"
          else removeLoop n' (S i) key arr fresh
      end
  end.

(** [RemoveKey], with the contents of the old array as seen through a slice
    returned by [GetKeys] before the call. *)
Definition removeKeyStore (key : bytes) (k : Keyring) :
    outcome (res keyErr (Keyring * list bytes)) :=
  match keys k !! 0%nat with
  | None => Panic "index out of range [0] with length 0"
  | Some primary =>
      if bool_decide (key = primary) then Ret (Err ErrRemovePrimary)
      else
        match removeLoop (length (keys k)) 0 key (keys k) None with
        | Panic w => Panic w
        | Ret (arr, fresh) =>
            Ret (Ok ({| keys := match fresh with None => keys k | Some f => f end |}, arr))
        end
  end.

Definition RemoveKey (key : bytes) (k : Keyring) : outcome (res keyErr Keyring) :=
  match removeKeyStore key k with
  | Panic w => Panic w
  | Ret (Err e) => Ret (Err e)
  | Ret (Ok (k', _)) => Ret (Ok k')
  end.

Fixpoint addKeys (ks : list bytes) (k : Keyring) : res keyErr Keyring :=
  match ks with
  | [] => Ok k
  | key :: rest => rbind (AddKey key k) (addKeys rest)
  end.

Definition NewKeyring (ks : list bytes) (primaryKey : bytes) : res keyErr Keyring :=
  if (0 <? Z.of_nat (length ks)) || (0 <? blen primaryKey) then
    if blen primaryKey =? 0 then Err ErrEmptyPrimary
    else rbind (AddKey primaryKey init) (addKeys ks)
  else Ok init.

(** A client's calls, one after another; a failed call leaves the ring alone. *)
Inductive keyOp :=
| OpAdd (key : bytes)
| OpUse (key : bytes)
| OpRemove (key : bytes).

Definition keep (k : Keyring) (r : res keyErr Keyring) : Keyring :=
  match r with Ok k' => k' | Err _ => k end.

Definition runOp (op : keyOp) (k : Keyring) : outcome Keyring :=
  match op with
  | OpAdd key => Ret (keep k (AddKey key k))
  | OpUse key => Ret (keep k (UseKey key k))
  | OpRemove key => obind (RemoveKey key k) (fun r => Ret (keep k r))
  end.

Fixpoint runOps (ops : list keyOp) (k : Keyring) : outcome Keyring :=
  match ops with
  | [] => Ret k
  | op :: rest => obind (runOp op k) (runOps rest)
  end.

(** ** Well-formedness *)

Definition validKey (key : bytes) : Prop := blen key = 16 \/ blen key = 24 \/ blen key = 32.

(** No key twice, every key of an AES size. *)
Definition wf (k : Keyring) : Prop := NoDup (keys k) /\ Forall validKey (keys k).

(** ** Lemmas *)

Lemma ValidateKey_spec key :
  (ValidateKey key = Ok tt /\ validKey key) \/ (ValidateKey key = Err ErrKeySize /\ ~ validKey key).
Proof.
  unfold ValidateKey, validKey.
  destruct (Z.eqb_spec (blen key) 16), (Z.eqb_spec (blen key) 24),
    (Z.eqb_spec (blen key) 32); simpl; tauto.
Qed.

Lemma installed_spec key k : installed key k = true <-> key ∈ keys k.
Proof.
  unfold installed. rewrite existsb_exists. split.
  - intros (x & Hin & Hx). apply bool_decide_eq_true in Hx as ->. by apply list_elem_of_In.
  - intros Hin. exists key. split; [by apply list_elem_of_In|]. by apply bool_decide_eq_true.
Qed.

Lemma installed_false key k : installed key k = false <-> key ∉ keys k.
Proof. rewrite <- installed_spec. destruct (installed key k); naive_solver. Qed.

Lemma elem_of_installKeys x ks p : x ∈ keys (installKeys ks p) <-> x = p \/ x ∈ ks.
Proof.
  simpl. rewrite elem_of_cons, list_elem_of_filter.
  destruct (decide (x = p)); naive_solver.
Qed.

Lemma installKeys_NoDup ks p : NoDup ks -> NoDup (keys (installKeys ks p)).
Proof.
  intros Hnd. simpl. constructor; [|by apply NoDup_filter].
  rewrite list_elem_of_filter. naive_solver.
Qed.

Lemma installKeys_wf ks p :
  NoDup ks -> Forall validKey ks -> validKey p -> wf (installKeys ks p).
Proof.
  intros Hnd Hv Hp. split; [by apply installKeys_NoDup|].
  simpl. constructor; [done|]. by apply Forall_filter_sub.
Qed.

(** Installing with the current head as primary key changes nothing. *)
Lemma installKeys_head p ks :
  NoDup (p :: ks) -> installKeys (p :: ks) p = {| keys := p :: ks |}.
Proof.
  intros [Hp Hnd]%NoDup_cons. unfold installKeys. f_equal. f_equal.
  rewrite filter_cons_False by naive_solver.
  apply filter_all. intros x Hx ->. done.
Qed.

Lemma AddKey_wf key k k' : wf k -> AddKey key k = Ok k' -> wf k'.
Proof.
  intros [Hnd Hv]. unfold AddKey.
  destruct (ValidateKey_spec key) as [[-> Hk]|[-> ?]]; [|done].
  destruct (installed key k) eqn:E; intros [= <-]; [done|].
  apply installed_false in E.
  apply installKeys_wf.
  - apply NoDup_app. split; [done|]. split; [|apply NoDup_singleton].
    intros x Hx ->%list_elem_of_singleton. done.
  - by apply Forall_app; split; [|apply Forall_singleton].
  - unfold GetPrimaryKey. destruct (keys k) as [|p ks]; [done|]. simpl.
    by apply Forall_cons in Hv as [? _].
Qed.

Lemma UseKey_wf key k k' : wf k -> UseKey key k = Ok k' -> wf k'.
Proof.
  intros [Hnd Hv]. unfold UseKey. destruct (installed key k) eqn:E; intros [= <-].
  apply installed_spec in E. apply installKeys_wf; [done..|].
  rewrite Forall_forall in Hv. auto.
Qed.

(** The loop finds nothing when the key is not in the part still to visit. *)
Lemma removeLoop_none n i key arr fresh :
  length arr = (i + n)%nat -> key ∉ drop i arr ->
  removeLoop n i key arr fresh = Ret (arr, fresh).
Proof.
  revert i. induction n as [|n IH]; intros i Hlen Hni; simpl; [done|].
  destruct (lookup_lt_is_Some_2 arr i ltac:(lia)) as [x Hx]. rewrite Hx.
  rewrite (drop_S arr x i Hx), not_elem_of_cons in Hni. destruct Hni as [Hne Hni].
  rewrite bool_decide_eq_false_2 by done. apply IH; [lia|done].
Qed.

(** The loop runs over a prefix without the key. *)
Lemma removeLoop_skip n i key arr fresh m :
  (i + m <= length arr)%nat -> (m <= n)%nat -> key ∉ take m (drop i arr) ->
  removeLoop n i key arr fresh = removeLoop (n - m) (i + m) key arr fresh.
Proof.
  revert n i. induction m as [|m IH]; intros n i Hlen Hmn Hni.
  { by rewrite Nat.sub_0_r, Nat.add_0_r. }
  destruct n as [|n]; [lia|]. simpl.
  destruct (lookup_lt_is_Some_2 arr i ltac:(lia)) as [x Hx]. rewrite Hx.
  rewrite (drop_S arr x i Hx) in Hni. simpl in Hni. rewrite not_elem_of_cons in Hni.
  destruct Hni as [Hne Hni]. rewrite bool_decide_eq_false_2 by done.
  rewrite IH by (done || lia). f_equal. lia.
Qed.

Lemma shiftDown_length i cur :
  (i < length cur)%nat -> length (shiftDown i cur) = length cur.
Proof. intros Hi. unfold shiftDown. rewrite !length_app, length_take, !length_drop. lia. Qed.

(** The cells the loop still visits after a match hold no second copy. *)
Lemma shifted_tail_fresh (key : bytes) l2 :
  key ∉ l2 -> key ∉ drop 1 (l2 ++ drop (length l2) (key :: l2)).
Proof.
  intros Hni Hin. destruct l2 as [|x l2]; simpl in Hin; [by apply not_elem_of_nil in Hin|].
  rewrite drop_0 in Hin. apply Hni. apply elem_of_app in Hin as [Hin|Hin].
  - by apply list_elem_of_further.
  - by apply elem_of_drop in Hin.
Qed.

(** On a ring without duplicates and a key at position [S j], the loop drops
    that key, keeps the order, and does not panic. *)
Lemma removeLoop_found p l1 key l2 :
  NoDup (p :: l1 ++ key :: l2) ->
  exists arr, removeLoop (length (p :: l1 ++ key :: l2)) 0 key (p :: l1 ++ key :: l2) None
    = Ret (arr, Some (p :: l1 ++ l2))
    /\ arr = p :: l1 ++ l2 ++ drop (length l2) (key :: l2).
Proof.
  intros Hnd. set (arr0 := p :: l1 ++ key :: l2).
  set (i := S (length l1)).
  assert (arr0 = (p :: l1) ++ key :: l2) as Harr by done.
  assert (length arr0 = (i + S (length l2))%nat) as Hlen.
  { rewrite Harr, length_app. simpl. lia. }
  assert (take i arr0 = p :: l1) as Htake by (rewrite Harr; by apply take_app_length').
  assert (drop (S i) arr0 = l2) as Hdrop.
  { rewrite Harr, cons_middle, app_assoc. apply drop_app_length'. rewrite length_app. simpl. lia. }
  assert ((key ∉ p :: l1) /\ (key ∉ l2) /\ NoDup (p :: l1 ++ l2)) as (Hk1 & Hk2 & Hnd').
  { change (NoDup ((p :: l1) ++ key :: l2)) in Hnd.
    rewrite <- Permutation_middle in Hnd. apply NoDup_cons in Hnd as [Hni Hnd].
    rewrite not_elem_of_app in Hni. destruct Hni. split_and!; done. }
  assert (shiftDown i arr0 = p :: l1 ++ l2 ++ drop (length l2) (key :: l2)) as Hshift.
  { unfold shiftDown. rewrite Htake, Hdrop.
    replace (length arr0 - 1)%nat with (length (p :: l1) + length l2)%nat by (rewrite Hlen; simpl; lia).
    rewrite Harr at 1. rewrite drop_app_add. done. }
  exists (shiftDown i arr0). split; [|done].
  rewrite (removeLoop_skip _ _ _ _ _ i).
  2, 3: lia.
  2: { by rewrite drop_0, Htake. }
  replace (length arr0 - i)%nat with (S (length l2)) by lia.
  cbn [removeLoop].
  assert (arr0 !! i = Some key) as Hi.
  { rewrite Harr. apply list_lookup_middle. done. }
  change (0 + i)%nat with i. rewrite Hi.
  rewrite bool_decide_eq_true_2 by done.
  rewrite (bool_decide_eq_true_2 (S i <= length arr0)%nat) by lia.
  assert (shiftDown i arr0 !! 0%nat = Some p) as H0 by by rewrite Hshift.
  rewrite H0, Htake, Hdrop.
  change ((p :: l1) ++ l2) with (p :: l1 ++ l2).
  rewrite installKeys_head by done. simpl keys.
  apply removeLoop_none.
  - rewrite shiftDown_length; lia.
  - rewrite Hshift. change (p :: l1 ++ l2 ++ ?x) with ((p :: l1) ++ l2 ++ x).
    replace (S i) with (length (p :: l1) + 1)%nat by (simpl; lia).
    rewrite drop_app_add. by apply shifted_tail_fresh.
Qed.

Lemma elem_of_split_head (key p : bytes) ks :
  key ∈ p :: ks -> key <> p -> exists l1 l2, ks = l1 ++ key :: l2.
Proof. intros [->|Hin]%elem_of_cons Hne; [done|]. by apply list_elem_of_split. Qed.

Lemma filter_neq_split (key : bytes) l1 l2 :
  key ∉ l1 -> key ∉ l2 -> filter (fun x => x <> key) (l1 ++ key :: l2) = l1 ++ l2.
Proof.
  intros H1 H2. rewrite filter_app, filter_cons_False by naive_solver.
  f_equal; apply filter_all; intros x Hx ->; done.
Qed.

(** The complete behaviour of [RemoveKey] on a ring without duplicates: the
    key found, the key absent, the primary key. *)
Lemma removeKeyStore_found p l1 key l2 :
  NoDup (p :: l1 ++ key :: l2) ->
  removeKeyStore key {| keys := p :: l1 ++ key :: l2 |} =
    Ret (Ok ({| keys := p :: l1 ++ l2 |}, p :: l1 ++ l2 ++ drop (length l2) (key :: l2))).
Proof.
  intros Hnd. destruct (removeLoop_found p l1 key l2 Hnd) as (arr & Hloop & ->).
  unfold removeKeyStore. cbn [keys]. cbn [lookup list_lookup].
  rewrite bool_decide_eq_false_2.
  - by rewrite Hloop.
  - intros ->. apply NoDup_cons in Hnd as [Hni _]. apply Hni.
    apply elem_of_app. right. left.
Qed.

Lemma removeKeyStore_absent key p ks :
  key ∉ p :: ks ->
  removeKeyStore key {| keys := p :: ks |} = Ret (Ok ({| keys := p :: ks |}, p :: ks)).
Proof.
  intros Hni. unfold removeKeyStore. cbn [keys]. cbn [lookup list_lookup].
  rewrite bool_decide_eq_false_2 by (intros ->; apply Hni; left).
  by rewrite removeLoop_none by (done || (simpl; lia)).
Qed.

Lemma RemoveKey_spec key p ks :
  NoDup (p :: ks) ->
  RemoveKey key {| keys := p :: ks |} =
    if bool_decide (key = p) then Ret (Err ErrRemovePrimary)
    else Ret (Ok {| keys := filter (fun x => x <> key) (p :: ks) |}).
Proof.
  intros Hnd. unfold RemoveKey. case_bool_decide as He.
  { subst. unfold removeKeyStore. simpl. by rewrite bool_decide_eq_true_2. }
  destruct (decide (key ∈ p :: ks)) as [Hin|Hni].
  - destruct (elem_of_split_head key p ks Hin He) as (l1 & l2 & ->).
    rewrite removeKeyStore_found by done. f_equal. f_equal. f_equal.
    change (p :: l1 ++ key :: l2) with ((p :: l1) ++ key :: l2) in *.
    rewrite <- Permutation_middle in Hnd. apply NoDup_cons in Hnd as [Hni _].
    apply not_elem_of_app in Hni as [H1 H2].
    by rewrite filter_neq_split.
  - rewrite removeKeyStore_absent by done. f_equal. f_equal. f_equal.
    rewrite filter_all; [done|]. intros x Hx ->. done.
Qed.

Lemma RemoveKey_wf key k :
  wf k -> keys k <> [] ->
  exists r, RemoveKey key k = Ret r /\ wf (keep k r) /\ keys (keep k r) <> [].
Proof.
  destruct k as [[|p ks]]; intros [Hnd Hv] Hne; [done|].
  rewrite RemoveKey_spec by done. case_bool_decide as He.
  { exists (Err ErrRemovePrimary). done. }
  eexists. split; [done|]. simpl keys. simpl in Hnd, Hv. split; [split|].
  - by apply NoDup_filter.
  - by apply Forall_filter_sub.
  - simpl. rewrite filter_cons_True by done. done.
Qed.

Lemma AddKey_nonempty key k k' : AddKey key k = Ok k' -> keys k' <> [].
Proof.
  unfold AddKey. destruct (ValidateKey key); [|done].
  destruct (installed key k) eqn:E; intros [= <-]; [|done].
  apply installed_spec in E. intros He. rewrite He in E. by apply not_elem_of_nil in E.
Qed.

Lemma addKeys_wf ks k k' : wf k -> addKeys ks k = Ok k' -> wf k'.
Proof.
  revert k. induction ks as [|key ks IH]; intros k Hwf; simpl; [by intros [= <-]|].
  destruct (AddKey key k) as [k1|] eqn:E; simpl; [|done].
  apply IH. by eapply AddKey_wf.
Qed.

Lemma addKeys_head ks k k' p :
  wf k -> GetPrimaryKey k = Some p -> addKeys ks k = Ok k' -> GetPrimaryKey k' = Some p.
Proof.
  revert k. induction ks as [|key ks IH]; intros k Hwf Hp; simpl; [by intros [= <-]|].
  destruct (AddKey key k) as [k1|] eqn:E; simpl; [|done].
  apply IH; [by eapply AddKey_wf|].
  unfold AddKey in E. rewrite Hp in E. destruct (ValidateKey key); [|done].
  by destruct (installed key k); injection E as <-.
Qed.

Lemma wf_init : wf init.
Proof. split; [apply NoDup_nil_2|apply Forall_nil_2]. Qed.

Lemma NewKeyring_wf ks p k : NewKeyring ks p = Ok k -> wf k.
Proof.
  unfold NewKeyring. destruct (_ || _); [|intros [= <-]; apply wf_init].
  destruct (blen p =? 0); [done|].
  destruct (AddKey p init) as [k1|] eqn:E; simpl; [|done].
  apply addKeys_wf. by eapply AddKey_wf; [apply wf_init|].
Qed.

Lemma runOp_wf op k :
  wf k -> keys k <> [] -> exists k', runOp op k = Ret k' /\ wf k' /\ keys k' <> [].
Proof.
  intros Hwf Hne. destruct op as [key|key|key]; simpl.
  - exists (keep k (AddKey key k)). split; [done|].
    destruct (AddKey key k) as [k'|] eqn:E; simpl; [|done].
    split; [by eapply AddKey_wf|by eapply AddKey_nonempty].
  - exists (keep k (UseKey key k)). split; [done|].
    destruct (UseKey key k) as [k'|] eqn:E; simpl; [|done].
    split; [by eapply UseKey_wf|].
    unfold UseKey in E. destruct (installed key k); [|done]. by injection E as <-.
  - destruct (RemoveKey_wf key k Hwf Hne) as (r & -> & Hr). exists (keep k r). done.
Qed.

Lemma runOps_wf ops k :
  wf k -> keys k <> [] -> exists k', runOps ops k = Ret k' /\ wf k' /\ keys k' <> [].
Proof.
  revert k. induction ops as [|op ops IH]; intros k Hwf Hne; simpl; [by eexists|].
  destruct (runOp_wf op k Hwf Hne) as (k' & -> & Hwf' & Hne'). simpl. auto.
Qed.

Lemma AddKey_elem key k k' :
  AddKey key k = Ok k' -> forall x, x ∈ keys k' <-> x = key \/ x ∈ keys k.
Proof.
  unfold AddKey. destruct (ValidateKey key); [|done].
  destruct (installed key k) eqn:E; intros [= <-] x.
  { apply installed_spec in E. split; [auto|]. by intros [->|]. }
  rewrite elem_of_installKeys, elem_of_app, list_elem_of_singleton.
  unfold GetPrimaryKey. destruct (keys k) as [|p ks]; simpl; [tauto|].
  rewrite elem_of_cons. tauto.
Qed.

Lemma addKeys_elem ks k k' :
  addKeys ks k = Ok k' -> forall x, x ∈ keys k' <-> x ∈ ks \/ x ∈ keys k.
Proof.
  revert k. induction ks as [|key ks IH]; intros k; simpl.
  { intros [= <-] x. rewrite elem_of_nil. tauto. }
  destruct (AddKey key k) as [k1|] eqn:E; simpl; [|done].
  intros Hk x. rewrite (IH _ Hk), (AddKey_elem _ _ _ E), elem_of_cons. tauto.
Qed.

Lemma AddKey_total key k :
  (validKey key /\ exists k', AddKey key k = Ok k')
  \/ (~ validKey key /\ AddKey key k = Err ErrKeySize).
Proof.
  unfold AddKey. destruct (ValidateKey_spec key) as [[-> Hv]|[-> Hv]]; [left|by right].
  split; [done|]. destruct (installed key k); eauto.
Qed.

Lemma addKeys_total ks k :
  (Forall validKey ks /\ exists k', addKeys ks k = Ok k')
  \/ (~ Forall validKey ks /\ addKeys ks k = Err ErrKeySize).
Proof.
  revert k. induction ks as [|key ks IH]; intros k; simpl; [left; eauto|].
  destruct (AddKey_total key k) as [[Hv [k1 ->]]|[Hv ->]]; simpl.
  - destruct (IH k1) as [[Hks Hk]|[Hks Hk]]; [left; auto|right].
    split; [|done]. by intros [_ ?]%Forall_cons.
  - right. split; [|done]. by intros [? _]%Forall_cons.
Qed.

(** ** Properties *)

(** C35: From any ring built by [NewKeyring] with a primary key, every sequence of
    [AddKey], [UseKey] and [RemoveKey] calls runs without a panic and keeps the
    ring non-empty, without duplicates, and with AES-sized keys only. *)
Theorem keyring_invariant (ks : list bytes) (p : bytes) (k : Keyring) (ops : list keyOp) :
  NewKeyring ks p = Ok k -> p <> [] ->
  exists k', runOps ops k = Ret k' /\ NoDup (keys k') /\ Forall validKey (keys k')
             /\ keys k' <> [].
Proof.
  intros Hk Hp. pose proof (NewKeyring_wf _ _ _ Hk) as Hwf.
  destruct (runOps_wf ops k Hwf) as (k' & Hrun & [Hnd Hv] & Hne); [|by exists k'].
  revert Hk. unfold NewKeyring. destruct p as [|b p]; [done|].
  rewrite orb_comm. simpl. destruct (AddKey (b :: p) init) as [k1|] eqn:E; simpl; [|done].
  intros Hadd He. pose proof (AddKey_elem _ _ _ E (b :: p)) as Hin.
  apply (addKeys_elem _ _ _) with (x := b :: p) in Hadd.
  rewrite He, elem_of_nil in Hadd. tauto.
Qed.

(** Keys for the witnesses: sixteen equal bytes. *)
Definition demoKey (b : byte) : bytes := replicate 16 b.

Lemma keyring_invariant_witness :
  exists k', runOps [OpAdd (demoKey x03); OpUse (demoKey x02); OpRemove (demoKey x01)]
      {| keys := [demoKey x01; demoKey x02] |} = Ret k'
    /\ NoDup (keys k') /\ Forall validKey (keys k') /\ keys k' <> [].
Proof.
  apply (keyring_invariant [demoKey x02] (demoKey x01)); [reflexivity|discriminate].
Defined.

(** Given a non-empty primary key, [NewKeyring] succeeds exactly when all keys
    have an AES size; the ring then has the primary key first and holds exactly
    the primary key and the given keys. *)
Theorem NewKeyring_contents (ks : list bytes) (p : bytes) :
  p <> [] ->
  (Forall validKey (p :: ks) /\ exists k, NewKeyring ks p = Ok k
     /\ GetPrimaryKey k = Some p /\ (forall x, x ∈ GetKeys k <-> x = p \/ x ∈ ks))
  \/ (~ Forall validKey (p :: ks) /\ NewKeyring ks p = Err ErrKeySize).
Proof.
  intros Hp. unfold NewKeyring. destruct p as [|b p]; [done|].
  rewrite orb_comm. simpl.
  destruct (AddKey_total (b :: p) init) as [[Hv [k1 E]]|[Hv E]]; rewrite E; simpl.
  2: { right. split; [|done]. by intros [? _]%Forall_cons. }
  pose proof (AddKey_wf _ _ _ wf_init E) as Hwf1.
  destruct (addKeys_total ks k1) as [[Hks [k Hk]]|[Hks Hk]]; rewrite Hk.
  2: { right. split; [|done]. by intros [_ ?]%Forall_cons. }
  left. split; [by constructor|]. exists k. split_and!; [done| |].
  - eapply addKeys_head; [exact Hwf1| |exact Hk].
    unfold AddKey in E. destruct (ValidateKey _); [|done]. by injection E as <-.
  - intros x. unfold GetKeys. rewrite (addKeys_elem _ _ _ Hk), (AddKey_elem _ _ _ E).
    simpl. rewrite elem_of_nil. tauto.
Qed.

Lemma NewKeyring_contents_witness :
  (Forall validKey [demoKey x01; demoKey x02] /\
     exists k, NewKeyring [demoKey x02] (demoKey x01) = Ok k
     /\ GetPrimaryKey k = Some (demoKey x01)
     /\ (forall x, x ∈ GetKeys k <-> x = demoKey x01 \/ x ∈ [demoKey x02]))
  \/ (~ Forall validKey [demoKey x01; demoKey x02]
      /\ NewKeyring [demoKey x02] (demoKey x01) = Err ErrKeySize).
Proof. apply (NewKeyring_contents [demoKey x02] (demoKey x01)). discriminate. Defined.

(** On a well-formed ring, [UseKey] succeeds exactly on an installed key; it then
    makes that key primary and keeps the set of keys, the order of the others
    included. *)
Theorem UseKey_switches_primary (key : bytes) (k : Keyring) :
  wf k ->
  (key ∈ keys k /\ exists k', UseKey key k = Ok k' /\ GetPrimaryKey k' = Some key
     /\ Permutation (keys k') (keys k)
     /\ tail (keys k') = filter (fun x => x <> key) (keys k))
  \/ (key ∉ keys k /\ UseKey key k = Err ErrNotInRing).
Proof.
  intros [Hnd Hv]. unfold UseKey. destruct (installed key k) eqn:E.
  - apply installed_spec in E. left. split; [done|]. eexists. split_and!; try done.
    apply NoDup_Permutation; [by apply installKeys_NoDup|done|].
    intros x. rewrite elem_of_installKeys. naive_solver.
  - apply installed_false in E. by right.
Qed.

Lemma UseKey_switches_primary_witness :
  (demoKey x02 ∈ [demoKey x01; demoKey x02] /\
     exists k', UseKey (demoKey x02) {| keys := [demoKey x01; demoKey x02] |} = Ok k'
     /\ GetPrimaryKey k' = Some (demoKey x02)
     /\ Permutation (keys k') [demoKey x01; demoKey x02]
     /\ tail (keys k') = filter (fun x => x <> demoKey x02) [demoKey x01; demoKey x02])
  \/ (demoKey x02 ∉ [demoKey x01; demoKey x02]
      /\ UseKey (demoKey x02) {| keys := [demoKey x01; demoKey x02] |} = Err ErrNotInRing).
Proof.
  apply (UseKey_switches_primary (demoKey x02) {| keys := [demoKey x01; demoKey x02] |}).
  split.
  - apply NoDup_cons; split; [|apply NoDup_singleton].
    rewrite list_elem_of_singleton. discriminate.
  - repeat constructor.
Defined.

(** On a well-formed non-empty ring [RemoveKey] refuses the primary key and
    otherwise removes exactly the given key, keeping primary key and order; the
    in-place shift of the ranged array does not disturb the result. *)
Theorem RemoveKey_removes (key p : bytes) (ks : list bytes) :
  wf {| keys := p :: ks |} ->
  RemoveKey key {| keys := p :: ks |} =
    if bool_decide (key = p) then Ret (Err ErrRemovePrimary)
    else Ret (Ok {| keys := filter (fun x => x <> key) (p :: ks) |}).
Proof. intros [Hnd _]. by apply RemoveKey_spec. Qed.

Lemma RemoveKey_removes_witness :
  RemoveKey (demoKey x02) {| keys := [demoKey x01; demoKey x02; demoKey x03] |} =
    Ret (Ok {| keys := [demoKey x01; demoKey x03] |}).
Proof.
  rewrite (RemoveKey_removes (demoKey x02) (demoKey x01) [demoKey x02; demoKey x03]).
  - reflexivity.
  - split; [|repeat constructor]. apply (bool_decide_unpack _). vm_compute. exact I.
Defined.

(** A slice that [GetKeys] returned before a [RemoveKey] shares the array the call
    shifts: afterwards it shows the last key twice instead of the removed one. *)
Theorem RemoveKey_changes_returned_slice (p key q : bytes) (l1 l2 : list bytes) :
  NoDup (p :: l1 ++ key :: l2 ++ [q]) ->
  removeKeyStore key {| keys := p :: l1 ++ key :: l2 ++ [q] |} =
    Ret (Ok ({| keys := p :: l1 ++ l2 ++ [q] |}, p :: l1 ++ l2 ++ [q; q])).
Proof.
  intros Hnd. rewrite removeKeyStore_found by done. f_equal. f_equal. f_equal.
  f_equal. f_equal. rewrite <- app_assoc. f_equal. simpl.
  rewrite length_app, Nat.add_comm. simpl.
  rewrite drop_app_length. done.
Qed.

Lemma RemoveKey_changes_returned_slice_witness :
  removeKeyStore (demoKey x02) {| keys := [demoKey x01; demoKey x02; demoKey x03] |} =
    Ret (Ok ({| keys := [demoKey x01; demoKey x03] |},
             [demoKey x01; demoKey x03; demoKey x03])).
Proof.
  apply (RemoveKey_changes_returned_slice (demoKey x01) (demoKey x02) (demoKey x03) [] []).
  apply (bool_decide_unpack _). vm_compute. exact I.
Defined.

(** [RemoveKey] on an empty ring indexes [k.keys[0]]. *)
Lemma RemoveKey_empty_panics key :
  RemoveKey key init = Panic "index out of range [0] with length 0".
Proof. reflexivity. Qed.

End Keyring.
