(* ===== verification/GoFloat.v ===== *)
(** * Go floating point

    [float64] is IEEE binary64 with rounding to nearest even, taken from the
    Standard Library's executable [SpecFloat] at precision 53 and maximal
    exponent 1024. The functions of package [math] that memberlist calls are the
    portable ones of the Go distribution: [Log] is the FreeBSD reduction and
    polynomial, [Log2] and [Log10] go through [Frexp] and [Log]. Everything here
    computes, so numeric facts are checked by evaluation. *)

From Stdlib Require Import ZArith Lia Bool.
From Corelib Require Import SpecFloat.
From S2P Require Import Prelude.

Local Open Scope bool_scope.
Local Open Scope Z_scope.

Module GoFloat.

Abbreviation f64 := spec_float.

Definition fadd (x y : f64) : f64 := SFadd 53 1024 x y.
Definition fsub (x y : f64) : f64 := SFsub 53 1024 x y.
Definition fmul (x y : f64) : f64 := SFmul 53 1024 x y.
Definition fdiv (x y : f64) : f64 := SFdiv 53 1024 x y.
Definition flt (x y : f64) : bool := SFltb x y.
Definition feq (x y : f64) : bool := SFeqb x y.

(** The conversion [float64(z)] of an integer. *)
Definition fofZ (z : Z) : f64 := binary_normalize 53 1024 z 0 false.

Declare Scope f64_scope.
Delimit Scope f64_scope with f64.
Infix "+" := fadd : f64_scope.
Infix "-" := fsub : f64_scope.
Infix "*" := fmul : f64_scope.
Infix "/" := fdiv : f64_scope.

(** Constants, as mantissa and exponent of the nearest double. *)
Definition fconst (m : positive) (e : Z) : f64 := S754_finite false m e.

Definition f_half : f64 := fconst 4503599627370496 (-53).
Definition f_halfSqrt2 : f64 := fconst 6369051672525773 (-53).
Definition f_invLn2 : f64 := fconst 6497320848556798 (-52).
Definition f_Ln2_Ln10 : f64 := fconst 5422874305198591 (-54).
Definition f_Ln2Hi : f64 := fconst 6243314766446592 (-53).
Definition f_Ln2Lo : f64 := fconst 7382048951581814 (-85).
Definition f_L1 : f64 := fconst 6004799503160723 (-53).
Definition f_L2 : f64 := fconst 7205759403686404 (-54).
Definition f_L3 : f64 := fconst 5146971033736025 (-54).
Definition f_L4 : f64 := fconst 8006390766270639 (-55).
Definition f_L5 : f64 := fconst 6551322304906206 (-55).
Definition f_L6 : f64 := fconst 5517391500461727 (-55).
Definition f_L7 : f64 := fconst 5331612937900612 (-55).

(** Integer part towards zero, and towards minus infinity. *)
Definition ftruncZ (x : f64) : option Z :=
  match x with
  | S754_zero _ => Some 0
  | S754_finite s m e =>
      let a := if 0 <=? e then Z.pos m * 2 ^ e else Z.pos m / 2 ^ (- e) in
      Some (if s then - a else a)
  | _ => None
  end.

Definition ffloorZ (x : f64) : option Z :=
  match x with
  | S754_zero _ => Some 0
  | S754_finite s m e =>
      let sm := if s then Z.neg m else Z.pos m in
      Some (if 0 <=? e then sm * 2 ^ e else sm / 2 ^ (- e))
  | _ => None
  end.

(** [math.Floor] and [math.Ceil]. *)
Definition mathFloor (x : f64) : f64 :=
  match ffloorZ x with
  | Some z => fofZ z
  | None => x
  end.

Definition mathCeil (x : f64) : f64 :=
  match ffloorZ (SFopp x) with
  | Some z => fofZ (- z)
  | None => x
  end.

(** [math.Max]. *)
Definition mathMax (x y : f64) : f64 :=
  match x, y with
  | S754_infinity false, _ | _, S754_infinity false => S754_infinity false
  | S754_nan, _ | _, S754_nan => S754_nan
  | S754_zero true, S754_zero _ => y
  | _, _ => if flt y x then x else y
  end.

(** The conversion of a [float64] to a 64-bit integer: truncation; the value
    amd64 gives for what does not fit. *)
Definition i64_of_f64 (x : f64) : Z :=
  match ftruncZ x with
  | Some z => if (minI64 <=? z) && (z <=? maxI64) then z else minI64
  | None => minI64
  end.

(** [math.Frexp]: a fraction in [[1/2, 1)] and the exponent. *)
Definition mathFrexp (x : f64) : f64 * Z :=
  match x with
  | S754_finite _ _ _ => SFfrexp 53 1024 x
  | _ => (x, 0)
  end.

Definition mathLog (x : f64) : f64 :=
  match x with
  | S754_nan | S754_infinity false => x
  | S754_infinity true | S754_finite true _ _ => S754_nan
  | S754_zero _ => S754_infinity true
  | _ =>
      let '(f1, ki) := mathFrexp x in
      let '(f1, ki) := if flt f1 f_halfSqrt2 then (fmul f1 (fofZ 2), ki - 1) else (f1, ki) in
      let f := fsub f1 (fofZ 1) in
      let k := fofZ ki in
      let s := fdiv f (fadd (fofZ 2) f) in
      let s2 := fmul s s in
      let s4 := fmul s2 s2 in
      (let t1 := s2 * (f_L1 + s4 * (f_L3 + s4 * (f_L5 + s4 * f_L7))) in
       let t2 := s4 * (f_L2 + s4 * (f_L4 + s4 * f_L6)) in
       let R := t1 + t2 in
       let hfsq := f_half * f * f in
       k * f_Ln2Hi - ((hfsq - (s * (hfsq + R) + k * f_Ln2Lo)) - f))%f64
  end.

Definition mathLog2 (x : f64) : f64 :=
  let '(frac, exp) := mathFrexp x in
  if feq frac f_half then fofZ (exp - 1)
  else (mathLog frac * f_invLn2 + fofZ exp)%f64.

Definition mathLog10 (x : f64) : f64 := (mathLog2 x * f_Ln2_Ln10)%f64.

(** [Duration.Seconds]: whole seconds plus the fraction. *)
Definition durationSeconds (d : duration) : f64 :=
  (fofZ (goDiv d nsSecond) + fofZ (goMod d nsSecond) / fofZ 1000000000)%f64.

End GoFloat.
