(* ===== verification/Timing.v ===== *)
(** * Scaling with the cluster size (util.go)

    The functions that turn the number of nodes into a retransmission limit, a
    suspicion timeout and a push/pull interval. They compute in [float64] and
    truncate to integers; the model computes the same bits, so the theorems
    compare the float code with an integer specification by evaluation, for
    every cluster size up to a bound. *)

From Stdlib Require Import ZArith Lia Bool.
From Corelib Require Import SpecFloat.
From stdpp Require Import tactics base numbers list.
From S2P Require Import Prelude GoFloat.
Import GoFloat.

Local Open Scope bool_scope.
Local Open Scope Z_scope.

Module Timing.

Definition pushPullScaleThreshold : Z := 32.

(** [randomOffset]: [r] is the value of [rand.Uint32()]. *)
Definition randomOffset (r n : Z) : Z := if n =? 0 then 0 else r mod u32 n.

(** [nodeScale*1000] truncated to an integer. *)
Definition suspicionNodeScale (n : Z) : Z :=
  let nodeScale := mathMax (fofZ 1) (mathLog10 (mathMax (fofZ 1) (fofZ n))) in
  i64_of_f64 (nodeScale * fofZ 1000)%f64.

Definition suspicionTimeout (suspicionMult n : Z) (interval : duration) : duration :=
  goDiv (i64 (i64 (suspicionMult * suspicionNodeScale n) * interval)) 1000.

(** [math.Ceil(math.Log10(float64(n + 1)))] as an integer. *)
Definition retransmitNodeScale (n : Z) : Z :=
  i64_of_f64 (mathCeil (mathLog10 (fofZ (i64 (n + 1))))).

Definition retransmitLimit (retransmitMult n : Z) : Z :=
  i64 (retransmitMult * retransmitNodeScale n).

(** [math.Ceil(math.Log2(n) - math.Log2(32)) + 1.0] as an integer. *)
Definition pushPullMultiplier (n : Z) : Z :=
  i64_of_f64 (mathCeil (mathLog2 (fofZ n) - mathLog2 (fofZ pushPullScaleThreshold)) + fofZ 1)%f64.

Definition pushPullScale (interval : duration) (n : Z) : duration :=
  if n <=? pushPullScaleThreshold then interval
  else i64 (pushPullMultiplier n * interval).

(** ** Integer specifications, checked by evaluation *)

(** [s] is the ceiling of the decimal logarithm of [m]. *)
Definition isCeilLog10 (m s : Z) : bool :=
  (0 <=? s) && (m <=? 10 ^ s) && ((s =? 0) || (10 ^ (s - 1) <? m)).

(** [32 * 2^(k-2) < n <= 32 * 2^(k-1)]. *)
Definition isPushPullMultiplier (n k : Z) : bool :=
  (2 <=? k) && (32 * 2 ^ (k - 2) <? n) && (n <=? 32 * 2 ^ (k - 1)).

Lemma retransmit_check :
  checkFrom 0 1001 (fun n => isCeilLog10 (n + 1) (retransmitNodeScale n)) = true.
Proof. vm_compute. reflexivity. Qed.

Lemma pushPull_check :
  checkFrom 33 992 (fun n => isPushPullMultiplier n (pushPullMultiplier n)) = true.
Proof. vm_compute. reflexivity. Qed.

(** The scale is 1000 up to ten nodes, then it grows with the cluster and
    reaches 3000 at a thousand nodes. *)
Fixpoint scaleGrows (prev n : Z) (k : nat) : bool :=
  match k with
  | O => prev <=? 3000
  | S k' =>
      let s := suspicionNodeScale n in
      (if n <=? 10 then s =? 1000 else true) && (prev <=? s) && scaleGrows s (n + 1) k'
  end.

Lemma suspicion_check : scaleGrows 1000 0 1001 = true.
Proof. vm_compute. reflexivity. Qed.

Lemma scaleGrows_sound prev lo k :
  scaleGrows prev lo k = true ->
  prev <= 3000 /\
  (forall n, lo <= n < lo + Z.of_nat k ->
     prev <= suspicionNodeScale n <= 3000 /\ (n <= 10 -> suspicionNodeScale n = 1000)) /\
  (forall n m, lo <= n <= m -> m < lo + Z.of_nat k ->
     suspicionNodeScale n <= suspicionNodeScale m).
Proof.
  revert prev lo. induction k as [|k IH]; intros prev lo Hc; cbn [scaleGrows] in Hc.
  { apply Z.leb_le in Hc. split; [done|]. split; intros; lia. }
  rewrite !andb_true_iff in Hc. destruct Hc as [[H10 Hle] Hc]. apply Z.leb_le in Hle.
  destruct (IH _ _ Hc) as (Hp & Hn & Hm). split; [lia|]. split.
  - intros n Hr. destruct (Z.eq_dec n lo) as [->|].
    + split; [lia|]. intros Hl. apply Z.leb_le in Hl. rewrite Hl in H10. by apply Z.eqb_eq in H10.
    + destruct (Hn n) as [? ?]; [lia|]. split; [lia|done].
  - intros n m Hr Hm'. destruct (Z.eq_dec n m) as [->|]; [lia|].
    destruct (Z.eq_dec n lo) as [->|]; [|apply Hm; lia].
    destruct (Hn m) as [? ?]; lia.
Qed.

(** For every cluster of up to a thousand nodes the retransmission limit is
    exactly the multiplier times the ceiling of the decimal logarithm of [n + 1]:
    the float computation never lands on the wrong side of a power of ten. *)
Theorem retransmitLimit_exact (mult n : Z) :
  0 <= n <= 1000 ->
  exists s, retransmitLimit mult n = i64 (mult * s)
            /\ 0 <= s /\ n + 1 <= 10 ^ s /\ (s = 0 \/ 10 ^ (s - 1) < n + 1).
Proof.
  intros Hn. exists (retransmitNodeScale n). split; [reflexivity|].
  pose proof (checkFrom_sound _ _ _ retransmit_check n ltac:(lia)) as Hc.
  unfold isCeilLog10 in Hc. rewrite !andb_true_iff, orb_true_iff in Hc.
  destruct Hc as [[H0 H1] H2]. apply Z.leb_le in H0, H1.
  rewrite Z.eqb_eq, Z.ltb_lt in H2. auto.
Qed.

Lemma retransmitLimit_exact_witness :
  exists s, retransmitLimit 4 99 = i64 (4 * s)
            /\ 0 <= s /\ 99 + 1 <= 10 ^ s /\ (s = 0 \/ 10 ^ (s - 1) < 99 + 1).
Proof. apply (retransmitLimit_exact 4 99). lia. Defined.

(** The push/pull interval is unscaled up to 32 nodes; above, up to 1024 nodes,
    the multiplier [k] is the one with [32*2^(k-2) < n <= 32*2^(k-1)], so the 33rd
    node doubles the interval and the 65th triples it. *)
Theorem pushPullScale_exact (interval n : Z) :
  n <= 1024 ->
  (n <= 32 /\ pushPullScale interval n = interval)
  \/ (32 < n /\ exists k, pushPullScale interval n = i64 (k * interval)
        /\ 2 <= k /\ 32 * 2 ^ (k - 2) < n <= 32 * 2 ^ (k - 1)).
Proof.
  intros Hn. unfold pushPullScale, pushPullScaleThreshold.
  destruct (Z.leb_spec n 32); [by left|]. right. split; [done|].
  exists (pushPullMultiplier n). split; [reflexivity|].
  pose proof (checkFrom_sound _ _ _ pushPull_check n ltac:(lia)) as Hc.
  unfold isPushPullMultiplier in Hc. rewrite !andb_true_iff in Hc.
  destruct Hc as [[H0 H1] H2]. apply Z.leb_le in H0, H2. apply Z.ltb_lt in H1. auto.
Qed.

Lemma pushPullScale_exact_witness :
  (65 <= 32 /\ pushPullScale nsSecond 65 = nsSecond)
  \/ (32 < 65 /\ exists k, pushPullScale nsSecond 65 = i64 (k * nsSecond)
        /\ 2 <= k /\ 32 * 2 ^ (k - 2) < 65 <= 32 * 2 ^ (k - 1)).
Proof. apply (pushPullScale_exact nsSecond 65). lia. Defined.

Lemma suspicionTimeout_unfold mult n interval :
  0 <= n <= 1000 -> 0 <= mult -> 0 <= interval -> mult * 3000 * interval <= maxI64 ->
  suspicionTimeout mult n interval = mult * suspicionNodeScale n * interval / 1000
  /\ 1000 <= suspicionNodeScale n <= 3000.
Proof.
  intros Hn Hm Hi Hmax.
  destruct (scaleGrows_sound _ _ _ suspicion_check) as (_ & Hs & _).
  destruct (Hs n ltac:(lia)) as [Hr _]. split; [|lia].
  unfold suspicionTimeout, goDiv.
  destruct (Z.eq_dec interval 0) as [->|Hi0].
  { rewrite !Z.mul_0_r. reflexivity. }
  rewrite (i64_small (mult * _)) by (unfold minI64, maxI64 in *; nia).
  rewrite i64_small by (unfold minI64, maxI64 in *; nia).
  apply Z.quot_div_nonneg; nia.
Qed.

(** For clusters of up to a thousand nodes (and no [int64] overflow) the suspicion
    timeout is at least the multiplier times the probe interval, equals it up to
    ten nodes, never exceeds three times it, and does not shrink when the cluster
    grows. *)
Theorem suspicionTimeout_bounds (mult n m interval : Z) :
  0 <= n <= m -> m <= 1000 -> 0 <= mult -> 0 <= interval ->
  mult * 3000 * interval <= maxI64 ->
  mult * interval <= suspicionTimeout mult n interval <= 3 * mult * interval
  /\ (n <= 10 -> suspicionTimeout mult n interval = mult * interval)
  /\ suspicionTimeout mult n interval <= suspicionTimeout mult m interval.
Proof.
  intros Hn Hm Hmult Hi Hmax.
  destruct (suspicionTimeout_unfold mult n interval) as [En Rn]; [lia..|].
  destruct (suspicionTimeout_unfold mult m interval) as [Em Rm]; [lia..|].
  destruct (scaleGrows_sound _ _ _ suspicion_check) as (_ & Hs & Hmono).
  pose proof (Hmono n m ltac:(lia) ltac:(lia)) as Hle.
  rewrite En, Em. assert (0 <= mult * interval) as Hp by nia.
  assert (forall s, mult * s * interval = (mult * interval) * s) as Hcomm by (intros; ring).
  rewrite !Hcomm. split; [|split].
  - split; [apply Z.div_le_lower_bound; nia|apply Z.div_le_upper_bound; nia].
  - intros H10. destruct (Hs n ltac:(lia)) as [_ H]. rewrite (H H10).
    apply Z.div_mul. lia.
  - apply Z.div_le_mono; nia.
Qed.

Lemma suspicionTimeout_bounds_witness :
  4 * nsSecond <= suspicionTimeout 4 50 nsSecond <= 3 * 4 * nsSecond
  /\ (50 <= 10 -> suspicionTimeout 4 50 nsSecond = 4 * nsSecond)
  /\ suspicionTimeout 4 50 nsSecond <= suspicionTimeout 4 500 nsSecond.
Proof. apply (suspicionTimeout_bounds 4 50 500 nsSecond); unfold nsSecond, maxI64; lia. Defined.

(** The code scales with the logarithm of [N] itself, not of [N+1]: at 99 nodes
    the factor is 1.995, where the formula in the configuration's comment gives
    2. *)
Lemma suspicionTimeout_99 : suspicionTimeout 1 99 nsSecond = 1995000000.
Proof. vm_compute. reflexivity. Qed.

(** [randomOffset] always returns a valid index of a non-empty slice. *)
Theorem randomOffset_in_range (r n : Z) :
  0 <= r -> 0 < n <= maxU32 -> 0 <= randomOffset r n < n.
Proof.
  intros Hr Hn. unfold randomOffset. rewrite u32_small by lia.
  destruct (Z.eqb_spec n 0); [lia|]. apply Z.mod_pos_bound. lia.
Qed.

Lemma randomOffset_in_range_witness : 0 <= randomOffset 12345 7 < 7.
Proof. apply (randomOffset_in_range 12345 7); unfold maxU32; lia. Defined.

End Timing.
