(* ===== verification/Compound.v ===== *)
(** * Compound messages and checksums (util.go, net.go)

    Several messages packed behind one header: the type byte, a one-byte count,
    a two-byte big-endian length per message, then the bodies. Also the message
    type bytes of net.go and the CRC-32 of [hash/crc32] that protects packets. *)

From Stdlib Require Import ZArith Lia Strings.Byte.
From stdpp Require Import tactics base numbers strings gmap list.
From S2P Require Import Prelude.

Local Open Scope Z_scope.

Module Compound.

(** ** Message types *)

(** [messageType], numbered by [iota]. *)
Definition pingMsg : Z := 0.
Definition indirectPingMsg : Z := 1.
Definition ackRespMsg : Z := 2.
Definition suspectMsg : Z := 3.
Definition aliveMsg : Z := 4.
Definition deadMsg : Z := 5.
Definition pushPullMsg : Z := 6.
Definition compoundMsg : Z := 7.
Definition userMsg : Z := 8.
Definition compressMsg : Z := 9.
Definition encryptMsg : Z := 10.
Definition nackRespMsg : Z := 11.
Definition hasCrcMsg : Z := 12.
Definition errMsg : Z := 13.
Definition hasLabelMsg : Z := 244.

Definition compoundHeaderOverhead : Z := 2.
Definition compoundOverhead : Z := 2.
Definition userMsgOverhead : Z := 1.

(** ** Compound messages *)

(** [makeCompoundMessage]: the count is truncated to a byte and every length to
    sixteen bits, as the conversions [uint8(len(msgs))] and [uint16(len(m))] do. *)
Definition makeCompoundMessage (msgs : list bytes) : bytes :=
  byte_of_Z compoundMsg
  :: byte_of_Z (u8 (Z.of_nat (length msgs)))
  :: concat (map (fun m => putBE16 (u16 (blen m))) msgs)
  ++ concat msgs.

Definition maxMsgs : nat := 255.

(** The loop of [makeCompoundMessages]; [fuel] bounds the iterations, and the
    number of messages is enough since each one consumes 255 of them. *)
Fixpoint makeCompoundMessagesLoop (fuel : nat) (msgs : list bytes) (bufs : list bytes) : list bytes :=
  match fuel with
  | O => bufs
  | S fuel' =>
      if bool_decide (maxMsgs < length msgs)%nat then
        makeCompoundMessagesLoop fuel' (drop maxMsgs msgs)
          (bufs ++ [makeCompoundMessage (take maxMsgs msgs)])
      else
        if bool_decide (0 < length msgs)%nat then bufs ++ [makeCompoundMessage msgs] else bufs
  end.

Definition makeCompoundMessages (msgs : list bytes) : list bytes :=
  makeCompoundMessagesLoop (S (length msgs)) msgs [].

Inductive compoundErr :=
| ErrMissingLength
| ErrTruncatedLen.

(** [lengths[i] = Uint16(buf[i*2 : i*2+2])] for [numParts] entries. *)
Fixpoint readLengths (numParts : nat) (buf : bytes) : list Z :=
  match numParts, buf with
  | S n, a :: b :: rest => getBE16 a b :: readLengths n rest
  | _, _ => []
  end.

(** The loop that splits the body: stop at the first part that is cut short and
    report how many are missing. *)
Fixpoint splitParts (lengths : list Z) (buf : bytes) (parts : list bytes) : Z * list bytes :=
  match lengths with
  | [] => (0, parts)
  | msgLen :: rest =>
      if blen buf <? msgLen then (Z.of_nat (length lengths), parts)
      else splitParts rest (drop (Z.to_nat msgLen) buf) (parts ++ [take (Z.to_nat msgLen) buf])
  end.

(** [decodeCompoundMessage]: the number of truncated messages and the parts. *)
Definition decodeCompoundMessage (buf : bytes) : res compoundErr (Z * list bytes) :=
  match buf with
  | [] => Err ErrMissingLength
  | b0 :: buf =>
      let numParts := Z_of_byte b0 in
      if blen buf <? numParts * 2 then Err ErrTruncatedLen
      else
        let lengths := readLengths (Z.to_nat numParts) buf in
        Ok (splitParts lengths (drop (Z.to_nat (numParts * 2)) buf) [])
  end.

(** ** CRC-32 (IEEE, reflected) *)

Fixpoint crcBits (n : nat) (c : Z) : Z :=
  match n with
  | O => c
  | S n' => crcBits n' (if Z.odd c then Z.lxor (Z.shiftr c 1) 0xEDB88320 else Z.shiftr c 1)
  end.

Definition crcByte (c : Z) (b : byte) : Z := crcBits 8 (Z.lxor c (Z_of_byte b)).

Definition checksumIEEE (data : bytes) : Z :=
  Z.lxor (fold_left crcByte data 0xFFFFFFFF) 0xFFFFFFFF.

(** The checksum of the nine digits, the usual test vector. *)
Example checksum_123456789 :
  checksumIEEE (bytes_of_string "123456789") = 0xCBF43926.
Proof. vm_compute. reflexivity. Qed.

(** ** Lemmas *)

Lemma lxor_range n a b : 0 < n -> 0 <= a < 2 ^ n -> 0 <= b < 2 ^ n -> 0 <= Z.lxor a b < 2 ^ n.
Proof.
  intros Hn Ha Hb. assert (0 <= Z.lxor a b) by (apply Z.lxor_nonneg; lia). split; [done|].
  destruct (Z.eq_dec (Z.lxor a b) 0) as [->|]; [lia|].
  apply Z.log2_lt_pow2; [lia|]. eapply Z.le_lt_trans; [apply Z.log2_lxor; lia|].
  assert (Hl : forall x, 0 <= x < 2 ^ n -> Z.log2 x < n).
  { intros x Hx. destruct (Z.eq_dec x 0) as [->|]; [done|]. apply Z.log2_lt_pow2; lia. }
  pose proof (Hl a Ha). pose proof (Hl b Hb). lia.
Qed.

Lemma crcBits_range n c : 0 <= c < 2 ^ 32 -> 0 <= crcBits n c < 2 ^ 32.
Proof.
  revert c. induction n as [|n IH]; intros c Hc; [done|]. cbn [crcBits]. apply IH.
  assert (0 <= Z.shiftr c 1 < 2 ^ 32)
    by (rewrite Z.shiftr_div_pow2 by lia; split; [apply Z.div_pos|apply Z.div_lt_upper_bound]; lia).
  case_match; [|done]. apply lxor_range; [done|done|split; [done|reflexivity]].
Qed.

Lemma checksum_range data : 0 <= checksumIEEE data < 2 ^ 32.
Proof.
  unfold checksumIEEE. apply lxor_range; [done| |split; [done|reflexivity]].
  assert (H : 0 <= 0xFFFFFFFF < 2 ^ 32) by (split; [done|reflexivity]). revert H.
  generalize 0xFFFFFFFF. induction data as [|b data IH]; intros c Hc; [done|]. simpl. apply IH, crcBits_range.
  apply lxor_range; [done|done|]. pose proof (Z_of_byte_range b). lia.
Qed.

(** What fits a compound message: lengths below 2^16. *)
Definition partsFit (msgs : list bytes) : Prop := Forall (fun m => blen m < 2 ^ 16) msgs.

Lemma concat_lengths_length msgs :
  length (concat (map (fun m => putBE16 (u16 (blen m))) msgs)) = (2 * length msgs)%nat.
Proof.
  induction msgs as [|m msgs IH]; [done|].
  change (concat (map ?f (m :: msgs))) with (f m ++ concat (map f msgs)).
  rewrite length_app, IH. simpl. lia.
Qed.

Lemma readLengths_map msgs rest :
  partsFit msgs ->
  readLengths (length msgs) (concat (map (fun m => putBE16 (u16 (blen m))) msgs) ++ rest)
  = map blen msgs.
Proof.
  induction 1 as [|m msgs Hm Hms IH]; [done|].
  cbn [length map concat putBE16 readLengths app]. f_equal; [|exact IH].
  rewrite u16_small by (split; [apply blen_nonneg|done]).
  apply (getBE16_put (blen m)); [|reflexivity]. split; [apply blen_nonneg|done].
Qed.

Lemma splitParts_acc lengths buf parts :
  splitParts lengths buf parts =
    let '(t, ps) := splitParts lengths buf [] in (t, parts ++ ps).
Proof.
  revert buf parts. induction lengths as [|l ls IH]; intros buf parts; cbn [splitParts].
  { by rewrite app_nil_r. }
  destruct (blen buf <? l); [by rewrite app_nil_r|].
  rewrite IH, (IH _ ([] ++ _)). destruct (splitParts _ _ []) as [t ps].
  by rewrite <- app_assoc.
Qed.

Lemma splitParts_concat msgs rest :
  splitParts (map blen msgs) (concat msgs ++ rest) [] = (0, msgs).
Proof.
  revert rest. induction msgs as [|m msgs IH]; intros rest; [done|].
  cbn [map splitParts concat]. rewrite <- app_assoc.
  assert (Z.to_nat (blen m) = length m) as Hlen by (unfold blen; lia).
  destruct (Z.ltb_spec (blen (m ++ concat msgs ++ rest)) (blen m)) as [Hlt|_].
  { rewrite blen_app in Hlt. pose proof (blen_nonneg (concat msgs ++ rest)). lia. }
  rewrite Hlen, take_app_length, drop_app_length, splitParts_acc, IH. done.
Qed.

(** Decoding what was encoded, with the number of messages within a byte. *)
Lemma decode_make msgs :
  (length msgs <= 255)%nat -> partsFit msgs ->
  decodeCompoundMessage (tail (makeCompoundMessage msgs)) = Ok (0, msgs).
Proof.
  intros Hn Hfit. cbn [makeCompoundMessage tail decodeCompoundMessage].
  set (lens := concat (map (fun m => putBE16 (u16 (blen m))) msgs)).
  assert (Z_of_byte (byte_of_Z (u8 (Z.of_nat (length msgs)))) = Z.of_nat (length msgs)) as ->.
  { rewrite Z_of_byte_of_Z. unfold u8, wrapU. change (2 ^ 8) with 256.
    rewrite Z.mod_mod by lia. apply Z.mod_small. lia. }
  assert (length lens = (2 * length msgs)%nat) as Hl by apply concat_lengths_length.
  destruct (Z.ltb_spec (blen (lens ++ concat msgs)) (Z.of_nat (length msgs) * 2)) as [Hlt|_].
  { unfold blen in Hlt. rewrite length_app in Hlt. lia. }
  rewrite Nat2Z.id. replace (Z.to_nat (Z.of_nat (length msgs) * 2)) with (length lens) by lia.
  rewrite drop_app_length. unfold lens. rewrite readLengths_map by done.
  rewrite <- (app_nil_r (concat msgs)) at 1. by rewrite splitParts_concat.
Qed.

Lemma makeCompoundMessagesLoop_acc fuel msgs bufs :
  makeCompoundMessagesLoop fuel msgs bufs = bufs ++ makeCompoundMessagesLoop fuel msgs [].
Proof.
  revert msgs bufs. induction fuel as [|fuel IH]; intros msgs bufs; cbn [makeCompoundMessagesLoop].
  { by rewrite app_nil_r. }
  case_bool_decide.
  - rewrite IH, (IH _ ([] ++ _)), app_nil_l, <- app_assoc. done.
  - case_bool_decide; [done|]. by rewrite app_nil_r.
Qed.

(** The chunks the loop cuts the list into. *)
Lemma makeCompoundMessagesLoop_chunks fuel msgs :
  (length msgs < fuel)%nat ->
  exists chunks, makeCompoundMessagesLoop fuel msgs [] = map makeCompoundMessage chunks
    /\ concat chunks = msgs
    /\ Forall (fun c => (1 <= length c <= 255)%nat) chunks.
Proof.
  revert msgs. induction fuel as [|fuel IH]; intros msgs Hf; [lia|].
  cbn [makeCompoundMessagesLoop]. case_bool_decide as Hgt.
  - destruct (IH (drop maxMsgs msgs)) as (cs & Hcs & Hcat & Hall).
    { rewrite length_drop. unfold maxMsgs in *. lia. }
    exists (take maxMsgs msgs :: cs). rewrite makeCompoundMessagesLoop_acc, Hcs.
    split_and!; [done| |].
    + cbn [concat]. by rewrite Hcat, take_drop.
    + constructor; [|done]. rewrite length_take. unfold maxMsgs in *. lia.
  - case_bool_decide as H0.
    + exists [msgs]. split_and!; [done|apply app_nil_r|].
      constructor; [|done]. unfold maxMsgs in *. lia.
    + exists []. destruct msgs; [done|]. simpl in H0. lia.
Qed.

Lemma splitParts_spec lengths buf :
  Forall (fun l => 0 <= l) lengths ->
  let '(t, ps) := splitParts lengths buf [] in
  t + Z.of_nat (length ps) = Z.of_nat (length lengths)
  /\ map blen ps = take (length ps) lengths
  /\ exists rest, buf = concat ps ++ rest /\
       (t <> 0 -> exists l, lengths !! length ps = Some l /\ blen rest < l).
Proof.
  intros Hl. revert buf. induction Hl as [|l ls Hl0 Hls IH]; intros buf; cbn [splitParts].
  { split_and!; [done|done|]. by exists buf. }
  destruct (Z.ltb_spec (blen buf) l) as [Hlt|Hge].
  { split_and!; [simpl; lia|done|]. exists buf. split; [done|]. intros _. by exists l. }
  rewrite splitParts_acc. specialize (IH (drop (Z.to_nat l) buf)).
  destruct (splitParts ls (drop (Z.to_nat l) buf) []) as [t ps].
  destruct IH as (Hsum & Hmap & rest & Hbuf & Hrest).
  assert (blen (take (Z.to_nat l) buf) = l) as Htl.
  { unfold blen in *. rewrite length_take. lia. }
  split_and!.
  - cbn [length app]. lia.
  - cbn [app map length take]. by rewrite Htl, Hmap.
  - exists rest. split; [|by intros Ht; destruct (Hrest Ht) as (l' & ? & ?); exists l'].
    cbn [concat app]. rewrite <- app_assoc, <- Hbuf. by rewrite take_drop.
Qed.

Lemma readLengths_length n buf :
  (2 * n <= length buf)%nat -> length (readLengths n buf) = n.
Proof.
  revert buf. induction n as [|n IH]; intros buf Hn; [done|].
  destruct buf as [|a [|b buf]]; simpl in *; try lia. rewrite IH; lia.
Qed.

Lemma readLengths_nonneg n buf : Forall (fun l => 0 <= l < 2 ^ 16) (readLengths n buf).
Proof.
  revert buf. induction n as [|n IH]; intros buf; [constructor|].
  destruct buf as [|a [|b buf]]; [constructor..|]. cbn [readLengths]. constructor; [|auto].
  unfold getBE16. pose proof (Z_of_byte_range a). pose proof (Z_of_byte_range b). lia.
Qed.

(** ** Properties *)

(** A compound message of at most 255 messages, each shorter than 65536 bytes,
    decodes to exactly those messages, in order, with nothing truncated. *)
Theorem compound_roundtrip (msgs : list bytes) :
  (length msgs <= 255)%nat -> partsFit msgs ->
  decodeCompoundMessage (tail (makeCompoundMessage msgs)) = Ok (0, msgs)
  /\ head (makeCompoundMessage msgs) = Some (byte_of_Z compoundMsg).
Proof. intros Hn Hfit. split; [by apply decode_make|done]. Qed.

Lemma compound_roundtrip_witness :
  decodeCompoundMessage (tail (makeCompoundMessage [[x01; x02]; []; [x03]]))
    = Ok (0, [[x01; x02]; []; [x03]])
  /\ head (makeCompoundMessage [[x01; x02]; []; [x03]]) = Some (byte_of_Z compoundMsg).
Proof.
  apply (compound_roundtrip [[x01; x02]; []; [x03]]); [simpl; lia|].
  repeat constructor.
Defined.

(** [makeCompoundMessages] packs any number of messages (each shorter than 65536
    bytes): every buffer holds between 1 and 255 of them and decodes without
    truncation, and the decoded parts of all buffers, concatenated, are the
    messages in order. *)
Theorem compounds_roundtrip (msgs : list bytes) :
  partsFit msgs ->
  exists chunks,
    Forall2 (fun buf chunk => decodeCompoundMessage (tail buf) = Ok (0, chunk))
      (makeCompoundMessages msgs) chunks
    /\ concat chunks = msgs
    /\ Forall (fun c => (1 <= length c <= 255)%nat) chunks.
Proof.
  intros Hfit.
  destruct (makeCompoundMessagesLoop_chunks (S (length msgs)) msgs) as (cs & Hcs & Hcat & Hall);
    [lia|].
  exists cs. split_and!; [|done|done].
  unfold makeCompoundMessages. rewrite Hcs. apply Forall2_fmap_l, Forall_Forall2_diag.
  apply Forall_forall. intros c Hc. apply decode_make.
  - rewrite Forall_forall in Hall. destruct (Hall c Hc). lia.
  - unfold partsFit in *. rewrite Forall_forall in Hfit |- *. intros m Hm. apply Hfit.
    rewrite <- Hcat. apply list_elem_of_In, in_concat. exists c.
    split; by apply list_elem_of_In.
Qed.

Lemma compounds_roundtrip_witness :
  exists chunks,
    Forall2 (fun buf chunk => decodeCompoundMessage (tail buf) = Ok (0, chunk))
      (makeCompoundMessages (replicate 300 [x05])) chunks
    /\ concat chunks = replicate 300 [x05]
    /\ Forall (fun c => (1 <= length c <= 255)%nat) chunks.
Proof. apply (compounds_roundtrip (replicate 300 [x05])). by apply Forall_replicate. Defined.

(** On every input, [decodeCompoundMessage] either reports a missing count or a
    cut length table, or returns parts of exactly the declared lengths that form a
    prefix of the body; the parts and the truncated count add up to the declared
    number, and decoding stops only at a part the body cannot fill. *)
Theorem decodeCompound_total (buf : bytes) :
  (buf = [] /\ decodeCompoundMessage buf = Err ErrMissingLength)
  \/ (exists b0 rest, buf = b0 :: rest /\
       ((blen rest < 2 * Z_of_byte b0 /\ decodeCompoundMessage buf = Err ErrTruncatedLen)
        \/ exists trunc parts tailBytes lengths,
             decodeCompoundMessage buf = Ok (trunc, parts)
             /\ lengths = readLengths (Z.to_nat (Z_of_byte b0)) rest
             /\ trunc + Z.of_nat (length parts) = Z_of_byte b0
             /\ map blen parts = take (length parts) lengths
             /\ drop (Z.to_nat (Z_of_byte b0 * 2)) rest = concat parts ++ tailBytes
             /\ (trunc <> 0 -> exists l, lengths !! length parts = Some l /\ blen tailBytes < l))).
Proof.
  destruct buf as [|b0 rest]; [by left|right]. exists b0, rest. split; [done|].
  cbn [decodeCompoundMessage].
  destruct (Z.ltb_spec (blen rest) (Z_of_byte b0 * 2)) as [Hlt|Hge]; [left; split; [lia|done]|right].
  pose proof (Z_of_byte_range b0) as Hb.
  pose proof (readLengths_nonneg (Z.to_nat (Z_of_byte b0)) rest) as Hnn.
  pose proof (splitParts_spec (readLengths (Z.to_nat (Z_of_byte b0)) rest)
                (drop (Z.to_nat (Z_of_byte b0 * 2)) rest)) as Hs.
  destruct (splitParts _ _ []) as [t ps].
  destruct Hs as (Hsum & Hmap & tl & Hbuf & Hrest).
  { eapply Forall_impl; [exact Hnn|]. simpl. lia. }
  exists t, ps, tl, (readLengths (Z.to_nat (Z_of_byte b0)) rest). split_and!; try done.
  rewrite Hsum, readLengths_length; unfold blen in *; lia.
Qed.

(** The count is one byte, so a compound message of 256 messages decodes to no
    message at all; only [makeCompoundMessages] splits such a batch. *)
Theorem compound_256_lost (msgs : list bytes) :
  length msgs = 256%nat ->
  decodeCompoundMessage (tail (makeCompoundMessage msgs)) = Ok (0, []).
Proof.
  intros Hn. cbn [makeCompoundMessage tail decodeCompoundMessage]. rewrite Hn.
  change (Z_of_byte (byte_of_Z (u8 (Z.of_nat 256)))) with 0.
  destruct (Z.ltb_spec (blen (concat (map (fun m => putBE16 (u16 (blen m))) msgs) ++ concat msgs))
              (0 * 2)) as [Hlt|_]; [|done].
  pose proof (blen_nonneg (concat (map (fun m => putBE16 (u16 (blen m))) msgs) ++ concat msgs)).
  lia.
Qed.

Lemma compound_256_lost_witness :
  decodeCompoundMessage (tail (makeCompoundMessage (replicate 256 [x08; x41]))) = Ok (0, []).
Proof. apply (compound_256_lost (replicate 256 [x08; x41])). reflexivity. Defined.

End Compound.
