(* ===== verification/Label.v ===== *)
(** * Packet and stream labels (label.go, peeked_conn.go)

    A label header is the byte 244, a one-byte length and the label. Packets are
    byte strings. A stream is what successive [Read] calls on the connection
    deliver: a list of chunks, cut to the caller's buffer, then a final error.
    [bufio.Reader] and its [Peek] are modelled on that, with the default buffer
    of 4096 bytes, so that the header code is checked for every way the network
    may fragment the stream. *)

From Stdlib Require Import ZArith Lia Strings.Byte.
From stdpp Require Import tactics base numbers strings gmap list.
From S2P Require Import Prelude Compound.
Import Compound.

Local Open Scope Z_scope.

Module Label.

Definition LabelMaxSize : Z := 255.

Definition slen (s : string) : Z := Z.of_nat (String.length s).

Inductive labelErr :=
| ErrLabelTooLong (label : string)
| ErrPacketTruncated
| ErrLabelEmpty
| ErrStreamTruncated
| ErrRead (e : string).

(** ** Packets *)

Definition makeLabelHeader (label : string) (rest : bytes) : bytes :=
  byte_of_Z hasLabelMsg :: byte_of_Z (slen label) :: bytes_of_string label ++ rest.

Definition labelOverhead (label : string) : Z :=
  if bool_decide (label = EmptyString) then 0 else 2 + slen label.

Definition AddLabelHeaderToPacket (buf : bytes) (label : string) : res labelErr bytes :=
  if bool_decide (label = EmptyString) then Ok buf
  else if slen label >? LabelMaxSize then Err (ErrLabelTooLong label)
  else Ok (makeLabelHeader label buf).

Definition RemoveLabelHeaderFromPacket (buf : bytes) : res labelErr (bytes * string) :=
  match buf with
  | [] => Ok (buf, EmptyString)
  | b0 :: _ =>
      if negb (Z_of_byte b0 =? hasLabelMsg) then Ok (buf, EmptyString)
      else if blen buf <? 2 then Err ErrPacketTruncated
      else
        match buf !! 1%nat with
        | None => Err ErrPacketTruncated
        | Some b1 =>
            let size := Z_of_byte b1 in
            if size <? 1 then Err ErrLabelEmpty
            else if blen buf <? 2 + size then Err ErrPacketTruncated
            else
              let label := string_of_bytes (take (Z.to_nat size) (drop 2 buf)) in
              Ok (drop (Z.to_nat (2 + size)) buf, label)
        end
  end.

(** ** Streams *)

Inductive ioErr :=
| EOF
| OtherErr (e : string).

(** A connection as its future reads. *)
Record conn := mkConn { chunks : list bytes; final : ioErr }.

(** [conn.Read(p)] with [len(p) = n > 0]. *)
Definition connRead (n : nat) (c : conn) : (bytes * option ioErr) * conn :=
  match chunks c with
  | [] => (([], Some (final c)), c)
  | ch :: rest =>
      let left := drop n ch in
      ((take n ch, None),
       {| chunks := if bool_decide (left = []) then rest else left :: rest; final := final c |})
  end.

(** All bytes a connection will still deliver. *)
Definition pending (c : conn) : bytes := concat (chunks c).

Definition bufioSize : nat := 4096.

(** [bufio.Reader]: buffered bytes, the connection behind it, a sticky error. *)
Record reader := mkReader { rbuf : bytes; rconn : conn; rerr : option ioErr }.

Definition newReader (c : conn) : reader := {| rbuf := []; rconn := c; rerr := None |}.

(** [fill]: one read into the free part of the buffer. *)
Definition fill (r : reader) : reader :=
  let '((data, e), c) := connRead (bufioSize - length (rbuf r)) (rconn r) in
  {| rbuf := rbuf r ++ data; rconn := c; rerr := e |}.

(** The loop of [Peek]. *)
Fixpoint peekLoop (fuel n : nat) (r : reader) : reader :=
  match fuel with
  | O => r
  | S fuel' =>
      if bool_decide (length (rbuf r) < n)%nat && bool_decide (length (rbuf r) < bufioSize)%nat
      then match rerr r with
           | None => peekLoop fuel' n (fill r)
           | Some _ => r
           end
      else r
  end.

Definition ErrBufferFull : ioErr := OtherErr "bufio: buffer full".

(** [Peek(n)]: every read but the last delivers at least one byte, so [n+1]
    iterations are enough. *)
Definition Peek (n : nat) (r : reader) : (bytes * option ioErr) * reader :=
  let r := peekLoop (S n) n r in
  if bool_decide (bufioSize < n)%nat then ((rbuf r, Some ErrBufferFull), r)
  else if bool_decide (length (rbuf r) < n)%nat then
    let e := match rerr r with None => ErrBufferFull | Some e => e end in
    ((rbuf r, Some e), {| rbuf := rbuf r; rconn := rconn r; rerr := None |})
  else ((take n (rbuf r), None), r).

Definition Buffered (r : reader) : nat := length (rbuf r).

(** [peekedConn]: the bytes peeked and not consumed, then the connection. *)
Record peekedConn := mkPeeked { Peeked : bytes; Conn : conn }.

(** [peekedConn.Read(p)] with [len(p) = n]. *)
Definition peekedRead (n : nat) (c : peekedConn) : (bytes * option ioErr) * peekedConn :=
  if bool_decide (0 < length (Peeked c))%nat then
    ((take n (Peeked c), None), {| Peeked := drop n (Peeked c); Conn := Conn c |})
  else
    let '(r, c') := connRead n (Conn c) in (r, {| Peeked := Peeked c; Conn := c' |}).

(** What reading a [peekedConn] to the end delivers. *)
Definition peekedPending (c : peekedConn) : bytes := Peeked c ++ pending (Conn c).

Definition newPeekedConnFromBufferedReader (r : reader) (offset : nat) :
    res labelErr peekedConn :=
  match Peek (Buffered r) r with
  | ((_, Some (OtherErr e)), _) => Err (ErrRead e)
  | ((_, Some EOF), _) => Err (ErrRead "EOF")
  | ((peeked, None), r') => Ok {| Peeked := drop offset peeked; Conn := rconn r' |}
  end.

Definition RemoveLabelHeaderFromStream (c : conn) : res labelErr (peekedConn * string) :=
  let br := newReader c in
  match Peek 1 br with
  | ((_, Some EOF), r1) => Ok ({| Peeked := []; Conn := rconn r1 |}, EmptyString)
  | ((_, Some (OtherErr e)), _) => Err (ErrRead e)
  | ((peeked, None), r1) =>
      match peeked with
      | [] => Err (ErrRead "index out of range")
      | p0 :: _ =>
          if negb (Z_of_byte p0 =? hasLabelMsg) then
            match newPeekedConnFromBufferedReader r1 0 with
            | Err e => Err e
            | Ok pc => Ok (pc, EmptyString)
            end
          else
            match Peek 2 r1 with
            | ((_, Some EOF), _) => Err ErrStreamTruncated
            | ((_, Some (OtherErr e)), _) => Err (ErrRead e)
            | ((peeked2, None), r2) =>
                match peeked2 !! 1%nat with
                | None => Err (ErrRead "index out of range")
                | Some b1 =>
                    let size := Z_of_byte b1 in
                    if size <? 1 then Err ErrLabelEmpty
                    else
                      match Peek (Z.to_nat (2 + size)) r2 with
                      | ((_, Some EOF), _) => Err ErrStreamTruncated
                      | ((_, Some (OtherErr e)), _) => Err (ErrRead e)
                      | ((peeked3, None), r3) =>
                          let label := string_of_bytes (take (Z.to_nat size) (drop 2 peeked3)) in
                          match newPeekedConnFromBufferedReader r3 (Z.to_nat (2 + size)) with
                          | Err e => Err e
                          | Ok pc => Ok (pc, label)
                          end
                      end
                end
            end
      end
  end.

(** [AddLabelHeaderToStream]: the bytes written before anything else. *)
Definition AddLabelHeaderToStream (label : string) : res labelErr bytes :=
  if bool_decide (label = EmptyString) then Ok []
  else if slen label >? LabelMaxSize then Err (ErrLabelTooLong label)
  else Ok (makeLabelHeader label []).

(** ** Packet lemmas *)

Lemma length_bytes_of_string s : length (bytes_of_string s) = String.length s.
Proof.
  unfold bytes_of_string, String.list_byte_of_string. rewrite List.length_map.
  induction s; simpl; auto.
Qed.

Lemma slen_pos label : label <> EmptyString -> 1 <= slen label.
Proof. destruct label; [done|]. unfold slen. simpl. lia. Qed.

Lemma remove_header label rest :
  label <> EmptyString -> slen label <= LabelMaxSize ->
  RemoveLabelHeaderFromPacket (makeLabelHeader label rest) = Ok (rest, label).
Proof.
  intros Hne Hmax. unfold LabelMaxSize in Hmax.
  pose proof (slen_pos label Hne) as Hpos.
  unfold RemoveLabelHeaderFromPacket, makeLabelHeader.
  change (negb (Z_of_byte (byte_of_Z hasLabelMsg) =? hasLabelMsg)) with false. cbv iota beta.
  pose proof (blen_nonneg (bytes_of_string label ++ rest)) as Hbn.
  destruct (Z.ltb_spec (blen (byte_of_Z hasLabelMsg :: byte_of_Z (slen label) ::
              bytes_of_string label ++ rest)) 2) as [Hlt|_].
  { rewrite !blen_cons in Hlt. lia. }
  cbn [lookup list_lookup]. rewrite Z_of_byte_small by lia.
  destruct (Z.ltb_spec (slen label) 1) as [|_]; [lia|].
  assert (blen (bytes_of_string label) = slen label) as Hl.
  { unfold blen, slen. by rewrite length_bytes_of_string. }
  destruct (Z.ltb_spec (blen (byte_of_Z hasLabelMsg :: byte_of_Z (slen label) ::
              bytes_of_string label ++ rest)) (2 + slen label)) as [Hlt|_].
  { rewrite !blen_cons, blen_app, Hl in Hlt. pose proof (blen_nonneg rest). lia. }
  assert (Z.to_nat (slen label) = length (bytes_of_string label)) as Hn.
  { rewrite length_bytes_of_string. unfold slen. lia. }
  replace (Z.to_nat (2 + slen label)) with (S (S (length (bytes_of_string label)))) by lia.
  cbn [skipn]. rewrite drop_0, Hn, take_app_length, drop_app_length. by rewrite bytes_string_id.
Qed.

(** A labelled packet round-trips: removing the header that was added gives back
    payload and label, for every label of 1 to 255 bytes; a longer label is
    refused, and an empty one adds no bytes. *)
Theorem packet_label_roundtrip (buf : bytes) (label : string) :
  (label = EmptyString /\ AddLabelHeaderToPacket buf label = Ok buf)
  \/ (slen label > LabelMaxSize /\ AddLabelHeaderToPacket buf label = Err (ErrLabelTooLong label))
  \/ (exists p, AddLabelHeaderToPacket buf label = Ok p
        /\ RemoveLabelHeaderFromPacket p = Ok (buf, label)
        /\ blen p = labelOverhead label + blen buf).
Proof.
  unfold AddLabelHeaderToPacket, labelOverhead. case_bool_decide as He; [by left|right].
  destruct (Z.gtb_spec (slen label) LabelMaxSize); [left; split; [lia|done]|right].
  exists (makeLabelHeader label buf). split_and!; [done|by apply remove_header|].
  unfold makeLabelHeader. rewrite !blen_cons, blen_app.
  unfold slen, blen at 1. rewrite length_bytes_of_string. lia.
Qed.

(** The packet decoder is total and inverts only well-formed headers: a packet
    that does not start with 244 is returned unchanged with the empty label;
    otherwise it is an error or it was built by the encoder from the returned
    label and payload. *)
Theorem packet_label_decoder (buf : bytes) :
  match RemoveLabelHeaderFromPacket buf with
  | Ok (rest, label) =>
      (label = EmptyString /\ rest = buf /\ head buf <> Some (byte_of_Z hasLabelMsg))
      \/ (label <> EmptyString /\ slen label <= LabelMaxSize
          /\ buf = makeLabelHeader label rest)
  | Err ErrLabelEmpty => exists rest, buf = byte_of_Z hasLabelMsg :: x00 :: rest
  | Err ErrPacketTruncated => exists rest, buf = byte_of_Z hasLabelMsg :: rest
  | Err _ => False
  end.
Proof.
  unfold RemoveLabelHeaderFromPacket. destruct buf as [|b0 buf]; [by left|].
  destruct (Z.eqb_spec (Z_of_byte b0) hasLabelMsg) as [H0|H0]; cbn [negb].
  2: { left. split_and!; [done|done|]. intros [= ->]. by vm_compute in H0. }
  assert (b0 = byte_of_Z hasLabelMsg) as -> by (by rewrite <- H0, byte_of_Z_of_byte).
  destruct (Z.ltb_spec (blen (byte_of_Z hasLabelMsg :: buf)) 2); [by exists buf|].
  destruct buf as [|b1 buf]; [rewrite blen_cons, blen_nil in *; lia|].
  cbn [lookup list_lookup]. pose proof (Z_of_byte_range b1) as Hb1.
  destruct (Z.ltb_spec (Z_of_byte b1) 1) as [Hlt|Hge].
  { exists buf. f_equal. f_equal. rewrite <- (byte_of_Z_of_byte b1).
    replace (Z_of_byte b1) with 0 by lia. done. }
  destruct (Z.ltb_spec (blen (byte_of_Z hasLabelMsg :: b1 :: buf)) (2 + Z_of_byte b1)) as [|Hlen];
    [by eexists|].
  rewrite !blen_cons in Hlen.
  replace (Z.to_nat (2 + Z_of_byte b1)) with (S (S (Z.to_nat (Z_of_byte b1)))) by lia.
  cbn [skipn]. rewrite ?drop_0.
  set (l := take (Z.to_nat (Z_of_byte b1)) buf). set (rest := drop (Z.to_nat (Z_of_byte b1)) buf).
  assert (slen (string_of_bytes l) = Z_of_byte b1) as Hs.
  { unfold slen. rewrite <- length_bytes_of_string, string_bytes_id. unfold l.
    rewrite length_take. unfold blen in Hlen. lia. }
  right. split_and!.
  - intros He. rewrite He in Hs. unfold slen in Hs. simpl in Hs. lia.
  - unfold LabelMaxSize. lia.
  - unfold makeLabelHeader. rewrite Hs, byte_of_Z_of_byte, string_bytes_id.
    unfold l, rest. by rewrite take_drop.
Qed.

(** ** Stream lemmas *)

(** Reads deliver at least one byte until the final error. *)
Definition connWf (c : conn) : Prop := Forall (fun ch => ch <> []) (chunks c).

(** The data a buffered reader still has to give. *)
Definition rdata (r : reader) : bytes := rbuf r ++ pending (rconn r).

Definition readerWf (r : reader) : Prop :=
  connWf (rconn r) /\ (length (rbuf r) <= bufioSize)%nat.

Lemma connRead_spec n c :
  connWf c ->
  let '((data, e), c') := connRead n c in
  data ++ pending c' = pending c /\ connWf c' /\ final c' = final c
  /\ (length data <= n)%nat
  /\ match e with
     | None => n <> O -> data <> []
     | Some e => data = [] /\ chunks c = [] /\ e = final c
     end.
Proof.
  intros Hwf. unfold connRead, connWf, pending in *. destruct (chunks c) as [|ch rest] eqn:E; simpl.
  { rewrite E. split_and!; auto. lia. }
  apply Forall_cons in Hwf as [Hch Hrest]. split_and!; [| |done| |].
  - case_bool_decide as Hd; simpl.
    + rewrite <- (take_drop n ch) at 2. by rewrite Hd, app_nil_r.
    + by rewrite app_assoc, take_drop.
  - case_bool_decide; [done|]. by constructor.
  - rewrite length_take. lia.
  - intros Hn He. destruct ch, n; done.
Qed.

Lemma fill_spec r :
  readerWf r -> (length (rbuf r) < bufioSize)%nat ->
  rdata (fill r) = rdata r /\ readerWf (fill r) /\ final (rconn (fill r)) = final (rconn r)
  /\ ((rerr (fill r) = None /\ (length (rbuf r) < length (rbuf (fill r)))%nat)
      \/ (rerr (fill r) = Some (final (rconn r)) /\ pending (rconn (fill r)) = []
          /\ rbuf (fill r) = rbuf r)).
Proof.
  intros [Hwf Hlen] Hlt. unfold fill, rdata, readerWf.
  pose proof (connRead_spec (bufioSize - length (rbuf r)) (rconn r) Hwf) as Hr.
  destruct (connRead _ _) as [[data e] c']. simpl.
  destruct Hr as (Hdata & Hwf' & Hfin & Hle & He).
  rewrite <- app_assoc, Hdata, length_app. split_and!; [done|done|lia|done|].
  destruct e as [e|].
  - destruct He as (-> & Hc & ->). right. split; [done|].
    simpl in Hdata. rewrite Hdata, app_nil_r. unfold pending. by rewrite Hc.
  - left. split; [done|]. destruct data; [exfalso; apply He; [lia|done]|]. simpl. lia.
Qed.

(** What the loop of [Peek] reaches: enough bytes, or the end of the stream. *)
Lemma peekLoop_spec fuel n r :
  readerWf r -> rerr r = None -> (n <= bufioSize)%nat -> (n < fuel + length (rbuf r))%nat ->
  let r' := peekLoop fuel n r in
  rdata r' = rdata r /\ readerWf r' /\ final (rconn r') = final (rconn r)
  /\ ((rerr r' = None /\ (n <= length (rbuf r'))%nat)
      \/ (rerr r' = Some (final (rconn r)) /\ pending (rconn r') = []
          /\ (length (rbuf r') < n)%nat)).
Proof.
  revert r. induction fuel as [|fuel IH]; intros r Hwf Herr Hn Hfuel; simpl.
  { split_and!; [done|done|done|]. left. split; [done|lia]. }
  case_bool_decide as Hlt; simpl.
  2: { split_and!; [done|done|done|]. left. split; [done|lia]. }
  rewrite bool_decide_eq_true_2 by lia. rewrite Herr.
  destruct (fill_spec r Hwf ltac:(lia)) as (Hd & Hwf' & Hf & [[He Hgt]|(He & Hp & Hb)]).
  - specialize (IH (fill r) Hwf' He Hn ltac:(lia)). simpl in IH.
    rewrite Hd, Hf in IH. exact IH.
  - assert (peekLoop fuel n (fill r) = fill r) as ->.
    { destruct fuel; simpl; [done|]. by destruct (_ && _); rewrite ?He. }
    split_and!; [done|done|done|]. right. by rewrite He, Hb.
Qed.

(** [Peek] gives the first [n] bytes of the stream, however it is fragmented, or
    the final error when the stream is shorter. *)
Lemma Peek_spec n r :
  readerWf r -> rerr r = None -> (n <= bufioSize)%nat ->
  exists r', rdata r' = rdata r /\ readerWf r' /\ rerr r' = None
    /\ final (rconn r') = final (rconn r)
    /\ if bool_decide (n <= length (rdata r))%nat
       then Peek n r = ((take n (rdata r), None), r') /\ (n <= length (rbuf r'))%nat
       else exists b, Peek n r = ((b, Some (final (rconn r))), r') /\ pending (rconn r') = [].
Proof.
  intros Hwf Herr Hn. unfold Peek.
  destruct (peekLoop_spec (S n) n r Hwf Herr Hn ltac:(lia)) as (Hd & Hwf' & Hf & Hcase).
  set (r1 := peekLoop (S n) n r) in *. rewrite (bool_decide_eq_false_2 (bufioSize < n)%nat) by lia.
  destruct (decide (length (rbuf r1) < n)%nat) as [Hlt|Hge].
  - rewrite (bool_decide_eq_true_2 (length (rbuf r1) < n)%nat) by done.
    destruct Hcase as [[_ ?]|(He & Hp & _)]; [lia|]. rewrite He.
    exists {| rbuf := rbuf r1; rconn := rconn r1; rerr := None |}.
    split_and!; [done|exact Hwf'|done|done|].
    rewrite bool_decide_eq_false_2; [eauto|].
    rewrite <- Hd. unfold rdata. rewrite Hp, app_nil_r. lia.
  - rewrite (bool_decide_eq_false_2 (length (rbuf r1) < n)%nat) by done.
    assert (take n (rbuf r1) = take n (rdata r)) as Ht.
    { rewrite <- Hd. unfold rdata. symmetry. apply take_app_le. lia. }
    assert (n <= length (rdata r))%nat as Hlen.
    { rewrite <- Hd. unfold rdata. rewrite length_app. lia. }
    destruct Hcase as [[He _]|(_ & _ & ?)]; [|lia].
    exists r1. split_and!; try done. rewrite bool_decide_eq_true_2 by done.
    rewrite Ht. split; [done|lia].
Qed.

Lemma newPeeked_spec r offset :
  readerWf r -> rerr r = None ->
  exists pc, newPeekedConnFromBufferedReader r offset = Ok pc
    /\ Peeked pc = drop offset (rbuf r) /\ Conn pc = rconn r.
Proof.
  intros Hwf Herr. unfold newPeekedConnFromBufferedReader, Peek, Buffered.
  assert (peekLoop (S (length (rbuf r))) (length (rbuf r)) r = r) as ->.
  { simpl. by rewrite bool_decide_eq_false_2 by lia. }
  destruct Hwf as [_ Hlen].
  rewrite (bool_decide_eq_false_2 (bufioSize < _)%nat) by lia.
  rewrite (bool_decide_eq_false_2 (length (rbuf r) < _)%nat) by lia.
  eexists. split; [done|]. simpl. by rewrite firstn_all.
Qed.

(** Splicing after [offset] buffered bytes drops exactly those bytes. *)
Lemma newPeeked_pending r offset pc :
  newPeekedConnFromBufferedReader r offset = Ok pc ->
  Peeked pc = drop offset (rbuf r) -> Conn pc = rconn r -> (offset <= length (rbuf r))%nat ->
  peekedPending pc = drop offset (rdata r).
Proof.
  intros _ Hp Hc Ho. unfold peekedPending, rdata. rewrite Hp, Hc.
  symmetry. by apply drop_app_le.
Qed.

(** ** The stream decoder against the packet decoder *)

(** What the stream decoder should answer, given the packet decoder's answer on
    the whole data and the error that ends the stream. *)
Definition streamAnswer (c : conn) (r : res labelErr (peekedConn * string)) : Prop :=
  match RemoveLabelHeaderFromPacket (pending c) with
  | Ok (rest, label) =>
      if bool_decide (pending c = []) then
        match final c with
        | EOF => exists pc, r = Ok (pc, EmptyString) /\ peekedPending pc = []
        | OtherErr e => r = Err (ErrRead e)
        end
      else exists pc, r = Ok (pc, label) /\ peekedPending pc = rest /\ final (Conn pc) = final c
  | Err ErrPacketTruncated =>
      match final c with
      | EOF => r = Err ErrStreamTruncated
      | OtherErr e => r = Err (ErrRead e)
      end
  | Err e => r = Err e
  end.

Lemma take_lookup_head {A} n (l : list A) : (0 < n)%nat -> head (take n l) = head l.
Proof. destruct n, l; (lia || done). Qed.

Lemma stream_unlabelled c :
  connWf c -> (1 <= length (pending c))%nat ->
  (forall p0, head (pending c) = Some p0 -> Z_of_byte p0 <> hasLabelMsg) ->
  exists pc, RemoveLabelHeaderFromStream c = Ok (pc, EmptyString)
    /\ peekedPending pc = pending c /\ final (Conn pc) = final c.
Proof.
  intros Hwf Hlen Hne. unfold RemoveLabelHeaderFromStream.
  assert (readerWf (newReader c)) as Hr0 by (split; [done|simpl; unfold bufioSize; lia]).
  destruct (Peek_spec 1 (newReader c) Hr0 eq_refl ltac:(unfold bufioSize; lia))
    as (r1 & Hd1 & Hwf1 & He1 & Hf1 & HP).
  change (rdata (newReader c)) with (pending c) in *.
  rewrite bool_decide_eq_true_2 in HP by done. destruct HP as [-> Hb1].
  destruct (pending c) as [|p0 rest] eqn:Ep; [simpl in Hlen; lia|]. cbn [take].
  destruct (Z.eqb_spec (Z_of_byte p0) hasLabelMsg) as [He|_]; [by apply (Hne p0) in He|].
  cbn [negb].
  destruct (newPeeked_spec r1 0 Hwf1 He1) as (pc & Hpc & Hp & Hc). rewrite Hpc.
  exists pc. split_and!; [done| |by rewrite Hc].
  rewrite (newPeeked_pending _ _ _ Hpc Hp Hc) by lia. by rewrite drop_0, Hd1.
Qed.

(** The labelled path, step by step: two bytes, then the label. *)
Lemma stream_labelled c b1 rest :
  connWf c -> pending c = byte_of_Z hasLabelMsg :: b1 :: rest ->
  let size := Z_of_byte b1 in
  if size <? 1 then RemoveLabelHeaderFromStream c = Err ErrLabelEmpty
  else if blen rest <? size then
    RemoveLabelHeaderFromStream c =
      match final c with EOF => Err ErrStreamTruncated | OtherErr e => Err (ErrRead e) end
  else exists pc, RemoveLabelHeaderFromStream c =
         Ok (pc, string_of_bytes (take (Z.to_nat size) rest))
       /\ peekedPending pc = drop (Z.to_nat size) rest /\ final (Conn pc) = final c.
Proof.
  intros Hwf Hp. cbv zeta. unfold RemoveLabelHeaderFromStream.
  assert (readerWf (newReader c)) as Hr0 by (split; [done|simpl; unfold bufioSize; lia]).
  destruct (Peek_spec 1 (newReader c) Hr0 eq_refl ltac:(unfold bufioSize; lia))
    as (r1 & Hd1 & Hwf1 & He1 & Hf1 & HP1).
  change (rdata (newReader c)) with (pending c) in *. rewrite Hp in *.
  rewrite bool_decide_eq_true_2 in HP1 by (simpl; lia). destruct HP1 as [-> Hb1]. cbn [take].
  change (negb (Z_of_byte (byte_of_Z hasLabelMsg) =? hasLabelMsg)) with false. cbv iota.
  destruct (Peek_spec 2 r1 Hwf1 He1 ltac:(unfold bufioSize; lia))
    as (r2 & Hd2 & Hwf2 & He2 & Hf2 & HP2).
  rewrite Hd1 in *. rewrite bool_decide_eq_true_2 in HP2 by (simpl; lia).
  destruct HP2 as [-> Hb2]. cbn [take lookup list_lookup].
  pose proof (Z_of_byte_range b1) as Hrange.
  destruct (Z.ltb_spec (Z_of_byte b1) 1) as [|Hs]; [done|].
  destruct (Peek_spec (Z.to_nat (2 + Z_of_byte b1)) r2 Hwf2 He2) as (r3 & Hd3 & Hwf3 & He3 & Hf3 & HP3).
  { unfold bufioSize. lia. }
  rewrite Hd2 in *. simpl in Hf1. rewrite Hf2, Hf1 in *.
  destruct (Z.ltb_spec (blen rest) (Z_of_byte b1)) as [Hshort|Hfull].
  - rewrite bool_decide_eq_false_2 in HP3 by (unfold blen in *; simpl; lia).
    destruct HP3 as (b & -> & _). by destruct (final c).
  - rewrite bool_decide_eq_true_2 in HP3 by (unfold blen in *; simpl; lia).
    destruct HP3 as [-> Hb3].
    destruct (newPeeked_spec r3 (Z.to_nat (2 + Z_of_byte b1)) Hwf3 He3) as (pc & Hpc & Hpp & Hcc).
    rewrite Hpc. exists pc.
    replace (Z.to_nat (2 + Z_of_byte b1)) with (S (S (Z.to_nat (Z_of_byte b1)))) in * by lia.
    split_and!.
    + cbn [firstn skipn]. rewrite drop_0. by rewrite take_take, Nat.min_id.
    + rewrite (newPeeked_pending _ _ _ Hpc Hpp Hcc) by lia. by rewrite Hd3.
    + by rewrite Hcc, Hf3.
Qed.

(** Too short for the size byte. *)
Lemma stream_short c :
  connWf c -> pending c = [byte_of_Z hasLabelMsg] ->
  RemoveLabelHeaderFromStream c =
    match final c with EOF => Err ErrStreamTruncated | OtherErr e => Err (ErrRead e) end.
Proof.
  intros Hwf Hp. unfold RemoveLabelHeaderFromStream.
  assert (readerWf (newReader c)) as Hr0 by (split; [done|simpl; unfold bufioSize; lia]).
  destruct (Peek_spec 1 (newReader c) Hr0 eq_refl ltac:(unfold bufioSize; lia))
    as (r1 & Hd1 & Hwf1 & He1 & Hf1 & HP1).
  change (rdata (newReader c)) with (pending c) in *. rewrite Hp in *.
  rewrite bool_decide_eq_true_2 in HP1 by (simpl; lia). destruct HP1 as [-> Hb1]. cbn [take].
  change (negb (Z_of_byte (byte_of_Z hasLabelMsg) =? hasLabelMsg)) with false. cbv iota.
  destruct (Peek_spec 2 r1 Hwf1 He1 ltac:(unfold bufioSize; lia))
    as (r2 & Hd2 & Hwf2 & He2 & Hf2 & HP2).
  rewrite Hd1 in *. rewrite bool_decide_eq_false_2 in HP2 by (simpl; lia).
  destruct HP2 as (b & -> & _). simpl in Hf1. rewrite Hf1. by destruct (final c).
Qed.

Lemma stream_empty c :
  connWf c -> pending c = [] ->
  match final c with
  | EOF => exists pc, RemoveLabelHeaderFromStream c = Ok (pc, EmptyString) /\ peekedPending pc = []
  | OtherErr e => RemoveLabelHeaderFromStream c = Err (ErrRead e)
  end.
Proof.
  intros Hwf Hp. unfold RemoveLabelHeaderFromStream.
  assert (readerWf (newReader c)) as Hr0 by (split; [done|simpl; unfold bufioSize; lia]).
  destruct (Peek_spec 1 (newReader c) Hr0 eq_refl ltac:(unfold bufioSize; lia))
    as (r1 & Hd1 & Hwf1 & He1 & Hf1 & HP1).
  change (rdata (newReader c)) with (pending c) in *. rewrite Hp in *.
  rewrite bool_decide_eq_false_2 in HP1 by (simpl; lia). destruct HP1 as (b & -> & Hpend).
  simpl. destruct (final c); [|done]. eexists. split; [done|]. done.
Qed.

Lemma stream_chunking (c : conn) :
  connWf c -> streamAnswer c (RemoveLabelHeaderFromStream c).
Proof.
  intros Hwf. unfold streamAnswer.
  destruct (pending c) as [|b0 data] eqn:Ep.
  { by apply stream_empty. }
  cbn [RemoveLabelHeaderFromPacket].
  destruct (Z.eqb_spec (Z_of_byte b0) hasLabelMsg) as [H0|H0]; cbn [negb].
  2: { rewrite bool_decide_eq_false_2 by done. rewrite <- Ep. apply stream_unlabelled; [done|rewrite Ep; simpl; lia|].
       rewrite Ep. by intros p0 [= <-]. }
  assert (b0 = byte_of_Z hasLabelMsg) as -> by (by rewrite <- H0, byte_of_Z_of_byte).
  destruct data as [|b1 rest].
  { change (blen [byte_of_Z hasLabelMsg] <? 2) with true. cbv iota.
    rewrite (stream_short c Hwf Ep). by destruct (final c). }
  destruct (Z.ltb_spec (blen (byte_of_Z hasLabelMsg :: b1 :: rest)) 2) as [Hlt|_].
  { rewrite !blen_cons in Hlt. pose proof (blen_nonneg rest). lia. }
  cbn [lookup list_lookup].
  pose proof (stream_labelled c b1 rest Hwf Ep) as Hs. cbv zeta in Hs.
  pose proof (Z_of_byte_range b1) as Hb1.
  destruct (Z.ltb_spec (Z_of_byte b1) 1) as [|Hge]; [done|].
  replace (blen (byte_of_Z hasLabelMsg :: b1 :: rest) <? 2 + Z_of_byte b1)
    with (blen rest <? Z_of_byte b1).
  2: { rewrite !blen_cons. destruct (Z.ltb_spec (blen rest) (Z_of_byte b1)); symmetry;
         [apply Z.ltb_lt|apply Z.ltb_ge]; lia. }
  destruct (Z.ltb_spec (blen rest) (Z_of_byte b1)) as [|Hfull].
  { rewrite Hs. by destruct (final c). }
  replace (Z.to_nat (2 + Z_of_byte b1)) with (S (S (Z.to_nat (Z_of_byte b1)))) by lia.
  cbn [skipn]. rewrite ?drop_0. rewrite bool_decide_eq_false_2 by done. done.
Qed.

(** However the network fragments a stream (reads of any size up to the end of the
    data), removing its label header answers what the packet decoder answers on
    the concatenated data: same label, and the returned connection delivers
    exactly the bytes after the header; a header cut by the end of the stream is
    reported as truncated, a read error as that error. *)
Theorem stream_label_chunking (c : conn) :
  connWf c -> streamAnswer c (RemoveLabelHeaderFromStream c).
Proof. apply stream_chunking. Qed.

Lemma stream_label_chunking_witness :
  streamAnswer {| chunks := [[xf4]; [x02; x61]; [x62; x09]; [x0a]]; final := EOF |}
    (RemoveLabelHeaderFromStream {| chunks := [[xf4]; [x02; x61]; [x62; x09]; [x0a]]; final := EOF |}).
Proof.
  apply (stream_label_chunking {| chunks := [[xf4]; [x02; x61]; [x62; x09]; [x0a]]; final := EOF |}).
  repeat constructor; discriminate.
Defined.

(** Reading a spliced connection delivers its pending bytes in order. *)
Lemma peekedRead_pending n c :
  connWf (Conn c) -> (0 < n)%nat ->
  let '((data, e), c') := peekedRead n c in
  data ++ peekedPending c' = peekedPending c /\ connWf (Conn c')
  /\ (e <> None -> peekedPending c = []).
Proof.
  intros Hwf Hn. unfold peekedRead, peekedPending. case_bool_decide as Hl; simpl.
  - rewrite app_assoc, take_drop. done.
  - destruct (Peeked c) eqn:E; [|simpl in Hl; lia].
    pose proof (connRead_spec n (Conn c) Hwf) as Hr.
    destruct (connRead n (Conn c)) as [[data e] c']. simpl.
    destruct Hr as (Hd & Hwf' & _ & _ & He). split_and!; [done|done|].
    destruct e as [e|]; [|done]. destruct He as (_ & Hc & _). intros _.
    unfold pending. by rewrite Hc.
Qed.

End Label.
