(* ===== verification/Security.v ===== *)
(** * Payload encryption (security.go; stream framing of net.go)

    Encrypted payloads are a version byte, a 12-byte nonce and the AES-GCM
    output; version 0 pads the plaintext with PKCS7 first. AES-GCM is the
    interface [AEAD] below: the operations the code calls and the two documented
    facts it relies on. The random nonce is an argument. Slice expressions that
    would panic in Go give [Panic]. *)

From Stdlib Require Import ZArith Lia Strings.Byte.
From stdpp Require Import tactics base numbers strings gmap list.
From S2P Require Import Prelude Compound.
Import Compound.

Local Open Scope Z_scope.

Module Security.

Definition minEncryptionVersion : Z := 0.
Definition maxEncryptionVersion : Z := 1.
Definition versionSize : Z := 1.
Definition nonceSize : Z := 12.
Definition tagSize : Z := 16.
Definition maxPadOverhead : Z := 16.
Definition blockSize : Z := 16.
Definition maxPushStateBytes : Z := 20 * 1024 * 1024.

(** ** The cipher *)

(** [cipher.AEAD] for AES-GCM with standard nonce and tag sizes. *)
Class AEAD := {
  (** [gcm.Seal(nil, nonce, plaintext, data)] under a key. *)
  Seal : bytes -> bytes -> bytes -> bytes -> bytes;
  (** [gcm.Open(nil, nonce, ciphertext, data)]; [None] is an error. *)
  Open : bytes -> bytes -> bytes -> bytes -> option bytes
}.

(** What the code relies on: opening what was sealed under the same key, nonce
    and additional data gives the plaintext, and sealing adds the tag. *)
Class AEADLaws `{AEAD} : Prop := {
  Open_Seal : forall key nonce plain data,
    Open key nonce (Seal key nonce plain data) data = Some plain;
  Seal_length : forall key nonce plain data,
    blen (Seal key nonce plain data) = blen plain + tagSize;
  Open_length : forall key nonce ct data plain,
    Open key nonce ct data = Some plain -> blen ct = blen plain + tagSize
}.

(** [aes.NewCipher] accepts keys of 16, 24 or 32 bytes. *)
Definition aesKeyOk (key : bytes) : bool :=
  (blen key =? 16) || (blen key =? 24) || (blen key =? 32).

Inductive secErr :=
| ErrAesKeySize
| ErrEmptyPayload
| ErrUnsupportedVersion (v : Z)
| ErrPayloadTooSmall
| ErrOpenFailed
| ErrNoKey
| ErrStreamEOF
| ErrStateTooLarge (n : Z).

(** ** Padding *)

(** [pkcs7encode]: pad the part after [ignore] bytes to a multiple of the block. *)
Definition pkcs7encode (buf : bytes) (ignore blockSize : Z) : bytes :=
  let n := blen buf - ignore in
  let more := blockSize - goMod n blockSize in
  buf ++ replicate (Z.to_nat more) (byte_of_Z more).

Definition pkcs7decode (buf : bytes) : outcome bytes :=
  match last buf with
  | None => Panic "Cannot decode a PKCS7 buffer of zero length"
  | Some lastByte =>
      let n := blen buf - Z_of_byte lastByte in
      if n <? 0 then Panic "slice bounds out of range" else Ret (take (Z.to_nat n) buf)
  end.

(** ** Sizes *)

Definition encryptOverhead (vsn : Z) : outcome Z :=
  if vsn =? 0 then Ret 45
  else if vsn =? 1 then Ret 29
  else Panic "unsupported version".

Definition encryptedLength (vsn inp : Z) : Z :=
  if vsn >=? 1 then versionSize + nonceSize + inp + tagSize
  else
    let padding := blockSize - goMod inp blockSize in
    versionSize + nonceSize + inp + padding + tagSize.

(** [Memberlist.encryptionVersion], from the protocol version in use. *)
Definition encryptionVersion (protocolVersion : Z) : Z :=
  if protocolVersion =? 1 then 0 else 1.

(** ** Encryption and decryption *)

Section WithAEAD.

Context `{AEAD}.

(** [encryptPayload]: appends to [dst]; [nonce] are the random bytes. *)
Definition encryptPayload (vsn : Z) (key msg data nonce dst : bytes) : res secErr bytes :=
  if negb (aesKeyOk key) then Err ErrAesKeySize
  else
    let offset := length dst in
    let dst := dst ++ [byte_of_Z vsn] ++ nonce in
    let afterNonce := length dst in
    let dst := if vsn =? 0
               then pkcs7encode (dst ++ msg) (Z.of_nat offset + versionSize + nonceSize) blockSize
               else dst in
    let slice := drop offset dst in
    let nonce' := take (Z.to_nat nonceSize) (drop (Z.to_nat versionSize) slice) in
    let src := if vsn =? 0 then drop (Z.to_nat (versionSize + nonceSize)) slice else msg in
    let out := Seal key nonce' src data in
    Ok (take afterNonce dst ++ out).

(** [decryptMessage]; the slice bounds are those the caller has checked. *)
Definition decryptMessage (key msg data : bytes) : outcome (res secErr bytes) :=
  if negb (aesKeyOk key) then Ret (Err ErrAesKeySize)
  else if blen msg <? versionSize + nonceSize then Panic "slice bounds out of range"
  else
    let nonce := take (Z.to_nat nonceSize) (drop (Z.to_nat versionSize) msg) in
    let ciphertext := drop (Z.to_nat (versionSize + nonceSize)) msg in
    match Open key nonce ciphertext data with
    | None => Ret (Err ErrOpenFailed)
    | Some plain => Ret (Ok plain)
    end.

(** The loop of [decryptPayload] over the installed keys. *)
Fixpoint tryKeys (keys : list bytes) (vsn : Z) (msg data : bytes) : outcome (res secErr bytes) :=
  match keys with
  | [] => Ret (Err ErrNoKey)
  | key :: rest =>
      match decryptMessage key msg data with
      | Panic w => Panic w
      | Ret (Ok plain) =>
          if vsn =? 0 then obind (pkcs7decode plain) (fun p => Ret (Ok p)) else Ret (Ok plain)
      | Ret (Err _) => tryKeys rest vsn msg data
      end
  end.

Definition decryptPayload (keys : list bytes) (msg data : bytes) : outcome (res secErr bytes) :=
  match msg with
  | [] => Ret (Err ErrEmptyPayload)
  | b0 :: _ =>
      let vsn := Z_of_byte b0 in
      if vsn >? maxEncryptionVersion then Ret (Err (ErrUnsupportedVersion vsn))
      else if blen msg <? encryptedLength vsn 0 then Ret (Err ErrPayloadTooSmall)
      else tryKeys keys vsn msg data
  end.

Definition appendBytes (first second : bytes) : bytes :=
  if (0 <? blen first) && (0 <? blen second) then first ++ second
  else if 0 <? blen first then first
  else if 0 <? blen second then second
  else [].

(** [encryptLocalState]: the type byte, the encrypted size, the payload; type,
    size and label are the authenticated data. *)
Definition encryptLocalState (protocolVersion : Z) (primaryKey sendBuf label nonce : bytes) :
    res secErr bytes :=
  let encVsn := encryptionVersion protocolVersion in
  let encLen := encryptedLength encVsn (blen sendBuf) in
  let buf := byte_of_Z encryptMsg :: putBE32 (u32 encLen) in
  let dataBytes := appendBytes (take 5 buf) label in
  encryptPayload encVsn primaryKey sendBuf dataBytes nonce buf.

(** [decryptRemoteState]: [stream] is what the connection delivers after the
    type byte. *)
Definition decryptRemoteState (keys : list bytes) (stream label : bytes) :
    outcome (res secErr bytes) :=
  match stream with
  | a :: b :: c :: d :: rest =>
      let moreBytes := getBE32 a b c d in
      if moreBytes >? maxPushStateBytes then Ret (Err (ErrStateTooLarge moreBytes))
      else if blen rest <? moreBytes then Ret (Err ErrStreamEOF)
      else
        let cipherText := byte_of_Z encryptMsg :: a :: b :: c :: d
                          :: take (Z.to_nat moreBytes) rest in
        let dataBytes := appendBytes (take 5 cipherText) label in
        let cipherBytes := drop 5 cipherText in
        decryptPayload keys cipherBytes dataBytes
  | _ => Ret (Err ErrStreamEOF)
  end.

(** ** Lemmas *)

Lemma goMod_bounds n b : 0 <= n -> 0 < b -> 0 <= goMod n b < b.
Proof. intros Hn Hb. unfold goMod. rewrite Z.rem_mod_nonneg by lia. by apply Z.mod_pos_bound. Qed.

(** The padding added after a prefix of [ignore] bytes. *)
Definition padLen (n : Z) : Z := blockSize - goMod n blockSize.

Lemma padLen_range n : 0 <= n -> 1 <= padLen n <= 16.
Proof. intros Hn. unfold padLen, blockSize. pose proof (goMod_bounds n 16 Hn ltac:(lia)). lia. Qed.

Lemma pkcs7encode_eq pre msg :
  pkcs7encode (pre ++ msg) (blen pre) blockSize =
    pre ++ msg ++ replicate (Z.to_nat (padLen (blen msg))) (byte_of_Z (padLen (blen msg))).
Proof.
  unfold pkcs7encode, padLen. rewrite blen_app.
  replace (blen pre + blen msg - blen pre) with (blen msg) by lia. by rewrite <- app_assoc.
Qed.

Lemma pkcs7_roundtrip msg :
  pkcs7decode (msg ++ replicate (Z.to_nat (padLen (blen msg))) (byte_of_Z (padLen (blen msg))))
  = Ret msg.
Proof.
  pose proof (padLen_range (blen msg) (blen_nonneg msg)) as Hp.
  set (p := padLen (blen msg)) in *. unfold pkcs7decode.
  assert (replicate (Z.to_nat p) (byte_of_Z p) = replicate (Z.to_nat p - 1) (byte_of_Z p) ++ [byte_of_Z p]) as Hr.
  { rewrite <- replicate_cons_app. replace (Z.to_nat p) with (S (Z.to_nat p - 1)) at 1 by lia. done. }
  rewrite Hr at 1. rewrite app_assoc, last_snoc. rewrite Z_of_byte_small by lia.
  assert (blen (replicate (Z.to_nat p) (byte_of_Z p)) = p) as Hb.
  { unfold blen. rewrite length_replicate. lia. }
  rewrite blen_app, Hb. replace (blen msg + p - p) with (blen msg) by lia.
  destruct (Z.ltb_spec (blen msg) 0) as [Hlt|_]; [pose proof (blen_nonneg msg); lia|].
  f_equal. replace (Z.to_nat (blen msg)) with (length msg) by (unfold blen; lia).
  apply take_app_length.
Qed.

(** The encrypted payload written out: [dst], version, nonce, sealed source. *)
Definition payloadSrc (vsn : Z) (msg : bytes) : bytes :=
  if vsn =? 0 then msg ++ replicate (Z.to_nat (padLen (blen msg))) (byte_of_Z (padLen (blen msg)))
  else msg.

Lemma encryptPayload_eq vsn key msg data nonce dst :
  aesKeyOk key = true -> length nonce = 12%nat ->
  encryptPayload vsn key msg data nonce dst =
    Ok (dst ++ byte_of_Z vsn :: nonce ++ Seal key nonce (payloadSrc vsn msg) data).
Proof.
  intros Hk Hn. unfold encryptPayload, payloadSrc. rewrite Hk. cbn [negb].
  change (Z.to_nat nonceSize) with 12%nat. change (Z.to_nat versionSize) with 1%nat.
  change (Z.to_nat (versionSize + nonceSize)) with 13%nat. f_equal.
  set (pre := dst ++ [byte_of_Z vsn] ++ nonce).
  assert (length pre = (length dst + 13)%nat) as Hpre.
  { unfold pre. rewrite !length_app, Hn. simpl. lia. }
  assert (forall tl, take (length pre) (pre ++ tl) = pre) as Ht by (intros; apply take_app_length).
  assert (forall tl, drop (length dst) (pre ++ tl) = byte_of_Z vsn :: nonce ++ tl) as Hd.
  { intros tl. unfold pre. rewrite <- !app_assoc. by rewrite drop_app_length. }
  assert (forall tl, take 12 (drop 1 (byte_of_Z vsn :: nonce ++ tl)) = nonce) as Hnonce.
  { intros tl. cbn [skipn]. rewrite drop_0. by apply take_app_length'. }
  assert (forall tl, drop 13 (byte_of_Z vsn :: nonce ++ tl) = tl) as Hsrc.
  { intros tl. cbn [skipn]. by apply drop_app_length'. }
  destruct (vsn =? 0).
  - replace (Z.of_nat (length dst) + versionSize + nonceSize) with (blen pre)
      by (unfold blen, versionSize, nonceSize; lia).
    rewrite pkcs7encode_eq, Ht, Hd, Hnonce, Hsrc.
    unfold pre. rewrite <- !app_assoc. done.
  - rewrite <- (app_nil_r pre) at 2 3. rewrite Ht, Hd, Hnonce.
    unfold pre. rewrite <- !app_assoc. done.
Qed.

Context `{!AEADLaws}.

Lemma payloadSrc_length vsn msg :
  vsn = 0 \/ vsn = 1 ->
  versionSize + nonceSize + blen (payloadSrc vsn msg) + tagSize = encryptedLength vsn (blen msg).
Proof.
  intros [-> | ->]; unfold payloadSrc, encryptedLength; simpl; [|lia].
  rewrite blen_app. unfold blen at 2. rewrite length_replicate.
  pose proof (padLen_range (blen msg) (blen_nonneg msg)).
  unfold padLen in *. lia.
Qed.

Lemma encrypted_length vsn key msg data nonce :
  vsn = 0 \/ vsn = 1 -> length nonce = 12%nat ->
  blen (byte_of_Z vsn :: nonce ++ Seal key nonce (payloadSrc vsn msg) data)
  = encryptedLength vsn (blen msg).
Proof.
  intros Hv Hn. rewrite blen_cons, blen_app, Seal_length, <- payloadSrc_length by done.
  unfold blen at 1. rewrite Hn. unfold versionSize, nonceSize. lia.
Qed.

(** Decrypting what was encrypted, under a key of the ring whose predecessors
    do not open the message. *)
Lemma tryKeys_found ks1 key ks2 vsn msg data nonce :
  vsn = 0 \/ vsn = 1 -> aesKeyOk key = true -> length nonce = 12%nat ->
  Forall (fun k => Open k nonce (Seal key nonce (payloadSrc vsn msg) data) data = None) ks1 ->
  tryKeys (ks1 ++ key :: ks2) vsn
    (byte_of_Z vsn :: nonce ++ Seal key nonce (payloadSrc vsn msg) data) data = Ret (Ok msg).
Proof.
  intros Hv Hk Hn Hks. set (ct := Seal key nonce (payloadSrc vsn msg) data) in *.
  assert (forall k, aesKeyOk k = true ->
    decryptMessage k (byte_of_Z vsn :: nonce ++ ct) data =
      match Open k nonce ct data with None => Ret (Err ErrOpenFailed) | Some p => Ret (Ok p) end) as Hdec.
  { intros k Hkk. unfold decryptMessage. rewrite Hkk. cbn [negb].
    destruct (Z.ltb_spec (blen (byte_of_Z vsn :: nonce ++ ct)) (versionSize + nonceSize)) as [Hlt|_].
    { rewrite blen_cons, blen_app in Hlt. unfold blen at 1 in Hlt. rewrite Hn in Hlt.
      pose proof (blen_nonneg ct). unfold versionSize, nonceSize in Hlt. lia. }
    change (Z.to_nat nonceSize) with 12%nat. change (Z.to_nat versionSize) with 1%nat.
    change (Z.to_nat (versionSize + nonceSize)) with 13%nat.
    cbn [skipn]. rewrite drop_0, take_app_length', drop_app_length' by done. done. }
  induction Hks as [|k ks1 Hopen Hks IH]; cbn [tryKeys app].
  - rewrite Hdec by done. unfold ct. rewrite Open_Seal. unfold payloadSrc.
    destruct Hv as [-> | ->]; simpl; [|done]. by rewrite pkcs7_roundtrip.
  - destruct (aesKeyOk k) eqn:E.
    + rewrite Hdec, Hopen by done. exact IH.
    + unfold decryptMessage. rewrite E. exact IH.
Qed.

Lemma encryptedLength_0_le vsn n :
  vsn = 0 \/ vsn = 1 -> 0 <= n -> encryptedLength vsn 0 <= encryptedLength vsn n.
Proof.
  intros [-> | ->] Hn; unfold encryptedLength; simpl; [|lia].
  pose proof (goMod_bounds n 16 Hn ltac:(lia)).
  change (goMod 0 blockSize) with 0. unfold blockSize, goMod in *.
  rewrite Z.rem_mod_nonneg in * by lia. 
  pose proof (Z.div_mod n 16 ltac:(lia)). pose proof (Z.div_pos n 16 Hn ltac:(lia)). lia.
Qed.

Lemma decrypt_encrypted ks1 key ks2 vsn msg data nonce :
  vsn = 0 \/ vsn = 1 -> aesKeyOk key = true -> length nonce = 12%nat ->
  Forall (fun k => Open k nonce (Seal key nonce (payloadSrc vsn msg) data) data = None) ks1 ->
  decryptPayload (ks1 ++ key :: ks2)
    (byte_of_Z vsn :: nonce ++ Seal key nonce (payloadSrc vsn msg) data) data = Ret (Ok msg).
Proof.
  intros Hv Hk Hn Hks. unfold decryptPayload.
  assert (Z_of_byte (byte_of_Z vsn) = vsn) as -> by (apply Z_of_byte_small; lia).
  destruct (Z.gtb_spec vsn maxEncryptionVersion) as [Hgt|_].
  { unfold maxEncryptionVersion in Hgt. lia. }
  rewrite encrypted_length by done.
  destruct (Z.ltb_spec (encryptedLength vsn (blen msg)) (encryptedLength vsn 0)) as [Hlt|_].
  { pose proof (encryptedLength_0_le vsn (blen msg) Hv (blen_nonneg msg)). lia. }
  by apply tryKeys_found.
Qed.

(** ** Properties *)

(** Decrypting an encrypted payload gives back the message, for both encryption
    versions and any receiver keyring that holds the key, as long as no key tried
    earlier opens the ciphertext. *)
Theorem encrypt_decrypt_roundtrip (ks1 ks2 : list bytes) (key msg data nonce : bytes) (vsn : Z) :
  vsn = 0 \/ vsn = 1 -> aesKeyOk key = true -> length nonce = 12%nat ->
  Forall (fun k => Open k nonce (Seal key nonce (payloadSrc vsn msg) data) data = None) ks1 ->
  exists ct, encryptPayload vsn key msg data nonce [] = Ok ct
    /\ decryptPayload (ks1 ++ key :: ks2) ct data = Ret (Ok msg).
Proof.
  intros Hv Hk Hn Hks. eexists. split; [by apply encryptPayload_eq|].
  by apply decrypt_encrypted.
Qed.

(** The encrypted payload has exactly the size [encryptedLength] announces, and
    exceeds the message by at most [encryptOverhead]; the overhead is exact for
    version 1. *)
Theorem encrypted_size (key msg data nonce ct : bytes) (vsn : Z) :
  vsn = 0 \/ vsn = 1 -> length nonce = 12%nat ->
  encryptPayload vsn key msg data nonce [] = Ok ct ->
  blen ct = encryptedLength vsn (blen msg)
  /\ exists ov, encryptOverhead vsn = Ret ov /\ blen ct - blen msg <= ov
       /\ (vsn = 1 -> blen ct - blen msg = ov).
Proof.
  intros Hv Hn Henc.
  assert (aesKeyOk key = true) as Hk.
  { unfold encryptPayload in Henc. by destruct (aesKeyOk key). }
  rewrite encryptPayload_eq in Henc by done. injection Henc as <-. cbn [app].
  rewrite encrypted_length by done. split; [done|].
  pose proof (blen_nonneg msg) as Hm.
  destruct Hv as [-> | ->]; eexists; (split; [reflexivity|]); unfold encryptedLength; simpl.
  - pose proof (goMod_bounds (blen msg) 16 Hm ltac:(lia)).
    unfold versionSize, nonceSize, tagSize, blockSize. split; [lia|discriminate].
  - unfold versionSize, nonceSize, tagSize. lia.
Qed.

Lemma stream_decrypts (ks1 ks2 : list bytes) (key msg label nonce : bytes) (pv : Z) :
  aesKeyOk key = true -> length nonce = 12%nat ->
  let vsn := encryptionVersion pv in
  let encLen := encryptedLength vsn (blen msg) in
  let aad := appendBytes (byte_of_Z encryptMsg :: putBE32 (u32 encLen)) label in
  encLen <= maxU32 ->
  Forall (fun k => Open k nonce (Seal key nonce (payloadSrc vsn msg) aad) aad = None) ks1 ->
  exists out, encryptLocalState pv key msg label nonce = Ok (byte_of_Z encryptMsg :: out)
    /\ decryptRemoteState (ks1 ++ key :: ks2) out label =
         if encLen >? maxPushStateBytes then Ret (Err (ErrStateTooLarge encLen))
         else Ret (Ok msg).
Proof.
  intros Hk Hn vsn encLen aad Hmax Hks.
  assert (vsn = 0 \/ vsn = 1) as Hv by (unfold vsn, encryptionVersion; destruct (pv =? 1); auto).
  assert (0 <= encLen) as Hpos.
  { unfold encLen. pose proof (encryptedLength_0_le vsn (blen msg) Hv (blen_nonneg msg)).
    assert (0 <= encryptedLength vsn 0) by (destruct Hv as [-> | ->]; vm_compute; discriminate). lia. }
  unfold encryptLocalState. fold vsn. fold encLen.
  change (take 5 (byte_of_Z encryptMsg :: putBE32 (u32 encLen)))
    with (byte_of_Z encryptMsg :: putBE32 (u32 encLen)). fold aad.
  rewrite encryptPayload_eq by done. eexists. split; [reflexivity|].
  unfold putBE32. cbn [decryptRemoteState app].
  rewrite getBE32_put by (pose proof (u32_range encLen); unfold maxU32 in *; lia).
  assert (u32 encLen = encLen) as Hu by (apply u32_small; lia).
  replace (encLen >? maxPushStateBytes) with (u32 encLen >? maxPushStateBytes) by (by rewrite Hu).
  destruct (u32 encLen >? maxPushStateBytes); [by rewrite Hu|].
  set (ct := byte_of_Z vsn :: nonce ++ Seal key nonce (payloadSrc vsn msg) aad).
  assert (blen ct = encLen) as Hct by (by apply encrypted_length).
  destruct (Z.ltb_spec (blen ct) (u32 encLen)) as [|_]; [lia|].
  rewrite (firstn_all2 ct) by (unfold blen in Hct; lia).
  change (drop 5 (?a :: ?b :: ?c :: ?d :: ?e :: ct)) with ct.
  change (appendBytes (take 5 _) label) with aad.
  by apply decrypt_encrypted.
Qed.

(** A push/pull state encrypted for a stream is restored by the receiver with the
    same label when its encrypted size is within the 20 MB limit, and refused when
    it is above it. *)
Theorem stream_encryption_roundtrip (ks1 ks2 : list bytes) (key msg label nonce : bytes) (pv : Z) :
  aesKeyOk key = true -> length nonce = 12%nat ->
  let vsn := encryptionVersion pv in
  let encLen := encryptedLength vsn (blen msg) in
  let aad := appendBytes (byte_of_Z encryptMsg :: putBE32 (u32 encLen)) label in
  encLen <= maxU32 ->
  Forall (fun k => Open k nonce (Seal key nonce (payloadSrc vsn msg) aad) aad = None) ks1 ->
  exists out, encryptLocalState pv key msg label nonce = Ok (byte_of_Z encryptMsg :: out)
    /\ decryptRemoteState (ks1 ++ key :: ks2) out label =
         if encLen >? maxPushStateBytes then Ret (Err (ErrStateTooLarge encLen))
         else Ret (Ok msg).
Proof. apply stream_decrypts. Qed.

(** On every input of a well-sized ring, decryption fails cleanly: an empty
    payload, an unknown version or a payload shorter than the fixed part are
    errors, and the only panic is the slice in [pkcs7decode], reached only by an
    authenticated version 0 plaintext whose last byte exceeds its length. *)
Theorem decryptPayload_panics (keys : list bytes) (msg data : bytes) (w : string) :
  decryptPayload keys msg data = Panic w ->
  exists key plain lastByte, key ∈ keys
    /\ head msg = Some x00
    /\ Open key (take 12 (drop 1 msg)) (drop 13 msg) data = Some plain
    /\ last plain = Some lastByte /\ blen plain < Z_of_byte lastByte.
Proof.
  unfold decryptPayload. destruct msg as [|b0 msg]; [done|].
  destruct (Z.gtb_spec (Z_of_byte b0) maxEncryptionVersion) as [|Hver]; [done|].
  destruct (Z.ltb_spec (blen (b0 :: msg)) (encryptedLength (Z_of_byte b0) 0)) as [|Hlen]; [done|].
  pose proof (Z_of_byte_range b0) as Hb0. unfold maxEncryptionVersion in Hver.
  induction keys as [|key keys IH]; cbn [tryKeys]; [done|].
  assert (13 <= blen (b0 :: msg)) as H13.
  { assert (Z_of_byte b0 = 0 \/ Z_of_byte b0 = 1) as [E|E] by lia; rewrite E in Hlen;
      unfold encryptedLength, versionSize, nonceSize, tagSize, blockSize in Hlen; simpl in Hlen;
      [change (goMod 0 16) with 0 in Hlen|]; lia. }
  unfold decryptMessage at 1. destruct (aesKeyOk key); cbn [negb].
  2: { intros Hp. destruct (IH Hp) as (k & p & l & ? & ?). exists k, p, l.
       split; [by right|done]. }
  destruct (Z.ltb_spec (blen (b0 :: msg)) (versionSize + nonceSize)) as [Hlt|_].
  { unfold versionSize, nonceSize in Hlt. lia. }
  change (Z.to_nat nonceSize) with 12%nat. change (Z.to_nat versionSize) with 1%nat.
  change (Z.to_nat (versionSize + nonceSize)) with 13%nat.
  destruct (Open key _ _ data) as [plain|] eqn:Eo.
  2: { intros Hp. destruct (IH Hp) as (k & p & l & ? & ?). exists k, p, l.
       split; [by right|done]. }
  destruct (Z.eqb_spec (Z_of_byte b0) 0) as [E0|]; [|done].
  unfold pkcs7decode. destruct (last plain) as [lastByte|] eqn:El; simpl.
  - destruct (Z.ltb_spec (blen plain - Z_of_byte lastByte) 0); [|done].
    intros _. exists key, plain, lastByte. split_and!; [by left| |done|done|lia].
    simpl. f_equal. rewrite <- (byte_of_Z_of_byte b0), E0. done.
  - apply last_None in El as ->. apply Open_length in Eo. exfalso.
    rewrite blen_nil in Eo. unfold blen in *. rewrite length_drop in Eo.
    rewrite E0 in Hlen. unfold encryptedLength, versionSize, nonceSize, tagSize in *. simpl in *.
    change (goMod 0 blockSize) with 0 in Hlen. unfold blockSize in Hlen. lia.
Qed.

End WithAEAD.

(** ** A concrete cipher for the witnesses

    No encryption, a sixteen-byte tag that sums key, nonce, data and text: it
    satisfies the laws, so the theorems are not vacuous. *)

Definition sumBytes (l : bytes) : Z := fold_right (fun b a => Z_of_byte b + a) 0 l.

Definition toyTag (key nonce plain data : bytes) : bytes :=
  replicate 16 (byte_of_Z (sumBytes key + sumBytes nonce + sumBytes plain + sumBytes data)).

#[local] Instance toyAEAD : AEAD := {
  Seal key nonce plain data := plain ++ toyTag key nonce plain data;
  Open key nonce ct data :=
    let plain := take (length ct - 16) ct in
    if bool_decide (ct = plain ++ toyTag key nonce plain data) then Some plain else None
}.

#[local] Instance toyAEADLaws : AEADLaws.
Proof.
  split.
  - intros key nonce plain data. cbn [Open Seal toyAEAD].
    assert (take (length (plain ++ toyTag key nonce plain data) - 16)
              (plain ++ toyTag key nonce plain data) = plain) as ->.
    { apply take_app_length'. unfold toyTag. rewrite length_app, length_replicate. lia. }
    by rewrite bool_decide_eq_true_2.
  - intros key nonce plain data. cbn [Seal toyAEAD]. rewrite blen_app. unfold toyTag, blen.
    rewrite length_replicate. done.
  - intros key nonce ct data plain. cbn [Open toyAEAD]. case_bool_decide as Hct; [|done].
    intros [= <-]. rewrite Hct at 1. rewrite blen_app. unfold toyTag, blen.
    rewrite length_replicate. done.
Qed.

Definition demoKey16 (b : byte) : bytes := replicate 16 b.
Definition demoNonce : bytes := replicate 12 x07.
Definition demoMsg : bytes := [x01; x02; x03].

Lemma encrypt_decrypt_roundtrip_witness :
  exists ct, encryptPayload 0 (demoKey16 x02) demoMsg [x41] demoNonce [] = Ok ct
    /\ decryptPayload [demoKey16 x01; demoKey16 x02] ct [x41] = Ret (Ok demoMsg).
Proof.
  apply (encrypt_decrypt_roundtrip [demoKey16 x01] [] (demoKey16 x02) demoMsg [x41] demoNonce 0);
    [by left|reflexivity|reflexivity|].
  constructor; [reflexivity|constructor].
Defined.

Lemma encrypted_size_witness :
  blen (x01 :: demoNonce ++ demoMsg ++ toyTag (demoKey16 x01) demoNonce demoMsg []) =
    encryptedLength 1 3
  /\ exists ov, encryptOverhead 1 = Ret ov
       /\ blen (x01 :: demoNonce ++ demoMsg ++ toyTag (demoKey16 x01) demoNonce demoMsg []) - 3 <= ov
       /\ (1 = 1 ->
           blen (x01 :: demoNonce ++ demoMsg ++ toyTag (demoKey16 x01) demoNonce demoMsg []) - 3 = ov).
Proof.
  apply (encrypted_size (demoKey16 x01) demoMsg [] demoNonce _ 1); [by right|reflexivity|reflexivity].
Defined.

Lemma stream_encryption_roundtrip_witness :
  exists out, encryptLocalState 5 (demoKey16 x02) demoMsg [x41] demoNonce
      = Ok (byte_of_Z encryptMsg :: out)
    /\ decryptRemoteState [demoKey16 x01; demoKey16 x02] out [x41] =
         if encryptedLength 1 3 >? maxPushStateBytes
         then Ret (Err (ErrStateTooLarge (encryptedLength 1 3))) else Ret (Ok demoMsg).
Proof.
  apply (stream_encryption_roundtrip [demoKey16 x01] [] (demoKey16 x02) demoMsg [x41] demoNonce 5);
    [reflexivity|reflexivity|vm_compute; discriminate|].
  constructor; [reflexivity|constructor].
Defined.

(** A version 0 message with a correct tag and a padding byte of 255. *)
Definition badPadding : bytes :=
  x00 :: demoNonce ++ replicate 16 xff
      ++ toyTag (demoKey16 x01) demoNonce (replicate 16 xff) [].

Lemma decryptPayload_panics_witness :
  exists key plain lastByte, key ∈ [demoKey16 x01]
    /\ head badPadding = Some x00
    /\ Open key (take 12 (drop 1 badPadding)) (drop 13 badPadding) [] = Some plain
    /\ last plain = Some lastByte /\ blen plain < Z_of_byte lastByte.
Proof.
  apply (decryptPayload_panics [demoKey16 x01] badPadding [] "slice bounds out of range").
  vm_compute. reflexivity.
Defined.

End Security.
