(* ===== verification/Lzw.v ===== *)
(** * Compression (util.go with compress/lzw)

    [compressPayload] and [decompressBuffer] run the LZW coder of Go's standard
    library, least significant bits first, with eight-bit literals. The writer
    and the reader are modelled at two levels, as they are in that library: the
    bit accumulator ([writeLSB], [readLSB]) and the code tables. The writer's
    hash table is a finite map from its keys; the reader's [prefix] and [suffix]
    arrays, always assigned together, are one map whose missing entries are zero. *)

From Stdlib Require Import ZArith Lia Strings.Byte.
From stdpp Require Import tactics base numbers strings gmap list.
From S2P Require Import Prelude.

Local Open Scope Z_scope.
Local Open Scope go_scope.

Module Lzw.

Definition lzwLitWidth : Z := 8.
Definition clearCode : Z := 2 ^ lzwLitWidth.
Definition eofCode : Z := clearCode + 1.
Definition maxWidth : Z := 12.
Definition maxCode : Z := 2 ^ 12 - 1.

(** ** The bit accumulator *)

(** Bytes written, and the bits that wait for a full byte. *)
Record bitWriter := mkBitWriter { written : bytes; wbits : Z; wnBits : Z }.

(** [for w.nBits >= 8 { WriteByte(uint8(w.bits)); w.bits >>= 8; w.nBits -= 8 }] *)
Fixpoint drain (n : nat) (w : bitWriter) : bitWriter :=
  match n with
  | O => w
  | S n' =>
      if wnBits w >=? 8
      then drain n' (mkBitWriter (written w ++ [byte_of_Z (wbits w)]) (Z.shiftr (wbits w) 8) (wnBits w - 8))
      else w
  end.

(** [writeLSB]: at most 7 bits wait and a code has at most 12, so two rounds of
    the loop are enough. *)
Definition writeLSB (c width : Z) (w : bitWriter) : bitWriter :=
  drain 2 (mkBitWriter (written w) (u32 (Z.lor (wbits w) (u32 (Z.shiftl c (wnBits w))))) (wnBits w + width)).

(** A code with the width it is written in. *)
Abbreviation code := (Z * Z)%type.

Definition writeCodes (cs : list code) (w : bitWriter) : bitWriter :=
  fold_left (fun w c => writeLSB c.1 c.2 w) cs w.

(** The final byte of [Close]. *)
Definition flush (w : bitWriter) : bytes :=
  if wnBits w >? 0 then written w ++ [byte_of_Z (wbits w)] else written w.

Definition packLSB (cs : list code) : bytes := flush (writeCodes cs (mkBitWriter [] 0 0)).

(** The reader's accumulator and the bytes that are left. *)
Record bitReader := mkBitReader { rest : bytes; rbits : Z; rnBits : Z }.

(** [for r.nBits < r.width { ... }]: [None] at the end of the input. *)
Fixpoint refill (width : Z) (bs : bytes) (bits nBits : Z) : option bitReader :=
  if nBits <? width then
    match bs with
    | [] => None
    | x :: bs' => refill width bs' (u32 (Z.lor bits (u32 (Z.shiftl (Z_of_byte x) nBits)))) (nBits + 8)
    end
  else Some (mkBitReader bs bits nBits).

Definition readLSB (width : Z) (r : bitReader) : option (Z * bitReader) :=
  match refill width (rest r) (rbits r) (rnBits r) with
  | None => None
  | Some r =>
      Some (u16 (Z.land (rbits r) (2 ^ width - 1)),
            mkBitReader (rest r) (Z.shiftr (rbits r) width) (rnBits r - width))
  end.

(** ** The writer *)

Record writer := mkWriter { width : Z; hi : Z; overflow : Z; table : gmap Z Z }.

Definition resetWriter : writer := mkWriter (lzwLitWidth + 1) (clearCode + 1) (Z.shiftl clearCode 1) ∅.

(** The hash key of a code and the next byte. *)
Definition key (c : Z) (x : byte) : Z := Z.lor (Z.shiftl c 8) (Z_of_byte x).

(** [incHi]: the clear code it may send, and whether the codes ran out. *)
Definition incHi (w : writer) : list code * bool * writer :=
  let hi' := hi w + 1 in
  let width' := if hi' =? overflow w then width w + 1 else width w in
  let overflow' := if hi' =? overflow w then Z.shiftl (overflow w) 1 else overflow w in
  if hi' =? maxCode then ([(clearCode, width')], true, resetWriter)
  else ([], false, mkWriter width' hi' overflow' (table w)).

(** [Write] from its loop on, for the code [c] matched so far, and [Close]. *)
Fixpoint encodeLoop (p : bytes) (c : Z) (w : writer) : list code :=
  match p with
  | [] =>
      let '(cl, _, w') := incHi w in
      (c, width w) :: cl ++ [(eofCode, width w')]
  | x :: p' =>
      match table w !! key c x with
      | Some c' => encodeLoop p' c' w
      | None =>
          let '(cl, full, w') := incHi w in
          let w'' := if full then w'
                     else mkWriter (width w') (hi w') (overflow w') (<[key c x := hi w']> (table w')) in
          (c, width w) :: cl ++ encodeLoop p' (Z_of_byte x) w''
      end
  end.

Definition encodeCodes (p : bytes) : list code :=
  match p with
  | [] => [(clearCode, width resetWriter); (eofCode, width resetWriter)]
  | x :: p' => (clearCode, width resetWriter) :: encodeLoop p' (Z_of_byte x) resetWriter
  end.

(** [lzw.NewWriter], one [Write] and [Close]. *)
Definition lzwWrite (p : bytes) : bytes := packLSB (encodeCodes p).

(** ** The reader *)

Inductive lzwErr := ErrUnexpectedEOF | ErrInvalidCode.

(** [last] is [None] for [decoderInvalidCode]. *)
Record reader := mkReader { rwidth : Z; rhi : Z; roverflow : Z; last : option Z; links : gmap Z (Z * byte) }.

Definition resetReader (ls : gmap Z (Z * byte)) : reader :=
  mkReader (1 + lzwLitWidth) eofCode (2 ^ (1 + lzwLitWidth)) None ls.

Definition link (ls : gmap Z (Z * byte)) (c : Z) : Z * byte :=
  match ls !! c with Some l => l | None => (0, x00) end.

(** The suffix chain of a code, first byte first; [None] when [fuel] runs out. *)
Fixpoint chain (fuel : nat) (ls : gmap Z (Z * byte)) (c : Z) (acc : bytes) : option bytes :=
  if c <? clearCode then Some (byte_of_Z c :: acc)
  else match fuel with
       | O => None
       | S fuel' => let '(p, s) := link ls c in chain fuel' ls p (s :: acc)
       end.

(** Every chain goes down to smaller codes, of which there are fewer than this. *)
Definition chainFuel : nat := 2 ^ 12.

Inductive decoded :=
| More (out : bytes) (r : reader)
| Finished
| Invalid.

(** The saved expansion of [hi]: [first] is the first byte of the current code. *)
Definition save (first : byte) (r : reader) : gmap Z (Z * byte) :=
  match last r with Some l => <[rhi r := (l, first)]> (links r) | None => links r end.

(** The end of the loop body: the next code gets a number, with the width that
    needs. *)
Definition advance (c : Z) (ls : gmap Z (Z * byte)) (r : reader) : outcome reader :=
  let hi' := rhi r + 1 in
  if hi' >=? roverflow r then
    if hi' >? roverflow r then Panic "unreachable"
    else if rwidth r =? maxWidth then Ret (mkReader (rwidth r) (hi' - 1) (roverflow r) None ls)
    else Ret (mkReader (rwidth r + 1) hi' (2 ^ (rwidth r + 1)) (Some c) ls)
  else Ret (mkReader (rwidth r) hi' (roverflow r) (Some c) ls).

(** The expansion of a code in the table: the code [hi] itself is the last
    expansion and its first byte again. *)
Definition expand (c : Z) (r : reader) : option bytes :=
  match last r with
  | Some l => if c =? rhi r
              then match chain chainFuel (links r) l [] with
                   | Some (x :: xs) => Some ((x :: xs) ++ [x])
                   | _ => None
                   end
              else chain chainFuel (links r) c []
  | None => chain chainFuel (links r) c []
  end.

Definition decodeCode (c : Z) (r : reader) : outcome decoded :=
  if c <? clearCode then
    let! r' := advance c (save (byte_of_Z c) r) r in Ret (More [byte_of_Z c] r')
  else if c =? clearCode then Ret (More [] (resetReader (links r)))
  else if c =? eofCode then Ret Finished
  else if c <=? rhi r then
    match expand c r with
    | Some (x :: xs) => let! r' := advance c (save x r) r in Ret (More (x :: xs) r')
    | _ => Panic "index out of range"
    end
  else Ret Invalid.

(** [decode] until it ends, as [io.Copy] calls it; the codes have more than eight
    bits, so the bytes of the input are enough fuel. *)
Fixpoint decodeLoop (fuel : nat) (b : bitReader) (r : reader) (acc : bytes) : outcome (res lzwErr bytes) :=
  match fuel with
  | O => Panic "out of fuel"
  | S fuel' =>
      match readLSB (rwidth r) b with
      | None => Ret (Err ErrUnexpectedEOF)
      | Some (c, b) =>
          let! d := decodeCode c r in
          match d with
          | More out r => decodeLoop fuel' b r (acc ++ out)
          | Finished => Ret (Ok acc)
          | Invalid => Ret (Err ErrInvalidCode)
          end
      end
  end.

(** [lzw.NewReader] and [io.Copy]. *)
Definition lzwRead (buf : bytes) : outcome (res lzwErr bytes) :=
  decodeLoop (S (length buf)) (mkBitReader buf 0 0) (resetReader ∅) [].

(** ** The bit accumulator as a number *)

(** Bytes as a little-endian number, and codes likewise. *)
Fixpoint le (b : bytes) : Z :=
  match b with [] => 0 | x :: b' => Z_of_byte x + 256 * le b' end.

Fixpoint pack (cs : list code) : Z :=
  match cs with [] => 0 | (c, w) :: cs' => c + 2 ^ w * pack cs' end.

Fixpoint total (cs : list code) : Z :=
  match cs with [] => 0 | (_, w) :: cs' => w + total cs' end.

(** A known stream: the usual example of GIF data. *)
Example lzwWrite_gif :
  map Z_of_byte (lzwWrite (map byte_of_Z [40; 255; 255; 255; 40; 255; 255; 255; 255; 255; 255; 255; 255; 255; 255]))
  = [0; 81; 252; 27; 40; 112; 160; 193; 131; 1; 1].
Proof. vm_compute. reflexivity. Qed.

Definition fits (c : code) : Prop := 0 <= c.1 < 2 ^ c.2 /\ 9 <= c.2 <= 12.

Lemma lor_shiftl a c n : 0 <= n -> 0 <= a < 2 ^ n -> Z.lor a (Z.shiftl c n) = a + c * 2 ^ n.
Proof.
  intros Hn Ha. rewrite Z.shiftl_mul_pow2 by done.
  assert (Hl : Z.land a (c * 2 ^ n) = 0).
  { apply Z.bits_inj'. intros i Hi. rewrite Z.land_spec, Z.bits_0.
    destruct (Z.lt_ge_cases i n) as [Hlt|Hge].
    - rewrite Z.mul_pow2_bits_low by done. apply andb_false_r.
    - rewrite <- (Z.mod_small a (2 ^ n)) by done. rewrite Z.mod_pow2_bits_high by lia. done. }
  rewrite <- Z.lxor_lor by done. symmetry. by apply Z.add_nocarry_lxor.
Qed.

(** Joining a low part of [n] bits and a high part of [m]. *)
Lemma join_bound a c n m : 0 <= n -> 0 <= m -> 0 <= a < 2 ^ n -> 0 <= c < 2 ^ m -> 0 <= a + c * 2 ^ n < 2 ^ (n + m).
Proof. intros Hn Hm Ha Hc. rewrite Z.pow_add_r by done. nia. Qed.

Lemma pow_le_u32 z n : 0 <= z < 2 ^ n -> n <= 32 -> u32 z = z.
Proof.
  intros Hz Hn. apply u32_small. pose proof (Z.pow_le_mono_r 2 n 32 ltac:(lia) Hn). unfold maxU32. lia.
Qed.

(** The accumulator step both sides make. *)
Lemma acc_step a c n m :
  0 <= n -> 0 <= m -> n + m <= 32 -> 0 <= a < 2 ^ n -> 0 <= c < 2 ^ m ->
  u32 (Z.lor a (u32 (Z.shiftl c n))) = a + c * 2 ^ n /\ 0 <= a + c * 2 ^ n < 2 ^ (n + m).
Proof.
  intros Hn Hm Hnm Ha Hc. pose proof (join_bound a c n m Hn Hm Ha Hc) as Hj.
  rewrite (pow_le_u32 (Z.shiftl c n) (n + m)); [|rewrite Z.shiftl_mul_pow2 by done; lia|done].
  rewrite lor_shiftl by done. split; [by apply (pow_le_u32 _ (n + m))|done].
Qed.

Lemma le_app a b : le (a ++ b) = le a + 2 ^ (8 * blen a) * le b.
Proof.
  induction a as [|x a IH]; [change (2 ^ (8 * blen [])) with 1; simpl; lia|]. simpl. rewrite IH, blen_cons.
  replace (8 * (1 + blen a)) with (8 + 8 * blen a) by lia. rewrite Z.pow_add_r by (pose proof (blen_nonneg a); lia).
  change (2 ^ 8) with 256. lia.
Qed.

Lemma pack_app cs ds : Forall fits cs -> pack (cs ++ ds) = pack cs + 2 ^ total cs * pack ds /\ 0 <= total cs.
Proof.
  induction 1 as [|[c w] cs Hf _ [IH Ht]]; [simpl; lia|]. simpl. unfold fits in Hf. simpl in Hf. rewrite IH.
  split; [|lia]. rewrite Z.pow_add_r by lia. lia.
Qed.

Lemma total_app cs ds : total (cs ++ ds) = total cs + total ds.
Proof. induction cs as [|[c w] cs IH]; simpl; lia. Qed.

(** The writer holds the codes [cs]. *)
Record holds (cs : list code) (w : bitWriter) : Prop := {
  h_value : le (written w) + 2 ^ (8 * blen (written w)) * wbits w = pack cs;
  h_total : 8 * blen (written w) + wnBits w = total cs;
  h_bits : 0 <= wbits w < 2 ^ wnBits w;
  h_nBits : 0 <= wnBits w
}.

Lemma holds_drain n cs w : holds cs w -> wnBits w < 8 * (1 + Z.of_nat n) ->
  holds cs (drain n w) /\ wnBits (drain n w) < 8.
Proof.
  revert w. induction n as [|n IH]; intros w Hh Hn; [simpl; split; [done|lia]|]. simpl.
  destruct (Z.geb_spec (wnBits w) 8) as [Hge|]; [|by split].
  apply IH; [|simpl; lia]. destruct Hh as [Hv Ht Hb Hn0]. pose proof (blen_nonneg (written w)).
  assert (E8 : 2 ^ wnBits w = 2 ^ 8 * 2 ^ (wnBits w - 8)) by (rewrite <- Z.pow_add_r by lia; f_equal; lia).
  split; simpl; [| | |lia].
  - rewrite <- Hv, le_app, blen_app. simpl. rewrite Z_of_byte_of_Z, Z.shiftr_div_pow2 by lia.
    replace (8 * (blen (written w) + blen [byte_of_Z (wbits w)])) with (8 * blen (written w) + 8) by (unfold blen; simpl; lia).
    rewrite Z.pow_add_r by lia. change (2 ^ 8) with 256. pose proof (Z.div_mod (wbits w) 256). nia.
  - rewrite <- Ht, blen_app. unfold blen. simpl. lia.
  - rewrite Z.shiftr_div_pow2 by lia. split; [apply Z.div_pos; lia|]. apply Z.div_lt_upper_bound; lia.
Qed.

Lemma holds_write cs w c wd :
  Forall fits cs -> holds cs w -> wnBits w < 8 -> fits (c, wd) ->
  holds (cs ++ [(c, wd)]) (writeLSB c wd w) /\ wnBits (writeLSB c wd w) < 8.
Proof.
  intros Hcs [Hv Ht Hb Hn] Hlt [Hc Hwd]. simpl in Hc, Hwd.
  destruct (acc_step (wbits w) c (wnBits w) wd) as [E Hj]; try lia. unfold writeLSB. rewrite E.
  apply holds_drain; [|simpl; lia]. destruct (pack_app cs [(c, wd)] Hcs) as [Ep Htc].
  split; simpl; [| | |lia].
  - rewrite Ep. simpl. rewrite <- Hv, <- Ht. pose proof (blen_nonneg (written w)).
    rewrite Z.pow_add_r by lia. lia.
  - rewrite total_app. simpl. lia.
  - lia.
Qed.

Lemma holds_writeCodes ds cs w :
  Forall fits cs -> Forall fits ds -> holds cs w -> wnBits w < 8 ->
  holds (cs ++ ds) (writeCodes ds w) /\ wnBits (writeCodes ds w) < 8.
Proof.
  intros Hcs Hds. revert cs w Hcs. induction Hds as [|[c wd] ds Hd _ IH]; intros cs w Hcs Hh Hlt.
  - by rewrite app_nil_r.
  - destruct (holds_write cs w c wd Hcs Hh Hlt Hd) as [Hh' Hlt'].
    change ((c, wd) :: ds) with ([(c, wd)] ++ ds). rewrite app_assoc. apply IH; [|done|done].
    apply Forall_app. split; [done|by constructor].
Qed.

(** What [packLSB] writes, as a number. *)
Lemma packLSB_value cs : Forall fits cs -> le (packLSB cs) = pack cs /\ total cs <= 8 * blen (packLSB cs).
Proof.
  intros Hcs. destruct (holds_writeCodes cs [] (mkBitWriter [] 0 0)) as [[Hv Ht Hb Hn] Hlt];
    [done|done|by split|done|]. unfold packLSB, flush. simpl in *.
  destruct (Z.gtb_spec (wnBits (writeCodes cs (mkBitWriter [] 0 0))) 0) as [Hpos|Hz].
  - rewrite le_app, blen_app. simpl. rewrite Z_of_byte_of_Z, Z.mod_small, Z.mul_0_r, Z.add_0_r.
    + split; [done|]. unfold blen in *. simpl. lia.
    + split; [lia|]. eapply Z.lt_le_trans; [apply Hb|]. change 256 with (2 ^ 8). apply Z.pow_le_mono_r; lia.
  - replace (wnBits _) with 0 in * by lia. change (2 ^ 0) with 1 in Hb.
    replace (wbits _) with 0 in * by lia. split; [lia|]. lia.
Qed.

(** The reader has the number [v] in front of it, in [avail] bits. *)
Record ahead (v avail : Z) (r : bitReader) : Prop := {
  a_value : rbits r + 2 ^ rnBits r * le (rest r) = v;
  a_avail : rnBits r + 8 * blen (rest r) = avail;
  a_bits : 0 <= rbits r < 2 ^ rnBits r;
  a_nBits : 0 <= rnBits r < 8
}.

Lemma refill_spec wd bs bits nBits :
  9 <= wd <= 12 -> 0 <= nBits < wd + 8 -> 0 <= bits < 2 ^ nBits ->
  if wd <=? nBits + 8 * blen bs then
    exists r, refill wd bs bits nBits = Some r /\ rbits r + 2 ^ rnBits r * le (rest r) = bits + 2 ^ nBits * le bs /\
      rnBits r + 8 * blen (rest r) = nBits + 8 * blen bs /\ 0 <= rbits r < 2 ^ rnBits r /\ wd <= rnBits r < wd + 8
  else refill wd bs bits nBits = None.
Proof.
  intros Hwd. revert bits nBits. induction bs as [|x bs IH]; intros bits nBits Hn Hb; simpl.
  - rewrite blen_nil. destruct (Z.ltb_spec nBits wd); destruct (Z.leb_spec wd (nBits + 8 * 0)); try done; try lia.
    eexists. split; [done|]. simpl. rewrite blen_nil. split_and!; lia.
  - rewrite blen_cons. destruct (Z.ltb_spec nBits wd) as [Hlt|Hge].
    + destruct (acc_step bits (Z_of_byte x) nBits 8) as [E Hj]; try lia.
      { pose proof (Z_of_byte_range x). lia. }
      rewrite E. specialize (IH (bits + Z_of_byte x * 2 ^ nBits) (nBits + 8) ltac:(lia) Hj).
      replace (nBits + 8 + 8 * blen bs) with (nBits + 8 * (1 + blen bs)) in IH by lia.
      destruct (wd <=? nBits + 8 * (1 + blen bs)); [|done]. destruct IH as (r & Er & Hv & Ha & Hbr & Hnr).
      exists r. split_and!; try done; [|lia|lia|lia..]. rewrite Hv, Z.pow_add_r by lia. lia.
    + destruct (Z.leb_spec wd (nBits + 8 * (1 + blen bs))); [|pose proof (blen_nonneg bs); lia].
      eexists. split; [done|]. simpl. rewrite blen_cons. split_and!; lia.
Qed.

Lemma readLSB_spec v avail wd b :
  ahead v avail b -> 9 <= wd <= 12 ->
  if wd <=? avail then exists b', readLSB wd b = Some (v mod 2 ^ wd, b') /\ ahead (v / 2 ^ wd) (avail - wd) b'
  else readLSB wd b = None.
Proof.
  intros [Hv Ha Hb Hn] Hwd. pose proof (refill_spec wd (rest b) (rbits b) (rnBits b) Hwd ltac:(lia) Hb) as Hr.
  rewrite Ha in Hr. unfold readLSB. destruct (wd <=? avail); [|by rewrite Hr].
  destruct Hr as (r & -> & Hvr & Har & Hbr & Hnr).
  assert (E : 2 ^ rnBits r = 2 ^ wd * 2 ^ (rnBits r - wd)) by (rewrite <- Z.pow_add_r by lia; f_equal; lia).
  pose proof (Z.pow_pos_nonneg 2 wd ltac:(lia) ltac:(lia)) as Hp.
  assert (Hdiv : v = 2 ^ wd * (rbits r / 2 ^ wd + 2 ^ (rnBits r - wd) * le (rest r)) + rbits r mod 2 ^ wd).
  { rewrite <- Hv, <- Hvr, E. pose proof (Z.div_mod (rbits r) (2 ^ wd) ltac:(lia)). nia. }
  pose proof (Z.mod_pos_bound (rbits r) (2 ^ wd) Hp) as Hm.
  eexists. split.
  - f_equal. f_equal. replace (2 ^ wd - 1) with (Z.ones wd) by (rewrite Z.ones_equiv; lia).
    rewrite Z.land_ones by lia. rewrite (Z.mod_unique v (2 ^ wd) _ (rbits r mod 2 ^ wd) (or_introl Hm) Hdiv).
    apply u16_small. pose proof (Z.pow_le_mono_r 2 wd 16 ltac:(lia) ltac:(lia)).
    rewrite <- (Z.mod_unique v (2 ^ wd) _ (rbits r mod 2 ^ wd) (or_introl Hm) Hdiv). lia.
  - rewrite <- (Z.div_unique v (2 ^ wd) _ (rbits r mod 2 ^ wd) (or_introl Hm) Hdiv).
    split; simpl; rewrite ?Z.shiftr_div_pow2 by lia; try lia.
    split; [apply Z.div_pos; lia|]. apply Z.div_lt_upper_bound; lia.
Qed.

(** ** Codes *)

(** The reader in state [r] turns the codes into [out] and then sees the end. *)
Inductive plays : reader -> list code -> bytes -> Prop :=
| plays_eof r : fits (eofCode, rwidth r) -> plays r [(eofCode, rwidth r)] []
| plays_more r c cs out out' r' :
    fits (c, rwidth r) -> decodeCode c r = Ret (More out r') -> plays r' cs out' ->
    plays r ((c, rwidth r) :: cs) (out ++ out').

Lemma plays_fits r cs out : plays r cs out -> Forall fits cs.
Proof. induction 1; repeat constructor; auto; apply H. Qed.

Lemma total_length cs : Forall fits cs -> 9 * Z.of_nat (length cs) <= total cs.
Proof. induction 1 as [|[c w] cs [_ Hw] _ IH]; simpl in *; lia. Qed.

(** Reading the packed codes. *)
Lemma plays_decode r cs out :
  plays r cs out -> forall fuel b avail acc,
  ahead (pack cs) avail b -> total cs <= avail -> (length cs <= fuel)%nat ->
  decodeLoop fuel b r acc = Ret (Ok (acc ++ out)).
Proof.
  induction 1 as [r [Hf Hw]|r c cs out out' r' [Hf Hw] Hd Hp IH]; intros fuel b avail acc Ha Ht Hl;
    (destruct fuel as [|fuel]; [simpl in Hl; lia|]); simpl in Hf, Hw, Ht |- *;
    pose proof (readLSB_spec _ _ (rwidth r) _ Ha Hw) as Hr.
  - rewrite (proj2 (Z.leb_le _ _)) in Hr by lia. destruct Hr as (b' & -> & _).
    simpl (pack _). rewrite Z.mul_0_r, Z.add_0_r, Z.mod_small by done. simpl. by rewrite app_nil_r.
  - apply plays_fits in Hp as Hfs. pose proof (total_length cs Hfs).
    rewrite (proj2 (Z.leb_le _ _)) in Hr by lia. destruct Hr as (b' & -> & Ha'). simpl (pack _) in *.
    assert (Hp2 : 2 ^ rwidth r <> 0) by (apply Z.pow_nonzero; lia).
    rewrite (Z.mul_comm (2 ^ rwidth r)), Z.div_add, Z.div_small in Ha' by done.
    rewrite (Z.mul_comm (2 ^ rwidth r)), Z.mod_add, Z.mod_small by done.
    rewrite Hd. simpl. rewrite (IH fuel b' (avail - rwidth r) (acc ++ out)), app_assoc; [done|done|lia|simpl in Hl; lia].
Qed.

(** ** Expansions *)

(** A code in use: a literal or a number up to [h]. *)
Definition used (h c : Z) : Prop := 0 <= c < clearCode \/ eofCode < c <= h.

Inductive expands (g : gmap Z (Z * byte)) : Z -> bytes -> Prop :=
| ex_lit c : 0 <= c < clearCode -> expands g c [byte_of_Z c]
| ex_link c p s l : eofCode < c -> g !! c = Some (p, s) -> p < c -> expands g p l -> expands g c (l ++ [s]).

Lemma expands_chain g c l : expands g c l -> forall fuel acc,
  c < clearCode + Z.of_nat fuel -> chain fuel g c acc = Some (l ++ acc).
Proof.
  induction 1 as [c Hc|c p s l Hc Hg Hp _ IH]; intros fuel acc Hf.
  - destruct fuel; simpl; by rewrite (proj2 (Z.ltb_lt _ _)) by lia.
  - destruct fuel as [|fuel]; [unfold eofCode in *; lia|]. simpl.
    rewrite (proj2 (Z.ltb_ge _ _)) by (unfold eofCode in *; lia). unfold link. rewrite Hg, IH by lia.
    by rewrite <- app_assoc.
Qed.

Lemma expands_byte g x : expands g (Z_of_byte x) [x].
Proof.
  pose proof (Z_of_byte_range x). pose proof (ex_lit g (Z_of_byte x)) as He. rewrite byte_of_Z_of_byte in He.
  apply He. unfold clearCode, lzwLitWidth. lia.
Qed.

Lemma used_byte h x : used h (Z_of_byte x).
Proof. left. pose proof (Z_of_byte_range x). unfold clearCode, lzwLitWidth. lia. Qed.

Lemma chainFuel_enough c : c < maxCode -> c < clearCode + Z.of_nat chainFuel.
Proof. change (Z.of_nat chainFuel) with 4096. unfold maxCode, clearCode, lzwLitWidth. lia. Qed.

(** Only the links up to the code matter. *)
Lemma expands_agree g g' c l :
  expands g c l -> (forall k, k <= c -> g' !! k = g !! k) -> expands g' c l.
Proof.
  induction 1 as [c Hc|c p s l Hc Hg Hp _ IH]; intros Hag; [by constructor|].
  econstructor; [done|by rewrite Hag by lia|done|]. apply IH. intros k Hk. apply Hag. lia.
Qed.

Lemma expands_nonempty g c l : expands g c l -> exists x xs, l = x :: xs.
Proof. destruct 1 as [|c p s l]; [eauto|]. destruct l; eauto. Qed.

Lemma key_inj c x c' x' : 0 <= c -> 0 <= c' -> key c x = key c' x' -> c = c' /\ x = x'.
Proof.
  intros Hc Hc'. unfold key. rewrite !(Z.lor_comm (Z.shiftl _ _)).
  rewrite !lor_shiftl by (try lia; change (2 ^ 8) with 256; apply Z_of_byte_range). change (2 ^ 8) with 256. intros E.
  pose proof (Z_of_byte_range x). pose proof (Z_of_byte_range x').
  assert (c = c') as -> by lia. split; [done|]. rewrite <- (byte_of_Z_of_byte x), <- (byte_of_Z_of_byte x').
  f_equal. lia.
Qed.

(** ** The writer and the reader in step *)

(** The writer has matched the code [c], which stands for [x0 :: xs]; the reader
    has seen all codes but that one. Its table, with the entry it will save when
    it sees [c], explains every code of the writer. *)
Record sync (w : writer) (r : reader) (c : Z) (x0 : byte) (xs : bytes) : Prop := {
  s_width : rwidth r = width w;
  s_hi : rhi r = hi w;
  s_over : overflow w = 2 ^ width w;
  s_rover : roverflow r = 2 ^ width w;
  s_wide : 9 <= width w <= 12;
  s_below : eofCode <= hi w < overflow w;
  s_max : hi w < maxCode;
  s_last : match last r with Some l => eofCode < hi w /\ used (hi w - 1) l | None => hi w = eofCode end;
  s_links : forall k, eofCode < k <= hi w -> exists p s, save x0 r !! k = Some (p, s) /\ used (k - 1) p;
  s_table : forall c' x k, 0 <= c' -> table w !! key c' x = Some k ->
    eofCode < k <= hi w /\ used (k - 1) c' /\ save x0 r !! k = Some (c', x);
  s_used : used (hi w) c;
  s_exp : expands (save x0 r) c (x0 :: xs)
}.

(** The reader sees the matched code. *)
Lemma sync_expand w r c x0 xs :
  sync w r c x0 xs -> clearCode <= c -> expand c r = Some (x0 :: xs).
Proof.
  intros [] Hc. assert (Hcr : eofCode < c <= hi w) by (destruct s_used0; lia).
  unfold expand, save in *. destruct (last r) as [l|] eqn:El; [|lia].
  assert (Hlinks : forall d e, d < rhi r -> expands (<[rhi r := (l, x0)]> (links r)) d e -> expands (links r) d e).
  { intros d e Hd He. eapply expands_agree; [exact He|]. intros k Hk. rewrite lookup_insert_ne by lia. done. }
  destruct (Z.eqb_spec c (rhi r)) as [->|Hne].
  - inversion s_exp0 as [|c' p s l' Hc' Hg Hp He Ec Ex]; subst; [lia|].
    rewrite lookup_insert_eq in Hg. injection Hg as <- <-.
    apply Hlinks in He; [|done]. rewrite (expands_chain _ _ _ He) by (apply chainFuel_enough; lia).
    destruct (expands_nonempty _ _ _ He) as (y & ys & ->). simpl in *.
    injection Ex as -> <-. by rewrite app_nil_r.
  - apply Hlinks in s_exp0; [|lia]. rewrite (expands_chain _ _ _ s_exp0) by (apply chainFuel_enough; lia).
    by rewrite app_nil_r.
Qed.

(** The state of the reader after that. *)
Definition nextReader (c : Z) (x0 : byte) (w : writer) (r : reader) : reader :=
  let over := hi w + 1 =? overflow w in
  mkReader (if over then width w + 1 else width w) (hi w + 1)
    (if over then 2 ^ (width w + 1) else 2 ^ width w) (Some c) (save x0 r).

Lemma sync_decode w r c x0 xs :
  sync w r c x0 xs -> fits (c, rwidth r) /\ decodeCode c r = Ret (More (x0 :: xs) (nextReader c x0 w r)).
Proof.
  intros Hs. pose proof (sync_expand _ _ _ _ _ Hs) as He. destruct Hs. split.
  { unfold fits. simpl. rewrite s_width0. destruct s_used0; unfold eofCode, clearCode, lzwLitWidth in *; lia. }
  assert (Hadv : forall ls, advance c ls r = Ret (mkReader (if hi w + 1 =? overflow w then width w + 1 else width w)
            (hi w + 1) (if hi w + 1 =? overflow w then 2 ^ (width w + 1) else 2 ^ width w) (Some c) ls)).
  { intros ls. unfold advance. rewrite s_hi0, s_rover0, <- s_over0, s_width0.
    destruct (Z.geb_spec (hi w + 1) (overflow w)), (Z.gtb_spec (hi w + 1) (overflow w)),
      (Z.eqb_spec (hi w + 1) (overflow w)); try lia; [|by rewrite s_over0].
    destruct (Z.eqb_spec (width w) maxWidth) as [Ew|]; [|done]. rewrite Ew in s_over0. unfold maxCode, maxWidth in *. lia. }
  unfold decodeCode, nextReader. destruct (Z.ltb_spec c clearCode) as [Hlit|Hlit].
  - inversion s_exp0 as [c' Hc' Ec Ex|c' p s l Hc' Hg Hp Hl Ec Ex]; subst; [|unfold eofCode in *; lia].
    rewrite Hadv. done.
  - assert (Hcr : eofCode < c <= hi w) by (destruct s_used0; lia).
    rewrite (proj2 (Z.eqb_neq _ _)) by (unfold eofCode in *; lia). rewrite (proj2 (Z.eqb_neq c eofCode)) by lia.
    rewrite (proj2 (Z.leb_le _ _)) by lia. rewrite He by done. by rewrite Hadv.
Qed.

(** After a clear code everything starts again with a literal. *)
Lemma sync_reset ls x : sync resetWriter (resetReader ls) (Z_of_byte x) x [].
Proof.
  split; try done; simpl; try (unfold eofCode, clearCode, lzwLitWidth, maxCode; simpl; lia).
  - apply used_byte.
  - apply expands_byte.
Qed.

(** ... or the writer gives the pair of the code and the next byte a number. *)
Lemma sync_next w r c x0 xs x :
  sync w r c x0 xs -> hi w + 1 <> maxCode ->
  let over := hi w + 1 =? overflow w in
  sync (mkWriter (if over then width w + 1 else width w) (hi w + 1)
          (if over then Z.shiftl (overflow w) 1 else overflow w) (<[key c x := hi w + 1]> (table w)))
       (nextReader c x0 w r) (Z_of_byte x) x [].
Proof.
  intros [] Hm over.
  assert (Hc0 : 0 <= c) by (destruct s_used0; unfold eofCode, clearCode in *; lia).
  assert (Hwide : over = true -> width w <= 11).
  { intros Ho. apply Z.eqb_eq in Ho. destruct (decide (width w = 12)) as [E|]; [|lia].
    rewrite E in s_over0. unfold maxCode in *. lia. }
  assert (Hin : forall k, k <= hi w -> <[hi w + 1 := (c, x)]> (save x0 r) !! k = save x0 r !! k).
  { intros k Hk. apply lookup_insert_ne. lia. }
  split; simpl; try done.
  - destruct over; [|done]. rewrite s_over0, Z.shiftl_mul_pow2, <- Z.pow_add_r by lia. done.
  - unfold over. by destruct (hi w + 1 =? overflow w).
  - destruct over; [specialize (Hwide eq_refl)|]; lia.
  - unfold over. destruct (Z.eqb_spec (hi w + 1) (overflow w)); rewrite ?Z.shiftl_mul_pow2 by lia; lia.
  - lia.
  - split; [lia|]. destruct s_used0; [by left|right; lia].
  - intros k Hk. unfold save at 1. simpl. destruct (decide (k = hi w + 1)) as [->|Hne].
    + rewrite lookup_insert_eq. exists c, x. split; [done|]. destruct s_used0; [by left|right; lia].
    + rewrite Hin by lia. apply s_links0. lia.
  - intros c' y k Hc' Hk. unfold save at 1. simpl.
    apply lookup_insert_Some in Hk as [[Hkey <-]|[_ Hk]].
    + apply key_inj in Hkey as [<- <-]; [|done..]. rewrite lookup_insert_eq. split; [lia|].
      split; [destruct s_used0; [by left|right; lia]|done].
    + destruct (s_table0 c' y k Hc' Hk) as (Hr & Hu & Hg). split; [lia|]. split; [done|]. by rewrite Hin by lia.
  - apply used_byte.
  - apply expands_byte.
Qed.

(** The width stays within twelve bits. *)
Lemma sync_width_next w r c x0 xs : sync w r c x0 xs -> 9 <= rwidth (nextReader c x0 w r) <= 12.
Proof.
  intros []. simpl. destruct (Z.eqb_spec (hi w + 1) (overflow w)) as [E|]; [|lia].
  destruct (decide (width w = 12)) as [E12|]; [|lia]. rewrite E12 in s_over0. unfold maxCode in *. lia.
Qed.

(** The writer's codes make the reader say what the writer read. *)
Lemma sync_plays p : forall c w r x0 xs,
  sync w r c x0 xs -> plays r (encodeLoop p c w) ((x0 :: xs) ++ p).
Proof.
  assert (Heof : forall r, 9 <= rwidth r <= 12 -> plays r [(eofCode, rwidth r)] []).
  { intros r Hr. constructor. split; [|done]. simpl.
    pose proof (Z.pow_le_mono_r 2 9 (rwidth r) ltac:(lia) ltac:(lia)). unfold eofCode, clearCode, lzwLitWidth. lia. }
  assert (Hclear : forall r cs out, 9 <= rwidth r <= 12 -> plays (resetReader (links r)) cs out ->
            plays r ((clearCode, rwidth r) :: cs) out).
  { intros r cs out Hr Hp. apply (plays_more r clearCode cs [] out (resetReader (links r))); [|done|done].
    split; [|done]. simpl.
    pose proof (Z.pow_le_mono_r 2 9 (rwidth r) ltac:(lia) ltac:(lia)). unfold clearCode, lzwLitWidth. lia. }
  induction p as [|x p IH]; intros c w r x0 xs Hs; simpl;
    pose proof (sync_decode w r c x0 xs Hs) as [Hfit Hdec];
    assert (Hnw : 9 <= rwidth (nextReader c x0 w r) <= 12)
      by (pose proof (sync_width_next _ _ _ _ _ Hs); done).
  - unfold incHi. destruct (Z.eqb_spec (hi w + 1) maxCode) as [Hm|Hm]; simpl; replace (c, width w) with (c, rwidth r) by (by rewrite (s_width _ _ _ _ _ Hs)).
    + apply (plays_more r c _ (x0 :: xs) [] _ Hfit Hdec). apply (Hclear (nextReader c x0 w r)); [done|]. by apply Heof.
    + apply (plays_more r c _ (x0 :: xs) [] _ Hfit Hdec). by apply (Heof (nextReader c x0 w r)).
  - destruct (table w !! key c x) as [k|] eqn:Ek.
    + rewrite app_comm_cons, cons_middle, app_assoc. apply IH.
      destruct Hs. destruct (s_table0 c x k) as (Hk & Hu & Hg); [|done|].
      { destruct s_used0; unfold eofCode, clearCode, lzwLitWidth in *; lia. }
      split; try done; [right; lia|]. eapply (ex_link _ k c x (x0 :: xs)); [lia|done|destruct Hu; unfold eofCode in *; lia|done].
    + unfold incHi. destruct (Z.eqb_spec (hi w + 1) maxCode) as [Hm|Hm]; simpl; replace (c, width w) with (c, rwidth r) by (by rewrite (s_width _ _ _ _ _ Hs)).
      * apply (plays_more r c _ (x0 :: xs) (x :: p) _ Hfit Hdec). apply (Hclear (nextReader c x0 w r)); [done|].
        apply (IH _ _ _ x []), sync_reset.
      * apply (plays_more r c _ (x0 :: xs) (x :: p) _ Hfit Hdec). apply (IH _ _ _ x []). by apply (sync_next w r c x0 xs x).
Qed.

(** ** The decoder always ends *)

(** Links go down, so chains end; and the counters stay within the tables. *)
Record sound (r : reader) : Prop := {
  d_links : forall k p s, links r !! k = Some (p, s) -> 0 <= p < k;
  d_width : 9 <= rwidth r <= 12;
  d_over : roverflow r = 2 ^ rwidth r;
  d_hi : eofCode <= rhi r < roverflow r;
  d_last : forall l, last r = Some l -> 0 <= l < rhi r
}.

Lemma chain_total ls fuel c acc :
  (forall k p s, ls !! k = Some (p, s) -> 0 <= p < k) -> 0 <= c < clearCode + Z.of_nat fuel ->
  exists x xs, chain fuel ls c acc = Some (x :: xs).
Proof.
  intros Hls. revert c acc. induction fuel as [|fuel IH]; intros c acc Hc; simpl.
  - rewrite (proj2 (Z.ltb_lt _ _)) by lia. eauto.
  - destruct (Z.ltb_spec c clearCode) as [|Hge]; [eauto|]. unfold link.
    destruct (ls !! c) as [[p s]|] eqn:E; apply IH; [apply Hls in E; lia|unfold clearCode, lzwLitWidth in *; lia].
Qed.

Lemma advance_sound c ls r :
  sound r -> (forall k p s, ls !! k = Some (p, s) -> 0 <= p < k) -> 0 <= c <= rhi r ->
  exists r', advance c ls r = Ret r' /\ sound r'.
Proof.
  intros [] Hls Hc. unfold advance.
  destruct (Z.geb_spec (rhi r + 1) (roverflow r)), (Z.gtb_spec (rhi r + 1) (roverflow r)); try lia.
  - unfold maxWidth. destruct (Z.eqb_spec (rwidth r) 12); eexists; (split; [done|]); split; simpl; try done; try lia.
    + rewrite Z.pow_add_r by lia. lia.
    + intros l [= <-]. lia.
  - eexists. split; [done|]. split; simpl; try done; [lia|]. intros l [= <-]. lia.
Qed.

Lemma save_sound x r : sound r -> forall k p s, save x r !! k = Some (p, s) -> 0 <= p < k.
Proof.
  intros [] k p s. unfold save. destruct (last r) as [l|] eqn:E; [|apply d_links0].
  intros [[<- [= <- <-]]|[_ Hk]]%lookup_insert_Some; [by apply d_last0|by eapply d_links0].
Qed.

Lemma expand_total c r : sound r -> 0 <= c <= rhi r -> exists x xs, expand c r = Some (x :: xs).
Proof.
  intros [] Hc.
  assert (Hf : forall d, 0 <= d <= rhi r -> 0 <= d < clearCode + Z.of_nat chainFuel).
  { intros d Hd. change (Z.of_nat chainFuel) with 4096. unfold clearCode, lzwLitWidth.
    pose proof (Z.pow_le_mono_r 2 (rwidth r) 12 ltac:(lia) ltac:(lia)). lia. }
  unfold expand. destruct (last r) as [l|] eqn:El; [destruct (c =? rhi r)|];
    [|by apply chain_total; [|apply Hf]..].
  destruct (chain_total (links r) chainFuel l []) as (x & xs & ->); [done| |simpl; eauto].
  apply Hf. specialize (d_last0 l eq_refl). lia.
Qed.

Lemma decodeCode_sound c r :
  sound r -> 0 <= c -> exists d, decodeCode c r = Ret d /\ (forall out r', d = More out r' -> sound r').
Proof.
  intros Hs Hc. unfold decodeCode. destruct (Z.ltb_spec c clearCode) as [Hlit|].
  { destruct (advance_sound c (save (byte_of_Z c) r) r Hs (save_sound _ r Hs)) as (r' & -> & Hr');
      [destruct Hs; unfold eofCode in *; lia|]. eexists. split; [done|]. by intros out r2 [= <- <-]. }
  destruct (Z.eqb_spec c clearCode).
  { eexists. split; [done|]. intros out r' [= <- <-]. destruct Hs. split; simpl; try done;
      unfold eofCode, clearCode, lzwLitWidth; lia. }
  destruct (Z.eqb_spec c eofCode); [by eexists|].
  destruct (Z.leb_spec c (rhi r)) as [Hle|]; [|by eexists].
  destruct (expand_total c r Hs) as (x & xs & ->); [lia|].
  destruct (advance_sound c (save x r) r Hs (save_sound _ r Hs)) as (r' & -> & Hr'); [lia|].
  eexists. split; [done|]. by intros out r2 [= <- <-].
Qed.

Lemma decodeLoop_total fuel : forall v avail b r acc,
  sound r -> ahead v avail b -> avail < 9 * Z.of_nat fuel -> exists x, decodeLoop fuel b r acc = Ret x.
Proof.
  induction fuel as [|fuel IH]; intros v avail b r acc Hs Ha Hf.
  { destruct Ha as [_ <- _ ?]. pose proof (blen_nonneg (rest b)). lia. }
  simpl. pose proof (readLSB_spec _ _ (rwidth r) _ Ha (d_width _ Hs)) as Hr.
  destruct (Z.leb_spec (rwidth r) avail) as [Hle|]; [|rewrite Hr; eauto]. destruct Hr as (b' & -> & Ha').
  destruct (decodeCode_sound (v mod 2 ^ rwidth r) r Hs) as (d & -> & Hd).
  { apply Z.mod_pos_bound, Z.pow_pos_nonneg; [lia|]. destruct Hs. lia. }
  simpl. destruct d as [out r'| |]; [|eauto..]. eapply IH; [by eapply Hd|exact Ha'|]. destruct Hs. lia.
Qed.

Lemma ahead_start buf : ahead (le buf) (8 * blen buf) (mkBitReader buf 0 0).
Proof. split; simpl; lia. Qed.

Lemma sound_start : sound (resetReader ∅).
Proof.
  split; simpl; try done; try (unfold eofCode, clearCode, lzwLitWidth; lia).
Qed.

Lemma lzwRead_total buf : exists r, lzwRead buf = Ret r.
Proof.
  unfold lzwRead. eapply decodeLoop_total; [apply sound_start|apply ahead_start|]. unfold blen. lia.
Qed.

Lemma lzwRead_write p : lzwRead (lzwWrite p) = Ret (Ok p).
Proof.
  assert (Hp : plays (resetReader ∅) (encodeCodes p) p).
  { destruct p as [|x p]; simpl.
    - apply (plays_more (resetReader ∅) clearCode [(eofCode, 9)] [] [] (resetReader ∅)); [done|done|].
      by apply (plays_eof (resetReader ∅)).
    - apply (plays_more (resetReader ∅) clearCode _ [] (x :: p) (resetReader ∅)); [done|done|].
      apply (sync_plays p _ _ _ x []), sync_reset. }
  pose proof (plays_fits _ _ _ Hp) as Hf. destruct (packLSB_value _ Hf) as [Hv Ht].
  pose proof (total_length _ Hf). unfold lzwRead.
  apply (plays_decode _ _ _ Hp (S (length (lzwWrite p))) _ (8 * blen (lzwWrite p)) []).
  - rewrite <- Hv. apply ahead_start.
  - done.
  - unfold lzwWrite, blen in *. lia.
Qed.

End Lzw.
