(* ===== verification/Queue.v ===== *)
(** * The transmit-limited broadcast queue (queue.go)

    Messages waiting to be gossiped, ordered by how often they were sent, then
    by size, then by age. The ordered tree is google/btree, a package outside
    this repository: it is the interface [BTree], with its documented behaviour
    as the laws [BTreeLaws]. A [Broadcast] is any type with the methods of the
    Go interface; calls of [Finished] are returned in the order they happen.
    The mutex makes every operation a function on the queue. *)

From Stdlib Require Import ZArith Lia Strings.Byte Sorting.Sorted.
From stdpp Require Import tactics base numbers strings gmap list.
From S2P Require Import Prelude Timing Compound.

Local Open Scope Z_scope.

Module Queue.

(** ** Broadcasts *)

(** The optional interfaces, in the order the type switches test them. *)
Inductive bkind :=
| Named (name : string)
| Unique
| Plain.

(** The methods of [Broadcast]. *)
Class Broadcast (B : Type) := {
  Invalidates : B -> B -> bool;
  Message : B -> bytes;
  kindOf : B -> bkind
}.

(** The ordering key of a queued broadcast. *)
Record lkey := mkKey { kTransmits : Z; kMsgLen : Z; kId : Z }.

#[global] Instance lkey_eq_dec : EqDecision lkey.
Proof. solve_decision. Defined.

Record limitedBroadcast (B : Type) := mkLB {
  transmits : Z;
  msgLen : Z;
  id : Z;
  b : B;
  name : string
}.

Arguments mkLB {B} _ _ _ _ _.
Arguments transmits {B} _.
Arguments msgLen {B} _.
Arguments id {B} _.
Arguments b {B} _.
Arguments name {B} _.

Definition keyOf {B} (l : limitedBroadcast B) : lkey := mkKey (transmits l) (msgLen l) (id l).

(** [Less]: fewer transmissions first, then longer, then newer. *)
Definition lessKey (x y : lkey) : bool :=
  if kTransmits x <? kTransmits y then true
  else if kTransmits x >? kTransmits y then false
  else if kMsgLen x >? kMsgLen y then true
  else if kMsgLen x <? kMsgLen y then false
  else kId x >? kId y.

Definition Less {B} (x y : limitedBroadcast B) : bool := lessKey (keyOf x) (keyOf y).

(** ** The ordered tree *)

(** The calls of github.com/google/btree that the queue makes. An iteration
    with a callback is given by the items it visits, in order. *)
Class BTree (B T : Type) := {
  btNew : T;
  btReplaceOrInsert : limitedBroadcast B -> T -> T;
  btDelete : limitedBroadcast B -> T -> T;
  btLen : T -> Z;
  btMin : T -> option (limitedBroadcast B);
  btMax : T -> option (limitedBroadcast B);
  btAscend : T -> list (limitedBroadcast B);
  btDescend : T -> list (limitedBroadcast B);
  btAscendRange : lkey -> lkey -> T -> list (limitedBroadcast B)
}.

(** Insertion into an ordered list, replacing an item with an equal key. *)
Definition insertItem {B} (x : limitedBroadcast B) (l : list (limitedBroadcast B)) :=
  filter (fun y => Less y x = true) l ++ x :: filter (fun y => Less x y = true) l.

(** The documented behaviour: a new tree is empty; insertion keeps the order
    and replaces an equal item; deletion removes the item equal to the argument;
    the range iteration visits the items in [[lo, hi)] in order. *)
Class BTreeLaws (B T : Type) `{BTree B T} : Prop := {
  btNew_items : btAscend (B := B) btNew = [];
  btInsert_items : forall x (t : T), btAscend (btReplaceOrInsert x t) = insertItem x (btAscend t);
  btDelete_items : forall x (t : T),
    btAscend (btDelete x t) = filter (fun y => keyOf y <> keyOf x) (btAscend t);
  btLen_items : forall t : T, btLen t = Z.of_nat (length (btAscend t));
  btMin_items : forall t : T, btMin t = head (btAscend t);
  btMax_items : forall t : T, btMax t = last (btAscend t);
  btDescend_items : forall t : T, btDescend t = reverse (btAscend t);
  btRange_items : forall lo hi (t : T),
    btAscendRange lo hi t =
      filter (fun y => lessKey (keyOf y) lo = false /\ lessKey (keyOf y) hi = true) (btAscend t)
}.

(** ** The queue *)

Section Queue.

Context {B T : Type} `{!Broadcast B} `{!BTree B T}.

Abbreviation LB := (limitedBroadcast B).

(** [tq] is [nil] until the first message and after [Reset]. *)
Record TransmitLimitedQueue := mkQueue {
  RetransmitMult : Z;
  tq : option T;
  tm : gmap string LB;
  idGen : Z
}.

Definition newQueue (mult : Z) : TransmitLimitedQueue := mkQueue mult None ∅ 0.

Definition lazyInit (q : TransmitLimitedQueue) : TransmitLimitedQueue :=
  match tq q with
  | None => mkQueue (RetransmitMult q) (Some btNew) (tm q) (idGen q)
  | Some _ => q
  end.

(** The items in transmit order. *)
Definition items (q : TransmitLimitedQueue) : list LB :=
  match tq q with None => [] | Some t => btAscend t end.

Definition lenLocked (q : TransmitLimitedQueue) : Z :=
  match tq q with None => 0 | Some t => btLen (B := B) t end.

Definition NumQueued (q : TransmitLimitedQueue) : Z := lenLocked q.

Definition orderedView (reverse : bool) (q : TransmitLimitedQueue) : list LB :=
  match tq q with
  | None => []
  | Some t => if btLen (B := B) t =? 0 then [] else if reverse then btDescend t else btAscend t
  end.

(** [walkReadOnlyLocked]: [f] gives the new state of its closure, the item as it
    leaves it, and whether to go on; it must not change the key of the item. *)
Fixpoint walkItems {A : Type} (f : LB -> A -> A * LB * bool) (l : list LB) (a : A) : outcome A :=
  match l with
  | [] => Ret a
  | cur :: l =>
      let '(a, cur', keepGoing) := f cur a in
      if negb (bool_decide (keyOf cur' = keyOf cur)) then Panic "edited queue while walking read only"
      else if keepGoing then walkItems f l a else Ret a
  end.

Definition walkReadOnlyLocked {A : Type} (reverse : bool) (f : LB -> A -> A * LB * bool) (q : TransmitLimitedQueue) (a : A) :
    outcome A :=
  match tq q with
  | None => Ret a
  | Some t => if btLen (B := B) t =? 0 then Ret a else walkItems f (if reverse then btDescend t else btAscend t) a
  end.

(** [deleteItem]: out of the tree and the name map; an empty queue restarts the
    id generator. *)
Definition deleteItem (cur : LB) (q : TransmitLimitedQueue) : TransmitLimitedQueue :=
  match tq q with
  | None => q
  | Some t =>
      let t' := btDelete cur t in
      {| RetransmitMult := RetransmitMult q;
         tq := Some t';
         tm := if bool_decide (name cur = EmptyString) then tm q else delete (name cur) (tm q);
         idGen := if btLen (B := B) t' =? 0 then 0 else idGen q |}
  end.

Definition addItem (cur : LB) (q : TransmitLimitedQueue) : TransmitLimitedQueue :=
  match tq q with
  | None => q
  | Some t =>
      {| RetransmitMult := RetransmitMult q;
         tq := Some (btReplaceOrInsert cur t);
         tm := if bool_decide (name cur = EmptyString) then tm q else <[name cur := cur]> (tm q);
         idGen := idGen q |}
  end.

(** [q.idGen++], restarting at 1 from the largest [int64]. *)
Definition nextId (q : TransmitLimitedQueue) : Z :=
  if idGen q =? maxI64 then 1 else idGen q + 1.

Definition setIdGen (i : Z) (q : TransmitLimitedQueue) : TransmitLimitedQueue :=
  mkQueue (RetransmitMult q) (tq q) (tm q) i.

(** The slow path: ordinary broadcasts that the new one invalidates. *)
Definition slowPathHit (bc : B) (cur : LB) : bool :=
  match kindOf (b cur) with
  | Named _ | Unique => false
  | Plain => Invalidates bc (b cur)
  end.

Definition invalidated (bc : B) (q : TransmitLimitedQueue) : list LB :=
  filter (fun cur => slowPathHit bc cur = true) (items q).

(** [queueBroadcast]: the new queue and the broadcasts it finishes. *)
Definition queueBroadcast (bc : B) (initialTransmits : Z) (q : TransmitLimitedQueue) :
    TransmitLimitedQueue * list B :=
  let q := lazyInit q in
  let newid := nextId q in
  let q := setIdGen newid q in
  let nm := match kindOf bc with Named n => n | _ => EmptyString end in
  let unique := match kindOf bc with Unique => true | _ => false end in
  let lb := mkLB initialTransmits (blen (Message bc)) newid bc nm in
  let '(q, finished) :=
    if bool_decide (nm <> EmptyString) then
      match tm q !! nm with
      | Some old => (deleteItem old q, [b old])
      | None => (q, [])
      end
    else if negb unique then
      let remove := invalidated bc q in
      (fold_left (fun q cur => deleteItem cur q) remove q, map b remove)
    else (q, []) in
  (addItem lb q, finished).

Definition QueueBroadcast (bc : B) (q : TransmitLimitedQueue) := queueBroadcast bc 0 q.

(** [getTransmitRange]. *)
Definition getTransmitRange (q : TransmitLimitedQueue) : Z * Z :=
  match tq q with
  | None => (0, 0)
  | Some t =>
      if btLen (B := B) t =? 0 then (0, 0)
      else match btMin t, btMax t with
           | Some mn, Some mx => (transmits (B := B) mn, transmits (B := B) mx)
           | _, _ => (0, 0)
           end
  end.

(** The item the search of one round finds: the first of the tier that fits. *)
Definition findKeep (tier free : Z) (q : TransmitLimitedQueue) : option LB :=
  match tq q with
  | None => None
  | Some t =>
      let greaterOrEqual := mkKey tier free maxI64 in
      let lessThan := mkKey (tier + 1) maxI64 maxI64 in
      List.find (fun cur => negb (blen (Message (b cur)) >? free))
        (btAscendRange greaterOrEqual lessThan t)
  end.

(** What the loop of [GetBroadcasts] accumulates. *)
Record gbState := mkGB {
  gbQueue : TransmitLimitedQueue;
  bytesUsed : Z;
  toSend : list bytes;
  reinsert : list LB;
  gbFinished : list B
}.

Definition bump (l : LB) : LB := mkLB (transmits l + 1) (msgLen l) (id l) (b l) (name l).

(** One round that found [keep]. *)
Definition takeItem (overhead transmitLimit : Z) (keep : LB) (s : gbState) : gbState :=
  let msg := Message (b keep) in
  let q := deleteItem keep (gbQueue s) in
  if transmits keep + 1 >=? transmitLimit then
    {| gbQueue := q; bytesUsed := bytesUsed s + (overhead + blen msg);
       toSend := toSend s ++ [msg]; reinsert := reinsert s;
       gbFinished := gbFinished s ++ [b keep] |}
  else
    {| gbQueue := q; bytesUsed := bytesUsed s + (overhead + blen msg);
       toSend := toSend s ++ [msg]; reinsert := reinsert s ++ [bump keep];
       gbFinished := gbFinished s |}.

(** The loop: [None] when the fuel runs out. *)
Fixpoint gbLoop (fuel : nat) (overhead limit transmitLimit tier maxTr : Z) (s : gbState) :
    option gbState :=
  match fuel with
  | O => None
  | S fuel' =>
      if tier <=? maxTr then
        let free := limit - bytesUsed s - overhead in
        if free <=? 0 then Some s
        else
          match findKeep tier free (gbQueue s) with
          | None => gbLoop fuel' overhead limit transmitLimit (tier + 1) maxTr s
          | Some keep =>
              gbLoop fuel' overhead limit transmitLimit tier maxTr
                (takeItem overhead transmitLimit keep s)
          end
      else Some s
  end.

(** Rounds that are always enough: one per queued item and one per tier. *)
Definition gbFuel (q : TransmitLimitedQueue) : nat :=
  let '(minTr, maxTr) := getTransmitRange q in
  (length (items q) + Z.to_nat (maxTr - minTr + 1) + 1)%nat.

Definition GetBroadcastsFuel (fuel : nat) (overhead limit numNodes : Z) (q : TransmitLimitedQueue) :
    option (list bytes * TransmitLimitedQueue * list B) :=
  if lenLocked q =? 0 then Some ([], q, [])
  else
    let transmitLimit := Timing.retransmitLimit (RetransmitMult q) numNodes in
    let '(minTr, maxTr) := getTransmitRange q in
    match gbLoop fuel overhead limit transmitLimit minTr maxTr (mkGB q 0 [] [] []) with
    | None => None
    | Some s =>
        Some (toSend s, fold_left (fun q cur => addItem cur q) (reinsert s) (gbQueue s), gbFinished s)
    end.

Definition GetBroadcasts (overhead limit numNodes : Z) (q : TransmitLimitedQueue) :=
  GetBroadcastsFuel (gbFuel q) overhead limit numNodes q.

(** [Reset] finishes everything and forgets the tree. *)
Definition Reset (q : TransmitLimitedQueue) : TransmitLimitedQueue * list B :=
  (mkQueue (RetransmitMult q) None ∅ 0, map b (orderedView false q)).

(** The loop of [Prune]. *)
Fixpoint pruneLoop (fuel : nat) (maxRetain : Z) (q : TransmitLimitedQueue) (fin : list B) :
    option (TransmitLimitedQueue * list B) :=
  match fuel with
  | O => None
  | S fuel' =>
      if lenLocked q >? maxRetain then
        match tq q with
        | None => Some (q, fin)
        | Some t =>
            match btMax t with
            | None => Some (q, fin)
            | Some cur => pruneLoop fuel' maxRetain (deleteItem cur q) (fin ++ [b cur])
            end
        end
      else Some (q, fin)
  end.

(** [Prune] calls [q.tq.Len()] without [lazyInit]: a [nil] tree panics. *)
Definition Prune (maxRetain : Z) (q : TransmitLimitedQueue) :
    outcome (option (TransmitLimitedQueue * list B)) :=
  match tq q with
  | None => Panic "nil pointer dereference"
  | Some _ => Ret (pruneLoop (S (length (items q))) maxRetain q [])
  end.

End Queue.

Arguments TransmitLimitedQueue : clear implicits.
Arguments gbState : clear implicits.


(** ** The member list's own broadcasts (broadcast.go) *)

(** [notify] is a channel; [Finished] sends on it without blocking. *)
Record memberlistBroadcast := mkMB {
  node : string;
  msg : bytes;
  notify : option nat
}.

#[global] Instance memberlistBroadcast_eq_dec : EqDecision memberlistBroadcast.
Proof. solve_decision. Defined.

#[global] Instance memberlistBroadcast_Broadcast : Broadcast memberlistBroadcast := {
  Invalidates := fun x other => bool_decide (node x = node other);
  Message := msg;
  kindOf := fun x => Named (node x)
}.

Abbreviation userMsgOverhead := Compound.userMsgOverhead.

Definition frameUserMsg (m : bytes) : bytes := byte_of_Z Compound.userMsg :: m.

(** [getBroadcasts]: gossip messages first, then the delegate's, framed, in the
    space that is left. [delegate] is [GetBroadcasts(overhead, limit)] of the
    user's delegate, if there is one. *)
Definition getBroadcasts {T} `{!BTree memberlistBroadcast T} (delegate : option (Z -> Z -> list bytes))
    (overhead limit numNodes : Z) (q : TransmitLimitedQueue memberlistBroadcast T) :
    option (list bytes * TransmitLimitedQueue memberlistBroadcast T * list memberlistBroadcast) :=
  match GetBroadcasts overhead limit numNodes q with
  | None => None
  | Some (toSend, q', fin) =>
      match delegate with
      | None => Some (toSend, q', fin)
      | Some d =>
          let bytesUsed := fold_left (fun n m => n + (blen m + overhead)) toSend 0 in
          let avail := limit - bytesUsed in
          if avail >? overhead + userMsgOverhead then
            Some (toSend ++ map frameUserMsg (d (overhead + userMsgOverhead) avail), q', fin)
          else Some (toSend, q', fin)
      end
  end.

(** ** The order *)

Lemma lessKey_iff x y :
  lessKey x y = true <->
    kTransmits x < kTransmits y \/
    (kTransmits x = kTransmits y /\
      (kMsgLen y < kMsgLen x \/ (kMsgLen x = kMsgLen y /\ kId y < kId x))).
Proof. unfold lessKey. repeat case_match; zify_bool; lia. Qed.

Lemma lessKey_not x y : lessKey x y = false <-> lessKey y x = true \/ x = y.
Proof.
  rewrite <- not_true_iff_false, !lessKey_iff. destruct x as [a1 l1 i1], y as [a2 l2 i2]. simpl.
  split.
  - intros Hn. destruct (decide (a1 = a2 /\ l1 = l2 /\ i1 = i2)) as [(-> & -> & ->)|]; [by right|left; lia].
  - intros [?|[= -> -> ->]]; lia.
Qed.

Lemma lessKey_irrefl x : lessKey x x = false.
Proof. apply lessKey_not. by right. Qed.

Lemma lessKey_trans x y z : lessKey x y = true -> lessKey y z = true -> lessKey x z = true.
Proof. rewrite !lessKey_iff. lia. Qed.

Section Order.

Context {B : Type}.

Implicit Types x y : limitedBroadcast B.
Implicit Types l : list (limitedBroadcast B).

(** Strictly increasing in the queue's order. *)
Definition sortedItems l : Prop := StronglySorted (fun x y => Less x y = true) l.

Lemma sorted_filter (P : limitedBroadcast B -> Prop) `{!forall x, Decision (P x)} l :
  sortedItems l -> sortedItems (filter P l).
Proof.
  induction 1 as [|x l Hs IH Hx]; [constructor|]. rewrite filter_cons. case_decide; [|done].
  constructor; [done|]. apply Forall_filter_sub, Hx.
Qed.

Lemma sorted_app l1 l2 :
  sortedItems l1 -> sortedItems l2 -> (forall x y, x ∈ l1 -> y ∈ l2 -> Less x y = true) ->
  sortedItems (l1 ++ l2).
Proof.
  induction 1 as [|x l Hs IH Hx]; [done|]. intros H2 H. simpl. constructor.
  - apply IH; [done|]. intros a c Ha. apply H. by right.
  - apply Forall_app. split; [done|]. apply Forall_forall. intros y Hy. apply H; [by left|done].
Qed.

Lemma insertItem_sorted x l : sortedItems l -> sortedItems (insertItem x l).
Proof.
  intros Hl. unfold insertItem. apply sorted_app; [by apply sorted_filter| |].
  - constructor; [by apply sorted_filter|].
    apply Forall_forall. intros y [? _]%list_elem_of_filter. done.
  - intros a c [Ha _]%list_elem_of_filter [->|[Hc _]%list_elem_of_filter]%elem_of_cons; [done|].
    by apply lessKey_trans with (keyOf x).
Qed.

Lemma sorted_key_inj l x y : sortedItems l -> x ∈ l -> y ∈ l -> keyOf x = keyOf y -> x = y.
Proof.
  induction 1 as [|z l Hs IH Hz]; [by intros ?%elem_of_nil|].
  rewrite Forall_forall in Hz. intros [->|Hx]%elem_of_cons [->|Hy]%elem_of_cons Hk; auto.
  - apply Hz in Hy. unfold Less in Hy. by rewrite Hk, lessKey_irrefl in Hy.
  - apply Hz in Hx. unfold Less in Hx. by rewrite Hk, lessKey_irrefl in Hx.
Qed.

Lemma sorted_NoDup l : sortedItems l -> NoDup l.
Proof.
  induction 1 as [|z l Hs IH Hz]; constructor; [|done]. intros Hin. rewrite Forall_forall in Hz.
  apply Hz in Hin. unfold Less in Hin. by rewrite lessKey_irrefl in Hin.
Qed.

Lemma elem_of_insertItem x y l : y ∈ insertItem x l <-> y = x \/ (y ∈ l /\ keyOf y <> keyOf x).
Proof.
  unfold insertItem. rewrite elem_of_app, elem_of_cons, !list_elem_of_filter. unfold Less.
  split.
  - intros [[Hl Hy]|[->|[Hl Hy]]]; [|by left|]; right; (split; [done|]); intros Hk;
      by rewrite Hk, lessKey_irrefl in Hl.
  - intros [->|[Hy Hk]]; [by right; left|].
    destruct (lessKey (keyOf y) (keyOf x)) eqn:E; [by left|].
    apply lessKey_not in E as [E|E]; [by right; right|done].
Qed.

Lemma insertItem_perm x l :
  sortedItems l -> (forall y, y ∈ l -> keyOf y <> keyOf x) -> insertItem x l ≡ₚ x :: l.
Proof.
  intros Hs Hf. apply NoDup_Permutation.
  - apply sorted_NoDup, insertItem_sorted, Hs.
  - constructor; [intros Hx; by apply (Hf x)|by apply sorted_NoDup].
  - intros y. rewrite elem_of_insertItem, elem_of_cons. split; [intros [->|[? _]]; auto|intros [->|?]; auto].
Qed.

Lemma delete_perm x l :
  sortedItems l -> x ∈ l -> l ≡ₚ x :: filter (fun y => keyOf y <> keyOf x) l.
Proof.
  intros Hs Hx. apply NoDup_Permutation.
  - by apply sorted_NoDup.
  - constructor; [by intros [? _]%list_elem_of_filter|]. by apply sorted_NoDup, sorted_filter.
  - intros y. rewrite elem_of_cons, list_elem_of_filter. split.
    + intros Hy. destruct (decide (keyOf y = keyOf x)) as [E|]; [left|by right].
      by apply sorted_key_inj with l.
    + by intros [->|[_ ?]].
Qed.

End Order.

(** ** The queue invariant *)

Section Inv.

Context {B T : Type} `{!Broadcast B} `{!BTree B T} `{!BTreeLaws B T}.

Abbreviation Q := (TransmitLimitedQueue B T).
Abbreviation LB := (limitedBroadcast B).

Implicit Types q : Q.

Definition nameOf (bc : B) : string := match kindOf bc with Named n => n | _ => EmptyString end.

(** A queued item describes its broadcast, within the widths of its fields. *)
Record itemOk (x : LB) : Prop := {
  ok_len : msgLen x = blen (Message (b x));
  ok_lenMax : msgLen x <= maxI64;
  ok_name : name x = nameOf (b x);
  ok_id : id x <= maxI64
}.

(** The names in use. *)
Definition names (l : list LB) : list string := filter (fun n => n <> EmptyString) (map name l).

(** The name map holds exactly the named items of the tree. *)
Definition tmOk q : Prop :=
  forall n x, tm q !! n = Some x <-> n <> EmptyString /\ x ∈ items q /\ name x = n.

Record wf q : Prop := {
  wf_sorted : sortedItems (items q);
  wf_ids : NoDup (map id (items q));
  wf_tm : tmOk q;
  wf_items : Forall itemOk (items q)
}.

Lemma items_lazyInit q : items (lazyInit q) = items q.
Proof. unfold lazyInit, items. destruct (tq q) eqn:E; simpl; [by rewrite E|apply btNew_items]. Qed.

Lemma walkItems_collects {A : Type} (g : LB -> A) l acc :
  walkItems (fun cur a => (a ++ [g cur], cur, true)) l acc = Ret (acc ++ map g l).
Proof.
  revert acc. induction l as [|x l IH]; intros acc; simpl; [by rewrite app_nil_r|].
  rewrite bool_decide_eq_true_2 by done. simpl. by rewrite IH, <- app_assoc.
Qed.

(** [orderedView] and [Reset] are walks. *)
Lemma walk_orderedView reverse q :
  walkReadOnlyLocked reverse (fun cur l => (l ++ [cur], cur, true)) q [] = Ret (orderedView reverse q).
Proof.
  unfold walkReadOnlyLocked, orderedView. destruct (tq q) as [t|]; [|done]. destruct (_ =? 0); [done|].
  rewrite (walkItems_collects (fun x => x)). by rewrite map_id.
Qed.

Lemma walk_Reset q :
  walkReadOnlyLocked false (fun cur fin => (fin ++ [b cur], cur, true)) q [] = Ret (Reset q).2.
Proof.
  unfold Reset, walkReadOnlyLocked, orderedView. simpl. destruct (tq q) as [t|]; [|done]. destruct (_ =? 0); [done|].
  by rewrite (walkItems_collects b).
Qed.

Lemma lenLocked_items q : lenLocked q = Z.of_nat (length (items q)).
Proof. unfold lenLocked, items. destruct (tq q); [apply btLen_items|done]. Qed.

Lemma items_deleteItem x q : items (deleteItem x q) = filter (fun y => keyOf y <> keyOf x) (items q).
Proof. unfold deleteItem, items. destruct (tq q) eqn:E; simpl; [apply btDelete_items|by rewrite E]. Qed.

Lemma items_addItem x q : is_Some (tq q) -> items (addItem x q) = insertItem x (items q).
Proof. intros [t E]. unfold addItem, items. rewrite E. apply btInsert_items. Qed.

Lemma inited_deleteItem x q : is_Some (tq q) -> is_Some (tq (deleteItem x q)).
Proof. intros [t E]. unfold deleteItem. rewrite E. simpl. eauto. Qed.

Lemma inited_addItem x q : is_Some (tq q) -> is_Some (tq (addItem x q)).
Proof. intros [t E]. unfold addItem. rewrite E. simpl. eauto. Qed.

Lemma inited_items q x : x ∈ items q -> is_Some (tq q).
Proof. unfold items. destruct (tq q); [eauto|by intros ?%elem_of_nil]. Qed.

Lemma names_unique q x y :
  tmOk q -> x ∈ items q -> y ∈ items q -> name x = name y -> name x <> EmptyString -> x = y.
Proof.
  intros Htm Hx Hy Hn Hne.
  assert (Ex : tm q !! name x = Some x) by (apply Htm; auto).
  assert (Ey : tm q !! name x = Some y) by (apply Htm; auto).
  congruence.
Qed.

Lemma elem_of_deleteItem x y q :
  sortedItems (items q) -> x ∈ items q ->
  y ∈ items (deleteItem x q) <-> y ∈ items q /\ y <> x.
Proof.
  intros Hs Hx. rewrite items_deleteItem, list_elem_of_filter. split.
  - intros [Hk Hy]. split; [done|]. by intros ->.
  - intros [Hy Hne]. split; [|done]. intros Hk. by apply Hne, (sorted_key_inj (items q)).
Qed.

Lemma tm_deleteItem x q :
  is_Some (tq q) ->
  tm (deleteItem x q) = if bool_decide (name x = EmptyString) then tm q else delete (name x) (tm q).
Proof. intros [t E]. unfold deleteItem. by rewrite E. Qed.

Lemma tm_addItem x q :
  is_Some (tq q) ->
  tm (addItem x q) = if bool_decide (name x = EmptyString) then tm q else <[name x := x]> (tm q).
Proof. intros [t E]. unfold addItem. by rewrite E. Qed.

Lemma tmOk_deleteItem x q :
  sortedItems (items q) -> tmOk q -> x ∈ items q -> tmOk (deleteItem x q).
Proof.
  intros Hs Htm Hx n y. rewrite elem_of_deleteItem, tm_deleteItem by eauto using inited_items.
  case_bool_decide as Hn.
  - rewrite (Htm n y). split; [|tauto]. intros (Hne & Hy & <-). split_and!; auto. by intros ->.
  - rewrite lookup_delete_Some, (Htm n y). split.
    + intros (Hne & ? & ? & <-). split_and!; auto. by intros ->.
    + intros (Hne & [Hy Hxy] & <-). split_and!; auto.
      intros E. by apply Hxy, (names_unique q); rewrite <- ?E.
Qed.

Lemma tmOk_addItem x q :
  is_Some (tq q) -> tmOk q ->
  (forall y, y ∈ items q -> keyOf y <> keyOf x) ->
  (name x <> EmptyString -> forall y, y ∈ items q -> name y <> name x) ->
  tmOk (addItem x q).
Proof.
  intros Hi Htm Hk Hn n y. rewrite tm_addItem, items_addItem, elem_of_insertItem by done.
  case_bool_decide as Hx.
  - rewrite (Htm n y). split.
    + intros (? & ? & ?). split_and!; auto.
    + intros (? & [->|[? ?]] & ?); [congruence|auto].
  - rewrite lookup_insert_Some, (Htm n y). split.
    + intros [[<- <-]|(Hne & ? & ? & <-)]; split_and!; auto.
    + intros (Hne & [->|[Hy _]] & <-); [by left|right]. split_and!; auto.
      intros E. by apply (Hn Hx y).
Qed.

Lemma wf_newQueue mult : wf (newQueue mult).
Proof.
  split; unfold items; simpl; try constructor.
  - done.
  - by intros (_ & ?%elem_of_nil & _).
Qed.

Lemma wf_lazyInit q : wf q -> wf (lazyInit q).
Proof.
  intros [Hs Hid Htm Hit]. split; rewrite ?items_lazyInit; auto.
  intros n x. rewrite items_lazyInit. rewrite <- (Htm n x). unfold lazyInit. by destruct (tq q).
Qed.

Lemma wf_setIdGen i q : wf q -> wf (setIdGen i q).
Proof. by intros [Hs Hid Htm Hit]. Qed.

Lemma ids_sub (P : LB -> Prop) `{!forall x, Decision (P x)} l :
  NoDup (map id l) -> NoDup (map id (filter P l)).
Proof. intros Hn. apply (sublist_NoDup _ _ Hn), fmap_sublist, sublist_filter. Qed.

Lemma wf_deleteItem x q : wf q -> x ∈ items q -> wf (deleteItem x q).
Proof.
  intros [Hs Hid Htm Hit] Hx. split.
  - rewrite items_deleteItem. by apply sorted_filter.
  - rewrite items_deleteItem. by apply ids_sub.
  - by apply tmOk_deleteItem.
  - rewrite items_deleteItem. by apply Forall_filter_sub.
Qed.

Lemma wf_addItem x q :
  wf q -> is_Some (tq q) -> itemOk x ->
  (forall y, y ∈ items q -> id y <> id x) ->
  (name x <> EmptyString -> forall y, y ∈ items q -> name y <> name x) ->
  wf (addItem x q) /\ items (addItem x q) ≡ₚ x :: items q.
Proof.
  intros [Hs Hid Htm Hit] Hi Hx Hfid Hfn.
  assert (Hk : forall y, y ∈ items q -> keyOf y <> keyOf x).
  { intros y Hy Hk. apply (Hfid y Hy). by injection Hk. }
  assert (Hp : items (addItem x q) ≡ₚ x :: items q).
  { rewrite items_addItem by done. by apply insertItem_perm. }
  split; [|done]. split.
  - rewrite items_addItem by done. by apply insertItem_sorted.
  - rewrite Hp. simpl. constructor; [|done].
    intros (y & Hy & Hin)%list_elem_of_fmap. by apply (Hfid y).
  - by apply tmOk_addItem.
  - rewrite Hp. by constructor.
Qed.

(** ** The transmission loop *)

Implicit Types st : gbState B T.

(** Bytes that messages take with an overhead each. *)
Definition sizeOf (overhead : Z) (msgs : list bytes) : Z :=
  fold_right (fun m n => overhead + blen m + n) 0 msgs.

Lemma sizeOf_app ov m1 m2 : sizeOf ov (m1 ++ m2) = sizeOf ov m1 + sizeOf ov m2.
Proof. induction m1; simpl; lia. Qed.

Lemma sizeOf_nonneg ov m : 0 <= ov -> 0 <= sizeOf ov m.
Proof. intros. induction m as [|x m IH]; simpl; [lia|]. pose proof (blen_nonneg x). lia. Qed.

Definition msgOf (x : LB) : bytes := Message (b x).

Lemma findKeep_Some tier free q x :
  findKeep tier free q = Some x ->
  x ∈ items q /\ blen (msgOf x) <= free /\ (itemOk x -> transmits x = tier).
Proof.
  unfold findKeep, items. destruct (tq q) as [t|]; [|done].
  intros [Hin Hlen]%find_some. rewrite btRange_items in Hin.
  apply list_elem_of_In, list_elem_of_filter in Hin as [[Hge Hlt] Hin]. zify_bool.
  split_and!; [done|unfold msgOf; lia|]. intros [Hm Hmax Hn Hi].
  rewrite lessKey_iff in Hlt. rewrite <- not_true_iff_false, lessKey_iff in Hge. simpl in *. lia.
Qed.

Lemma findKeep_None tier free q x :
  findKeep tier free q = None -> x ∈ items q -> itemOk x -> transmits x = tier -> free < msgLen x.
Proof.
  unfold findKeep, items. destruct (tq q) as [t|]; [|by intros _ ?%elem_of_nil].
  intros Hf Hin [Hm Hmax Hn Hi] Ht. destruct (Z.lt_ge_cases free (msgLen x)) as [|Hge]; [done|].
  apply (find_none _ _) with (x := x) in Hf; [|apply list_elem_of_In; rewrite btRange_items; apply list_elem_of_filter; split].
  - apply negb_false_iff in Hf. zify_bool. lia.
  - rewrite <- not_true_iff_false, !lessKey_iff. simpl. lia.
  - done.
Qed.

(** The rounds between two states of the loop sent the items [sent], in order. *)
Record transmitted (ov tl : Z) (st st' : gbState B T) (sent : list LB) : Prop := {
  tr_items : items (gbQueue st) ≡ₚ items (gbQueue st') ++ sent;
  tr_send : toSend st' = toSend st ++ map msgOf sent;
  tr_again : reinsert st' = reinsert st ++ map bump (filter (fun x => transmits x + 1 < tl) sent);
  tr_done : gbFinished st' = gbFinished st ++ map b (filter (fun x => tl <= transmits x + 1) sent);
  tr_bytes : bytesUsed st' = bytesUsed st + sizeOf ov (map msgOf sent)
}.

Lemma transmitted_nil ov tl st : transmitted ov tl st st [].
Proof. split; simpl; rewrite ?app_nil_r; [done..|lia]. Qed.

Lemma takeItem_queue ov tl x st : gbQueue (takeItem ov tl x st) = deleteItem x (gbQueue st).
Proof. unfold takeItem. by case_match. Qed.

Lemma transmitted_take ov tl x st st' sent :
  wf (gbQueue st) -> x ∈ items (gbQueue st) ->
  transmitted ov tl (takeItem ov tl x st) st' sent -> transmitted ov tl st st' (x :: sent).
Proof.
  intros [Hs _ _ _] Hx [Hi Hsend Ha Hd Hb]. rewrite takeItem_queue, items_deleteItem in Hi. split.
  - rewrite <- Permutation_middle, <- Hi. by apply delete_perm.
  - rewrite Hsend. unfold takeItem. case_match; simpl; by rewrite <- app_assoc.
  - rewrite Ha, filter_cons. unfold takeItem. case_match; zify_bool; case_decide; try lia; simpl;
      by rewrite <- ?app_assoc.
  - rewrite Hd, filter_cons. unfold takeItem. case_match; zify_bool; case_decide; try lia; simpl;
      by rewrite <- ?app_assoc.
  - rewrite Hb. unfold takeItem. case_match; simpl; unfold msgOf; lia.
Qed.

Lemma gbLoop_spec fuel ov lim tl tier maxTr st st' :
  gbLoop fuel ov lim tl tier maxTr st = Some st' -> wf (gbQueue st) ->
  exists sent, transmitted ov tl st st' sent /\ wf (gbQueue st') /\
    (is_Some (tq (gbQueue st)) -> is_Some (tq (gbQueue st'))) /\
    Forall (fun x => tier <= transmits x) sent /\ StronglySorted Z.le (map transmits sent).
Proof.
  revert tier st. induction fuel as [|fuel IH]; [done|]. intros tier st Hl Hwf. simpl in Hl.
  assert (Hstop : Some st = Some st' -> exists sent, transmitted ov tl st st' sent /\
    wf (gbQueue st') /\ (is_Some (tq (gbQueue st)) -> is_Some (tq (gbQueue st'))) /\
    Forall (fun x => tier <= transmits x) sent /\ StronglySorted Z.le (map transmits sent)).
  { intros [= <-]. exists []. split_and!; auto using transmitted_nil. constructor. }
  case_match; [|auto]. case_match; [auto|].
  destruct (findKeep tier _ (gbQueue st)) as [x|] eqn:Hk.
  - apply findKeep_Some in Hk as (Hx & _ & Ht).
    assert (transmits x = tier) by (apply Ht, (Forall_forall itemOk (items (gbQueue st))); [apply Hwf|done]).
    destruct (IH _ _ Hl) as (sent & Htr & Hwf' & Hin & Hall & Hso).
    { rewrite takeItem_queue. by apply wf_deleteItem. }
    exists (x :: sent). split_and!; auto using transmitted_take.
    + rewrite takeItem_queue in Hin. auto using inited_deleteItem.
    + constructor; [lia|done].
    + simpl. constructor; [done|]. apply Forall_map. by replace (transmits x) with tier by lia.
  - destruct (IH _ _ Hl Hwf) as (sent & Htr & Hwf' & Hin & Hall & Hso).
    exists sent. split_and!; auto. eapply Forall_impl; [done|]. simpl. lia.
Qed.

(** What is left in the queue does not fit in the space left. *)
Lemma gbLoop_greedy fuel ov lim tl tier maxTr st st' x :
  gbLoop fuel ov lim tl tier maxTr st = Some st' -> wf (gbQueue st) -> 0 <= ov ->
  x ∈ items (gbQueue st') -> tier <= transmits x <= maxTr ->
  lim - bytesUsed st' - ov <= 0 \/ lim - bytesUsed st' - ov < msgLen x.
Proof.
  revert tier st. induction fuel as [|fuel IH]; [done|].
  intros tier st Hl Hwf Hov Hx Ht. pose proof Hl as Hl0. simpl in Hl.
  case_match; [|zify_bool; lia]. case_match; [injection Hl as <-; zify_bool; lia|].
  destruct (findKeep tier _ (gbQueue st)) as [y|] eqn:Hk.
  - apply findKeep_Some in Hk as (Hy & _). eapply IH; eauto.
    rewrite takeItem_queue. by apply wf_deleteItem.
  - destruct (decide (transmits x = tier)) as [E|]; [|eapply IH; eauto; lia].
    destruct (gbLoop_spec _ _ _ _ _ _ _ _ Hl0 Hwf) as (sent & [Hi _ _ _ Hb] & _).
    pose proof (sizeOf_nonneg ov (map msgOf sent) Hov).
    assert (Hx' : x ∈ items (gbQueue st)) by (rewrite Hi; apply elem_of_app; by left).
    eapply findKeep_None in Hk; [|done| |done]; [lia|].
    apply (Forall_forall itemOk (items (gbQueue st))); [apply Hwf|done].
Qed.

Lemma gbLoop_total fuel ov lim tl tier maxTr st :
  (length (items (gbQueue st)) + Z.to_nat (maxTr - tier + 1) < fuel)%nat ->
  exists st', gbLoop fuel ov lim tl tier maxTr st = Some st'.
Proof.
  revert tier st. induction fuel as [|fuel IH]; [lia|]. intros tier st Hf. simpl.
  case_match; [|eauto]. case_match; [eauto|].
  destruct (findKeep tier _ (gbQueue st)) as [x|] eqn:Hk; apply IH; [|zify_bool; lia].
  apply findKeep_Some in Hk as (Hx & _). rewrite takeItem_queue, items_deleteItem.
  pose proof (length_filter_lt (fun y => keyOf y <> keyOf x) (items (gbQueue st)) x Hx). naive_solver lia.
Qed.

(** ** Putting the items back *)

Lemma names_elem l n : n ∈ names l <-> n <> EmptyString /\ exists x, x ∈ l /\ name x = n.
Proof.
  unfold names. rewrite list_elem_of_filter. split; intros [Hn Hin]; (split; [done|]).
  - apply list_elem_of_fmap in Hin as (x & -> & Hx). eauto.
  - destruct Hin as (x & Hx & <-). by apply list_elem_of_fmap_2.
Qed.

Lemma names_perm l l' : l ≡ₚ l' -> names l ≡ₚ names l'.
Proof. intros Hp. unfold names. by rewrite Hp. Qed.

Lemma names_app l l' : names (l ++ l') = names l ++ names l'.
Proof. unfold names. by rewrite map_app, filter_app. Qed.

Lemma names_cons x l :
  names (x :: l) = if bool_decide (name x = EmptyString) then names l else name x :: names l.
Proof. unfold names. simpl. rewrite filter_cons. by case_decide; case_bool_decide. Qed.

Lemma names_NoDup q : wf q -> NoDup (names (items q)).
Proof.
  intros [Hs _ Htm _]. pose proof (sorted_NoDup _ Hs) as Hnd.
  assert (Hinj : forall x y, x ∈ items q -> y ∈ items q -> name x = name y ->
    name x <> EmptyString -> x = y) by eauto using names_unique.
  revert Hnd Hinj. generalize (items q) as l. clear.
  induction l as [|x l IH]; [constructor|]. intros [Hx Hnd]%NoDup_cons Hinj.
  rewrite names_cons. case_bool_decide.
  - apply IH; [done|]. intros. apply Hinj; auto; by right.
  - constructor; [|apply IH; [done|]; intros; apply Hinj; auto; by right].
    intros (_ & y & Hy & E)%names_elem. apply Hx. rewrite (Hinj x y); auto; [by left|by right].
Qed.

(** Distinct ids and distinct names. *)
Definition distinct (l : list LB) : Prop := NoDup (map id l) /\ NoDup (names l).

Lemma distinct_perm l l' : l ≡ₚ l' -> distinct l -> distinct l'.
Proof. intros Hp [Hi Hn]. split; [by rewrite <- Hp|by rewrite <- (names_perm _ _ Hp)]. Qed.

Lemma distinct_requeue l sent (P : LB -> Prop) `{!forall x, Decision (P x)} :
  distinct (l ++ sent) -> distinct (l ++ map bump (filter P sent)).
Proof.
  intros [Hi Hn].
  assert (Hsub : sublist (l ++ filter P sent) (l ++ sent))
    by (apply sublist_app; [done|apply sublist_filter]).
  assert (Em : forall k : list LB, map id (map bump k) = map id k) by (intros; by rewrite map_map).
  assert (En : forall k : list LB, map name (map bump k) = map name k) by (intros; by rewrite map_map).
  split.
  - rewrite map_app, Em, <- map_app. eapply sublist_NoDup, fmap_sublist, Hsub. done.
  - unfold names in *. rewrite map_app, En, <- map_app.
    eapply sublist_NoDup; [|apply filter_sublist, fmap_sublist, Hsub]. done.
Qed.

Lemma addItems_spec re q :
  wf q -> is_Some (tq q) -> Forall itemOk re -> distinct (items q ++ re) ->
  wf (fold_left (fun q x => addItem x q) re q) /\
  items (fold_left (fun q x => addItem x q) re q) ≡ₚ items q ++ re.
Proof.
  revert q. induction re as [|x re IH]; intros q Hwf Hi Hok Hd; simpl; [by rewrite app_nil_r|].
  apply Forall_cons in Hok as [Hx Hok].
  assert (Hd' : distinct (x :: items q ++ re)) by (eapply distinct_perm, Hd; by rewrite Permutation_middle).
  destruct Hd' as [Hid Hnm]. simpl in Hid. apply NoDup_cons in Hid as [Hid _].
  destruct (wf_addItem x q) as [Hwf' Hp]; auto.
  - intros y Hy E. apply Hid. rewrite <- E. apply list_elem_of_fmap_2, elem_of_app. by left.
  - intros Hne y Hy E. rewrite names_cons in Hnm. case_bool_decide; [done|].
    apply NoDup_cons in Hnm as [Hnm _]. apply Hnm, names_elem. split; [done|].
    exists y. split; [|done]. apply elem_of_app. by left.
  - destruct (IH (addItem x q)) as [Hw Hp']; auto using inited_addItem.
    + eapply distinct_perm, Hd. rewrite Hp. simpl. by rewrite Permutation_middle.
    + split; [done|]. rewrite Hp', Hp. simpl. by rewrite Permutation_middle.
Qed.

(** ** One call of [GetBroadcasts] *)

Lemma less_transmits (x y : LB) : Less x y = true -> transmits x <= transmits y.
Proof. unfold Less. rewrite lessKey_iff. simpl. lia. Qed.

Lemma sorted_last l (x y : LB) : sortedItems l -> last l = Some y -> x ∈ l -> transmits x <= transmits y.
Proof.
  induction 1 as [|z l Hs IH Hz]; [done|]. destruct l as [|z' l].
  - intros [= ->] ->%list_elem_of_singleton. lia.
  - rewrite last_cons_cons. intros Hl [->|Hx]%elem_of_cons; [|auto].
    rewrite Forall_forall in Hz. apply less_transmits, Hz. by apply last_Some_elem_of.
Qed.

Lemma range_covers q x :
  sortedItems (items q) -> x ∈ items q ->
  (getTransmitRange q).1 <= transmits x <= (getTransmitRange q).2.
Proof.
  intros Hs Hx. pose proof (inited_items _ _ Hx) as [t E].
  unfold getTransmitRange, items in *. rewrite E in *. rewrite btLen_items, btMin_items, btMax_items.
  destruct (btAscend t) as [|y l] eqn:Et; [by apply elem_of_nil in Hx|]. simpl head. cbv beta iota.
  destruct (last (y :: l)) as [z|] eqn:El; [|by apply last_None in El]. simpl. split.
  - apply elem_of_cons in Hx as [->|Hx]; [done|]. inversion Hs as [|? ? _ Hall]; subst.
    rewrite Forall_forall in Hall. by apply less_transmits, Hall.
  - by apply (sorted_last (y :: l)).
Qed.

(** The messages [msgs] are those of the items [sent]; every other item stays;
    a sent item comes back with one more transmission or is finished. *)
Record gossipRound (ov lim tl : Z) q q' (msgs : list bytes) (fin : list B) (kept sent : list LB) : Prop := {
  gr_split : items q ≡ₚ kept ++ sent;
  gr_msgs : msgs = map msgOf sent;
  gr_order : StronglySorted Z.le (map transmits sent);
  gr_items : items q' ≡ₚ kept ++ map bump (filter (fun x => transmits x + 1 < tl) sent);
  gr_fin : fin = map b (filter (fun x => tl <= transmits x + 1) sent);
  gr_full : 0 <= ov ->
    Forall (fun x => lim - sizeOf ov msgs - ov <= 0 \/ lim - sizeOf ov msgs - ov < msgLen x) kept;
  gr_wf : wf q'
}.

Lemma itemOk_bump x : itemOk x -> itemOk (bump x).
Proof. by intros [? ? ? ?]. Qed.

Lemma getBroadcasts_round ov lim n q :
  wf q ->
  exists msgs q' fin kept sent,
    GetBroadcasts ov lim n q = Some (msgs, q', fin) /\
    gossipRound ov lim (Timing.retransmitLimit (RetransmitMult q) n) q q' msgs fin kept sent.
Proof.
  intros Hwf. unfold GetBroadcasts, GetBroadcastsFuel. rewrite lenLocked_items.
  destruct (items q) as [|x0 l0] eqn:Ei.
  { simpl. exists [], q, [], [], []. split; [done|]. split; simpl; rewrite ?Ei; try done; constructor. }
  assert (Hini : is_Some (tq q)) by (apply (inited_items q x0); rewrite Ei; by left).
  replace (Z.of_nat _ =? 0) with false by (symmetry; apply Z.eqb_neq; simpl; lia).
  set (tl := Timing.retransmitLimit _ n). unfold gbFuel.
  pose proof (range_covers q) as Hcov.
  destruct (getTransmitRange q) as [minTr maxTr] eqn:Er. simpl in Hcov.
  destruct (gbLoop_total (length (items q) + Z.to_nat (maxTr - minTr + 1) + 1) ov lim tl minTr maxTr
    (mkGB q 0 [] [] [])) as [st Hl]; [simpl; lia|].
  destruct (gbLoop_spec _ _ _ _ _ _ _ _ Hl Hwf) as (sent & [Hi Hs Ha Hd Hb] & Hwf' & Hini' & _ & Hso).
  simpl in Hi, Hs, Ha, Hd, Hb, Hini'. rewrite Hl.
  destruct (addItems_spec (reinsert st) (gbQueue st)) as [Hw Hp]; auto.
  { rewrite Ha. apply Forall_map, Forall_filter_sub.
    assert (Hall : Forall itemOk (items (gbQueue st) ++ sent)) by (rewrite <- Hi; apply Hwf).
    apply Forall_app in Hall as [_ Hall]. eapply Forall_impl; [done|apply itemOk_bump]. }
  { rewrite Ha. apply distinct_requeue. eapply distinct_perm; [exact Hi|].
    split; [apply Hwf|by apply names_NoDup]. }
  exists (toSend st), (fold_left (fun q cur => addItem cur q) (reinsert st) (gbQueue st)), (gbFinished st),
    (items (gbQueue st)), sent. split; [done|]. split; auto.
  - by rewrite Hp, Ha.
  - intros Hov. apply Forall_forall. intros x Hx.
    replace (sizeOf ov (toSend st)) with (bytesUsed st) by (rewrite Hs; lia).
    eapply gbLoop_greedy; eauto. apply Hcov; [apply Hwf|]. rewrite Hi. apply elem_of_app. by left.
Qed.

(** The byte budget needs nothing of the queue. *)
Lemma gbLoop_budget fuel ov lim tl tier maxTr st st' :
  gbLoop fuel ov lim tl tier maxTr st = Some st' ->
  bytesUsed st = sizeOf ov (toSend st) -> bytesUsed st <= Z.max 0 lim ->
  bytesUsed st' = sizeOf ov (toSend st') /\ bytesUsed st' <= Z.max 0 lim.
Proof.
  revert tier st. induction fuel as [|fuel IH]; [done|]. intros tier st Hl Hb Hm. simpl in Hl.
  case_match; [|by injection Hl as <-]. case_match; [by injection Hl as <-|].
  destruct (findKeep tier _ (gbQueue st)) as [x|] eqn:Hk; [|eauto].
  apply findKeep_Some in Hk as (_ & Hlen & _). unfold msgOf in Hlen. eapply IH; [exact Hl|..].
  - unfold takeItem. case_match; simpl; rewrite sizeOf_app; simpl; lia.
  - unfold takeItem. case_match; simpl; lia.
Qed.

(** ** Queueing *)

(** What a new broadcast replaces: the item of its name, or, for an ordinary
    broadcast, the ordinary items it invalidates. *)
Definition superseded (bc : B) (x : LB) : bool :=
  match kindOf bc with
  | Named n => if bool_decide (n = EmptyString) then slowPathHit bc x else bool_decide (name x = n)
  | Unique => false
  | Plain => slowPathHit bc x
  end.

Definition stamped (bc : B) (tr i : Z) : LB := mkLB tr (blen (Message bc)) i bc (nameOf bc).

Definition deleteAll (rs : list LB) q : Q := fold_left (fun q x => deleteItem x q) rs q.

Lemma items_deleteAll rs q :
  items (deleteAll rs q) = filter (fun y => Forall (fun x => keyOf y <> keyOf x) rs) (items q).
Proof.
  revert q. induction rs as [|x rs IH]; intros q; simpl.
  - symmetry. apply filter_all. intros y _. constructor.
  - rewrite IH, items_deleteItem, list_filter_filter. apply list_filter_iff. intros y.
    rewrite Forall_cons. tauto.
Qed.

Lemma wf_deleteAll rs q :
  wf q -> NoDup rs -> (forall x, x ∈ rs -> x ∈ items q) -> wf (deleteAll rs q).
Proof.
  revert q. induction rs as [|x rs IH]; intros q Hwf Hnd Hsub; simpl; [done|].
  apply NoDup_cons in Hnd as [Hx Hnd]. apply IH; [|done|].
  - apply wf_deleteItem; [done|]. apply Hsub. by left.
  - intros y Hy. apply elem_of_deleteItem; [apply Hwf|apply Hsub; by left|].
    split; [apply Hsub; by right|]. by intros ->.
Qed.

Lemma inited_deleteAll rs q : is_Some (tq q) -> is_Some (tq (deleteAll rs q)).
Proof. revert q. induction rs; intros q Hq; simpl; [done|]. auto using inited_deleteItem. Qed.

Lemma deleteAll_filter (P : LB -> bool) q :
  wf q -> items (deleteAll (filter (fun x => P x = true) (items q)) q)
          = filter (fun x => P x = false) (items q).
Proof.
  intros Hwf. rewrite items_deleteAll. apply filter_ext_elem. intros y Hy. rewrite Forall_forall. split.
  - intros H. apply not_true_iff_false. intros HP. apply (H y); [|done]. by apply list_elem_of_filter.
  - intros HP x [HPx Hx]%list_elem_of_filter Hk.
    rewrite (sorted_key_inj (items q) y x) in HP; [congruence|apply Hwf|done..].
Qed.

(** Queueing deletes what is superseded, then adds the stamped item. *)
Lemma queueBroadcast_deletes bc tr q :
  wf q ->
  exists i rs, rs = filter (fun x => superseded bc x = true) (items q) /\ i = nextId q /\
    queueBroadcast bc tr q =
      (addItem (stamped bc tr i) (deleteAll rs (setIdGen i (lazyInit q))), map b rs).
Proof.
  intros Hwf. exists (nextId q), (filter (fun x => superseded bc x = true) (items q)).
  split_and!; [done..|].
  assert (En : nextId (lazyInit q) = nextId q) by (unfold lazyInit; by destruct (tq q)).
  unfold queueBroadcast, stamped, nameOf, invalidated. rewrite En.
  set (q1 := setIdGen (nextId q) (lazyInit q)).
  assert (Hwf1 : wf q1) by (by apply wf_setIdGen, wf_lazyInit).
  assert (Ei : items q1 = items q) by apply items_lazyInit.
  assert (Hslow : (forall x, superseded bc x = slowPathHit bc x) ->
    filter (fun x => slowPathHit bc x = true) (items q1) =
      filter (fun x => superseded bc x = true) (items q)).
  { intros H. rewrite Ei. apply list_filter_iff. intros x. by rewrite H. }
  unfold superseded in *. destruct (kindOf bc) as [n| |] eqn:Ek; simpl.
  - destruct (decide (n = EmptyString)) as [->|Hn].
    + rewrite bool_decide_eq_false_2 by (intros H; by apply H). simpl in *. by rewrite Hslow.
    + rewrite (bool_decide_eq_true_2 (n <> _)), (bool_decide_eq_false_2 (n = _)) by done.
      rewrite (filter_one _ (items q) (tm q1 !! n)); [simpl; by destruct (tm (lazyInit q) !! n)|..].
      * rewrite <- Ei. apply sorted_NoDup, Hwf1.
      * intros x. rewrite bool_decide_eq_true, <- Ei, (wf_tm _ Hwf1 n x). tauto.
  - replace (filter _ (items q)) with (@nil LB); [done|]. symmetry. by apply filter_none.
  - by rewrite Hslow.
Qed.

Lemma superseded_name bc x y :
  nameOf bc <> EmptyString -> superseded bc x = false -> y = x -> name y <> nameOf bc.
Proof.
  unfold superseded, nameOf. destruct (kindOf bc); [|done..]. intros Hn Hs ->.
  rewrite bool_decide_eq_false_2 in Hs by done. by apply bool_decide_eq_false in Hs.
Qed.

(** ** Pruning *)

Lemma sorted_snoc_inv l (x : LB) :
  sortedItems (l ++ [x]) -> filter (fun y => keyOf y <> keyOf x) (l ++ [x]) = l.
Proof.
  intros Hs. rewrite filter_app, (filter_none _ [x]), app_nil_r.
  - apply filter_all. intros y Hy Hk. pose proof (sorted_NoDup _ Hs) as Hnd.
    rewrite (sorted_key_inj _ y x Hs) in Hy; [|set_solver..|done].
    apply NoDup_app in Hnd as (_ & Hnd & _). apply (Hnd x Hy). set_solver.
  - intros y ->%list_elem_of_singleton. auto.
Qed.

Lemma pruneLoop_spec fuel k q fin :
  wf q -> (length (items q) < fuel)%nat ->
  exists q', pruneLoop fuel k q fin = Some (q', fin ++ map b (reverse (drop (Z.to_nat k) (items q)))) /\
    items q' = take (Z.to_nat k) (items q) /\ wf q'.
Proof.
  revert q fin. induction fuel as [|fuel IH]; intros q fin Hwf Hf; [lia|]. simpl.
  rewrite lenLocked_items. case_match; zify_bool.
  2: { exists q. rewrite drop_ge, take_ge by lia. simpl. by rewrite app_nil_r. }
  destruct (tq q) as [t|] eqn:Et.
  2: { assert (Ei : items q = []) by (unfold items; by rewrite Et).
       exists q. by rewrite Ei, drop_nil, take_nil, app_nil_r. }
  rewrite btMax_items. replace (btAscend t) with (items q) by (unfold items; by rewrite Et).
  destruct (items q) as [|x l _] eqn:Ei using rev_ind.
  { exists q. by rewrite drop_nil, take_nil, app_nil_r. }
  rewrite last_snoc. rewrite length_app in *. simpl in *.
  assert (Hx : x ∈ items q) by (rewrite Ei; set_solver).
  assert (Ed : items (deleteItem x q) = l).
  { rewrite items_deleteItem, Ei. apply sorted_snoc_inv. rewrite <- Ei. apply Hwf. }
  destruct (IH (deleteItem x q) (fin ++ [b x])) as (q' & Hl & Hi & Hw).
  { by apply wf_deleteItem. }
  { rewrite Ed. lia. }
  assert (Hk : (Z.to_nat k <= length l)%nat) by lia.
  rewrite Ed in Hl, Hi. exists q'. rewrite Hl, drop_app_le, take_app_le by done. split_and!; auto.
  rewrite reverse_snoc. simpl. by rewrite <- app_assoc.
Qed.

(** ** Repeated rounds *)

(** [k] calls of [GetBroadcasts]: what each sent, and all that finished. *)
Fixpoint gossip (k : nat) (ov lim n : Z) q : option (list (list bytes) * Q * list B) :=
  match k with
  | O => Some ([], q, [])
  | S k' =>
      match gossip k' ov lim n q with
      | None => None
      | Some (rounds, q1, fin1) =>
          match GetBroadcasts ov lim n q1 with
          | None => None
          | Some (msgs, q2, fin2) => Some (rounds ++ [msgs], q2, fin1 ++ fin2)
          end
      end
  end.

(** Still queued after [k] rounds. *)
Definition remains (tl : Z) (k : nat) (x : LB) : Prop := k = 0%nat \/ transmits x + Z.of_nat k < tl.

#[local] Instance remains_dec tl k x : Decision (remains tl k x).
Proof. unfold remains. apply _. Defined.

Definition bumpN (k : nat) (x : LB) : LB :=
  mkLB (transmits x + Z.of_nat k) (msgLen x) (id x) (b x) (name x).

Lemma sizeOf_perm ov m m' : m ≡ₚ m' -> sizeOf ov m = sizeOf ov m'.
Proof. induction 1; simpl; lia. Qed.

Lemma sizeOf_sublist ov m m' : 0 <= ov -> sublist m m' -> sizeOf ov m <= sizeOf ov m'.
Proof.
  intros Hov. induction 1 as [|x m m' _ IH|x m m' _ IH]; simpl; [lia|lia|].
  pose proof (blen_nonneg x). lia.
Qed.

(** With room for everything, a round sends every item. *)
Lemma round_sends_all ov lim tl q q' msgs fin kept sent :
  wf q -> 0 <= ov -> sizeOf ov (map msgOf (items q)) < lim ->
  gossipRound ov lim tl q q' msgs fin kept sent -> kept = [].
Proof.
  intros Hwf Hov Hsz [Hi Hm _ _ _ Hfull _]. destruct kept as [|x kept]; [done|]. exfalso.
  specialize (Hfull Hov). apply Forall_cons in Hfull as [Hx _].
  assert (Hok : itemOk x).
  { apply (Forall_forall itemOk (items q)); [apply Hwf|]. rewrite Hi. by left. }
  assert (E : sizeOf ov (map msgOf (items q)) =
    ov + msgLen x + sizeOf ov (map msgOf kept) + sizeOf ov msgs).
  { rewrite (sizeOf_perm _ _ (map msgOf ((x :: kept) ++ sent))) by (by rewrite Hi).
    rewrite map_app, sizeOf_app, (ok_len _ Hok), Hm. simpl. unfold msgOf. lia. }
  pose proof (sizeOf_nonneg ov (map msgOf kept) Hov).
  pose proof (blen_nonneg (Message (b x))). rewrite (ok_len _ Hok) in *. lia.
Qed.

Lemma mult_deleteItem x q : RetransmitMult (deleteItem x q) = RetransmitMult q.
Proof. unfold deleteItem. by case_match. Qed.

Lemma mult_addItem x q : RetransmitMult (addItem x q) = RetransmitMult q.
Proof. unfold addItem. by case_match. Qed.

Lemma gbLoop_mult fuel ov lim tl tier maxTr st st' :
  gbLoop fuel ov lim tl tier maxTr st = Some st' ->
  RetransmitMult (gbQueue st') = RetransmitMult (gbQueue st).
Proof.
  revert tier st. induction fuel as [|fuel IH]; [done|]. intros tier st Hl. simpl in Hl.
  repeat case_match; try (by injection Hl as <-); apply IH in Hl; [|done].
  by rewrite Hl, takeItem_queue, mult_deleteItem.
Qed.

Lemma GetBroadcasts_mult ov lim n q msgs q' fin :
  GetBroadcasts ov lim n q = Some (msgs, q', fin) -> RetransmitMult q' = RetransmitMult q.
Proof.
  unfold GetBroadcasts, GetBroadcastsFuel. case_match; [by intros [= _ <- _]|].
  destruct (getTransmitRange q) as [mn mx]. destruct (gbLoop _ _ _ _ _ _ _) as [st|] eqn:Hl; [|done].
  intros [= _ <- _]. apply gbLoop_mult in Hl. simpl in Hl. rewrite <- Hl.
  generalize (gbQueue st). induction (reinsert st) as [|x re IH]; intros q0; simpl; [done|].
  by rewrite IH, mult_addItem.
Qed.

(** One more round of a queue that already went through [k]. *)
Lemma gossip_step tl k l sent :
  sent ≡ₚ map (bumpN k) (filter (remains tl k) l) ->
  map bump (filter (fun x => transmits x + 1 < tl) sent) ≡ₚ map (bumpN (S k)) (filter (remains tl (S k)) l) /\
  map b (filter (fun x => tl <= transmits x + 1) sent) ++ map b (filter (fun x => ~ remains tl k x) l)
    ≡ₚ map b (filter (fun x => ~ remains tl (S k) x) l).
Proof.
  intros Hp.
  assert (E1 : filter (fun x => transmits x + 1 < tl) (map (bumpN k) (filter (remains tl k) l))
    = map (bumpN k) (filter (remains tl (S k)) l)).
  { rewrite filter_of_map, list_filter_filter. f_equal. apply list_filter_iff. intros x.
    unfold remains. simpl. lia. }
  assert (E2 : filter (fun x => tl <= transmits x + 1) (map (bumpN k) (filter (remains tl k) l))
    = map (bumpN k) (filter (fun x => remains tl k x /\ ~ remains tl (S k) x) l)).
  { rewrite filter_of_map, list_filter_filter. f_equal. apply list_filter_iff. intros x.
    unfold remains. simpl. lia. }
  split.
  - rewrite Hp, E1, map_map. apply reflexive_eq, map_ext. intros x. unfold bump, bumpN. simpl. f_equal. lia.
  - rewrite Hp, E2, map_map. simpl. rewrite <- map_app. apply Permutation_map.
    rewrite <- (filter_app_complement (remains tl k) (filter (fun x => ~ remains tl (S k) x) l)).
    rewrite !list_filter_filter. apply reflexive_eq. f_equal. apply list_filter_iff. intros x.
    unfold remains. lia.
Qed.

Lemma gossip_spec k ov lim n q :
  wf q -> 0 <= ov -> sizeOf ov (map msgOf (items q)) < lim ->
  let tl := Timing.retransmitLimit (RetransmitMult q) n in
  exists rounds q' fin, gossip k ov lim n q = Some (rounds, q', fin) /\
    length rounds = k /\
    (forall j ms, rounds !! j = Some ms -> ms ≡ₚ map msgOf (filter (remains tl j) (items q))) /\
    items q' ≡ₚ map (bumpN k) (filter (remains tl k) (items q)) /\
    fin ≡ₚ map b (filter (fun x => ~ remains tl k x) (items q)) /\
    wf q' /\ RetransmitMult q' = RetransmitMult q.
Proof.
  intros Hwf Hov Hsz tl. induction k as [|k IH].
  - exists [], q, []. split_and!; auto; simpl.
    + intros j ms. by rewrite lookup_nil.
    + rewrite filter_all by (intros; by left). apply reflexive_eq. symmetry.
      erewrite map_ext; [apply map_id|]. intros [? ? ? ? ?]. unfold bumpN. simpl. f_equal. lia.
    + rewrite filter_none; [done|]. intros x _ Hn. apply Hn. by left.
  - destruct IH as (rounds & q1 & fin1 & Hg & Hlen & Hr & Hi & Hf & Hw & Hm).
    destruct (getBroadcasts_round ov lim n q1 Hw) as (msgs & q2 & fin2 & kept & sent & Hgb & Hround).
    rewrite Hm in Hround. fold tl in Hround.
    assert (Hmsgs : map msgOf (items q1) ≡ₚ map msgOf (filter (remains tl k) (items q))).
    { rewrite Hi, map_map. done. }
    assert (kept = []) as ->.
    { eapply round_sends_all; [exact Hw|done| |exact Hround].
      rewrite (sizeOf_perm _ _ _ Hmsgs).
      eapply Z.le_lt_trans, Hsz. apply sizeOf_sublist; [done|]. apply fmap_sublist, sublist_filter. }
    destruct Hround as [Hsp Hms _ Hit Hfin _ Hw2]. simpl in Hsp, Hit.
    destruct (gossip_step tl k (items q) sent) as [G1 G2]; [by rewrite <- Hsp|].
    exists (rounds ++ [msgs]), q2, (fin1 ++ fin2). simpl. rewrite Hg, Hgb. split_and!; auto.
    + rewrite length_app. simpl. lia.
    + intros j ms [[_ Hj]|[-> <-]]%lookup_snoc_Some; [by apply Hr|].
      rewrite Hlen, Hms, <- Hmsgs, Hsp. done.
    + by rewrite Hit, G1.
    + rewrite Hf, Hfin, Permutation_app_comm. done.
    + rewrite (GetBroadcasts_mult _ _ _ _ _ _ _ Hgb). done.
Qed.

(** ** Named broadcasts, step by step *)

(** What a queue shows: its items, its name map and its id generator. *)
Definition shows q (l : list LB) (m : gmap string LB) (g : Z) : Prop :=
  items q = l /\ tm q = m /\ idGen q = g.

Lemma queue_named_new bc n q l m g :
  kindOf bc = Named n -> n <> EmptyString -> shows q l m g -> m !! n = None ->
  let i := if g =? maxI64 then 1 else g + 1 in
  (QueueBroadcast bc q).2 = [] /\
  shows (QueueBroadcast bc q).1 (insertItem (stamped bc 0 i) l) (<[n := stamped bc 0 i]> m) i.
Proof.
  intros Hk Hn (<- & <- & <-) Hm. simpl. unfold QueueBroadcast, queueBroadcast, stamped, nameOf. rewrite Hk.
  rewrite bool_decide_eq_true_2 by done. unfold lazyInit, nextId.
  destruct (tq q) as [t|] eqn:Et; simpl; rewrite Hm; simpl; unfold shows, items, addItem; simpl; rewrite ?Et; simpl;
    rewrite bool_decide_eq_false_2 by done; rewrite ?btInsert_items, ?btNew_items; auto.
Qed.

Lemma queue_named_replace bc n q old m g :
  kindOf bc = Named n -> n <> EmptyString -> shows q [old] m g -> m !! n = Some old -> name old = n ->
  let i := if g =? maxI64 then 1 else g + 1 in
  (QueueBroadcast bc q).2 = [b old] /\
  shows (QueueBroadcast bc q).1 [stamped bc 0 i] (<[n := stamped bc 0 i]> m) 0.
Proof.
  intros Hk Hn (Hi & <- & <-) Hm Ho. simpl.
  unfold QueueBroadcast, queueBroadcast, stamped, nameOf. rewrite Hk.
  rewrite bool_decide_eq_true_2 by done. unfold lazyInit, nextId. unfold items in Hi.
  destruct (tq q) as [t|] eqn:Et; [|done]. simpl. rewrite Hm. simpl.
  assert (Hd : btAscend (btDelete old t) = []).
  { rewrite btDelete_items, Hi. apply filter_none. intros x ->%list_elem_of_singleton. auto. }
  unfold deleteItem. simpl. rewrite Et. unfold shows, addItem, items. simpl.
  rewrite !bool_decide_eq_false_2, btLen_items, Hd, btInsert_items, Hd by congruence. simpl.
  rewrite Ho, insert_delete_eq. auto.
Qed.

Lemma queueBroadcast_spec bc tr q
    (Hwf : wf q) (Hlen : blen (Message bc) <= maxI64) (Hgen : idGen q <= maxI64)
    (Hfresh : ~ nextId q ∈ map id (items q)) :
  let q' := (queueBroadcast bc tr q).1 in
  items q' ≡ₚ stamped bc tr (nextId q) :: filter (fun x => superseded bc x = false) (items q) /\
  (queueBroadcast bc tr q).2 = map b (filter (fun x => superseded bc x = true) (items q)) /\
  wf q'.
Proof.
  destruct (queueBroadcast_deletes bc tr q Hwf) as (i & rs & Hrs & -> & ->). simpl.
  set (q1 := setIdGen (nextId q) (lazyInit q)).
  assert (Hwf1 : wf q1) by (by apply wf_setIdGen, wf_lazyInit).
  assert (Ei : items q1 = items q) by apply items_lazyInit.
  assert (Hin : is_Some (tq q1)) by (simpl; unfold lazyInit; destruct (tq q) eqn:E; simpl; eauto).
  assert (Ed : items (deleteAll rs q1) = filter (fun x => superseded bc x = false) (items q)).
  { rewrite Hrs, <- Ei. by apply deleteAll_filter. }
  destruct (wf_addItem (stamped bc tr (nextId q)) (deleteAll rs q1)) as [Hw Hp].
  - apply wf_deleteAll; [done|rewrite Hrs; apply NoDup_filter, sorted_NoDup, Hwf|].
    intros x. rewrite Hrs, Ei. by intros [_ ?]%list_elem_of_filter.
  - by apply inited_deleteAll.
  - split; simpl; try done. unfold nextId. case_match; zify_bool; unfold maxI64 in *; lia.
  - rewrite Ed. intros y [_ Hy]%list_elem_of_filter E. apply Hfresh. simpl in E. rewrite <- E. by apply list_elem_of_fmap_2.
  - rewrite Ed. intros Hn y [Hy _]%list_elem_of_filter. by eapply superseded_name.
  - rewrite Ed in Hp. rewrite <- Hrs. auto.
Qed.

Lemma sizeOf_budget ov lim n q msgs q' fin :
  GetBroadcasts ov lim n q = Some (msgs, q', fin) -> sizeOf ov msgs <= Z.max 0 lim.
Proof.
  unfold GetBroadcasts, GetBroadcastsFuel. case_match; [intros [= <- _ _]; simpl; lia|].
  destruct (getTransmitRange q) as [mn mx]. destruct (gbLoop _ _ _ _ _ _ _) as [st|] eqn:Hl; [|done].
  intros [= <- _ _]. apply gbLoop_budget in Hl as [<- ?]; simpl; lia.
Qed.

(** ** Correctness of the queue *)

(** C8: A gossip round accounts for every queued broadcast. [GetBroadcasts] always
    returns; the queue splits into the items it sends and the items it keeps; the
    messages are those of the sent items, least transmitted first; a sent item is
    put back with one more transmission or, at the retransmit limit, finished; no
    kept item would fit into the space that is left; and the queue stays well
    formed. *)
Theorem GetBroadcasts_accounts ov lim n q (Hwf : wf q) :
  exists msgs q' fin kept sent,
    GetBroadcasts ov lim n q = Some (msgs, q', fin) /\
    gossipRound ov lim (Timing.retransmitLimit (RetransmitMult q) n) q q' msgs fin kept sent.
Proof. by apply getBroadcasts_round. Qed.

(** The byte limit holds for any queue: the messages of a round and their
    overheads fit into the limit. *)
Theorem GetBroadcasts_within_limit ov lim n q msgs q' fin
    (H : GetBroadcasts ov lim n q = Some (msgs, q', fin)) :
  sizeOf ov msgs <= Z.max 0 lim.
Proof. by eapply sizeOf_budget. Qed.

(** Queueing a broadcast finishes exactly the broadcasts it supersedes (the one of
    the same name, or the ordinary ones it invalidates), keeps all the others,
    adds the new one, and keeps the queue well formed, as long as the generated id
    is not one still in the queue. *)
Theorem queueBroadcast_supersedes bc tr q
    (Hwf : wf q) (Hlen : blen (Message bc) <= maxI64) (Hgen : idGen q <= maxI64)
    (Hfresh : ~ nextId q ∈ map id (items q)) :
  let q' := (queueBroadcast bc tr q).1 in
  items q' ≡ₚ stamped bc tr (nextId q) :: filter (fun x => superseded bc x = false) (items q) /\
  (queueBroadcast bc tr q).2 = map b (filter (fun x => superseded bc x = true) (items q)) /\
  wf q'.
Proof. by apply queueBroadcast_spec. Qed.

(** C24: With room for the whole queue in a packet, every broadcast is sent in
    each of its rounds and in no other: after [k] rounds, round [j] has sent the
    messages whose count had not reached the retransmit limit by then, the
    finished broadcasts are those that reached it, and the others remain with [k]
    more transmissions. *)
Theorem gossip_drains k ov lim n q
    (Hwf : wf q) (Hov : 0 <= ov) (Hroom : sizeOf ov (map msgOf (items q)) < lim) :
  let tl := Timing.retransmitLimit (RetransmitMult q) n in
  exists rounds q' fin, gossip k ov lim n q = Some (rounds, q', fin) /\
    length rounds = k /\
    (forall j ms, rounds !! j = Some ms -> ms ≡ₚ map msgOf (filter (remains tl j) (items q))) /\
    items q' ≡ₚ map (bumpN k) (filter (remains tl k) (items q)) /\
    fin ≡ₚ map b (filter (fun x => ~ remains tl k x) (items q)).
Proof.
  destruct (gossip_spec k ov lim n q Hwf Hov Hroom) as (rs & q' & fin & ? & ? & ? & ? & ? & _).
  exists rs, q', fin. auto.
Qed.

(** [Prune] keeps the first [maxRetain] items in transmit order and finishes the
    others, most transmitted first. *)
Theorem Prune_keeps_best k q (Hwf : wf q) (Hinit : tq q <> None) :
  exists q', Prune k q = Ret (Some (q', map b (reverse (drop (Z.to_nat k) (items q))))) /\
    items q' = take (Z.to_nat k) (items q) /\ wf q'.
Proof.
  unfold Prune. destruct (tq q); [|done].
  destruct (pruneLoop_spec (S (length (items q))) k q []) as (q' & Hl & ? & ?); [done|lia|].
  exists q'. simpl in *. by rewrite Hl.
Qed.

(** [Prune] on a queue that never held a message, or after [Reset], panics. *)
Lemma Prune_nil_panics k mult : Prune k (newQueue mult) = Panic "nil pointer dereference".
Proof. done. Qed.

(** C38: A broadcast can be lost: the id generator restarts when a replaced
    broadcast was the only one queued, while its replacement still carries an old
    id. Queue [a], queue its update, then two broadcasts of other nodes, the
    second as long as the update: it gets the same key, and the tree replaces the
    update. The update is neither queued nor finished, and the name map still
    points to it. *)
Theorem queue_id_reuse_loses mult a a' o c na no nc
    (Ha : kindOf a = Named na) (Ha' : kindOf a' = Named na)
    (Ho : kindOf o = Named no) (Hc : kindOf c = Named nc)
    (Hne : NoDup [EmptyString; na; no; nc])
    (Hlen : blen (Message a') = blen (Message c)) :
  let r1 := QueueBroadcast a (newQueue (T := T) mult) in
  let r2 := QueueBroadcast a' r1.1 in
  let r3 := QueueBroadcast o r2.1 in
  let r4 := QueueBroadcast c r3.1 in
  r1.2 ++ r2.2 ++ r3.2 ++ r4.2 = [a] /\
  ~ (exists x, x ∈ items r4.1 /\ b x = a') /\
  (exists x, tm r4.1 !! na = Some x /\ b x = a').
Proof.
  assert (na <> EmptyString /\ no <> EmptyString /\ nc <> EmptyString /\ na <> no /\ na <> nc /\ no <> nc)
    as (Na & No & Nc & Nao & Nac & Noc) by (rewrite !NoDup_cons in Hne; set_solver).
  intros r1 r2 r3 r4.
  destruct (queue_named_new a na (newQueue (T := T) mult) [] ∅ 0) as [F1 S1]; [done..|].
  destruct (queue_named_replace a' na r1.1 (stamped a 0 1) _ _ Ha' Na S1) as [F2 S2];
    [by apply lookup_insert_eq|unfold stamped, nameOf; by rewrite Ha|].
  destruct (queue_named_new o no r2.1 _ _ _ Ho No S2) as [F3 S3]; [by rewrite !lookup_insert_ne|].
  destruct (queue_named_new c nc r3.1 _ _ _ Hc Nc S3) as [F4 (I4 & T4 & _)]; [by rewrite !lookup_insert_ne|].
  unfold r4, r3, r2, r1 in *. rewrite F1, F2, F3, F4. split; [done|]. split.
  - rewrite I4. intros (x & [->|[Hx Hk]]%elem_of_insertItem & E); simpl in E; [congruence|].
    apply elem_of_insertItem in Hx as [->|[->%list_elem_of_singleton _]]; [simpl in E; congruence|].
    apply Hk. unfold keyOf, stamped. simpl. by rewrite Hlen.
  - rewrite T4, 2!lookup_insert_ne, lookup_insert_eq by congruence. by eexists.
Qed.

End Inv.

(** ** Packets with user messages *)

Lemma sum_sizeOf ov msgs n :
  fold_left (fun n m => n + (blen m + ov)) msgs n = n + sizeOf ov msgs.
Proof. revert n. induction msgs as [|m msgs IH]; intros n; simpl; [lia|]. rewrite IH. lia. Qed.

Lemma sizeOf_framed ov msgs : sizeOf ov (map frameUserMsg msgs) = sizeOf (ov + userMsgOverhead) msgs.
Proof.
  induction msgs as [|m msgs IH]; [done|]. simpl. rewrite IH. unfold frameUserMsg, Compound.userMsgOverhead.
  rewrite blen_cons. lia.
Qed.

Section Packets.

Context {T : Type} `{!BTree memberlistBroadcast T} `{!BTreeLaws memberlistBroadcast T}.

Implicit Types q : TransmitLimitedQueue memberlistBroadcast T.

(** What delegate.go asks of a delegate: its messages and their overheads do
    not exceed the limit it is given. *)
Definition respectsLimit (d : Z -> Z -> list bytes) : Prop :=
  forall ov lim, sizeOf ov (d ov lim) <= Z.max 0 lim.

Definition delegateOk (d : option (Z -> Z -> list bytes)) : Prop :=
  match d with None => True | Some d => respectsLimit d end.

Lemma getBroadcasts_budget d ov lim n q msgs q' fin :
  delegateOk d -> getBroadcasts d ov lim n q = Some (msgs, q', fin) -> sizeOf ov msgs <= Z.max 0 lim.
Proof.
  intros Hd Hb. unfold getBroadcasts in Hb. destruct (GetBroadcasts ov lim n q) as [[[m q1] f]|] eqn:Hg; [|done].
  apply sizeOf_budget in Hg. destruct d as [d|]; [|by injection Hb as <- _ _].
  rewrite sum_sizeOf in Hb. case_match; injection Hb as <- _ _; [|done].
  rewrite sizeOf_app, sizeOf_framed. specialize (Hd (ov + userMsgOverhead) (lim - (0 + sizeOf ov m))). lia.
Qed.

(** Gossip and user messages together never exceed the packet limit, without a
    delegate or with any that respects the limit it is given, and the delegate is
    only asked when its frame fits. *)
Theorem getBroadcasts_within_limit d ov lim n q msgs q' fin
    (Hd : delegateOk d) (H : getBroadcasts d ov lim n q = Some (msgs, q', fin)) :
  sizeOf ov msgs <= Z.max 0 lim.
Proof. by eapply getBroadcasts_budget. Qed.

End Packets.

(** ** An ordered list is such a tree *)

Section ListTree.

Context {B : Type}.

#[local] Instance listTree : BTree B (list (limitedBroadcast B)) := {
  btNew := [];
  btReplaceOrInsert := insertItem;
  btDelete := fun x => filter (fun y => keyOf y <> keyOf x);
  btLen := fun t => Z.of_nat (length t);
  btMin := head;
  btMax := last;
  btAscend := fun t => t;
  btDescend := reverse;
  btAscendRange := fun lo hi =>
    filter (fun y => lessKey (keyOf y) lo = false /\ lessKey (keyOf y) hi = true)
}.

#[local] Instance listTree_laws : BTreeLaws B (list (limitedBroadcast B)).
Proof. by split. Qed.

End ListTree.

#[local] Existing Instances listTree listTree_laws.

(** ** Witnesses *)

Abbreviation exQ := (TransmitLimitedQueue memberlistBroadcast (list (limitedBroadcast memberlistBroadcast))).

Definition exA : memberlistBroadcast := mkMB "a" ["001"; "002"; "003"]%byte None.
Definition exA' : memberlistBroadcast := mkMB "a" ["001"; "002"; "004"]%byte (Some 7%nat).
Definition exO : memberlistBroadcast := mkMB "o" ["009"]%byte None.
Definition exC : memberlistBroadcast := mkMB "c" ["005"; "006"; "007"]%byte None.

Definition ex1 : exQ := (QueueBroadcast exA (newQueue 4)).1.
Definition ex2 : exQ := (QueueBroadcast exO ex1).1.

Lemma ex1_wf : wf ex1.
Proof.
  apply queueBroadcast_spec; [apply wf_newQueue|vm_compute; done..|].
  vm_compute. by intros ?%elem_of_nil.
Qed.

Lemma ex2_wf : wf ex2.
Proof.
  apply queueBroadcast_spec; [apply ex1_wf|vm_compute; done..|].
  replace (nextId ex1) with 2 by (by vm_compute). replace (map id (items ex1)) with [1] by (by vm_compute).
  set_solver.
Qed.

Lemma GetBroadcasts_accounts_witness :
  exists msgs q' fin kept sent,
    GetBroadcasts 2 6 10 ex2 = Some (msgs, q', fin) /\
    gossipRound 2 6 (Timing.retransmitLimit (RetransmitMult ex2) 10) ex2 q' msgs fin kept sent.
Proof. apply (GetBroadcasts_accounts 2 6 10 ex2 ex2_wf). Defined.

Lemma GetBroadcasts_within_limit_witness : sizeOf 2 [msg exA; msg exO] <= Z.max 0 8.
Proof.
  eapply (GetBroadcasts_within_limit 2 8 10 ex2 [msg exA; msg exO]). vm_compute. reflexivity.
Defined.

Lemma queueBroadcast_supersedes_witness :
  (queueBroadcast exA' 0 ex2).2 = [exA] /\ wf (queueBroadcast exA' 0 ex2).1.
Proof.
  destruct (queueBroadcast_supersedes exA' 0 ex2 ex2_wf) as (_ & H & Hw).
  - vm_compute. done.
  - vm_compute. done.
  - replace (nextId ex2) with 3 by (by vm_compute).
    replace (map id (items ex2)) with [1; 2] by (by vm_compute). set_solver.
  - split; [|exact Hw]. rewrite H. vm_compute. reflexivity.
Defined.

Lemma gossip_drains_witness :
  exists rounds q' fin, gossip 8 2 100 10 ex2 = Some (rounds, q', fin) /\ fin ≡ₚ [exA; exO].
Proof.
  destruct (gossip_drains 8 2 100 10 ex2 ex2_wf) as (rs & q' & fin & E & _ & _ & _ & Hf).
  - done.
  - vm_compute. done.
  - exists rs, q', fin. split; [exact E|]. rewrite Hf. apply reflexive_eq. vm_compute. reflexivity.
Defined.

Lemma Prune_keeps_best_witness :
  exists q', Prune 1 ex2 = Ret (Some (q', [exO])) /\ map b (items q') = [exA].
Proof.
  destruct (Prune_keeps_best 1 ex2 ex2_wf) as (q' & E & Hi & _); [done|].
  exists q'. rewrite E, Hi. vm_compute. done.
Defined.

Lemma queue_id_reuse_loses_witness :
  let q := (QueueBroadcast exC (QueueBroadcast exO (QueueBroadcast exA' ex1).1).1).1 in
  ~ (exists x, x ∈ items q /\ b x = exA') /\ NumQueued q = 2.
Proof.
  split; [|by vm_compute].
  apply (queue_id_reuse_loses 4 exA exA' exO exC "a" "o" "c"); try done.
  apply (bool_decide_unpack _). by vm_compute.
Defined.

Definition exDelegate (ov lim : Z) : list bytes := if ov + 1 <=? lim then [["042"]%byte] else [].

Lemma exDelegate_respects : respectsLimit exDelegate.
Proof. intros ov lim. unfold exDelegate. case_match; zify_bool; simpl; unfold blen; simpl; lia. Qed.

Lemma getBroadcasts_within_limit_witness :
  sizeOf 2 [msg exA; msg exO; frameUserMsg ["042"]%byte] <= Z.max 0 100.
Proof.
  eapply (getBroadcasts_within_limit (Some exDelegate) 2 100 10 ex2 [msg exA; msg exO; frameUserMsg ["042"]%byte]);
    [exact exDelegate_respects|vm_compute; reflexivity].
Defined.

End Queue.
