(* ===== verification/Suspicion.v ===== *)
(** * Suspicion timers (suspicion.go)

    The timer of one suspect node: it starts at the maximal timeout and each
    independent confirmation shortens it towards the minimal one. The runtime
    timer is a deadline; time is an argument of every operation. *)

From Stdlib Require Import ZArith Lia.
From stdpp Require Import tactics base numbers strings gmap list.
From S2P Require Import Prelude GoFloat Timing.

Local Open Scope Z_scope.

Module Suspicion.

(** A [time.Timer] made by [time.AfterFunc]. *)
Inductive timer :=
| Running (deadline : gotime)
| Stopped.

Record suspicion := mkSuspicion {
  n : Z;
  k : Z;
  min : duration;
  max : duration;
  start : gotime;
  tmr : timer;
  confirmations : gset string
}.

Definition newSuspicion (from : string) (k : Z) (min max : duration) (now : gotime) : suspicion :=
  let timeout := if k <? 1 then min else max in
  {| n := 0; k := i32 k; min := min; max := max; start := now;
     tmr := Running (now + timeout); confirmations := {[ from ]} |}.

Definition remainingSuspicionTime (n k : Z) (elapsed min max : duration) : duration :=
  let frac := GoFloat.fdiv (GoFloat.mathLog (GoFloat.fadd (GoFloat.fofZ n) (GoFloat.fofZ 1)))
                           (GoFloat.mathLog (GoFloat.fadd (GoFloat.fofZ k) (GoFloat.fofZ 1))) in
  let maxs := GoFloat.durationSeconds max in
  let mins := GoFloat.durationSeconds min in
  let raw := GoFloat.fsub maxs (GoFloat.fmul frac (GoFloat.fsub maxs mins)) in
  let timeout :=
    i64 (GoFloat.i64_of_f64 (GoFloat.mathFloor (GoFloat.fmul (GoFloat.fofZ 1000) raw)) * nsMillisecond) in
  let timeout := if timeout <? min then min else timeout in
  i64 (timeout - elapsed).

Definition setTimer (t : timer) (s : suspicion) : suspicion :=
  mkSuspicion (n s) (k s) (min s) (max s) (start s) t (confirmations s).

(** [Confirm]: the new state, whether the confirmation is news, and the
    confirmation counts given to the timeout function, called from here when
    the time is already up. *)
Definition Confirm (from : string) (now : gotime) (s : suspicion) : suspicion * bool * list Z :=
  if n s >=? k s then (s, false, [])
  else if bool_decide (from ∈ confirmations s) then (s, false, [])
  else
    let n' := i32 (n s + 1) in
    let s' := mkSuspicion n' (k s) (min s) (max s) (start s) (tmr s) ({[ from ]} ∪ confirmations s) in
    let elapsed := timeSub now (start s) in
    let remaining := remainingSuspicionTime n' (k s) elapsed (min s) (max s) in
    match tmr s with
    | Running _ =>
        if remaining >? 0 then (setTimer (Running (now + remaining)) s', true, [])
        else (setTimer Stopped s', true, [n'])
    | Stopped => (s', true, [])
    end.

(** The runtime fires the timer once its deadline has passed. *)
Definition expire (now : gotime) (s : suspicion) : suspicion * list Z :=
  match tmr s with
  | Running d => if d <=? now then (setTimer Stopped s, [n s]) else (s, [])
  | Stopped => (s, [])
  end.

(** ** Runs *)

Inductive event :=
| EvConfirm (from : string) (now : gotime)
| EvTimer (now : gotime).

Definition eventTime (e : event) : gotime :=
  match e with EvConfirm _ t | EvTimer t => t end.

(** What a run shows: the accepted senders and the timeout calls with their time. *)
Record trace := mkTrace { accepted : list string; fired : list (gotime * Z) }.

Definition stepEvent (e : event) (st : suspicion * trace) : suspicion * trace :=
  let '(s, tr) := st in
  match e with
  | EvConfirm from now =>
      let '(s', new, calls) := Confirm from now s in
      (s', mkTrace (if (new : bool) then accepted tr ++ [from] else accepted tr)
                   (fired tr ++ map (fun c => (now, c)) calls))
  | EvTimer now =>
      let '(s', calls) := expire now s in
      (s', mkTrace (accepted tr) (fired tr ++ map (fun c => (now, c)) calls))
  end.

Definition run (evs : list event) (s : suspicion) : suspicion * trace :=
  fold_left (fun st e => stepEvent e st) evs (s, mkTrace [] []).

(** The timeout after [j] of [k] confirmations. *)
Definition timeoutAfter (j k : Z) (min max : duration) : duration :=
  remainingSuspicionTime j k 0 min max.

(** The first confirmation brings the timeout below the maximum, each further one
    shortens it, and the last of the [k] brings it to exactly the minimum. *)
Definition shortens (k : Z) (min max : duration) : bool :=
  (timeoutAfter 1 k min max <? max) && (timeoutAfter k k min max =? min) &&
  checkFrom 1 (Z.to_nat (k - 1)) (fun j => timeoutAfter (j + 1) k min max <? timeoutAfter j k min max).

(** ** Invariants *)

(** The computed timeout is never below the minimum. *)
Lemma remaining_at_least n k elapsed min max :
  0 <= min <= maxI64 -> 0 <= elapsed <= maxI64 ->
  min <= remainingSuspicionTime n k elapsed min max + elapsed.
Proof.
  intros Hmin Hel. unfold remainingSuspicionTime.
  match goal with |- context [i64 (?z * nsMillisecond)] => generalize (i64_range (z * nsMillisecond)) end.
  generalize (i64 (GoFloat.i64_of_f64 (GoFloat.mathFloor (GoFloat.fmul (GoFloat.fofZ 1000)
    (GoFloat.fsub (GoFloat.durationSeconds max) (GoFloat.fmul (GoFloat.fdiv
      (GoFloat.mathLog (GoFloat.fadd (GoFloat.fofZ n) (GoFloat.fofZ 1)))
      (GoFloat.mathLog (GoFloat.fadd (GoFloat.fofZ k) (GoFloat.fofZ 1))))
      (GoFloat.fsub (GoFloat.durationSeconds max) (GoFloat.durationSeconds min)))))) * nsMillisecond)).
  intros t Ht. cbv zeta. unfold minI64, maxI64 in *.
  case_match; zify_bool; rewrite i64_small by (unfold minI64, maxI64; lia); lia.
Qed.

(** What holds along every run of a timer started by [from]. *)
Record inv (from : string) (k0 : Z) (min0 : duration) (t0 : gotime) (s : suspicion) (tr : trace) : Prop := {
  inv_k : k s = i32 k0;
  inv_min : min s = min0;
  inv_start : start s = t0;
  inv_n : n s = Z.of_nat (length (accepted tr));
  inv_bound : n s <= Z.max 0 (k s);
  inv_distinct : NoDup (from :: accepted tr);
  inv_conf : confirmations s = list_to_set (from :: accepted tr);
  inv_timer : match tmr s with
              | Running d => t0 + min0 <= d /\ fired tr = []
              | Stopped => length (fired tr) = 1%nat
              end;
  inv_fired : Forall (fun p => t0 + min0 <= fst p) (fired tr)
}.

Section Runs.

Context (from : string) (k0 : Z) (min0 : duration) (t0 : gotime).

Context (Hmin : 0 <= min0 <= maxI64).

(** An event after the start, within the range of a [Duration]. *)
Definition timely (e : event) : Prop := t0 <= eventTime e <= t0 + maxI64.

Lemma inv_newSuspicion max0 : min0 <= max0 ->
  inv from k0 min0 t0 (newSuspicion from k0 min0 max0 t0) (mkTrace [] []).
Proof.
  intros Hmm. split; simpl; try done; try lia.
  - apply NoDup_singleton.
  - set_solver.
  - split; [|done]. case_match; lia.
Qed.

Lemma inv_expire now s tr :
  inv from k0 min0 t0 s tr ->
  inv from k0 min0 t0 (expire now s).1
    (mkTrace (accepted tr) (fired tr ++ map (fun c => (now, c)) (expire now s).2)).
Proof.
  intros [Hk Hm Hs Hn Hb Hd Hc Ht Hf]. unfold expire.
  destruct (tmr s) as [d|] eqn:Et; [case_match; zify_bool|]; simpl; split; simpl; rewrite ?app_nil_r, ?Et; auto.
  - destruct Ht as [_ ->]. done.
  - destruct Ht as [Hd' ->]. constructor; [simpl; lia|done].
Qed.

Lemma inv_confirm sender now s tr :
  inv from k0 min0 t0 s tr -> t0 <= now <= t0 + maxI64 ->
  let '(s', new, calls) := Confirm sender now s in
  inv from k0 min0 t0 s'
    (mkTrace (if (new : bool) then accepted tr ++ [sender] else accepted tr)
             (fired tr ++ map (fun c => (now, c)) calls)).
Proof.
  intros [Hk Hm Hs Hn Hb Hd Hc Ht Hf] Hnow. unfold Confirm.
  assert (Hk' := i32_range k0).
  destruct (n s >=? k s) eqn:Hge; zify_bool; [simpl; split; simpl; rewrite ?app_nil_r; auto|].
  destruct (bool_decide (sender ∈ _)) eqn:Hin; zify_bool; [simpl; split; simpl; rewrite ?app_nil_r; auto|].
  assert (En : i32 (n s + 1) = n s + 1) by (apply i32_small; lia).
  assert (Hnew : sender ∉ from :: accepted tr).
  { intros Hin'. apply Hin. rewrite Hc. by apply elem_of_list_to_set. }
  assert (Hdist : NoDup (from :: accepted tr ++ [sender])).
  { rewrite app_comm_cons. apply NoDup_app. split_and!; [done| |apply NoDup_singleton].
    intros x Hx ->%list_elem_of_singleton. done. }
  assert (Hset : {[sender]} ∪ confirmations s = list_to_set (from :: accepted tr ++ [sender])).
  { rewrite Hc. simpl. rewrite list_to_set_app_L. simpl. set_solver. }
  assert (Hlen : n s + 1 = Z.of_nat (length (accepted tr ++ [sender]))) by (rewrite length_app; simpl; lia).
  assert (Hel : timeSub now (start s) = now - t0) by (rewrite Hs; unfold timeSub, minI64; lia).
  pose proof (remaining_at_least (n s + 1) (k s) (now - t0) min0 (max s) Hmin ltac:(lia)) as Hrem.
  rewrite Hm, Hel, En.
  destruct (tmr s) as [d|] eqn:Et; [destruct (_ >? 0) eqn:Hr; zify_bool|]; simpl; split; simpl;
    rewrite ?app_nil_r, ?Et; auto; try lia.
  - destruct Ht as [_ ->]. split; [lia|done].
  - destruct Ht as [_ ->]. done.
  - destruct Ht as [_ ->]. constructor; [simpl; lia|done].
Qed.

Lemma inv_run max0 evs :
  min0 <= max0 -> Forall timely evs ->
  inv from k0 min0 t0 (run evs (newSuspicion from k0 min0 max0 t0)).1
                      (run evs (newSuspicion from k0 min0 max0 t0)).2.
Proof.
  intros Hmm. unfold run.
  cut (forall st, inv from k0 min0 t0 st.1 st.2 -> Forall timely evs ->
    inv from k0 min0 t0 (fold_left (fun st e => stepEvent e st) evs st).1
                        (fold_left (fun st e => stepEvent e st) evs st).2).
  { intros Hgen. apply Hgen. by apply inv_newSuspicion. }
  induction evs as [|e evs IH]; intros [s tr] Hinv Hev; simpl in *; [done|].
  apply Forall_cons in Hev as [He Hev]. apply IH; [|done]. destruct e as [sender now|now]; simpl.
  - pose proof (inv_confirm sender now s tr Hinv He) as Hi.
    by destruct (Confirm sender now s) as [[s' new] calls].
  - pose proof (inv_expire now s tr Hinv) as Hi. by destruct (expire now s) as [s' calls].
Qed.

End Runs.

(** ** Correctness *)

(** Only independent confirmations count. Along any run, the count is the number
    of accepted senders; they are pairwise distinct and none is the node that
    raised the suspicion; there are never more than [k] of them. *)
Theorem confirmations_independent from k0 min0 max0 t0 evs
    (Hmin : 0 <= min0 <= maxI64) (Hmax : min0 <= max0) (Hev : Forall (timely t0) evs) :
  let r := run evs (newSuspicion from k0 min0 max0 t0) in
  n r.1 = Z.of_nat (length (accepted r.2)) /\
  n r.1 <= Z.max 0 (i32 k0) /\
  NoDup (from :: accepted r.2).
Proof.
  destruct (inv_run from k0 min0 t0 Hmin max0 evs Hmax Hev) as [Hk _ _ Hn Hb Hd _ _ _].
  cbv zeta. rewrite <- Hk. auto.
Qed.

(** C26: The timeout function runs at most once, whether the timer expires or a
    confirmation finds the time already up, and never before the minimal timeout
    has passed. *)
Theorem timeout_once_not_early from k0 min0 max0 t0 evs
    (Hmin : 0 <= min0 <= maxI64) (Hmax : min0 <= max0) (Hev : Forall (timely t0) evs) :
  let r := run evs (newSuspicion from k0 min0 max0 t0) in
  (length (fired r.2) <= 1)%nat /\ Forall (fun p => t0 + min0 <= p.1) (fired r.2).
Proof.
  destruct (inv_run from k0 min0 t0 Hmin max0 evs Hmax Hev) as [_ _ _ _ _ _ _ Ht Hf].
  cbv zeta. split; [|done]. destruct (tmr _); [destruct Ht as [_ ->]; simpl|]; lia.
Qed.

Lemma lan_check : checkFrom 1 60 (fun nodes =>
  shortens (4 - 2) (Timing.suspicionTimeout 4 nodes nsSecond)
    (i64 (6 * Timing.suspicionTimeout 4 nodes nsSecond))) = true.
Proof. vm_compute. reflexivity. Qed.

Lemma wan_check : checkFrom 1 60 (fun nodes =>
  shortens (6 - 2) (Timing.suspicionTimeout 6 nodes (5 * nsSecond))
    (i64 (6 * Timing.suspicionTimeout 6 nodes (5 * nsSecond)))) = true.
Proof. vm_compute. reflexivity. Qed.

Lemma local_check : checkFrom 1 60 (fun nodes =>
  shortens (3 - 2) (Timing.suspicionTimeout 3 nodes nsSecond)
    (i64 (6 * Timing.suspicionTimeout 3 nodes nsSecond))) = true.
Proof. vm_compute. reflexivity. Qed.

Lemma shortens_sound k min max :
  shortens k min max = true ->
  timeoutAfter 1 k min max < max /\ timeoutAfter k k min max = min /\
  forall j, 1 <= j < k -> timeoutAfter (j + 1) k min max < timeoutAfter j k min max.
Proof.
  unfold shortens. intros [[H1 Hk]%andb_prop Hc]%andb_prop. zify_bool. split_and!; auto. intros j Hj.
  apply Z.ltb_lt, (checkFrom_sound _ _ _ Hc j). lia.
Qed.

(** Under each of the three default configurations (LAN, WAN, local) and for
    clusters of up to 60 nodes, the floating-point timeout drops below the maximum
    with the first of the [SuspicionMult - 2] confirmations, is strictly shorter
    with each further one, and is exactly the minimum once all of them are in. *)
Theorem default_timeouts_shorten mult interval nodes
    (Hcfg : (mult, interval) ∈ [(4, nsSecond); (6, 5 * nsSecond); (3, nsSecond)])
    (Hn : 1 <= nodes <= 60) :
  let min := Timing.suspicionTimeout mult nodes interval in
  let max := i64 (6 * min) in
  let k := mult - 2 in
  timeoutAfter 1 k min max < max /\ timeoutAfter k k min max = min /\
  forall j, 1 <= j < k -> timeoutAfter (j + 1) k min max < timeoutAfter j k min max.
Proof.
  cbv zeta. apply shortens_sound. rewrite !elem_of_cons in Hcfg.
  destruct Hcfg as [[= -> ->]|[[= -> ->]|[[= -> ->]|[]%elem_of_nil]]].
  - exact (checkFrom_sound 1 60 _ lan_check nodes ltac:(lia)).
  - exact (checkFrom_sound 1 60 _ wan_check nodes ltac:(lia)).
  - exact (checkFrom_sound 1 60 _ local_check nodes ltac:(lia)).
Qed.

(** ** Witnesses *)

Definition exEvents : list event :=
  [EvConfirm "x" 1000; EvConfirm "me" 2000; EvConfirm "x" 3000; EvConfirm "y" (3 * nsSecond);
   EvTimer (4 * nsSecond)].

Lemma confirmations_independent_witness :
  NoDup ("me" :: accepted (run exEvents (newSuspicion "me" 2 (2 * nsSecond) (30 * nsSecond) 0)).2)
  /\ accepted (run exEvents (newSuspicion "me" 2 (2 * nsSecond) (30 * nsSecond) 0)).2 = ["x"; "y"].
Proof.
  split; [|vm_compute; reflexivity].
  apply (confirmations_independent "me" 2 (2 * nsSecond) (30 * nsSecond) 0 exEvents).
  - vm_compute. split; discriminate.
  - vm_compute. discriminate.
  - repeat constructor; vm_compute; discriminate.
Defined.

Lemma timeout_once_not_early_witness :
  Forall (fun p => 0 + 2 * nsSecond <= p.1)
    (fired (run exEvents (newSuspicion "me" 2 (2 * nsSecond) (30 * nsSecond) 0)).2)
  /\ length (fired (run exEvents (newSuspicion "me" 2 (2 * nsSecond) (30 * nsSecond) 0)).2) = 1%nat.
Proof.
  split; [|vm_compute; reflexivity].
  apply (timeout_once_not_early "me" 2 (2 * nsSecond) (30 * nsSecond) 0 exEvents).
  - vm_compute. split; discriminate.
  - vm_compute. discriminate.
  - repeat constructor; vm_compute; discriminate.
Defined.

Lemma default_timeouts_shorten_witness :
  timeoutAfter 2 2 (Timing.suspicionTimeout 4 50 nsSecond) (i64 (6 * Timing.suspicionTimeout 4 50 nsSecond))
    = Timing.suspicionTimeout 4 50 nsSecond.
Proof. exact (proj1 (proj2 (default_timeouts_shorten 4 nsSecond 50 ltac:(by left) ltac:(lia)))). Defined.

End Suspicion.
