(* ===== verification/Config.v ===== *)
(** * Configuration and addresses (config.go, util.go)

    The configuration fields the model uses with the three default
    configurations, the address filter, and the forms an address takes: the
    textual form of an IP (package net), host and port strings. *)

From Stdlib Require Import ZArith Lia Strings.Byte.
From stdpp Require Import tactics base numbers strings gmap list.
From S2P Require Import Prelude Keyring.

Local Open Scope Z_scope.

Module Config.

(** ** IP addresses (package net) *)

Definition byteAt (i : nat) (l : bytes) : Z := Z_of_byte (nth i l "000"%byte).

Definition allZero (l : bytes) : bool := forallb (fun x => Byte.eqb x "000"%byte) l.

(** [IP.To4]: the four bytes of an IPv4 or IPv4-mapped address. *)
Definition To4 (ip : bytes) : option bytes :=
  if Nat.eqb (length ip) 4 then Some ip
  else if Nat.eqb (length ip) 16 && allZero (take 10 ip)
          && (byteAt 10 ip =? 255) && (byteAt 11 ip =? 255)
       then Some (drop 12 ip)
       else None.

Record IPNet := mkIPNet { netIP : bytes; netMask : bytes }.

Definition networkNumberAndMask (n : IPNet) : bytes * bytes :=
  let ip := match To4 (netIP n) with
            | Some p4 => Some p4
            | None => if Nat.eqb (length (netIP n)) 16 then Some (netIP n) else None
            end in
  match ip with
  | None => ([], [])
  | Some ip =>
      if Nat.eqb (length (netMask n)) 4 then
        if Nat.eqb (length ip) 4 then (ip, netMask n) else ([], [])
      else if Nat.eqb (length (netMask n)) 16 then
        if Nat.eqb (length ip) 4 then (ip, drop 12 (netMask n)) else (ip, netMask n)
      else ([], [])
  end.

Fixpoint maskedEqual (nn m ip : bytes) : bool :=
  match nn, m, ip with
  | x :: nn, y :: m, z :: ip =>
      (Z.land (Z_of_byte x) (Z_of_byte y) =? Z.land (Z_of_byte z) (Z_of_byte y)) && maskedEqual nn m ip
  | _, _, _ => true
  end.

(** [IPNet.Contains]. *)
Definition Contains (n : IPNet) (ip : bytes) : bool :=
  let '(nn, m) := networkNumberAndMask n in
  let ip := match To4 ip with Some x => x | None => ip end in
  Nat.eqb (length ip) (length nn) && maskedEqual nn m ip.

(** Decimal and lower-case hexadecimal numerals. *)
Fixpoint digits (fuel : nat) (base n : Z) : bytes :=
  match fuel with
  | O => []
  | S fuel' =>
      let d := n mod base in
      (if n <? base then [] else digits fuel' base (n / base))
      ++ [byte_of_Z (if d <? 10 then 48 + d else 87 + d)]
  end.

(** [strconv.Itoa] of a 64-bit integer. *)
Definition itoa (n : Z) : bytes :=
  if n <? 0 then "-"%byte :: digits 20 10 (- n) else digits 20 10 n.

Definition hex2 (x : byte) : bytes :=
  let z := Z_of_byte x in
  let dig d := byte_of_Z (if d <? 10 then 48 + d else 87 + d) in
  [dig (z / 16); dig (z mod 16)].

Definition v4String (ip : bytes) : bytes :=
  itoa (byteAt 0 ip) ++ "."%byte :: itoa (byteAt 1 ip) ++ "."%byte :: itoa (byteAt 2 ip) ++
  "."%byte :: itoa (byteAt 3 ip).

(** The [i]th 16-bit group of an IPv6 address. *)
Definition v6u16 (i : nat) (ip : bytes) : Z := byteAt (2 * i) ip * 256 + byteAt (2 * i + 1) ip.

Fixpoint zeroRun (fuel i : nat) (ip : bytes) : nat :=
  match fuel with
  | O => O
  | S fuel' => if v6u16 i ip =? 0 then S (zeroRun fuel' (S i) ip) else O
  end.

(** The first longest run of at least two zero groups: its start and end. *)
Definition longestRun (ip : bytes) : nat * nat :=
  fold_left (fun acc i =>
    let l := zeroRun (8 - i) i ip in
    if Nat.leb 2 l && Nat.ltb (snd acc - fst acc) l then (i, (i + l)%nat) else acc)
    (seq 0 8) (8%nat, 8%nat).

Fixpoint v6Groups (fuel i zs ze : nat) (ip : bytes) : bytes :=
  match fuel with
  | O => []
  | S fuel' =>
      if Nat.leb 8 i then []
      else if Nat.eqb i zs then
        ":"%byte :: ":"%byte ::
        (if Nat.leb 8 ze then []
         else digits 4 16 (v6u16 ze ip) ++ v6Groups fuel' (S ze) zs ze ip)
      else
        (if Nat.eqb i 0 then [] else [":"%byte]) ++ digits 4 16 (v6u16 i ip)
        ++ v6Groups fuel' (S i) zs ze ip
  end.

(** [IP.String]. *)
Definition ipString (ip : bytes) : bytes :=
  if Nat.eqb (length ip) 0 then bytes_of_string "<nil>"
  else if negb (Nat.eqb (length ip) 4) && negb (Nat.eqb (length ip) 16) then
    "?"%byte :: concat (map hex2 ip)
  else match To4 ip with
       | Some p4 => v4String p4
       | None => let '(zs, ze) := longestRun ip in v6Groups 8 0 zs ze ip
       end.

(** ** Hosts and ports (util.go) *)

(** [strings.LastIndex] and [strings.Count] for one-byte patterns. *)
Fixpoint lastIndexFrom (c : byte) (i : Z) (s : bytes) (found : Z) : Z :=
  match s with
  | [] => found
  | x :: s => lastIndexFrom c (i + 1) s (if Byte.eqb x c then i else found)
  end.

Definition lastIndex (c : byte) (s : bytes) : Z := lastIndexFrom c 0 s (-1).

Definition countByte (c : byte) (s : bytes) : Z :=
  Z.of_nat (length (List.filter (fun x => Byte.eqb x c) s)).

(** [strings.Trim(s, "[]")]. *)
Definition bracket (x : byte) : bool := Byte.eqb x "["%byte || Byte.eqb x "]"%byte.

Fixpoint trimLeft (s : bytes) : bytes :=
  match s with
  | [] => []
  | x :: s' => if bracket x then trimLeft s' else s
  end.

Definition trimBrackets (s : bytes) : bytes := rev (trimLeft (rev (trimLeft s))).

(** [net.JoinHostPort]: a host with a colon is put in brackets. *)
Definition JoinHostPort (host port : bytes) : bytes :=
  if existsb (Byte.eqb ":"%byte) host then "["%byte :: host ++ "]"%byte :: ":"%byte :: port
  else host ++ ":"%byte :: port.

Definition joinHostPort (host : bytes) (port : Z) : bytes := JoinHostPort host (itoa port).

Definition hasPort (s : bytes) : bool :=
  if lastIndex "["%byte s =? 0 then lastIndex ":"%byte s >? lastIndex "]"%byte s
  else countByte ":"%byte s =? 1.

Definition ensurePort (s : bytes) (port : Z) : bytes :=
  if hasPort s then s else JoinHostPort (trimBrackets s) (itoa port).

(** ** Configuration *)

Record Config := mkConfig {
  Name : string;
  Label : string;
  SkipInboundLabelCheck : bool;
  BindAddr : string;
  BindPort : Z;
  AdvertiseAddr : string;
  AdvertisePort : Z;
  ProtocolVersion : Z;
  DelegateProtocolVersion : Z;
  DelegateProtocolMin : Z;
  DelegateProtocolMax : Z;
  TCPTimeout : duration;
  IndirectChecks : Z;
  RetransmitMult : Z;
  SuspicionMult : Z;
  SuspicionMaxTimeoutMult : Z;
  PushPullInterval : duration;
  ProbeTimeout : duration;
  ProbeInterval : duration;
  DisableTcpPings : bool;
  AwarenessMaxMultiplier : Z;
  GossipNodes : Z;
  GossipInterval : duration;
  GossipToTheDeadTime : duration;
  GossipVerifyIncoming : bool;
  GossipVerifyOutgoing : bool;
  EnableCompression : bool;
  SecretKey : bytes;
  Keyring : option Keyring.Keyring;
  DeadNodeReclaimTime : duration;
  RequireNodeNames : bool;
  HandoffQueueDepth : Z;
  UDPBufferSize : Z;
  CIDRsAllowed : list IPNet;
  QueueCheckInterval : duration;
  MsgpackUseNewTimeFormat : bool
}.

Definition ProtocolVersionMin : Z := 1.
Definition ProtocolVersion2Compatible : Z := 2.
Definition ProtocolVersionMax : Z := 5.

Definition DefaultLANConfig (hostname : string) : Config := {|
  Name := hostname;
  Label := EmptyString;
  SkipInboundLabelCheck := false;
  BindAddr := "0.0.0.0";
  BindPort := 7946;
  AdvertiseAddr := EmptyString;
  AdvertisePort := 7946;
  ProtocolVersion := ProtocolVersion2Compatible;
  DelegateProtocolVersion := 0;
  DelegateProtocolMin := 0;
  DelegateProtocolMax := 0;
  TCPTimeout := 10 * nsSecond;
  IndirectChecks := 3;
  RetransmitMult := 4;
  SuspicionMult := 4;
  SuspicionMaxTimeoutMult := 6;
  PushPullInterval := 30 * nsSecond;
  ProbeTimeout := 500 * nsMillisecond;
  ProbeInterval := 1 * nsSecond;
  DisableTcpPings := false;
  AwarenessMaxMultiplier := 8;
  GossipNodes := 3;
  GossipInterval := 200 * nsMillisecond;
  GossipToTheDeadTime := 30 * nsSecond;
  GossipVerifyIncoming := true;
  GossipVerifyOutgoing := true;
  EnableCompression := true;
  SecretKey := [];
  Keyring := None;
  DeadNodeReclaimTime := 0;
  RequireNodeNames := false;
  HandoffQueueDepth := 1024;
  UDPBufferSize := 1400;
  CIDRsAllowed := [];
  QueueCheckInterval := 30 * nsSecond;
  MsgpackUseNewTimeFormat := false
|}.

Definition DefaultWANConfig (hostname : string) : Config :=
  let conf := DefaultLANConfig hostname in {|
  Name := Name conf;
  Label := Label conf;
  SkipInboundLabelCheck := SkipInboundLabelCheck conf;
  BindAddr := BindAddr conf;
  BindPort := BindPort conf;
  AdvertiseAddr := AdvertiseAddr conf;
  AdvertisePort := AdvertisePort conf;
  ProtocolVersion := ProtocolVersion conf;
  DelegateProtocolVersion := DelegateProtocolVersion conf;
  DelegateProtocolMin := DelegateProtocolMin conf;
  DelegateProtocolMax := DelegateProtocolMax conf;
  TCPTimeout := 30 * nsSecond;
  IndirectChecks := IndirectChecks conf;
  RetransmitMult := RetransmitMult conf;
  SuspicionMult := 6;
  SuspicionMaxTimeoutMult := SuspicionMaxTimeoutMult conf;
  PushPullInterval := 60 * nsSecond;
  ProbeTimeout := 3 * nsSecond;
  ProbeInterval := 5 * nsSecond;
  DisableTcpPings := DisableTcpPings conf;
  AwarenessMaxMultiplier := AwarenessMaxMultiplier conf;
  GossipNodes := 4;
  GossipInterval := 500 * nsMillisecond;
  GossipToTheDeadTime := 60 * nsSecond;
  GossipVerifyIncoming := GossipVerifyIncoming conf;
  GossipVerifyOutgoing := GossipVerifyOutgoing conf;
  EnableCompression := EnableCompression conf;
  SecretKey := SecretKey conf;
  Keyring := Keyring conf;
  DeadNodeReclaimTime := DeadNodeReclaimTime conf;
  RequireNodeNames := RequireNodeNames conf;
  HandoffQueueDepth := HandoffQueueDepth conf;
  UDPBufferSize := UDPBufferSize conf;
  CIDRsAllowed := CIDRsAllowed conf;
  QueueCheckInterval := QueueCheckInterval conf;
  MsgpackUseNewTimeFormat := MsgpackUseNewTimeFormat conf
|}.

Definition DefaultLocalConfig (hostname : string) : Config :=
  let conf := DefaultLANConfig hostname in {|
  Name := Name conf;
  Label := Label conf;
  SkipInboundLabelCheck := SkipInboundLabelCheck conf;
  BindAddr := BindAddr conf;
  BindPort := BindPort conf;
  AdvertiseAddr := AdvertiseAddr conf;
  AdvertisePort := AdvertisePort conf;
  ProtocolVersion := ProtocolVersion conf;
  DelegateProtocolVersion := DelegateProtocolVersion conf;
  DelegateProtocolMin := DelegateProtocolMin conf;
  DelegateProtocolMax := DelegateProtocolMax conf;
  TCPTimeout := nsSecond;
  IndirectChecks := 1;
  RetransmitMult := 2;
  SuspicionMult := 3;
  SuspicionMaxTimeoutMult := SuspicionMaxTimeoutMult conf;
  PushPullInterval := 15 * nsSecond;
  ProbeTimeout := 200 * nsMillisecond;
  ProbeInterval := nsSecond;
  DisableTcpPings := DisableTcpPings conf;
  AwarenessMaxMultiplier := AwarenessMaxMultiplier conf;
  GossipNodes := GossipNodes conf;
  GossipInterval := 100 * nsMillisecond;
  GossipToTheDeadTime := 15 * nsSecond;
  GossipVerifyIncoming := GossipVerifyIncoming conf;
  GossipVerifyOutgoing := GossipVerifyOutgoing conf;
  EnableCompression := EnableCompression conf;
  SecretKey := SecretKey conf;
  Keyring := Keyring conf;
  DeadNodeReclaimTime := DeadNodeReclaimTime conf;
  RequireNodeNames := RequireNodeNames conf;
  HandoffQueueDepth := HandoffQueueDepth conf;
  UDPBufferSize := UDPBufferSize conf;
  CIDRsAllowed := CIDRsAllowed conf;
  QueueCheckInterval := QueueCheckInterval conf;
  MsgpackUseNewTimeFormat := MsgpackUseNewTimeFormat conf
|}.

(** Another bind and advertise port. *)
Definition withPorts (bind advertise : Z) (conf : Config) : Config :=
  mkConfig (Name conf) (Label conf) (SkipInboundLabelCheck conf) (BindAddr conf) bind
    (AdvertiseAddr conf) advertise (ProtocolVersion conf) (DelegateProtocolVersion conf)
    (DelegateProtocolMin conf) (DelegateProtocolMax conf) (TCPTimeout conf) (IndirectChecks conf)
    (RetransmitMult conf) (SuspicionMult conf) (SuspicionMaxTimeoutMult conf) (PushPullInterval conf) (ProbeTimeout conf)
    (ProbeInterval conf) (DisableTcpPings conf) (AwarenessMaxMultiplier conf) (GossipNodes conf) (GossipInterval conf)
    (GossipToTheDeadTime conf) (GossipVerifyIncoming conf) (GossipVerifyOutgoing conf) (EnableCompression
    conf) (SecretKey conf) (Keyring conf) (DeadNodeReclaimTime conf) (RequireNodeNames conf)
    (HandoffQueueDepth conf) (UDPBufferSize conf) (CIDRsAllowed conf) (QueueCheckInterval conf)
    (MsgpackUseNewTimeFormat conf).

(** A configuration with other intervals for the background tasks. *)
Definition withIntervals (pushPull probe gossip : duration) (conf : Config) : Config :=
  mkConfig (Name conf) (Label conf) (SkipInboundLabelCheck conf) (BindAddr conf) (BindPort conf)
    (AdvertiseAddr conf) (AdvertisePort conf) (ProtocolVersion conf) (DelegateProtocolVersion conf)
    (DelegateProtocolMin conf) (DelegateProtocolMax conf) (TCPTimeout conf) (IndirectChecks conf)
    (RetransmitMult conf) (SuspicionMult conf) (SuspicionMaxTimeoutMult conf) pushPull (ProbeTimeout conf)
    probe (DisableTcpPings conf) (AwarenessMaxMultiplier conf) (GossipNodes conf) gossip
    (GossipToTheDeadTime conf) (GossipVerifyIncoming conf) (GossipVerifyOutgoing conf) (EnableCompression
    conf) (SecretKey conf) (Keyring conf) (DeadNodeReclaimTime conf) (RequireNodeNames conf)
    (HandoffQueueDepth conf) (UDPBufferSize conf) (CIDRsAllowed conf) (QueueCheckInterval conf)
    (MsgpackUseNewTimeFormat conf).

(** ... with other allowed networks. *)
Definition withCIDRs (nets : list IPNet) (conf : Config) : Config :=
  mkConfig (Name conf) (Label conf) (SkipInboundLabelCheck conf) (BindAddr conf) (BindPort conf)
    (AdvertiseAddr conf) (AdvertisePort conf) (ProtocolVersion conf) (DelegateProtocolVersion conf)
    (DelegateProtocolMin conf) (DelegateProtocolMax conf) (TCPTimeout conf) (IndirectChecks conf)
    (RetransmitMult conf) (SuspicionMult conf) (SuspicionMaxTimeoutMult conf) (PushPullInterval conf)
    (ProbeTimeout conf) (ProbeInterval conf) (DisableTcpPings conf) (AwarenessMaxMultiplier conf)
    (GossipNodes conf) (GossipInterval conf) (GossipToTheDeadTime conf) (GossipVerifyIncoming conf)
    (GossipVerifyOutgoing conf) (EnableCompression conf) (SecretKey conf) (Keyring conf)
    (DeadNodeReclaimTime conf) (RequireNodeNames conf) (HandoffQueueDepth conf) (UDPBufferSize conf) nets
    (QueueCheckInterval conf) (MsgpackUseNewTimeFormat conf).

Definition withIndirectChecks (k : Z) (conf : Config) : Config :=
  mkConfig (Name conf) (Label conf) (SkipInboundLabelCheck conf) (BindAddr conf) (BindPort conf)
    (AdvertiseAddr conf) (AdvertisePort conf) (ProtocolVersion conf) (DelegateProtocolVersion conf)
    (DelegateProtocolMin conf) (DelegateProtocolMax conf) (TCPTimeout conf) k
    (RetransmitMult conf) (SuspicionMult conf) (SuspicionMaxTimeoutMult conf) (PushPullInterval conf)
    (ProbeTimeout conf) (ProbeInterval conf) (DisableTcpPings conf) (AwarenessMaxMultiplier conf)
    (GossipNodes conf) (GossipInterval conf) (GossipToTheDeadTime conf) (GossipVerifyIncoming conf)
    (GossipVerifyOutgoing conf) (EnableCompression conf) (SecretKey conf) (Keyring conf)
    (DeadNodeReclaimTime conf) (RequireNodeNames conf) (HandoffQueueDepth conf) (UDPBufferSize conf) (CIDRsAllowed conf)
    (QueueCheckInterval conf) (MsgpackUseNewTimeFormat conf).

(** ... with another label, keyring, and choice of verification and compression. *)
Definition withSecurity (label : string) (ring : option Keyring.Keyring) (verifyIn verifyOut comp : bool) (conf : Config) : Config :=
  mkConfig (Name conf) label (SkipInboundLabelCheck conf) (BindAddr conf) (BindPort conf) (AdvertiseAddr
    conf) (AdvertisePort conf) (ProtocolVersion conf) (DelegateProtocolVersion conf) (DelegateProtocolMin
    conf) (DelegateProtocolMax conf) (TCPTimeout conf) (IndirectChecks conf) (RetransmitMult conf)
    (SuspicionMult conf) (SuspicionMaxTimeoutMult conf) (PushPullInterval conf) (ProbeTimeout conf)
    (ProbeInterval conf) (DisableTcpPings conf) (AwarenessMaxMultiplier conf) (GossipNodes conf)
    (GossipInterval conf) (GossipToTheDeadTime conf) verifyIn verifyOut comp (SecretKey conf) ring
    (DeadNodeReclaimTime conf) (RequireNodeNames conf) (HandoffQueueDepth conf) (UDPBufferSize conf)
    (CIDRsAllowed conf) (QueueCheckInterval conf) (MsgpackUseNewTimeFormat conf).

(** [BuildVsnArray]. *)
Definition BuildVsnArray (conf : Config) : list Z :=
  [ProtocolVersionMin; ProtocolVersionMax; ProtocolVersion conf;
   DelegateProtocolMin conf; DelegateProtocolMax conf; DelegateProtocolVersion conf].

Definition IPMustBeChecked (c : Config) : bool := negb (Nat.eqb (length (CIDRsAllowed c)) 0).

Definition EncryptionEnabled (c : Config) : bool :=
  match Keyring c with
  | None => false
  | Some k => Nat.ltb 0 (length (Keyring.GetKeys k))
  end.

(** [IPAllowed]: [true] where the code returns a nil error. *)
Definition IPAllowed (c : Config) (ip : bytes) : bool :=
  if negb (IPMustBeChecked c) then true
  else existsb (fun n => Contains n ip) (CIDRsAllowed c).

(** ** Textual addresses *)

Definition loopback6 : bytes :=
  ["000"; "000"; "000"; "000"; "000"; "000"; "000"; "000"; "000"; "000"; "000"; "000"; "000"; "000"; "000"; "001"]%byte.

Definition doc6 : bytes :=
  ["032"; "001"; "013"; "184"; "000"; "000"; "000"; "000"; "000"; "001"; "000"; "000"; "000"; "000"; "000"; "001"]%byte.

(** The compression of the first longest zero run. *)
Lemma ipString_examples :
  map ipString [["127"; "000"; "000"; "001"]%byte; loopback6; doc6; []; ["010"; "255"]%byte]
  = map bytes_of_string ["127.0.0.1"; "::1"; "2001:db8::1:0:0:1"; "<nil>"; "?0aff"].
Proof. vm_compute. reflexivity. Qed.

Definition v4prefix : bytes :=
  ["000"; "000"; "000"; "000"; "000"; "000"; "000"; "000"; "000"; "000"; "255"; "255"]%byte.

(** The 16-byte form of an IPv4 address. *)
Definition mapped (ip4 : bytes) : bytes := v4prefix ++ ip4.

Lemma To4_mapped ip4 : length ip4 = 4%nat -> To4 (mapped ip4) = Some ip4.
Proof. intros H. do 4 (destruct ip4 as [|? ip4]; [discriminate|]).
  destruct ip4; [vm_compute; reflexivity|discriminate]. Qed.

Lemma To4_short ip4 : length ip4 = 4%nat -> To4 ip4 = Some ip4.
Proof. intros H. unfold To4. by rewrite H. Qed.

(** The address filter sees through the IPv4-mapped form: an address is allowed in
    its 16-byte form exactly when it is in its 4-byte form, so a network is not
    evaded by writing the address differently. *)
Theorem IPAllowed_mapped c ip4 (Hlen : length ip4 = 4%nat) :
  IPAllowed c (mapped ip4) = IPAllowed c ip4.
Proof.
  unfold IPAllowed. destruct (negb _); [done|].
  induction (CIDRsAllowed c) as [|n l IH]; [done|]. simpl. rewrite IH. f_equal.
  unfold Contains. by rewrite (To4_mapped _ Hlen), (To4_short _ Hlen).
Qed.

(** ** Ports *)

Lemma lastIndexFrom_notin c i s f : ~ c ∈ s -> lastIndexFrom c i s f = f.
Proof.
  revert i f. induction s as [|x s IH]; intros i f Hn; [done|]. simpl.
  rewrite not_elem_of_cons in Hn. destruct Hn as [Hx Hs].
  destruct (Byte.eqb x c) eqn:E; [|by apply IH].
  apply Byte.byte_dec_bl in E. congruence.
Qed.

Lemma lastIndexFrom_app c i s1 s2 f :
  lastIndexFrom c i (s1 ++ s2) f = lastIndexFrom c (i + blen s1) s2 (lastIndexFrom c i s1 f).
Proof.
  revert i f. induction s1 as [|x s1 IH]; intros i f; simpl.
  - f_equal. unfold blen. simpl. lia.
  - rewrite IH, blen_cons. f_equal. lia.
Qed.

Lemma countByte_app c s1 s2 : countByte c (s1 ++ s2) = countByte c s1 + countByte c s2.
Proof. unfold countByte. rewrite List.filter_app, List.length_app. lia. Qed.

Lemma countByte_notin c s : ~ c ∈ s -> countByte c s = 0.
Proof.
  unfold countByte. induction s as [|x s IH]; [done|]. rewrite not_elem_of_cons. intros [Hx Hs]. simpl.
  destruct (Byte.eqb x c) eqn:E; [|by apply IH]. apply Byte.byte_dec_bl in E. congruence.
Qed.

(** A byte that is neither a decimal digit nor a sign. *)
Definition notNumeral (c : byte) : Prop := Z_of_byte c < 45 \/ 57 < Z_of_byte c.

Lemma digits_10 fuel n c : 0 <= n -> c ∈ digits fuel 10 n -> 48 <= Z_of_byte c <= 57.
Proof.
  revert n. induction fuel as [|fuel IH]; intros n Hn; simpl; [by intros ?%elem_of_nil|].
  rewrite elem_of_app, list_elem_of_singleton. intros [Hc| ->].
  - case_match; [by apply elem_of_nil in Hc|]. apply (IH (n / 10)); [|done]. apply Z.div_pos; lia.
  - pose proof (Z.mod_pos_bound n 10 ltac:(lia)). case_match; zify_bool; [|lia].
    rewrite Z_of_byte_small by lia. lia.
Qed.

Lemma itoa_notin n c : notNumeral c -> ~ c ∈ itoa n.
Proof.
  unfold itoa, notNumeral. intros Hc Hin. case_match; zify_bool.
  - apply elem_of_cons in Hin as [->|Hin]; [vm_compute in Hc; destruct Hc; discriminate|].
    apply digits_10 in Hin; lia.
  - apply digits_10 in Hin; lia.
Qed.

Lemma itoa_colon n : ~ ":"%byte ∈ itoa n.
Proof. apply itoa_notin. right. by vm_compute. Qed.

Lemma itoa_lbracket n : ~ "["%byte ∈ itoa n.
Proof. apply itoa_notin. right. by vm_compute. Qed.

Lemma itoa_rbracket n : ~ "]"%byte ∈ itoa n.
Proof. apply itoa_notin. right. by vm_compute. Qed.

Lemma hasPort_join host port :
  ~ "["%byte ∈ host -> hasPort (JoinHostPort host (itoa port)) = true.
Proof.
  intros Hh. unfold JoinHostPort. destruct (existsb _ host) eqn:Ec.
  - unfold hasPort, lastIndex. simpl. rewrite !lastIndexFrom_app. simpl.
    rewrite (lastIndexFrom_notin "[" _ (itoa port)), (lastIndexFrom_notin "]" _ (itoa port)),
      (lastIndexFrom_notin ":" _ (itoa port)), (lastIndexFrom_notin "[" _ host)
      by (done || apply itoa_lbracket || apply itoa_rbracket || apply itoa_colon).
    simpl. apply Z.gtb_lt. lia.
  - unfold hasPort, lastIndex. rewrite lastIndexFrom_app. simpl.
    rewrite (lastIndexFrom_notin "[" _ (itoa port)), (lastIndexFrom_notin "[" _ host)
      by (done || apply itoa_lbracket). simpl.
    replace (host ++ ":"%byte :: itoa port) with (host ++ [":"%byte] ++ itoa port) by done.
    rewrite !countByte_app, (countByte_notin _ (itoa port)) by apply itoa_colon.
    rewrite countByte_notin; [done|]. intros Hin. apply not_true_iff_false in Ec. apply Ec, existsb_exists.
    exists ":"%byte. split; [by apply list_elem_of_In|done].
Qed.

(** [ensurePort] makes sure there is a port: its result always has one, for every
    host whose name has no inner opening bracket, and it leaves alone what already
    has one (so it is idempotent). *)
Theorem ensurePort_has_port s port (Hs : ~ "["%byte ∈ trimBrackets s) :
  hasPort (ensurePort s port) = true /\ ensurePort (ensurePort s port) port = ensurePort s port /\
  (hasPort s = true -> ensurePort s port = s).
Proof.
  assert (H : hasPort (ensurePort s port) = true).
  { unfold ensurePort. destruct (hasPort s) eqn:E; [done|]. by apply hasPort_join. }
  split_and!; [done| |].
  - unfold ensurePort at 1. by rewrite H.
  - intros E. unfold ensurePort. by rewrite E.
Qed.

(** ** Witnesses *)

Lemma IPAllowed_mapped_witness :
  let c := withCIDRs [mkIPNet ["010"; "000"; "000"; "000"]%byte ["255"; "000"; "000"; "000"]%byte]
             (DefaultLANConfig "n") in
  IPAllowed c (mapped ["010"; "001"; "002"; "003"]%byte) = true /\
  IPAllowed c (mapped ["011"; "001"; "002"; "003"]%byte) = false.
Proof. intros c. rewrite !(IPAllowed_mapped c) by done. split; reflexivity. Defined.

Lemma ensurePort_has_port_witness :
  hasPort (ensurePort (bytes_of_string "[::1]") 7946) = true /\
  ensurePort (bytes_of_string "[::1]") 7946 = bytes_of_string "[::1]:7946".
Proof.
  split; [|vm_compute; reflexivity].
  apply (ensurePort_has_port (bytes_of_string "[::1]") 7946). apply (bool_decide_unpack _). by vm_compute.
Defined.

End Config.
