(* ===== verification/Addr.v ===== *)
(** * Parsing addresses and networks (config.go; packages net and net/netip)

    The inverse direction of the textual addresses of [Config]: [SplitHostPort],
    [ParseIP] and [ParseCIDR] of the standard library, as [ParseCIDRs],
    [ensureCanConnect] and [rawSendMsgPacket] use them. Error texts are not
    modelled: an error is [None]. *)

From Stdlib Require Import ZArith Lia Strings.Byte.
From stdpp Require Import tactics base numbers strings gmap list.
From S2P Require Import Prelude Config.

Local Open Scope Z_scope.

Module Addr.

Import Config.

(** ** Splitting (package net) *)

(** [bytealg.IndexByteString]; [None] for -1. *)
Fixpoint indexByte (c : byte) (s : bytes) : option nat :=
  match s with
  | [] => None
  | x :: s' => if Byte.eqb x c then Some O
               else match indexByte c s' with Some i => Some (S i) | None => None end
  end.

Definition has (c : byte) (s : bytes) : bool := existsb (Byte.eqb c) s.

(** The last steps of [SplitHostPort]: no bracket after position [j], none
    closing after [k]. *)
Definition splitChecked (hostport host port : bytes) (j k : nat) : option (bytes * bytes) :=
  if has "["%byte (drop j hostport) then None
  else if has "]"%byte (drop k hostport) then None
  else Some (host, port).

Definition SplitHostPort (hostport : bytes) : option (bytes * bytes) :=
  let i := lastIndex ":"%byte hostport in
  if i <? 0 then None
  else
    let i := Z.to_nat i in
    let port := drop (S i) hostport in
    if bool_decide (head hostport = Some "["%byte) then
      match indexByte "]"%byte hostport with
      | None => None
      | Some e => if Nat.eqb (S e) i
                  then splitChecked hostport (drop 1 (take e hostport)) port 1 (S e)
                  else None
      end
    else
      let host := take i hostport in
      if has ":"%byte host then None else splitChecked hostport host port 0 0.

(** ** Addresses (package net/netip) *)

Definition isDigit (c : byte) : bool := (48 <=? Z_of_byte c) && (Z_of_byte c <=? 57).

(** The loop of [parseIPv4Fields]: [prev] tells whether a dot may come now (a
    digit came before), [fields] are the finished octets. *)
Fixpoint ipv4Fields (s : bytes) (val digLen : Z) (afterDigit : bool) (fields : bytes) : option bytes :=
  match s with
  | [] => if Nat.eqb (length fields) 3 && afterDigit then Some (fields ++ [byte_of_Z val]) else None
  | c :: s' =>
      if isDigit c then
        if (digLen =? 1) && (val =? 0) then None
        else
          let val := val * 10 + (Z_of_byte c - 48) in
          if val >? 255 then None else ipv4Fields s' val (digLen + 1) true fields
      else if Byte.eqb c "."%byte then
        if negb afterDigit then None
        else if Nat.eqb (length fields) 3 then None
        else ipv4Fields s' 0 0 false (fields ++ [byte_of_Z val])
      else None
  end.

Definition parseIPv4 (s : bytes) : option bytes := ipv4Fields s 0 0 false [].

Definition hexValue (c : byte) : option Z :=
  let z := Z_of_byte c in
  if (48 <=? z) && (z <=? 57) then Some (z - 48)
  else if (97 <=? z) && (z <=? 102) then Some (z - 97 + 10)
  else if (65 <=? z) && (z <=? 70) then Some (z - 65 + 10)
  else None.

(** A hexadecimal group: the value, the number of digits and what follows; a
    fifth digit is an error. *)
Fixpoint hexGroup (s : bytes) (off : nat) (acc : Z) : option (Z * nat * bytes) :=
  match s with
  | [] => Some (acc, off, [])
  | c :: s' =>
      match hexValue c with
      | None => Some (acc, off, s)
      | Some v => if Nat.ltb 3 off then None else hexGroup s' (S off) (acc * 16 + v)
      end
  end.

(** The loop of [parseIPv6]; [ip] are the bytes parsed so far and [ellipsis]
    where the run of zeros goes. There are at most eight groups. *)
Fixpoint ipv6Groups (fuel : nat) (s ip : bytes) (ellipsis : option nat) : option (bytes * bytes * option nat) :=
  match fuel with
  | O => Some (s, ip, ellipsis)
  | S fuel' =>
      match hexGroup s 0 0 with
      | None => None
      | Some (acc, off, s') =>
          if Nat.eqb off 0 then None
          else
            match s' with
            | "."%byte :: _ =>
                if (match ellipsis with None => negb (Nat.eqb (length ip) 12) | Some _ => false end)
                   || Nat.ltb 16 (length ip + 4) then None
                else match parseIPv4 s with
                     | None => None
                     | Some f => Some ([], ip ++ f, ellipsis)
                     end
            | _ =>
                let ip := ip ++ [byte_of_Z (acc / 256); byte_of_Z acc] in
                match s' with
                | [] => Some ([], ip, ellipsis)
                | ":"%byte :: c :: s2 =>
                    if Byte.eqb c ":"%byte then
                      match ellipsis with
                      | Some _ => None
                      | None => match s2 with
                                | [] => Some ([], ip, Some (length ip))
                                | _ => ipv6Groups fuel' s2 ip (Some (length ip))
                                end
                      end
                    else ipv6Groups fuel' (c :: s2) ip ellipsis
                | _ => None
                end
            end
      end
  end.

(** After the loop: everything used, and the zeros of the ellipsis inserted. *)
Definition expandEllipsis (r : bytes * bytes * option nat) : option bytes :=
  let '(s, ip, ellipsis) := r in
  if negb (Nat.eqb (length s) 0) then None
  else if Nat.ltb (length ip) 16 then
    match ellipsis with
    | None => None
    | Some e => Some (take e ip ++ replicate (16 - length ip) "000"%byte ++ drop e ip)
    end
  else match ellipsis with None => Some ip | Some _ => None end.

(** An address without a zone. *)
Definition parseIPv6 (s : bytes) : option bytes :=
  match s with
  | ":"%byte :: ":"%byte :: s' =>
      match s' with
      | [] => Some (replicate 16 "000"%byte)
      | _ => match ipv6Groups 8 s' [] (Some O) with Some r => expandEllipsis r | None => None end
      end
  | _ => match ipv6Groups 8 s [] None with Some r => expandEllipsis r | None => None end
  end.

Definition v4InV6 (ip4 : bytes) : bytes :=
  replicate 10 "000"%byte ++ ["255"%byte; "255"%byte] ++ ip4.

(** [netip.ParseAddr] without zones: the first dot, colon or percent sign
    decides. [true] for a plain IPv4 address. *)
Fixpoint addrKind (s : bytes) : option bool :=
  match s with
  | [] => None
  | c :: s' =>
      if Byte.eqb c "."%byte then Some true
      else if Byte.eqb c ":"%byte then Some false
      else if Byte.eqb c "%"%byte then None
      else addrKind s'
  end.

Definition ParseAddr (s : bytes) : option (bytes * bool) :=
  match addrKind s with
  | Some true => match parseIPv4 s with Some ip => Some (v4InV6 ip, true) | None => None end
  | Some false =>
      if has "%"%byte s then None
      else match parseIPv6 s with Some ip => Some (ip, false) | None => None end
  | None => None
  end.

(** [net.ParseIP]: sixteen bytes; [None] for nil. An address with a zone is
    refused, whatever the zone. *)
Definition ParseIP (s : bytes) : option bytes :=
  match ParseAddr s with Some (ip, _) => Some ip | None => None end.

(** ** Networks *)

(** [dtoi]: a decimal number that has to end the text. *)
Fixpoint dtoi (s : bytes) (n : Z) : option Z :=
  match s with
  | [] => Some n
  | c :: s' =>
      if isDigit c then
        let n := n * 10 + (Z_of_byte c - 48) in
        if n >=? 0xFFFFFF then None else dtoi s' n
      else None
  end.

(** [net.CIDRMask]: [ones] leading one bits in [len] bytes. *)
Fixpoint CIDRMask (len : nat) (ones : Z) : bytes :=
  match len with
  | O => []
  | S len' =>
      (if ones >=? 8 then "255"%byte else byte_of_Z (255 - Z.shiftr 255 (Z.max 0 ones)))
      :: CIDRMask len' (if ones >=? 8 then ones - 8 else 0)
  end.

Definition maskBytes (ip mask : bytes) : bytes :=
  zip_with (fun x y => byte_of_Z (Z.land (Z_of_byte x) (Z_of_byte y))) ip mask.

(** [net.ParseCIDR]: the network; for an IPv4 address four bytes. *)
Definition ParseCIDR (s : bytes) : option IPNet :=
  match indexByte "/"%byte s with
  | None => None
  | Some i =>
      match ParseAddr (take i s) with
      | None => None
      | Some (ip, is4) =>
          let mask := drop (S i) s in
          match mask, dtoi mask 0 with
          | _ :: _, Some n =>
              if n >? (if is4 then 32 else 128) then None
              else if is4 then
                let m := CIDRMask 4 n in Some (mkIPNet (maskBytes (drop 12 ip) m) m)
              else
                let m := CIDRMask 16 n in Some (mkIPNet (maskBytes ip m) m)
          | _, _ => None
          end
      end
  end.

(** [strings.TrimSpace], for the ASCII spaces. *)
Definition isSpace (c : byte) : bool :=
  let z := Z_of_byte c in (z =? 32) || ((9 <=? z) && (z <=? 13)).

Fixpoint dropSpaces (s : bytes) : bytes :=
  match s with
  | [] => []
  | c :: s' => if isSpace c then dropSpaces s' else s
  end.

Definition TrimSpace (s : bytes) : bytes := rev (dropSpaces (rev (dropSpaces s))).

(** [ParseCIDRs]: the networks that were parsed and the texts that were not. *)
Definition ParseCIDRs (v : list bytes) : list IPNet * list bytes :=
  fold_left (fun acc p =>
    match ParseCIDR (TrimSpace p) with
    | Some n => (acc.1 ++ [n], acc.2)
    | None => (acc.1, acc.2 ++ [p])
    end) v ([], []).

(** ** Known addresses *)

Example parse_v6_doc :
  ParseIP (bytes_of_string "2001:db8::ff00:42:8329") =
    Some ["032"; "001"; "013"; "184"; "000"; "000"; "000"; "000"; "000"; "000"; "255"; "000"; "000"; "066"; "131"; "041"]%byte.
Proof. vm_compute. reflexivity. Qed.

Example parse_v6_mapped :
  ParseIP (bytes_of_string "::ffff:10.0.0.1") = ParseIP (bytes_of_string "10.0.0.1").
Proof. vm_compute. reflexivity. Qed.

Example parse_bad :
  map ParseIP (map bytes_of_string ["1.2.3"; "1.2.3.256"; "01.2.3.4"; "1::2::3"; "12345::"; "fe80::1%eth0"; "1.2.3.4.5"; ":1"; "1:"])
  = replicate 9 None.
Proof. vm_compute. reflexivity. Qed.

Example parse_cidr :
  ParseCIDR (bytes_of_string "10.1.2.3/12") =
    Some (mkIPNet ["010"; "000"; "000"; "000"]%byte ["255"; "240"; "000"; "000"]%byte).
Proof. vm_compute. reflexivity. Qed.

(** ** Splitting what was joined *)

Lemma has_in c s : has c s = true <-> c ∈ s.
Proof.
  unfold has. rewrite existsb_exists. split.
  - intros (x & Hx & E). apply Byte.byte_dec_bl in E as ->. by apply list_elem_of_In.
  - intros Hc. exists c. split; [by apply list_elem_of_In|]. by apply Byte.byte_dec_lb.
Qed.

Lemma has_notin c s : ~ c ∈ s -> has c s = false.
Proof. intros Hn. apply not_true_iff_false. by rewrite has_in. Qed.

Lemma indexByte_app c s1 s2 : ~ c ∈ s1 -> indexByte c (s1 ++ c :: s2) = Some (length s1).
Proof.
  induction s1 as [|x s1 IH]; intros Hn; simpl.
  - by rewrite (Byte.byte_dec_lb eq_refl).
  - destruct (Byte.eqb x c) eqn:E; [apply Byte.byte_dec_bl in E as ->; set_solver|]. by rewrite IH by set_solver.
Qed.

Lemma lastIndex_app c s1 s2 : ~ c ∈ s2 -> lastIndex c (s1 ++ c :: s2) = blen s1.
Proof.
  intros Hn. unfold lastIndex. rewrite lastIndexFrom_app. simpl.
  rewrite (Byte.byte_dec_lb eq_refl), lastIndexFrom_notin by done. lia.
Qed.

Lemma split_join host port :
  ~ "["%byte ∈ host -> ~ "]"%byte ∈ host -> SplitHostPort (joinHostPort host port) = Some (host, itoa port).
Proof.
  intros Hl Hr. pose proof (itoa_colon port) as Hc. pose proof (itoa_lbracket port). pose proof (itoa_rbracket port).
  unfold joinHostPort, JoinHostPort. destruct (existsb (Byte.eqb ":"%byte) host) eqn:E.
  - replace ("["%byte :: host ++ "]"%byte :: ":"%byte :: itoa port)
      with (("["%byte :: host ++ ["]"%byte]) ++ ":"%byte :: itoa port) by (simpl; by rewrite <- app_assoc).
    unfold SplitHostPort. rewrite lastIndex_app by done.
    destruct (Z.ltb_spec (blen ("["%byte :: host ++ ["]"%byte])) 0) as [Hneg|_];
      [pose proof (blen_nonneg ("["%byte :: host ++ ["]"%byte])); lia|].
    set (pre := "["%byte :: host ++ ["]"%byte]).
    replace (Z.to_nat (blen pre)) with (length pre) by (unfold blen; lia).
    assert (Hlen : length pre = S (S (length host))) by (unfold pre; simpl; rewrite length_app; simpl; lia).
    replace (indexByte "]"%byte (pre ++ ":"%byte :: itoa port)) with (Some (S (length host))).
    2: { unfold pre. change (("["%byte :: host ++ ["]"%byte]) ++ ":"%byte :: itoa port)
           with ("["%byte :: ((host ++ ["]"%byte]) ++ ":"%byte :: itoa port)).
         rewrite <- (app_assoc host). simpl. by rewrite indexByte_app. }
    rewrite (bool_decide_eq_true_2 (head (pre ++ _) = _)) by done. rewrite Hlen, Nat.eqb_refl. unfold splitChecked.
    replace (S (S (S (length host)))) with (length (pre ++ [":"%byte])) by (rewrite length_app, Hlen; simpl; lia).
    replace (pre ++ ":"%byte :: itoa port) with ((pre ++ [":"%byte]) ++ itoa port) by (by rewrite <- app_assoc).
    rewrite drop_app_length.
    rewrite (has_notin "["%byte), (has_notin "]"%byte).
    + f_equal. f_equal. rewrite <- !app_assoc. unfold pre. simpl. rewrite <- app_assoc, drop_0. apply take_app_length.
    + rewrite <- app_assoc, <- Hlen, drop_app_length. set_solver.
    + unfold pre. simpl. rewrite drop_0. set_solver.
  - apply not_true_iff_false in E. assert (Hnc : ~ ":"%byte ∈ host) by (intros Hin; by apply E, has_in).
    unfold SplitHostPort. rewrite lastIndex_app by done.
    destruct (Z.ltb_spec (blen host) 0) as [Hneg|_]; [pose proof (blen_nonneg host); lia|].
    replace (Z.to_nat (blen host)) with (length host) by (unfold blen; lia).
    rewrite bool_decide_eq_false_2 by (destruct host; set_solver). rewrite take_app_length, (has_notin ":"%byte host Hnc). unfold splitChecked. rewrite drop_0.
    rewrite (has_notin "["%byte), (has_notin "]"%byte) by set_solver.
    replace (host ++ ":"%byte :: itoa port) with ((host ++ [":"%byte]) ++ itoa port) by (by rewrite <- app_assoc).
    replace (S (length host)) with (length (host ++ [":"%byte])) by (rewrite length_app; simpl; lia).
    by rewrite drop_app_length.
Qed.

(** ** Parsing what was printed *)

(** The digits of one octet, from a value and a number of digits. *)
Fixpoint scanOctet (l : bytes) (val digLen : Z) : option (Z * Z) :=
  match l with
  | [] => Some (val, digLen)
  | c :: l' =>
      if isDigit c && negb ((digLen =? 1) && (val =? 0)) && negb (val * 10 + (Z_of_byte c - 48) >? 255)
      then scanOctet l' (val * 10 + (Z_of_byte c - 48)) (digLen + 1)
      else None
  end.

Lemma ipv4Fields_scan l s val k ad fields val' k' :
  scanOctet l val k = Some (val', k') -> l <> [] \/ ad = true ->
  ipv4Fields (l ++ s) val k ad fields = ipv4Fields s val' k' true fields.
Proof.
  revert val k ad. induction l as [|c l IH]; intros val k ad E Hne; simpl in *.
  - injection E as -> ->. by destruct Hne as [| ->].
  - destruct (isDigit c); [|done]. destruct ((k =? 1) && (val =? 0)); [done|].
    destruct (val * 10 + (Z_of_byte c - 48) >? 255); [done|]. apply IH; [done|by right].
Qed.

(** Every octet is printed as digits that read as that octet. *)
Definition octetOk (z : Z) : bool :=
  match itoa z, scanOctet (itoa z) 0 0 with
  | _ :: _, Some (v, _) => (v =? z) && forallb isDigit (itoa z)
  | _, _ => false
  end.

Lemma octetOk_byte b : octetOk (Z_of_byte b) = true.
Proof.
  apply (checkFrom_sound 0 256 octetOk); [vm_compute; reflexivity|]. pose proof (Z_of_byte_range b). lia.
Qed.

Lemma ipv4Fields_octet b s fields :
  exists k, ipv4Fields (itoa (Z_of_byte b) ++ s) 0 0 false fields = ipv4Fields s (Z_of_byte b) k true fields.
Proof.
  pose proof (octetOk_byte b) as Hok. unfold octetOk in Hok. destruct (itoa (Z_of_byte b)) as [|c l] eqn:Ei; [done|].
  destruct (scanOctet (c :: l) 0 0) as [[v k]|] eqn:Es; [|done]. apply andb_true_iff in Hok as [Hv _].
  apply Z.eqb_eq in Hv as ->. exists k. apply ipv4Fields_scan; [done|by left].
Qed.

Lemma addrKind_digits l s : forallb isDigit l = true -> addrKind (l ++ "."%byte :: s) = Some true.
Proof.
  induction l as [|c l IH]; intros Hd; [done|]. apply andb_true_iff in Hd as [Hc Hl]. simpl. rewrite IH by done.
  destruct (Byte.eqb c "."%byte); [done|].
  destruct (Byte.eqb c ":"%byte) eqn:E1; [by apply Byte.byte_dec_bl in E1 as ->|].
  destruct (Byte.eqb c "%"%byte) eqn:E2; [by apply Byte.byte_dec_bl in E2 as ->|done].
Qed.

Lemma addrKind_octet b s : addrKind (itoa (Z_of_byte b) ++ "."%byte :: s) = Some true.
Proof.
  pose proof (octetOk_byte b) as Hok. unfold octetOk in Hok. apply addrKind_digits.
  destruct (itoa (Z_of_byte b)) as [|c l]; [done|]. destruct (scanOctet (c :: l) 0 0) as [[v k]|]; [|done].
  by apply andb_true_iff in Hok as [_ Hd].
Qed.

Lemma ipv4Fields_dot b s k fields :
  length fields <> 3%nat ->
  ipv4Fields ("."%byte :: s) (Z_of_byte b) k true fields = ipv4Fields s 0 0 false (fields ++ [b]).
Proof. intros Hl. simpl. rewrite (proj2 (Nat.eqb_neq _ _)) by done. by rewrite byte_of_Z_of_byte. Qed.

Lemma parse_v4String ip : length ip = 4%nat -> parseIPv4 (v4String ip) = Some ip /\ addrKind (v4String ip) = Some true.
Proof.
  intros Hl. destruct ip as [|a [|b [|c [|d [|]]]]]; try done. unfold v4String, byteAt. simpl nth.
  split; [|apply addrKind_octet]. unfold parseIPv4.
  destruct (ipv4Fields_octet a ("."%byte :: itoa (Z_of_byte b) ++ "."%byte :: itoa (Z_of_byte c) ++ "."%byte :: itoa (Z_of_byte d)) [])
    as [k1 ->]. rewrite ipv4Fields_dot by done.
  destruct (ipv4Fields_octet b ("."%byte :: itoa (Z_of_byte c) ++ "."%byte :: itoa (Z_of_byte d)) ([] ++ [a])) as [k2 ->].
  rewrite ipv4Fields_dot by done.
  destruct (ipv4Fields_octet c ("."%byte :: itoa (Z_of_byte d)) (([] ++ [a]) ++ [b])) as [k3 ->].
  rewrite ipv4Fields_dot by done. rewrite <- (app_nil_r (itoa (Z_of_byte d))).
  destruct (ipv4Fields_octet d [] ((([] ++ [a]) ++ [b]) ++ [c])) as [k4 ->]. simpl. by rewrite byte_of_Z_of_byte.
Qed.

Lemma ParseAddr_v4 ip : length ip = 4%nat -> ParseAddr (ipString ip) = Some (v4InV6 ip, true).
Proof.
  intros Hl. destruct (parse_v4String ip Hl) as [Hp Hk]. unfold ipString. rewrite Hl. simpl.
  rewrite To4_short by done. unfold ParseAddr. by rewrite Hk, Hp.
Qed.

(** ** Prefixes *)

(** An address as a number, most significant byte first. *)
Fixpoint be (b : bytes) : Z :=
  match b with [] => 0 | x :: b' => Z_of_byte x * 2 ^ (8 * blen b') + be b' end.

Lemma be_range b : 0 <= be b < 2 ^ (8 * blen b).
Proof.
  induction b as [|x b IH]; [by vm_compute|]. simpl. rewrite blen_cons. pose proof (Z_of_byte_range x).
  pose proof (blen_nonneg b). replace (8 * (1 + blen b)) with (8 + 8 * blen b) by lia.
  rewrite Z.pow_add_r by lia. change (2 ^ 8) with 256. nia.
Qed.

(** Masking a byte clears its low bits. *)
Lemma land_mask x k :
  0 <= x < 256 -> 0 <= k <= 8 -> Z.land x (255 - Z.shiftr 255 k) = x / 2 ^ (8 - k) * 2 ^ (8 - k).
Proof.
  intros Hx Hk.
  pose (P k := checkFrom 0 256 (fun x => Z.land x (255 - Z.shiftr 255 k) =? x / 2 ^ (8 - k) * 2 ^ (8 - k))).
  assert (HP : P k = true) by (apply (checkFrom_sound 0 9 P); [vm_compute; reflexivity|lia]).
  apply Z.eqb_eq. by apply (checkFrom_sound 0 256 _ HP).
Qed.

Lemma land_mask_eq x z k :
  0 <= x < 256 -> 0 <= z < 256 -> 0 <= k <= 8 ->
  Z.land x (255 - Z.shiftr 255 k) = Z.land z (255 - Z.shiftr 255 k) <-> x / 2 ^ (8 - k) = z / 2 ^ (8 - k).
Proof.
  intros Hx Hz Hk. rewrite !land_mask by done. pose proof (Z.pow_pos_nonneg 2 (8 - k) ltac:(lia) ltac:(lia)). nia.
Qed.

(** The first byte of a mask of [n] bits. *)
Lemma CIDRMask_head n :
  0 <= n -> Z_of_byte (if n >=? 8 then "255"%byte else byte_of_Z (255 - Z.shiftr 255 (Z.max 0 n))) =
            255 - Z.shiftr 255 (Z.min n 8).
Proof.
  intros Hn. destruct (Z.geb_spec n 8); [by rewrite Z.min_r by lia|]. rewrite Z.max_r, Z.min_l by lia.
  apply Z_of_byte_small. rewrite Z.shiftr_div_pow2 by lia.
  assert (0 <= 255 / 2 ^ n <= 255); [|lia]. split; [apply Z.div_pos; lia|].
  apply Z.div_le_upper_bound; [lia|]. pose proof (Z.pow_pos_nonneg 2 n ltac:(lia) Hn). nia.
Qed.

(** Two sums with a low part below [d] agree after division by [d]. *)
Lemma split_eq x z b b' q d :
  0 < d -> 0 <= b < q * d -> 0 <= b' < q * d ->
  (x * (q * d) + b) / d = (z * (q * d) + b') / d <-> x = z /\ b / d = b' / d.
Proof.
  intros Hd Hb Hb'. replace (x * (q * d) + b) with (x * q * d + b) by lia.
  replace (z * (q * d) + b') with (z * q * d + b') by lia. rewrite !Z.div_add_l by lia.
  assert (0 <= b / d < q) by (split; [apply Z.div_pos; lia|apply Z.div_lt_upper_bound; lia]).
  assert (0 <= b' / d < q) by (split; [apply Z.div_pos; lia|apply Z.div_lt_upper_bound; lia]).
  split; [|by intros [-> ->]]. intros E. apply (Z.div_mod_unique q); lia.
Qed.

Lemma maskedEqual_prefix len : forall n ip ip',
  length ip = len -> length ip' = len -> 0 <= n <= 8 * Z.of_nat len ->
  maskedEqual (maskBytes ip (CIDRMask len n)) (CIDRMask len n) ip' = true <->
  be ip / 2 ^ (8 * Z.of_nat len - n) = be ip' / 2 ^ (8 * Z.of_nat len - n).
Proof.
  induction len as [|len IH]; intros n ip ip' Hl Hl' Hn.
  { destruct ip, ip'; try done. }
  destruct ip as [|x ip], ip' as [|z ip']; try done. injection Hl as Hl. injection Hl' as Hl'.
  cbn [CIDRMask maskBytes zip_with maskedEqual be]. rewrite andb_true_iff, Z.eqb_eq.
  assert (Hm : forall y : byte, Z.land (Z_of_byte (byte_of_Z (Z.land (Z_of_byte x) (Z_of_byte y)))) (Z_of_byte y)
                                = Z.land (Z_of_byte x) (Z_of_byte y)).
  { intros y. rewrite Z_of_byte_small; [by rewrite <- Z.land_assoc, Z.land_diag|].
    replace (Z.land (Z_of_byte x) (Z_of_byte y)) with (Z.land (Z_of_byte x) (Z_of_byte y) mod 2 ^ 8);
      [by apply Z.mod_pos_bound|].
    rewrite <- Z.land_ones, <- Z.land_assoc, Z.land_ones, Z.mod_small by (try done; apply Z_of_byte_range). done. }
  rewrite Hm. clear Hm. rewrite CIDRMask_head, land_mask_eq by (try apply Z_of_byte_range; lia).
  fold (maskBytes ip (CIDRMask len (if n >=? 8 then n - 8 else 0))).
  rewrite (IH _ ip ip' Hl Hl') by (destruct (Z.geb_spec n 8); lia). clear IH.
  pose proof (be_range ip) as Hb. pose proof (be_range ip') as Hb'.
  assert (Hbl : blen ip = Z.of_nat len) by (unfold blen; lia). assert (Hbl' : blen ip' = Z.of_nat len) by (unfold blen; lia).
  rewrite Hbl, Hbl' in *. destruct (Z.geb_spec n 8) as [Hge|Hlt].
  - rewrite Z.min_r by lia. change (2 ^ (8 - 8)) with 1. rewrite !Z.div_1_r.
    replace (8 * Z.of_nat (S len) - n) with (8 * Z.of_nat len - (n - 8)) by lia.
    set (d := 2 ^ (8 * Z.of_nat len - (n - 8))).
    assert (E : 2 ^ (8 * Z.of_nat len) = 2 ^ (n - 8) * d) by (unfold d; rewrite <- Z.pow_add_r by lia; f_equal; lia).
    rewrite E in *. symmetry. apply split_eq; [|lia..]. apply Z.pow_pos_nonneg; lia.
  - rewrite Z.min_l, Z.sub_0_r by lia. rewrite !(Z.div_small _ (2 ^ (8 * Z.of_nat len))) by lia.
    replace (8 * Z.of_nat (S len) - n) with (8 * Z.of_nat len + (8 - n)) by lia.
    rewrite Z.pow_add_r by lia. rewrite <- !Z.div_div by (try apply Z.pow_nonzero; try apply Z.pow_pos_nonneg; lia).
    rewrite !Z.div_add_l, !(Z.div_small _ (2 ^ (8 * Z.of_nat len))), !Z.add_0_r by (try apply Z.pow_nonzero; lia). tauto.
Qed.

Lemma length_CIDRMask len n : length (CIDRMask len n) = len.
Proof. revert n. induction len as [|len IH]; intros n; simpl; by rewrite ?IH. Qed.

Lemma octet_notin b c : isDigit c = false -> ~ c ∈ itoa (Z_of_byte b).
Proof.
  intros Hc Hin. pose proof (octetOk_byte b) as Hok. unfold octetOk in Hok.
  destruct (itoa (Z_of_byte b)) as [|d l]; [by apply elem_of_nil in Hin|].
  destruct (scanOctet (d :: l) 0 0) as [[v k]|]; [|done]. apply andb_true_iff in Hok as [_ Hd].
  rewrite forallb_forall in Hd. apply list_elem_of_In in Hin. specialize (Hd c Hin). congruence.
Qed.

Lemma v4String_notin ip c : length ip = 4%nat -> isDigit c = false -> c <> "."%byte -> ~ c ∈ ipString ip.
Proof.
  intros Hl Hc Hdot. destruct ip as [|x [|y [|z [|w [|]]]]]; try done. unfold ipString, v4String, byteAt. simpl.
  rewrite ?elem_of_app, ?elem_of_cons, ?elem_of_app, ?elem_of_cons, ?elem_of_app, ?elem_of_cons.
  pose proof (octet_notin x c Hc). pose proof (octet_notin y c Hc). pose proof (octet_notin z c Hc).
  pose proof (octet_notin w c Hc). tauto.
Qed.

Lemma dtoi_itoa n : 0 <= n <= 32 -> dtoi (itoa n) 0 = Some n /\ itoa n <> [].
Proof.
  intros Hn.
  pose (P n := match itoa n, dtoi (itoa n) 0 with _ :: _, Some v => v =? n | _, _ => false end).
  assert (HP : P n = true) by (apply (checkFrom_sound 0 33 P); [vm_compute; reflexivity|lia]).
  unfold P in HP. destruct (itoa n); [done|]. destruct (dtoi _ 0); [|done]. by apply Z.eqb_eq in HP as ->.
Qed.

Lemma length_zip_same {A B C} (f : A -> B -> C) l k : length l = length k -> length (zip_with f l k) = length l.
Proof. intros E. rewrite length_zip_with. lia. Qed.

(** ** Properties *)

(** The textual form of a node's address reads back as the address: splitting what
    [joinHostPort] built gives the host and the port, and parsing the host of an
    IPv4 address gives its four bytes, in the mapped form the library uses. *)
Theorem address_reads_back ip port :
  length ip = 4%nat ->
  SplitHostPort (joinHostPort (ipString ip) port) = Some (ipString ip, itoa port) /\
  ParseIP (ipString ip) = Some (v4InV6 ip) /\ To4 (v4InV6 ip) = Some ip.
Proof.
  intros Hl. split; [|split].
  - apply split_join; by apply v4String_notin.
  - unfold ParseIP. by rewrite ParseAddr_v4.
  - destruct ip as [|x [|y [|z [|w [|]]]]]; done.
Qed.

Lemma cidr_network ip n :
  length ip = 4%nat -> 0 <= n <= 32 ->
  exists net, ParseCIDR (ipString ip ++ "/"%byte :: itoa n) = Some net /\
    forall ip', length ip' = 4%nat -> Contains net ip' = true <-> be ip' / 2 ^ (32 - n) = be ip / 2 ^ (32 - n).
Proof.
  intros Hl Hn. destruct (dtoi_itoa n Hn) as [Hd Hne].
  exists (mkIPNet (maskBytes ip (CIDRMask 4 n)) (CIDRMask 4 n)). split.
  - unfold ParseCIDR. rewrite indexByte_app by (by apply v4String_notin). rewrite take_app_length, ParseAddr_v4 by done.
    replace (drop (S (length (ipString ip))) (ipString ip ++ "/"%byte :: itoa n)) with (itoa n)
      by (rewrite drop_app_ge by lia; replace (S _ - _)%nat with 1%nat by lia; done).
    destruct (itoa n) as [|d l] eqn:Ei; [done|]. rewrite Hd. destruct (Z.gtb_spec n 32); [lia|].
    destruct ip as [|x [|y [|z [|w [|]]]]]; done.
  - intros ip' Hl'. assert (Hm : length (maskBytes ip (CIDRMask 4 n)) = 4%nat).
    { unfold maskBytes. rewrite length_zip_same; [done|]. by rewrite length_CIDRMask. }
    unfold Contains, networkNumberAndMask. cbn [netIP netMask].
    rewrite (To4_short (maskBytes _ _) Hm), length_CIDRMask, Hm, (To4_short ip' Hl'). simpl Nat.eqb. cbv iota.
    rewrite Hl', Hm. simpl Nat.eqb. rewrite andb_true_l, (maskedEqual_prefix 4 n ip ip' Hl Hl') by lia.
    change (8 * Z.of_nat 4) with 32. split; by intros ->.
Qed.

(** ** Lists of networks *)

Lemma dropSpaces_id s : Forall (fun c => isSpace c = false) s -> dropSpaces s = s.
Proof. by destruct 1 as [|c s Hc]; simpl; rewrite ?Hc. Qed.

Lemma TrimSpace_id s : Forall (fun c => isSpace c = false) s -> TrimSpace s = s.
Proof.
  intros Hs. unfold TrimSpace. rewrite (dropSpaces_id s) by done.
  rewrite dropSpaces_id; [apply rev_involutive|]. by apply Forall_rev.
Qed.

(** The text of a network. *)
Definition cidrText (x : bytes * Z) : bytes := ipString x.1 ++ "/"%byte :: itoa x.2.

Definition cidrOk (x : bytes * Z) : Prop := length x.1 = 4%nat /\ 0 <= x.2 <= 32.

(** The address is in the network: the first bits are the same. *)
Definition inNetwork (ip' : bytes) (x : bytes * Z) : Prop := be ip' / 2 ^ (32 - x.2) = be x.1 / 2 ^ (32 - x.2).

Lemma space_not_numeral c : isSpace c = true -> isDigit c = false /\ c <> "."%byte /\ notNumeral c.
Proof. destruct c; try done; intros _; (split_and!; [done|done|left; by vm_compute]). Qed.

Lemma cidrText_trimmed x : cidrOk x -> TrimSpace (cidrText x) = cidrText x.
Proof.
  intros [Hl Hn]. apply TrimSpace_id, Forall_forall. intros c Hc. destruct (isSpace c) eqn:E; [|done].
  destruct (space_not_numeral c E) as (Hd & Hdot & Hnum). exfalso.
  apply elem_of_app in Hc as [Hc|Hc]; [by eapply v4String_notin|].
  apply elem_of_cons in Hc as [-> |Hc]; [done|]. by eapply itoa_notin.
Qed.

Lemma ParseCIDRs_all xs acc errs :
  Forall cidrOk xs ->
  exists nets, fold_left (fun acc p =>
      match ParseCIDR (TrimSpace p) with Some n => (acc.1 ++ [n], acc.2) | None => (acc.1, acc.2 ++ [p]) end)
      (map cidrText xs) (acc, errs) = (acc ++ nets, errs) /\
    Forall2 (fun net x => forall ip', length ip' = 4%nat -> Contains net ip' = true <-> inNetwork ip' x) nets xs.
Proof.
  intros Hxs. revert acc. induction Hxs as [|x xs Hx Hxs IH]; intros acc; [exists []; by rewrite app_nil_r|].
  cbn [map fold_left]. rewrite cidrText_trimmed by done.
  destruct (cidr_network x.1 x.2 (proj1 Hx) (proj2 Hx)) as (net & E & Hnet). unfold cidrText at 2. rewrite E.
  destruct (IH (acc ++ [net])) as (nets & E2 & H2). exists (net :: nets). cbn [fst snd]. rewrite E2, <- app_assoc.
  split; [done|]. by constructor.
Qed.

(** C36: The allowed networks filter exactly: for IPv4 networks [a.b.c.d/n] given
    as text, all of them are parsed; and if there is at least one, an IPv4 address
    is allowed if and only if it agrees with one of them on its first [n] bits.
    The empty list, however, allows every address, although the configuration says
    that it blocks all connections. *)
Theorem allowed_networks_exact (xs : list (bytes * Z)) (c : Config)
    (Hxs : Forall cidrOk xs) :
  (ParseCIDRs (map cidrText xs)).2 = [] /\
  (xs <> [] -> forall ip', length ip' = 4%nat ->
    IPAllowed (withCIDRs (ParseCIDRs (map cidrText xs)).1 c) ip' = true <-> Exists (inNetwork ip') xs) /\
  (forall ip', IPAllowed (withCIDRs (ParseCIDRs (map cidrText [])).1 c) ip' = true).
Proof.
  destruct (ParseCIDRs_all xs [] [] Hxs) as (nets & E & Hn). unfold ParseCIDRs. rewrite E. split; [done|]. split; [|done].
  intros Hne ip' Hl. cbn [fst app]. unfold IPAllowed, IPMustBeChecked. cbn [CIDRsAllowed withCIDRs].
  destruct Hn as [|net x nets xs Hx Hn]; [done|].
  cbn [length Nat.eqb negb]. clear E Hxs Hne. split.
  - intros He. revert x net Hx He. induction Hn as [|net' x' nets xs Hx' Hn IH]; intros x net Hx He; cbn [existsb] in He.
    + rewrite orb_false_r in He. left. by apply Hx.
    + apply orb_true_iff in He as [He|He]; [left; by apply Hx|right; by apply (IH x' net')].
  - intros He. revert x net Hx He.
    induction Hn as [|net' x' nets xs Hx' Hn IH]; intros x net Hx He; cbn [existsb]; apply orb_true_iff;
      apply Exists_cons in He as [He|He]; [left; by apply Hx|by apply Exists_nil in He|left; by apply Hx|right; by apply (IH x' net')].
Qed.

Definition exIP : bytes := ["010"; "001"; "002"; "003"]%byte.

Lemma address_reads_back_witness :
  SplitHostPort (bytes_of_string "10.1.2.3:7946") = Some (bytes_of_string "10.1.2.3", bytes_of_string "7946") /\
  ParseIP (bytes_of_string "10.1.2.3") = Some (v4InV6 exIP).
Proof.
  destruct (address_reads_back exIP 7946 eq_refl) as (E1 & E2 & _). split; [exact E1|exact E2].
Defined.

Definition exNets : list (bytes * Z) := [(exIP, 8); (["192"; "168"; "000"; "000"]%byte, 16)].

Lemma allowed_networks_exact_witness :
  (ParseCIDRs (map bytes_of_string ["10.1.2.3/8"; "192.168.0.0/16"])).2 = [] /\
  IPAllowed (withCIDRs (ParseCIDRs (map cidrText exNets)).1 (DefaultLANConfig "a")) ["010"; "255"; "000"; "007"]%byte = true.
Proof.
  destruct (allowed_networks_exact exNets (DefaultLANConfig "a")) as (He & Ha & _).
  - repeat constructor; simpl; lia.
  - split; [exact He|]. apply Ha; [discriminate|reflexivity|]. left. reflexivity.
Defined.

End Addr.
