(* ===== verification/Members.v ===== *)
(** * The membership state machine (state.go, memberlist.go)

    The node list and the handlers that change it: alive, suspect and dead
    messages, suspicion timeouts, push/pull merging, the periodic reset, leaving
    and updating. Every handler of the source that runs under [nodeLock] is one
    function on the state. The node objects live in a store, because [nodes] and
    [nodeMap] share them; so do the suspicion timers, which keep running after
    they are dropped from [nodeTimers]. Random choices, the time and user
    delegates are arguments; the message encoder is the class [GossipCodec]. *)

From Stdlib Require Import ZArith Lia Strings.Byte.
From stdpp Require Import tactics base numbers strings gmap list.
From S2P Require Import Prelude Timing Awareness Queue Suspicion Config.

Local Open Scope Z_scope.
Local Open Scope go_scope.

Module Members.

(** ** Data *)

Inductive NodeStateType := StateAlive | StateSuspect | StateDead | StateLeft.

#[global] Instance NodeStateType_eq_dec : EqDecision NodeStateType.
Proof. solve_decision. Defined.

(** [NState] is the field [Node.State], a plain integer, which the field [State] of
    [nodeState] hides. *)
Record Node := mkNode {
  Name : string;
  Addr : bytes;
  Port : Z;
  Meta : bytes;
  NState : Z;
  PMin : Z;
  PMax : Z;
  PCur : Z;
  DMin : Z;
  DMax : Z;
  DCur : Z
}.

Record nodeState := mkNodeState {
  node : Node;
  Incarnation : Z;
  State : NodeStateType;
  StateChange : gotime
}.

Definition nodeAddress (n : Node) : bytes := Config.joinHostPort (Config.ipString (Addr n)) (Port n).

Definition DeadOrLeft (n : nodeState) : bool :=
  match State n with StateDead | StateLeft => true | _ => false end.

Record alive := mkAlive {
  aIncarnation : Z;
  aNode : string;
  aAddr : bytes;
  aPort : Z;
  aMeta : bytes;
  aVsn : list Z
}.

Record suspect := mkSuspect { sIncarnation : Z; sNode : string; sFrom : string }.

Record dead := mkDead { dIncarnation : Z; dNode : string; dFrom : string }.

(** The state of a node in a push/pull exchange; [rState] is the wire integer. *)
Record pushNodeState := mkPush {
  rName : string;
  rAddr : bytes;
  rPort : Z;
  rMeta : bytes;
  rIncarnation : Z;
  rState : Z;
  rVsn : list Z
}.

Definition stateCode (s : NodeStateType) : Z :=
  match s with StateAlive => 0 | StateSuspect => 1 | StateDead => 2 | StateLeft => 3 end.

(** The messages the state machine gossips. *)
Inductive gossipMsg :=
| GAlive (a : alive)
| GSuspect (s : suspect)
| GDead (d : dead).

(** [encode], with the message type: the msgpack encoder is outside this
    repository. [None] is an encoding error. *)
Class GossipCodec := { encodeGossip : gossipMsg -> option bytes }.

(** What the event and conflict delegates are told. *)
Inductive event :=
| NotifyJoin (n : Node)
| NotifyUpdate (n : Node)
| NotifyLeave (n : Node)
| NotifyConflict (existing other : Node).

(** The delegates of the configuration: [NotifyAlive] accepts or rejects. *)
Record delegates := mkDelegates {
  AliveD : option (Node -> bool);
  ConflictD : bool;
  EventsD : bool
}.

(** A suspicion timer with what its timeout function captured. *)
Record suspObj := mkSuspObj {
  timerOf : Suspicion.suspicion;
  suspNode : string;
  changeTime : gotime
}.

Section Machine.

Context {T : Type} `{!Queue.BTree Queue.memberlistBroadcast T} `{!GossipCodec}.

(** The fields of [Memberlist] that the handlers use. [heap] holds the node
    objects, [nodes] and [nodeMap] refer to them; [timers] holds the suspicion
    objects; [fired] are timeout functions that have been started and have not
    looked at the node yet; [pendingDead] are the dead messages that timeouts
    decided on and have not delivered yet. *)
Record Memberlist := mkMemberlist {
  config : Config.Config;
  hooks : delegates;
  incarnation : Z;
  numNodes : Z;
  leave : bool;
  heap : list nodeState;
  nodes : list nat;
  nodeMap : gmap string nat;
  nodeTimers : gmap string nat;
  timers : list suspObj;
  fired : list nat;
  pendingDead : list dead;
  health : Awareness.awareness;
  broadcasts : Queue.TransmitLimitedQueue Queue.memberlistBroadcast T;
  finished : list Queue.memberlistBroadcast;
  events : list event
}.

Implicit Types m : Memberlist.

Definition self m : string := Config.Name (config m).

Definition setIncarnation i m : Memberlist :=
  mkMemberlist (config m) (hooks m) i (numNodes m) (leave m) (heap m) (nodes m) (nodeMap m)
    (nodeTimers m) (timers m) (fired m) (pendingDead m) (health m) (broadcasts m) (finished m) (events m).

Definition setLeave m : Memberlist :=
  mkMemberlist (config m) (hooks m) (incarnation m) (numNodes m) true (heap m) (nodes m) (nodeMap m)
    (nodeTimers m) (timers m) (fired m) (pendingDead m) (health m) (broadcasts m) (finished m) (events m).

(** Assignment through a pointer to a node object. *)
Definition setNode (l : nat) (st : nodeState) m : Memberlist :=
  mkMemberlist (config m) (hooks m) (incarnation m) (numNodes m) (leave m) (<[l := st]> (heap m)) (nodes m)
    (nodeMap m) (nodeTimers m) (timers m) (fired m) (pendingDead m) (health m) (broadcasts m)
    (finished m) (events m).

Definition setTables (n : Z) (h : list nodeState) (ns : list nat) (nm : gmap string nat) m : Memberlist :=
  mkMemberlist (config m) (hooks m) (incarnation m) n (leave m) h ns nm
    (nodeTimers m) (timers m) (fired m) (pendingDead m) (health m) (broadcasts m) (finished m) (events m).

Definition setTimers (nt : gmap string nat) (ts : list suspObj) (f : list nat) (pd : list dead) m : Memberlist :=
  mkMemberlist (config m) (hooks m) (incarnation m) (numNodes m) (leave m) (heap m) (nodes m) (nodeMap m)
    nt ts f pd (health m) (broadcasts m) (finished m) (events m).

Definition setHealth (h : Awareness.awareness) m : Memberlist :=
  mkMemberlist (config m) (hooks m) (incarnation m) (numNodes m) (leave m) (heap m) (nodes m) (nodeMap m)
    (nodeTimers m) (timers m) (fired m) (pendingDead m) h (broadcasts m) (finished m) (events m).

Definition setBroadcasts q fin m : Memberlist :=
  mkMemberlist (config m) (hooks m) (incarnation m) (numNodes m) (leave m) (heap m) (nodes m) (nodeMap m)
    (nodeTimers m) (timers m) (fired m) (pendingDead m) (health m) q fin (events m).

Definition addEvent (e : event) m : Memberlist :=
  mkMemberlist (config m) (hooks m) (incarnation m) (numNodes m) (leave m) (heap m) (nodes m) (nodeMap m)
    (nodeTimers m) (timers m) (fired m) (pendingDead m) (health m) (broadcasts m) (finished m)
    (events m ++ [e]).

(** [delete(m.nodeTimers, name)]: the timer itself keeps running. *)
Definition dropTimer (name : string) m : Memberlist :=
  setTimers (delete name (nodeTimers m)) (timers m) (fired m) (pendingDead m) m.

(** Calls of the event delegate, if there is one. *)
Definition notifyEvent (e : event) m : Memberlist :=
  if EventsD (hooks m) then addEvent e m else m.

(** ** Counters *)

Definition nextIncarnation m : Z * Memberlist :=
  let i := u32 (incarnation m + 1) in (i, setIncarnation i m).

Definition skipIncarnation (offset : Z) m : Z * Memberlist :=
  let i := u32 (incarnation m + offset) in (i, setIncarnation i m).

Definition estNumNodes m : Z := numNodes m.

Definition hasLeft m : bool := leave m.

(** ** Broadcasting (broadcast.go) *)

Definition queueBroadcast (name : string) (msg : bytes) (notify : option nat) m : Memberlist :=
  let '(q, fin) := Queue.QueueBroadcast (Queue.mkMB name msg notify) (broadcasts m) in
  setBroadcasts q (finished m ++ fin) m.

Definition encodeBroadcastNotify (name : string) (g : gossipMsg) (notify : option nat) m : Memberlist :=
  match encodeGossip g with
  | None => m
  | Some buf => queueBroadcast name buf notify m
  end.

Definition encodeAndBroadcast (name : string) (g : gossipMsg) m : Memberlist :=
  encodeBroadcastNotify name g None m.

(** ** Looking up *)

Definition lookupNode (name : string) m : option (nat * nodeState) :=
  match nodeMap m !! name with
  | None => None
  | Some l => match heap m !! l with Some st => Some (l, st) | None => None end
  end.

(** [getNodeState], [getNodeStateChange] and [changeNode] dereference a node that
    is not in the map. *)
Definition getNodeState (addr : string) m : outcome NodeStateType :=
  match lookupNode addr m with None => Panic "nil pointer dereference" | Some (_, n) => Ret (State n) end.

Definition getNodeStateChange (addr : string) m : outcome gotime :=
  match lookupNode addr m with None => Panic "nil pointer dereference" | Some (_, n) => Ret (StateChange n) end.

Definition changeNode (addr : string) (f : nodeState -> nodeState) m : outcome Memberlist :=
  match lookupNode addr m with None => Panic "nil pointer dereference" | Some (l, n) => Ret (setNode l (f n) m) end.

(** The node objects in list order. *)
Definition nodeStates m : list nodeState := omap (fun l => heap m !! l) (nodes m).

Definition Members m : list Node := map node (filter (fun st => DeadOrLeft st = false) (nodeStates m)).

Definition NumMembers m : Z :=
  fold_left (fun n st => if DeadOrLeft st then n else n + 1) (nodeStates m) 0.

Definition anyAlive m : bool :=
  existsb (fun st => negb (DeadOrLeft st) && negb (bool_decide (Name (node st) = self m))) (nodeStates m).

(** ** Refuting *)

Definition withIncarnation (i : Z) (st : nodeState) : nodeState :=
  mkNodeState (node st) i (State st) (StateChange st).

Definition versionsOf (n : Node) : list Z := [PMin n; PMax n; PCur n; DMin n; DMax n; DCur n].

(** [refute]: the broadcast is queued under the textual address. *)
Definition refute (l : nat) (me : nodeState) (accusedInc : Z) m : Memberlist :=
  let '(inc, m) := nextIncarnation m in
  let '(inc, m) := if accusedInc >=? inc then skipIncarnation (u32 (u32 (accusedInc - inc) + 1)) m
                   else (inc, m) in
  let m := setNode l (withIncarnation inc me) m in
  let m := setHealth (Awareness.ApplyDelta 1 (health m)) m in
  let n := node me in
  encodeAndBroadcast (string_of_bytes (Config.ipString (Addr n)))
    (GAlive (mkAlive inc (Name n) (Addr n) (Port n) (Meta n) (versionsOf n))) m.

(** ** Alive messages *)

(** The check of the protocol versions, when there are at least three. *)
Definition badVersions (vsn : list Z) : bool :=
  match vsn with
  | pMin :: pMax :: _ :: _ => (pMin =? 0) || (pMax =? 0) || (pMin >? pMax)
  | _ => false
  end.

(** The six versions, when there are at least six. *)
Definition sixVersions (vsn : list Z) : option (Z * Z * Z * Z * Z * Z) :=
  match vsn with
  | a :: b :: c :: d :: e :: f :: _ => Some (a, b, c, d, e, f)
  | _ => None
  end.

Definition nodeOfAlive (a : alive) (v : Z * Z * Z * Z * Z * Z) : Node :=
  let '(v0, v1, v2, v3, v4, v5) := v in
  mkNode (aNode a) (aAddr a) (aPort a) (aMeta a) 0 v0 v1 v2 v3 v4 v5.

(** The alive delegate, if any, lets the message through. *)
Definition aliveAccepted (a : alive) m : bool :=
  match AliveD (hooks m) with
  | None => true
  | Some f => match sixVersions (aVsn a) with None => false | Some v => f (nodeOfAlive a v) end
  end.

(** [nodes[i], nodes[j] = nodes[j], nodes[i]]. *)
Definition swap {A} (i j : nat) (l : list A) : list A :=
  match l !! i, l !! j with
  | Some x, Some y => <[i := y]> (<[j := x]> l)
  | _, _ => l
  end.

(** A node never seen before: a dead entry, at a random place of the list. *)
Definition newNodeState (a : alive) : nodeState :=
  let v := match sixVersions (aVsn a) with Some v => v | None => (0, 0, 0, 0, 0, 0) end in
  mkNodeState (nodeOfAlive a v) 0 StateDead zeroTime.

Definition addNode (a : alive) (rnd : Z) m : nat * Memberlist :=
  let l := length (heap m) in
  let n := length (nodes m) in
  let offset := Z.to_nat (Timing.randomOffset rnd (Z.of_nat n)) in
  (l, setTables (u32 (numNodes m + 1)) (heap m ++ [newNodeState a])
        (swap offset n (nodes m ++ [l])) (<[aNode a := l]> (nodeMap m)) m).

(** [if len(a.Vsn) > 0 { state.PMin = a.Vsn[0]; ... }]. *)
Definition setVersions (vsn : list Z) (n : Node) : outcome Node :=
  match vsn with
  | [] => Ret n
  | _ => match sixVersions vsn with
         | None => Panic "index out of range"
         | Some (v0, v1, v2, v3, v4, v5) => Ret (mkNode (Name n) (Addr n) (Port n) (Meta n) (NState n) v0 v1 v2 v3 v4 v5)
         end
  end.

(** The node object after an alive message was accepted. *)
Definition aliveState (a : alive) (now : gotime) (n : Node) (st : nodeState) : nodeState :=
  mkNodeState (mkNode (Name n) (aAddr a) (aPort a) (aMeta a) (NState n) (PMin n) (PMax n) (PCur n) (DMin n) (DMax n) (DCur n))
    (aIncarnation a) StateAlive
    (if bool_decide (State st = StateAlive) then StateChange st else now).

(** The delegate call at the end: [st'] is the node now, [st] as it was. *)
Definition notifyAlive (st st' : nodeState) m : Memberlist :=
  if DeadOrLeft st then notifyEvent (NotifyJoin (node st')) m
  else if bool_decide (Meta (node st) = Meta (node st')) then m
  else notifyEvent (NotifyUpdate (node st')) m.

(** The second half of [aliveNode], from the incarnation checks. *)
Definition aliveUpdate (a : alive) (l : nat) (st : nodeState) (updatesNode : bool)
    (notify : option nat) (bootstrap : bool) (now : gotime) m : outcome Memberlist :=
  let isLocalNode := bool_decide (Name (node st) = self m) in
  if (aIncarnation a <=? Incarnation st) && negb isLocalNode && negb updatesNode then Ret m
  else if (aIncarnation a <? Incarnation st) && isLocalNode then Ret m
  else
    let m := dropTimer (aNode a) m in
    if negb bootstrap && isLocalNode then
      if (aIncarnation a =? Incarnation st) && bool_decide (aMeta a = Meta (node st))
         && bool_decide (aVsn a = versionsOf (node st)) then Ret m
      else
        let m := refute l st (aIncarnation a) m in
        let st' := match heap m !! l with Some x => x | None => st end in
        Ret (notifyAlive st st' m)
    else
      let m := encodeBroadcastNotify (aNode a) (GAlive a) notify m in
      let! n := setVersions (aVsn a) (node st) in
      let st' := aliveState a now n st in
      Ret (notifyAlive st st' (setNode l st' m)).

(** An address change of a known node is allowed when the node left, or is dead
    for long enough. *)
Definition canTakeOver (st : nodeState) (now : gotime) m : bool :=
  let reclaim := Config.DeadNodeReclaimTime (config m) in
  let canReclaim := (reclaim >? 0) && (timeSub now (StateChange st) >? reclaim) in
  match State st with
  | StateLeft => true
  | StateDead => canReclaim
  | _ => false
  end.

Definition sameAddress (a : alive) (n : Node) : bool :=
  bool_decide (Addr n = aAddr a) && (Port n =? aPort a).

Definition aliveNode (a : alive) (notify : option nat) (bootstrap : bool) (rnd : Z) (now : gotime) m :
    outcome Memberlist :=
  if hasLeft m && bool_decide (aNode a = self m) then Ret m
  else if badVersions (aVsn a) then Ret m
  else if negb (aliveAccepted a m) then Ret m
  else
    match lookupNode (aNode a) m with
    | None =>
        if negb (Config.IPAllowed (config m) (aAddr a)) then Ret m
        else
          let '(l, m) := addNode a rnd m in
          aliveUpdate a l (newNodeState a) false notify bootstrap now m
    | Some (l, st) =>
        if negb (sameAddress a (node st)) then
          if negb (Config.IPAllowed (config m) (aAddr a)) then Ret m
          else if canTakeOver st now m then aliveUpdate a l st true notify bootstrap now m
          else
            Ret (if ConflictD (hooks m)
                 then addEvent (NotifyConflict (node st)
                        (mkNode (aNode a) (aAddr a) (aPort a) (aMeta a) 0 0 0 0 0 0 0)) m
                 else m)
        else aliveUpdate a l st false notify bootstrap now m
    end.

(** ** Suspect messages *)

Definition startTimer (s : suspect) (now : gotime) m : Memberlist :=
  let k := Config.SuspicionMult (config m) - 2 in
  let n := estNumNodes m in
  let k := if n - 2 <? k then 0 else k in
  let min := Timing.suspicionTimeout (Config.SuspicionMult (config m)) n (Config.ProbeInterval (config m)) in
  let max := i64 (Config.SuspicionMaxTimeoutMult (config m) * min) in
  let t := mkSuspObj (Suspicion.newSuspicion (sFrom s) k min max now) (sNode s) now in
  setTimers (<[sNode s := length (timers m)]> (nodeTimers m)) (timers m ++ [t]) (fired m) (pendingDead m) m.

(** Confirming a running suspicion; a confirmation that finds the time up starts
    the timeout function. *)
Definition confirmTimer (i : nat) (t : suspObj) (s : suspect) (now : gotime) m : Memberlist :=
  let '(su, new, calls) := Suspicion.Confirm (sFrom s) now (timerOf t) in
  let m := setTimers (nodeTimers m) (<[i := mkSuspObj su (suspNode t) (changeTime t)]> (timers m))
             (fired m ++ map (fun _ => i) calls) (pendingDead m) m in
  if (new : bool) then encodeAndBroadcast (sNode s) (GSuspect s) m else m.

Definition suspectState (s : suspect) (now : gotime) (st : nodeState) : nodeState :=
  mkNodeState (node st) (sIncarnation s) StateSuspect now.

Definition suspectNode (s : suspect) (now : gotime) m : Memberlist :=
  match lookupNode (sNode s) m with
  | None => m
  | Some (l, st) =>
      if sIncarnation s <? Incarnation st then m
      else
        match nodeTimers m !! sNode s with
        | Some i => match timers m !! i with
                    | Some t => confirmTimer i t s now m
                    | None => m
                    end
        | None =>
            if negb (bool_decide (State st = StateAlive)) then m
            else if bool_decide (Name (node st) = self m) then refute l st (sIncarnation s) m
            else
              let m := encodeAndBroadcast (sNode s) (GSuspect s) m in
              startTimer s now (setNode l (suspectState s now st) m)
        end
  end.

(** ** Dead messages *)

(** The channel [leaveBroadcast]. *)
Definition leaveBroadcast : nat := 0.

Definition deadState (d : dead) (now : gotime) (st : nodeState) : nodeState :=
  mkNodeState (node st) (dIncarnation d)
    (if bool_decide (dNode d = dFrom d) then StateLeft else StateDead) now.

Definition deadNode (d : dead) (now : gotime) m : Memberlist :=
  match lookupNode (dNode d) m with
  | None => m
  | Some (l, st) =>
      if dIncarnation d <? Incarnation st then m
      else
        let m := dropTimer (dNode d) m in
        if DeadOrLeft st then m
        else
          let isLocal := bool_decide (Name (node st) = self m) in
          if isLocal && negb (hasLeft m) then refute l st (dIncarnation d) m
          else
            let m := encodeBroadcastNotify (dNode d) (GDead d)
                       (if isLocal then Some leaveBroadcast else None) m in
            notifyEvent (NotifyLeave (node st)) (setNode l (deadState d now st) m)
  end.

(** ** Suspicion timeouts *)

(** The runtime fires a timer whose deadline has passed. *)
Definition expireTimer (i : nat) (now : gotime) m : Memberlist :=
  match timers m !! i with
  | None => m
  | Some t =>
      let '(su, calls) := Suspicion.expire now (timerOf t) in
      setTimers (nodeTimers m) (<[i := mkSuspObj su (suspNode t) (changeTime t)]> (timers m))
        (fired m ++ map (fun _ => i) calls) (pendingDead m) m
  end.

(** The first half of the timeout function: is the node still suspect since the
    timer was set? The dead message it decides on is delivered later, after the
    lock was released. *)
Definition checkTimeout (i : nat) m : option dead :=
  match timers m !! i with
  | None => None
  | Some t =>
      match lookupNode (suspNode t) m with
      | None => None
      | Some (_, st) =>
          if bool_decide (State st = StateSuspect) && (StateChange st =? changeTime t)
          then Some (mkDead (Incarnation st) (Name (node st)) (self m))
          else None
      end
  end.

(** One started timeout function runs its first half. *)
Definition runTimeout (j : nat) m : Memberlist :=
  match fired m !! j with
  | None => m
  | Some i =>
      setTimers (nodeTimers m) (timers m) (delete j (fired m))
        (pendingDead m ++ match checkTimeout i m with Some d => [d] | None => [] end) m
  end.

(** ... and its second half. *)
Definition deliverDead (j : nat) (now : gotime) m : Memberlist :=
  match pendingDead m !! j with
  | None => m
  | Some d => deadNode d now (setTimers (nodeTimers m) (timers m) (fired m) (delete j (pendingDead m)) m)
  end.

(** ** Push/pull *)

(** One entry of [mergeState]; the random number and the time are those of the
    handler call it makes. *)
Definition mergeOne (r : pushNodeState) (rnd : Z) (now : gotime) m : outcome Memberlist :=
  if rState r =? stateCode StateAlive then
    aliveNode (mkAlive (rIncarnation r) (rName r) (rAddr r) (rPort r) (rMeta r) (rVsn r)) None false rnd now m
  else if rState r =? stateCode StateLeft then
    Ret (deadNode (mkDead (rIncarnation r) (rName r) (rName r)) now m)
  else if (rState r =? stateCode StateDead) || (rState r =? stateCode StateSuspect) then
    Ret (suspectNode (mkSuspect (rIncarnation r) (rName r) (self m)) now m)
  else Ret m.

Fixpoint mergeState (remote : list (pushNodeState * Z * gotime)) m : outcome Memberlist :=
  match remote with
  | [] => Ret m
  | (r, rnd, now) :: remote' => let! m' := mergeOne r rnd now m in mergeState remote' m'
  end.

(** The local side of a push/pull exchange (sendLocalState). *)
Definition localNodeState (st : nodeState) : pushNodeState :=
  mkPush (Name (node st)) (Addr (node st)) (Port (node st)) (Meta (node st)) (Incarnation st)
    (stateCode (State st)) (versionsOf (node st)).

Definition localNodes m : list pushNodeState := map localNodeState (nodeStates m).

(** ** Protocol versions *)

Record vrange := mkVrange { maxpmin : Z; minpmax : Z; maxdmin : Z; mindmax : Z }.

(** One node narrows the range of versions that everyone has to speak. *)
Definition tighten (pmin pmax dmin dmax : Z) (v : vrange) : vrange :=
  mkVrange (if pmin >? maxpmin v then pmin else maxpmin v)
           (if pmax <? minpmax v then pmax else minpmax v)
           (if dmin >? maxdmin v then dmin else maxdmin v)
           (if dmax <? mindmax v then dmax else mindmax v).

(** A remote node: skipped unless it is alive and has versions; [Vsn[4]] of a
    shorter list is out of range. *)
Definition tightenRemote (rn : pushNodeState) (v : vrange) : outcome vrange :=
  if negb (rState rn =? stateCode StateAlive) then Ret v
  else match rVsn rn with
       | [] => Ret v
       | p0 :: p1 :: _ :: d0 :: d1 :: _ => Ret (tighten p0 p1 d0 d1 v)
       | _ => Panic "index out of range"
       end.

Fixpoint tightenRemotes (remote : list pushNodeState) (v : vrange) : outcome vrange :=
  match remote with
  | [] => Ret v
  | rn :: remote' => let! v' := tightenRemote rn v in tightenRemotes remote' v'
  end.

Definition tightenLocal (v : vrange) (st : nodeState) : vrange :=
  if negb (bool_decide (State st = StateAlive)) then v
  else tighten (PMin (node st)) (PMax (node st)) (DMin (node st)) (DMax (node st)) v.

Definition speaks (p d : Z) (v : vrange) : bool :=
  (maxpmin v <=? p) && (p <=? minpmax v) && (maxdmin v <=? d) && (d <=? mindmax v).

(** The versions a remote node speaks, zero when it has none. *)
Definition remoteCur (vsn : list Z) : outcome (Z * Z) :=
  match vsn with
  | [] => Ret (0, 0)
  | _ => match sixVersions vsn with
         | Some (_, _, p, _, _, d) => Ret (p, d)
         | None => Panic "index out of range"
         end
  end.

Fixpoint remotesSpeak (remote : list pushNodeState) (v : vrange) : outcome bool :=
  match remote with
  | [] => Ret true
  | n :: remote' =>
      let! pd := remoteCur (rVsn n) in
      if speaks (fst pd) (snd pd) v then remotesSpeak remote' v else Ret false
  end.

(** [verifyProtocol]: [true] where it returns a nil error. *)
Definition verifyProtocol (remote : list pushNodeState) m : outcome bool :=
  let! v := tightenRemotes remote (mkVrange 0 255 0 255) in
  let v := fold_left tightenLocal (nodeStates m) v in
  let! ok := remotesSpeak remote v in
  Ret (ok && forallb (fun st => speaks (PCur (node st)) (DCur (node st)) v) (nodeStates m)).

(** ** The periodic reset (util.go) *)

(** [moveDeadNodes]: [k] is [n - numDead - i], what is left of the loop. *)
Fixpoint moveDeadLoop (k i : nat) (expired : nat -> bool) (ns : list nat) : list nat * nat :=
  match k with
  | O => (ns, i)
  | S k' =>
      match ns !! i with
      | None => (ns, i)
      | Some l => if expired l then moveDeadLoop k' i expired (swap i (i + k') ns)
                  else moveDeadLoop k' (S i) expired ns
      end
  end.

(** A node that is dead or left, for longer than the interval. *)
Definition isExpired (h : list nodeState) (gossipToTheDead : duration) (now : gotime) (l : nat) : bool :=
  match h !! l with
  | None => false
  | Some st => DeadOrLeft st && negb (timeSub now (StateChange st) <=? gossipToTheDead)
  end.

Definition moveDeadNodes (expired : nat -> bool) (ns : list nat) : list nat * nat :=
  moveDeadLoop (length ns) 0 expired ns.

(** [shuffleNodes]: [rand.Shuffle] swaps [i] with some [j <= i], from the last
    index down; [rnd i] is the random number drawn for [i]. *)
Fixpoint shuffleFrom (i : nat) (rnd : nat -> nat) (ns : list nat) : list nat :=
  match i with
  | O => ns
  | S i' => shuffleFrom i' rnd (swap i (rnd i mod S i)%nat ns)
  end.

Definition shuffleNodes (rnd : nat -> nat) (ns : list nat) : list nat :=
  shuffleFrom (length ns - 1) rnd ns.

Definition nameAt (h : list nodeState) (l : nat) : string :=
  match h !! l with Some st => Name (node st) | None => EmptyString end.

Definition resetNodes (rnd : nat -> nat) (now : gotime) m : Memberlist :=
  let expired := isExpired (heap m) (Config.GossipToTheDeadTime (config m)) now in
  let '(ns, deadIdx) := moveDeadNodes expired (nodes m) in
  let nm := fold_left (fun nm l => delete (nameAt (heap m) l) nm) (drop deadIdx ns) (nodeMap m) in
  setTables (u32 (Z.of_nat deadIdx)) (heap m) (shuffleNodes rnd (take deadIdx ns)) nm m.

(** ** The local node (memberlist.go) *)

(** [setAlive] and [UpdateNode]: take the next incarnation, then announce it. *)
Definition localAlive (addr : bytes) (port : Z) (meta : bytes) (notify : option nat) (rnd : Z)
    (now : gotime) m : outcome Memberlist :=
  let '(inc, m) := nextIncarnation m in
  aliveNode (mkAlive inc (self m) addr port meta (Config.BuildVsnArray (config m))) notify true rnd now m.

Definition setAlive (addr : bytes) (port : Z) (meta : bytes) (rnd : Z) (now : gotime) m :=
  localAlive addr port meta None rnd now m.

(** [UpdateNode]: the address is the current one; a missing entry is a nil
    dereference. [true]: it waits for the broadcast on its channel. *)
Definition UpdateNode (meta : bytes) (notify : nat) (rnd : Z) (now : gotime) m : outcome (Memberlist * bool) :=
  match lookupNode (self m) m with
  | None => Panic "nil pointer dereference"
  | Some (_, st) =>
      let! m' := localAlive (Addr (node st)) (Port (node st)) meta (Some notify) rnd now m in
      Ret (m', anyAlive m')
  end.

(** [Leave]: [true] where it waits for the broadcast to go out. *)
Definition Leave (now : gotime) m : Memberlist * bool :=
  if hasLeft m then (m, false)
  else
    let m := setLeave m in
    match lookupNode (self m) m with
    | None => (m, false)
    | Some (_, st) =>
        let m' := deadNode (mkDead (Incarnation st) (Name (node st)) (Name (node st))) now m in
        (m', anyAlive m')
    end.

(** [newMemberlist]: the state before the node announces itself. *)
Definition newMemberlist (conf : Config.Config) (hk : delegates) : Memberlist :=
  mkMemberlist conf hk 0 0 false [] [] ∅ ∅ [] [] []
    (Awareness.newAwareness (Config.AwarenessMaxMultiplier conf))
    (Queue.newQueue (Config.RetransmitMult conf)) [] [].

(** ** Steps *)

(** Everything that can happen to a running member list, in any order: messages
    from the network, timers, push/pull, the reset, and the calls of the user.
    The user's calls take several steps: [Leave] sets its flag and then delivers
    its dead message, a [step_dead]; [setAlive] and [UpdateNode] draw an
    incarnation and then announce it, when others may have drawn more. *)
Inductive step : Memberlist -> Memberlist -> Prop :=
| step_alive a rnd now m m' :
    0 <= aIncarnation a -> aliveNode a None false rnd now m = Ret m' -> step m m'
| step_suspect s now m : step m (suspectNode s now m)
| step_dead d now m : step m (deadNode d now m)
| step_expire i now m : step m (expireTimer i now m)
| step_timeout j m : step m (runTimeout j m)
| step_deliver j now m : step m (deliverDead j now m)
| step_reset rnd now m : step m (resetNodes rnd now m)
| step_nextIncarnation m : step m (nextIncarnation m).2
| step_local inc addr port meta notify rnd now m m' :
    0 <= inc <= incarnation m ->
    aliveNode (mkAlive inc (self m) addr port meta (Config.BuildVsnArray (config m))) notify true rnd now m
      = Ret m' ->
    step m m'
| step_leave m : step m (setLeave m).

Definition steps : Memberlist -> Memberlist -> Prop := rtc step.

End Machine.

Arguments Memberlist : clear implicits.

End Members.
