(* ===== verification/Membership.v ===== *)
(** * Correctness of the membership state machine

    The pointer structure of [Members] is an implementation of a finite map from
    names to node states, [view]. The invariants of the structure, of the
    suspicion timers and of the local node hold in every reachable state, and
    every step of the implementation is a step of the SWIM rules on the view. *)

From Stdlib Require Import ZArith Lia Strings.Byte.
From stdpp Require Import tactics base numbers strings gmap list.
From S2P Require Import Prelude Timing Awareness Queue Suspicion Config Members.

Local Open Scope Z_scope.
Local Open Scope go_scope.

Module Membership.

Import Members.

(** ** Lists with exchanged elements *)

Lemma swap_perm {A} i j (l : list A) : swap i j l ≡ₚ l.
Proof.
  unfold swap. destruct (l !! i) as [x|] eqn:Ei; [|done]. destruct (l !! j) as [y|] eqn:Ej; [|done].
  by apply Permutation_insert_swap.
Qed.

Lemma snoc_lookup {A} (l : list A) x : (l ++ [x]) !! length l = Some x.
Proof. by apply list_lookup_middle. Qed.

(** ** The reset loops *)

Lemma swap_take {A} i j (l : list A) : (i <= j)%nat -> take i (swap i j l) = take i l.
Proof.
  intros Hij. unfold swap. destruct (l !! i), (l !! j); try done.
  by rewrite !take_insert_ge by lia.
Qed.

Lemma swap_drop {A} i j (l : list A) x y :
  (i <= j)%nat -> l !! i = Some x -> l !! j = Some y -> drop j (swap i j l) = x :: drop (S j) l.
Proof.
  intros Hij Hi Hj. unfold swap. rewrite Hi, Hj. pose proof (lookup_lt_Some _ _ _ Hj).
  destruct (decide (i = j)) as [->|Hne].
  - rewrite list_insert_insert_eq. simplify_eq. rewrite list_insert_id by done. by apply drop_S.
  - rewrite drop_insert_lt by lia. rewrite (drop_S _ x) by (by apply list_lookup_insert_eq).
    f_equal. by rewrite drop_insert_lt by lia.
Qed.

(** [moveDeadNodes] is a stable partition up to order: the expired nodes are
    exactly those from the returned index on. *)
Lemma moveDeadLoop_spec k i expired ns :
  (i + k <= length ns)%nat ->
  Forall (fun l => expired l = false) (take i ns) -> Forall (fun l => expired l = true) (drop (i + k) ns) ->
  let '(ns', j) := moveDeadLoop k i expired ns in
  ns' ≡ₚ ns /\ Forall (fun l => expired l = false) (take j ns') /\
  Forall (fun l => expired l = true) (drop j ns').
Proof.
  revert i ns. induction k as [|k IH]; intros i ns Hlen Ht Hd; simpl.
  { rewrite Nat.add_0_r in Hd. done. }
  destruct (lookup_lt_is_Some_2 ns i) as [l El]; [lia|]. rewrite El.
  destruct (lookup_lt_is_Some_2 ns (i + k)) as [l' El']; [lia|].
  destruct (expired l) eqn:Ee.
  - specialize (IH i (swap i (i + k) ns)). destruct (moveDeadLoop k i expired _) as [ns' j].
    destruct IH as (Hp & Ht' & Hd').
    + rewrite swap_perm. lia.
    + by rewrite swap_take by lia.
    + rewrite (swap_drop _ _ _ l l') by (done || lia). constructor; [done|].
      by replace (S (i + k)) with (i + S k)%nat by lia.
    + rewrite swap_perm in Hp. done.
  - specialize (IH (S i) ns). destruct (moveDeadLoop k (S i) expired ns) as [ns' j]. apply IH; [lia| |].
    + rewrite (take_S_r _ _ l) by done. apply Forall_app. auto.
    + by replace (S i + k)%nat with (i + S k)%nat by lia.
Qed.

Lemma filter_Forall_split {A} (P : A -> bool) (l1 l2 : list A) :
  Forall (fun x => P x = false) l1 -> Forall (fun x => P x = true) l2 ->
  filter (fun x => P x = false) (l1 ++ l2) = l1 /\ filter (fun x => P x = true) (l1 ++ l2) = l2.
Proof.
  rewrite !Forall_forall. intros H1 H2. rewrite !filter_app. split.
  - rewrite (filter_all _ l1), (filter_none _ l2), app_nil_r; [done|..|done].
    intros x Hx. by rewrite (H2 x Hx).
  - rewrite (filter_none _ l1), (filter_all _ l2); [done|done|]. intros x Hx. by rewrite (H1 x Hx).
Qed.

Lemma moveDeadNodes_spec expired ns ns' j :
  moveDeadNodes expired ns = (ns', j) ->
  take j ns' ≡ₚ filter (fun l => expired l = false) ns /\
  drop j ns' ≡ₚ filter (fun l => expired l = true) ns.
Proof.
  unfold moveDeadNodes. intros E.
  pose proof (moveDeadLoop_spec (length ns) 0 expired ns) as H. rewrite E in H.
  destruct H as (Hp & Ht & Hd); [lia|constructor|by rewrite drop_ge|].
  destruct (filter_Forall_split expired (take j ns') (drop j ns') Ht Hd) as [H1 H2].
  rewrite take_drop in H1, H2. rewrite <- H1, <- H2 at 1. by rewrite Hp.
Qed.

Lemma moveDeadLoop_bound k i expired ns ns' j :
  moveDeadLoop k i expired ns = (ns', j) -> (i + k <= length ns)%nat -> (j <= length ns')%nat.
Proof.
  revert i ns. induction k as [|k IH]; intros i ns; simpl; [intros [= <- <-]; lia|].
  destruct (ns !! i) as [l|] eqn:El; [|intros [= <- <-]; lia].
  destruct (expired l); intros H Hlen; apply IH in H; rewrite ?swap_perm; lia.
Qed.

Lemma shuffleFrom_perm i rnd ns : shuffleFrom i rnd ns ≡ₚ ns.
Proof. revert ns. induction i as [|i IH]; intros ns; [done|]. cbn [shuffleFrom]. by rewrite IH, swap_perm. Qed.

Lemma shuffleNodes_perm rnd ns : shuffleNodes rnd ns ≡ₚ ns.
Proof. apply shuffleFrom_perm. Qed.

Section Proofs.

Context {T : Type} `{!Queue.BTree Queue.memberlistBroadcast T} `{!GossipCodec}.

Abbreviation ML := (Memberlist T).

Implicit Types m : ML.
Implicit Types st : nodeState.

(** ** The node table *)

(** The node list and the name map refer to the same objects, once each. *)
Record wfTable m : Prop := {
  wt_nodup : NoDup (nodes m);
  wt_map : forall nm l, nodeMap m !! nm = Some l <->
    l ∈ nodes m /\ exists st, heap m !! l = Some st /\ Name (node st) = nm;
  wt_heap : forall l, l ∈ nodes m -> is_Some (heap m !! l);
  wt_num : numNodes m = u32 (Z.of_nat (length (nodes m)))
}.

(** The membership as a map from names to node states. *)
Definition view m : gmap string nodeState := omap (fun l => heap m !! l) (nodeMap m).

Lemma view_lookup nm m : view m !! nm = match lookupNode nm m with Some (_, st) => Some st | None => None end.
Proof.
  unfold view, lookupNode. rewrite lookup_omap. destruct (nodeMap m !! nm) as [l|]; simpl; [|done].
  by destruct (heap m !! l).
Qed.

Lemma lookup_view nm m l st : lookupNode nm m = Some (l, st) -> view m !! nm = Some st.
Proof. intros E. by rewrite view_lookup, E. Qed.

Lemma view_Some nm m st : view m !! nm = Some st -> exists l, lookupNode nm m = Some (l, st).
Proof. rewrite view_lookup. destruct (lookupNode nm m) as [[l st']|]; [|done]. intros [= ->]. eauto. Qed.

Lemma lookupNode_None nm m : lookupNode nm m = None <-> view m !! nm = None.
Proof. rewrite view_lookup. by destruct (lookupNode nm m) as [[l st]|]. Qed.

Lemma lookup_in nm m l st :
  wfTable m -> lookupNode nm m = Some (l, st) ->
  l ∈ nodes m /\ heap m !! l = Some st /\ Name (node st) = nm.
Proof.
  intros Hwf. unfold lookupNode. destruct (nodeMap m !! nm) as [k|] eqn:E; [|done].
  destruct (heap m !! k) as [st'|] eqn:Eh; [|done]. intros [= -> ->].
  apply (wt_map _ Hwf) in E as (Hin & st' & Eh' & Hn). by simplify_eq.
Qed.

Lemma nodeMap_None nm m : wfTable m -> lookupNode nm m = None -> nodeMap m !! nm = None.
Proof.
  intros Hwf. unfold lookupNode. destruct (nodeMap m !! nm) as [k|] eqn:E; [|done].
  apply (wt_map _ Hwf) in E as (_ & st & -> & _). done.
Qed.

Lemma heap_unique m l l' st st' :
  wfTable m -> l ∈ nodes m -> l' ∈ nodes m -> heap m !! l = Some st -> heap m !! l' = Some st' ->
  Name (node st) = Name (node st') -> l = l'.
Proof.
  intros Hwf Hl Hl' E E' Hn.
  assert (H1 : nodeMap m !! Name (node st) = Some l) by (apply (wt_map _ Hwf); eauto).
  assert (H2 : nodeMap m !! Name (node st) = Some l') by (apply (wt_map _ Hwf); eauto).
  congruence.
Qed.

(** Every node object of the list is in the view, and nothing else is. *)
Lemma nodeStates_view m st : wfTable m -> st ∈ nodeStates m <-> view m !! Name (node st) = Some st.
Proof.
  intros Hwf. unfold nodeStates. rewrite list_elem_of_omap. split.
  - intros (l & Hl & E). apply lookup_view with l. unfold lookupNode.
    assert (H1 : nodeMap m !! Name (node st) = Some l) by (apply (wt_map _ Hwf); eauto).
    by rewrite H1, E.
  - intros [l E]%view_Some. apply lookup_in in E as (? & ? & _); eauto.
Qed.

(** ** Assigning to a node object *)

Lemma wfTable_setNode nm l st st' m :
  wfTable m -> lookupNode nm m = Some (l, st) -> Name (node st') = nm -> wfTable (setNode l st' m).
Proof.
  intros Hwf E Hn. pose proof (lookup_in _ _ _ _ Hwf E) as (Hl & Eh & Hn').
  pose proof (lookup_lt_Some _ _ _ Eh) as Hlt. destruct Hwf as [Hnd Hmap Hh Hnum].
  split; simpl; auto.
  - intros nm' l'. rewrite Hmap. split; intros (Hin & x & Ex & Hx); (split; [done|]).
    + destruct (decide (l = l')) as [->|Hne].
      * exists st'. rewrite list_lookup_insert_eq by done. split; [done|]. simplify_eq. congruence.
      * exists x. by rewrite list_lookup_insert_ne.
    + destruct (decide (l = l')) as [->|Hne].
      * rewrite list_lookup_insert_eq in Ex by done. simplify_eq. exists st. auto.
      * rewrite list_lookup_insert_ne in Ex by done. eauto.
  - intros l' Hl'. destruct (decide (l = l')) as [->|Hne].
    + rewrite list_lookup_insert_eq by done. eauto.
    + rewrite list_lookup_insert_ne by done. auto.
Qed.

Lemma lookup_setNode nm l st st' m nm' :
  wfTable m -> lookupNode nm m = Some (l, st) -> Name (node st') = nm ->
  lookupNode nm' (setNode l st' m) = if decide (nm' = nm) then Some (l, st') else lookupNode nm' m.
Proof.
  intros Hwf E Hn. pose proof (lookup_in _ _ _ _ Hwf E) as (Hl & Eh & Hn').
  pose proof (lookup_lt_Some _ _ _ Eh) as Hlt. unfold lookupNode in *. simpl. case_decide as Hd.
  - subst. destruct (nodeMap m !! Name (node st')) as [k|]; [|done].
    destruct (heap m !! k); simplify_eq. by rewrite list_lookup_insert_eq.
  - destruct (nodeMap m !! nm') as [k|] eqn:Ek; [|done].
    rewrite list_lookup_insert_ne; [done|]. intros ->.
    apply (wt_map _ Hwf) in Ek as (_ & x & Ex & Hx). simplify_eq.
Qed.

Lemma view_setNode nm l st st' m :
  wfTable m -> lookupNode nm m = Some (l, st) -> Name (node st') = nm ->
  view (setNode l st' m) = <[nm := st']> (view m).
Proof.
  intros Hwf E Hn. apply map_eq. intros nm'. rewrite view_lookup, (lookup_setNode nm l st) by done.
  rewrite lookup_insert. rewrite view_lookup. by repeat case_decide; subst.
Qed.

(** ** Adding a node *)

Lemma addNode_spec a rnd m :
  wfTable m -> lookupNode (aNode a) m = None ->
  wfTable (addNode a rnd m).2 /\
  (forall nm, lookupNode nm (addNode a rnd m).2 =
    if decide (nm = aNode a) then Some ((addNode a rnd m).1, newNodeState a) else lookupNode nm m).
Proof.
  intros Hwf E. pose proof (nodeMap_None _ _ Hwf E) as Enm.
  assert (Hname : Name (node (newNodeState a)) = aNode a)
    by (unfold newNodeState, nodeOfAlive; simpl; by repeat case_match).
  assert (Hfresh : length (heap m) ∉ nodes m).
  { intros Hin. destruct (wt_heap _ Hwf _ Hin) as [x Hx]. apply lookup_lt_Some in Hx. lia. }
  assert (Hlk : forall l x, heap m !! l = Some x -> (heap m ++ [newNodeState a]) !! l = Some x)
    by (intros; by apply lookup_app_l_Some).
  unfold addNode. simpl. split.
  - destruct Hwf as [Hnd Hmap Hh Hnum]. split; simpl.
    + rewrite swap_perm. apply NoDup_app. split_and!; [done| |apply NoDup_singleton].
      intros x Hx ->%list_elem_of_singleton. done.
    + intros nm l. rewrite swap_perm, elem_of_app, list_elem_of_singleton, lookup_insert_Some, Hmap. split.
      * intros [[<- <-]|(Hne & Hin & x & Hx & <-)]; [|eauto 6].
        split; [by right|]. exists (newNodeState a). by rewrite snoc_lookup.
      * intros ([Hin| ->] & x & Hx & <-).
        -- right. destruct (Hh l Hin) as [y Hy]. rewrite (Hlk _ _ Hy) in Hx. simplify_eq.
           split; [|eauto]. intros Ea. unfold lookupNode in E.
           assert (nodeMap m !! aNode a = Some l) by (apply Hmap; eauto). congruence.
        -- left. rewrite snoc_lookup in Hx. by simplify_eq.
    + intros l. rewrite swap_perm, elem_of_app, list_elem_of_singleton. intros [Hin| ->].
      * destruct (Hh l Hin) as [y Hy]. eauto.
      * rewrite snoc_lookup. eauto.
    + rewrite Hnum, swap_perm, length_app. simpl. unfold u32, wrapU. rewrite Zplus_mod_idemp_l. f_equal. lia.
  - intros nm. unfold lookupNode. simpl. rewrite lookup_insert. case_decide as H1; case_decide as H2; subst; try done.
    + by rewrite snoc_lookup.
    + destruct (nodeMap m !! nm) as [l|] eqn:El; [|done].
      apply (wt_map _ Hwf) in El as (_ & x & Hx & _). by rewrite Hx, (Hlk _ _ Hx).
Qed.

(** ** The reset *)

Lemma fold_delete (f : nat -> string) ls (nm : gmap string nat) n :
  fold_left (fun nm l => delete (f l) nm) ls nm !! n =
    if decide (n ∈ map f ls) then None else nm !! n.
Proof.
  revert nm. induction ls as [|l ls IH]; intros nm; [done|]. cbn [fold_left map].
  rewrite IH. destruct (decide (n = f l)) as [->|Hne].
  - rewrite lookup_delete_eq. repeat case_decide; try done; exfalso; set_solver.
  - rewrite lookup_delete_ne by done. repeat case_decide; try done; exfalso; set_solver.
Qed.

(** A node state that the reset reaps. *)
Definition reaped (m : ML) (now : gotime) (st : nodeState) : bool :=
  DeadOrLeft st && negb (timeSub now (StateChange st) <=? Config.GossipToTheDeadTime (config m)).

Lemma isExpired_reaped m now l st :
  heap m !! l = Some st ->
  isExpired (heap m) (Config.GossipToTheDeadTime (config m)) now l = reaped m now st.
Proof. intros E. unfold isExpired. by rewrite E. Qed.

Lemma resetNodes_nodes rnd now m :
  nodes (resetNodes rnd now m) ≡ₚ
    filter (fun l => isExpired (heap m) (Config.GossipToTheDeadTime (config m)) now l = false) (nodes m).
Proof.
  unfold resetNodes. destruct (moveDeadNodes _ (nodes m)) as [ns j] eqn:E. simpl.
  rewrite shuffleNodes_perm. by apply moveDeadNodes_spec in E as [? _].
Qed.

Lemma resetNodes_map rnd now m nm l :
  wfTable m ->
  nodeMap (resetNodes rnd now m) !! nm = Some l <->
    nodeMap m !! nm = Some l /\
    isExpired (heap m) (Config.GossipToTheDeadTime (config m)) now l = false.
Proof.
  intros Hwf. unfold resetNodes. destruct (moveDeadNodes _ (nodes m)) as [ns j] eqn:E. simpl.
  apply moveDeadNodes_spec in E as [_ Hd]. rewrite fold_delete. case_decide as Hin.
  - split; [done|]. intros [Em Hx].
    apply list_elem_of_fmap in Hin as (l' & Hn & Hl'). rewrite Hd in Hl'.
    apply list_elem_of_filter in Hl' as [Hx' Hl'].
    apply (wt_map _ Hwf) in Em as (Hl & st & Hst & Hname).
    destruct (wt_heap _ Hwf _ Hl') as [st' Hst']. unfold nameAt in Hn. rewrite Hst' in Hn.
    rewrite (heap_unique m l l' st st') in Hx by (done || congruence). congruence.
  - split; [|by intros [? _]]. intros Em. split; [done|]. apply not_true_iff_false. intros Hx. apply Hin.
    apply (wt_map _ Hwf) in Em as (Hl & st & Hst & Hname).
    apply list_elem_of_fmap. exists l. unfold nameAt. rewrite Hst. split; [done|].
    rewrite Hd. by apply list_elem_of_filter.
Qed.

Lemma wfTable_reset rnd now m : wfTable m -> wfTable (resetNodes rnd now m).
Proof.
  intros Hwf. pose proof (resetNodes_nodes rnd now m) as Hp.
  assert (Eh : heap (resetNodes rnd now m) = heap m) by (unfold resetNodes; by case_match).
  split.
  - rewrite Hp. apply NoDup_filter, Hwf.
  - intros nm l. rewrite resetNodes_map, (wt_map _ Hwf), Eh, Hp, list_elem_of_filter by done. tauto.
  - intros l. rewrite Hp, Eh, list_elem_of_filter. intros [_ Hl]. by apply Hwf.
  - unfold resetNodes in *. destruct (moveDeadNodes _ (nodes m)) as [ns j] eqn:E. simpl.
    rewrite shuffleNodes_perm. unfold moveDeadNodes in E.
    apply moveDeadLoop_bound in E; [|simpl; lia]. by rewrite length_take_le.
Qed.

Lemma lookup_reset rnd now m nm :
  wfTable m ->
  lookupNode nm (resetNodes rnd now m) =
    match lookupNode nm m with
    | Some (l, st) => if reaped m now st then None else Some (l, st)
    | None => None
    end.
Proof.
  intros Hwf. assert (Eh : heap (resetNodes rnd now m) = heap m) by (unfold resetNodes; by case_match).
  unfold lookupNode. rewrite Eh. destruct (nodeMap m !! nm) as [l|] eqn:El.
  - pose proof El as El'. apply (wt_map _ Hwf) in El' as (_ & st & Hst & _). rewrite Hst.
    rewrite <- (isExpired_reaped m now l st) by done.
    destruct (isExpired _ _ now l) eqn:Ex.
    + destruct (nodeMap (resetNodes rnd now m) !! nm) as [k|] eqn:Ek; [|done].
      apply resetNodes_map in Ek as [? ?]; [|done]. congruence.
    + assert (Ek : nodeMap (resetNodes rnd now m) !! nm = Some l) by (by apply resetNodes_map).
      by rewrite Ek, Hst.
  - destruct (nodeMap (resetNodes rnd now m) !! nm) as [k|] eqn:Ek; [|done].
    apply resetNodes_map in Ek as [? _]; [|done]. congruence.
Qed.

(** ** Shapes of the effects *)

(** Broadcasting changes the queue and nothing else. *)
Lemma broadcast_shape name g notify m :
  exists q fin, encodeBroadcastNotify name g notify m = setBroadcasts q fin m.
Proof.
  unfold encodeBroadcastNotify, queueBroadcast. destruct (encodeGossip g) as [buf|].
  - destruct (Queue.QueueBroadcast _ _) as [q fin]. eauto.
  - exists (broadcasts m), (finished m). by destruct m.
Qed.

(** The incarnation a refutation takes. *)
Definition refuteInc (acc inc : Z) : Z :=
  if acc >=? u32 (inc + 1) then u32 (u32 (inc + 1) + u32 (u32 (acc - u32 (inc + 1)) + 1)) else u32 (inc + 1).

Lemma refute_shape l st acc m :
  exists q fin, refute l st acc m =
    setBroadcasts q fin (setHealth (Awareness.ApplyDelta 1 (health m))
      (setNode l (withIncarnation (refuteInc acc (incarnation m)) st)
        (setIncarnation (refuteInc acc (incarnation m)) m))).
Proof.
  unfold refute, nextIncarnation, skipIncarnation, refuteInc, encodeAndBroadcast. simpl.
  destruct (acc >=? _); simpl;
    match goal with |- context [encodeBroadcastNotify ?n ?g ?t ?m'] =>
      destruct (broadcast_shape n g t m') as (q & fin & E); exists q, fin; exact E end.
Qed.

Lemma refuteInc_small acc inc :
  0 <= inc < maxU32 -> 0 <= acc < maxU32 -> refuteInc acc inc = Z.max (inc + 1) (acc + 1).
Proof.
  intros Hi Ha. unfold refuteInc. rewrite (u32_small (inc + 1)) by lia.
  case_match; zify_bool; [|lia]. rewrite (u32_small (acc - _)) by lia.
  rewrite (u32_small (_ + 1)), u32_small by (unfold maxU32 in *; lia). lia.
Qed.

Lemma wfTable_ext m m' :
  wfTable m -> heap m' = heap m -> nodes m' = nodes m -> nodeMap m' = nodeMap m -> numNodes m' = numNodes m ->
  wfTable m'.
Proof. intros [H1 H2 H3 H4] Eh En Em Enum. split; by rewrite ?Eh, ?En, ?Em, ?Enum. Qed.

(** ** Effects on the view

    Every handler call has one of these effects, or adds a stub for a node never
    seen before and then has one of them. *)

(** What never changes. *)
Record common m m' : Prop := {
  cm_config : config m' = config m;
  cm_hooks : hooks m' = hooks m
}.

(** The suspicion timers of suspect nodes are kept, except possibly that of [o]. *)
Record keeps (o : option string) m m' : Prop := {
  kp_sub : nodeTimers m' ⊆ nodeTimers m;
  kp_keep : forall n st, o <> Some n -> view m !! n = Some st -> State st = StateSuspect ->
    nodeTimers m' !! n = nodeTimers m !! n;
  kp_objs : forall i t, timers m !! i = Some t ->
    exists t', timers m' !! i = Some t' /\ suspNode t' = suspNode t /\ changeTime t' = changeTime t
}.

(** The calls of the event delegate that a change of liveness makes. *)
Definition told (evs : list event) m m' : Prop :=
  events m' = events m ++ (if EventsD (hooks m) then evs else []).

(** Events that say nothing about who is a member. *)
Definition quiet (e : event) : Prop :=
  match e with NotifyUpdate _ | NotifyConflict _ _ => True | _ => False end.

Definition toldQuiet m m' : Prop := exists evs, Forall quiet evs /\ events m' = events m ++ evs.

(** When an alive message replaces the entry [st] of a node by [st']: it has a
    higher incarnation; or the node is gone and the name moves to a new address;
    or it is the local node's own announcement. *)
Definition fresher (self : string) (own : Z) (nm : string) (st st' : nodeState) : Prop :=
  Incarnation st < Incarnation st' \/
  (DeadOrLeft st = true /\ (Addr (node st), Port (node st)) <> (Addr (node st'), Port (node st'))) \/
  (nm = self /\ Incarnation st <= Incarnation st' <= own).

Inductive effect m m' : Prop :=
| eff_same :
    view m' = view m -> leave m' = leave m -> keeps None m m' -> toldQuiet m m' ->
    (incarnation m' = incarnation m \/ incarnation m' = u32 (incarnation m + 1)) -> effect m m'
| eff_left :
    view m' = view m -> leave m' = true -> keeps None m m' -> events m' = events m ->
    incarnation m' = incarnation m -> effect m m'
| eff_stub nm st' :
    view m !! nm = None -> view m' = <[nm := st']> (view m) -> leave m' = leave m -> keeps None m m' ->
    Name (node st') = nm -> State st' = StateDead -> Incarnation st' = 0 -> StateChange st' = zeroTime ->
    events m' = events m ->
    incarnation m' = incarnation m -> effect m m'
| eff_alive nm st st' :
    view m !! nm = Some st -> view m' = <[nm := st']> (view m) -> leave m' = leave m ->
    keeps (Some nm) m m' -> nodeTimers m' !! nm = None ->
    Name (node st') = nm -> State st' = StateAlive -> (nm = self m -> leave m = false) ->
    fresher (self m) (incarnation m) nm st st' ->
    (if DeadOrLeft st then told [NotifyJoin (node st')] m m' else toldQuiet m m') ->
    incarnation m' = incarnation m -> effect m m'
| eff_refute st acc :
    view m !! self m = Some st -> (leave m = false \/ DeadOrLeft st = false) ->
    view m' = <[self m := withIncarnation (refuteInc acc (incarnation m)) st]> (view m) ->
    leave m' = leave m -> keeps None m m' -> incarnation m' = refuteInc acc (incarnation m) ->
    Incarnation st <= acc ->
    (if DeadOrLeft st then told [NotifyJoin (node st)] m m' else events m' = events m) -> effect m m'
| eff_suspect nm st inc now t :
    view m !! nm = Some st -> State st = StateAlive -> nm <> self m -> Incarnation st <= inc ->
    view m' = <[nm := mkNodeState (node st) inc StateSuspect now]> (view m) -> leave m' = leave m ->
    nodeTimers m' = <[nm := length (timers m)]> (nodeTimers m) -> timers m' = timers m ++ [t] ->
    suspNode t = nm -> changeTime t = now -> events m' = events m -> incarnation m' = incarnation m ->
    effect m m'
| eff_dead nm st d now :
    view m !! nm = Some st -> DeadOrLeft st = false -> (nm = self m -> leave m = true) ->
    Incarnation st <= dIncarnation d -> dNode d = nm ->
    view m' = <[nm := deadState d now st]> (view m) -> leave m' = leave m -> keeps (Some nm) m m' ->
    nodeTimers m' !! nm = None -> told [NotifyLeave (node st)] m m' -> incarnation m' = incarnation m ->
    effect m m'
| eff_reap now :
    (forall nm, view m' !! nm = match view m !! nm with
                                | Some st => if reaped m now st then None else Some st
                                | None => None end) ->
    leave m' = leave m -> keeps None m m' -> events m' = events m ->
    incarnation m' = incarnation m -> effect m m'.

(** ** The invariant *)

Record inv m : Prop := {
  inv_table : wfTable m;
  inv_timer : forall nm i, nodeTimers m !! nm = Some i -> exists t st,
    timers m !! i = Some t /\ suspNode t = nm /\ view m !! nm = Some st /\
    State st = StateSuspect /\ changeTime t = StateChange st;
  inv_suspect : forall nm st, view m !! nm = Some st -> State st = StateSuspect ->
    is_Some (nodeTimers m !! nm);
  inv_self : forall st, view m !! self m = Some st -> State st <> StateSuspect
}.

Lemma keeps_eq o m m' : nodeTimers m' = nodeTimers m -> timers m' = timers m -> keeps o m m'.
Proof. intros En Et. split; rewrite ?En, ?Et; eauto. Qed.

(** Timers of an unchanged node stay right. *)
Lemma keeps_timer o m m' nm i :
  inv m -> keeps o m m' -> nodeTimers m' !! nm = Some i -> exists t st,
    timers m' !! i = Some t /\ suspNode t = nm /\ view m !! nm = Some st /\
    State st = StateSuspect /\ changeTime t = StateChange st.
Proof.
  intros Hinv [Hsub Hkeep Hobjs] E.
  destruct (inv_timer _ Hinv nm i) as (t & st & Et & Hn & Hv & Hs & Hc); [by eapply lookup_weaken|].
  destruct (Hobjs _ _ Et) as (t' & Et' & Hn' & Hc'). exists t', st. split_and!; auto; congruence.
Qed.

(** An effect that changes at most the entry of [nm], to a state that is not
    suspect, and drops its timer, keeps the invariant. *)
Lemma inv_insert nm st' m m' :
  inv m -> wfTable m' -> config m' = config m -> view m' = <[nm := st']> (view m) ->
  keeps (Some nm) m m' -> nodeTimers m' !! nm = None -> State st' <> StateSuspect -> inv m'.
Proof.
  intros Hinv Hwf Hcfg Hv Hk Hno Hst. split; [done|..].
  - intros n i E. destruct (keeps_timer _ _ _ _ _ Hinv Hk E) as (t & st & Et & Hn & Hvn & Hs & Hc).
    exists t, st. rewrite Hv, lookup_insert_ne by congruence. auto.
  - intros n st. rewrite Hv, lookup_insert_Some. intros [[<- <-]|[Hne Hvn]] Hs; [done|].
    rewrite (kp_keep _ _ _ Hk n st) by (done || congruence). by apply (inv_suspect _ Hinv n st).
  - intros st. unfold self. rewrite Hv, Hcfg, lookup_insert_Some. intros [[_ <-]|[_ Hvn]]; [done|].
    by apply (inv_self _ Hinv).
Qed.

Lemma inv_same m m' :
  inv m -> wfTable m' -> config m' = config m -> view m' = view m -> keeps None m m' -> inv m'.
Proof.
  intros Hinv Hwf Hcfg Hv Hk. split; [done|..].
  - intros n i E. rewrite Hv. eapply keeps_timer; eauto.
  - intros n st. rewrite Hv. intros Hvn Hs. rewrite (kp_keep _ _ _ Hk n st) by done.
    by apply (inv_suspect _ Hinv n st).
  - intros st. unfold self. rewrite Hv, Hcfg. apply (inv_self _ Hinv).
Qed.

Lemma inv_effect m m' : inv m -> wfTable m' -> common m m' -> effect m m' -> inv m'.
Proof.
  intros Hinv Hwf [Hcfg Hhk] He.
  assert (Hnot : forall n i st, view m !! n = Some st -> State st <> StateSuspect ->
    nodeTimers m !! n = Some i -> False).
  { intros n i st Hv Hs E. destruct (inv_timer _ Hinv n i E) as (t & st2 & _ & _ & Hv2 & ? & _). congruence. }
  assert (Hnone : forall o n, keeps o m m' -> nodeTimers m !! n = None -> nodeTimers m' !! n = None).
  { intros o n Hk E. destruct (nodeTimers m' !! n) as [i|] eqn:Ei; [|done].
    eapply lookup_weaken in Ei; [|apply Hk]. congruence. }
  destruct He as [Hv Hl Hk _ _|Hv Hl Hk _ _|nm st' Hn Hv Hl Hk Hname Hs _ _ _ _
    |nm st st' Hn Hv Hl Hk Ht Hname Hs _ _ _ _|st acc Hn Hl Hv _ Hk _ _ _
    |nm st inc now t Hn Hs Hself _ Hv _ Hnt Hts Hsn Hct _ _
    |nm st d now Hn Hdl Hself _ _ Hv _ Hk Ht _ _|now Hv _ Hk _ _].
  - by apply (inv_same m).
  - by apply (inv_same m).
  - assert (E : nodeTimers m !! nm = None).
    { destruct (nodeTimers m !! nm) as [i|] eqn:E; [|done].
      destruct (inv_timer _ Hinv nm i E) as (? & ? & _ & _ & ? & _). congruence. }
    apply (inv_insert nm st' m); eauto; try congruence.
    destruct Hk as [H1 H2 H3]. split; eauto.
  - apply (inv_insert nm st' m); auto. congruence.
  - pose proof (inv_self _ Hinv _ Hn) as Hs.
    assert (E : nodeTimers m !! self m = None).
    { destruct (nodeTimers m !! self m) as [i|] eqn:E; [exfalso; eauto|done]. }
    apply (inv_insert (self m) (withIncarnation (refuteInc acc (incarnation m)) st) m); eauto.
    destruct Hk as [H1 H2 H3]. split; eauto.
  - split; [done|..].
    + intros n i. rewrite Hnt, Hts, Hv, lookup_insert_Some. intros [[<- <-]|[Hne E]].
      * exists t, (mkNodeState (node st) inc StateSuspect now).
        rewrite snoc_lookup, lookup_insert_eq. auto.
      * destruct (inv_timer _ Hinv n i E) as (t2 & st2 & Et & ? & ? & ? & ?). exists t2, st2.
        rewrite lookup_insert_ne by done. split_and!; auto. by apply lookup_app_l_Some.
    + intros n x. rewrite Hv, Hnt, lookup_insert_Some. intros [[<- <-]|[Hne E]] Hx.
      * rewrite lookup_insert_eq. eauto.
      * rewrite lookup_insert_ne by done. by apply (inv_suspect _ Hinv n x).
    + intros x. unfold self. rewrite Hv, Hcfg, lookup_insert_ne by done. apply (inv_self _ Hinv).
  - apply (inv_insert nm (deadState d now st) m); auto. unfold deadState. simpl. by case_match.
  - split; [done|..].
    + intros n i E. destruct (keeps_timer _ _ _ _ _ Hinv Hk E) as (t & st & Et & Hn & Hvn & Hs & Hc).
      exists t, st. rewrite Hv, Hvn. unfold reaped, DeadOrLeft. rewrite Hs. auto.
    + intros n st. rewrite Hv. destruct (view m !! n) as [x|] eqn:Ex; [|done]. case_match; [done|].
      intros [= ->] Hs. rewrite (kp_keep _ _ _ Hk n st) by done. by apply (inv_suspect _ Hinv n st).
    + intros st. unfold self. rewrite Hv, Hcfg. destruct (view m !! _) as [x|] eqn:Ex; [|done].
      case_match; [done|]. intros [= ->]. by apply (inv_self _ Hinv).
Qed.

(** ** The effect of every handler *)

Definition good m m' : Prop := wfTable m' /\ common m m' /\ effect m m'.

Lemma toldQuiet_refl m m' : events m' = events m -> toldQuiet m m'.
Proof. intros E. exists []. by rewrite app_nil_r. Qed.

Lemma good_refl m : inv m -> good m m.
Proof.
  intros Hinv. split_and!; [apply Hinv|done|].
  apply eff_same; auto using keeps_eq, toldQuiet_refl.
Qed.

(** Replacing a timer object by one for the same suspicion. *)
Lemma objs_update i t m m' su f pd :
  timers m !! i = Some t ->
  m' = setTimers (nodeTimers m) (<[i := mkSuspObj su (suspNode t) (changeTime t)]> (timers m)) f pd m ->
  keeps None m m'.
Proof.
  intros Et ->. split; simpl; eauto. intros j t' Ej. pose proof (lookup_lt_Some _ _ _ Et).
  destruct (decide (i = j)) as [->|Hne].
  - rewrite list_lookup_insert_eq by done. simplify_eq. eauto.
  - rewrite list_lookup_insert_ne by done. eauto.
Qed.

Lemma keeps_drop nm m m' :
  nodeTimers m' = delete nm (nodeTimers m) -> timers m' = timers m -> keeps (Some nm) m m'.
Proof.
  intros En Et. split; rewrite ?En, ?Et; [apply delete_subseteq| |eauto].
  intros n st Hne _ _. apply lookup_delete_ne. congruence.
Qed.

Lemma keeps_drop_idle nm m m' :
  nodeTimers m' = delete nm (nodeTimers m) -> timers m' = timers m ->
  (forall st, view m !! nm = Some st -> State st <> StateSuspect) -> keeps None m m'.
Proof.
  intros En Et Hns. split; rewrite ?En, ?Et; [apply delete_subseteq| |eauto].
  intros n st _ Hv Hs. apply lookup_delete_ne. intros ->. by apply (Hns st).
Qed.

(** A change of timers, queues and counters only. *)
Lemma good_quiet m m' :
  inv m -> heap m' = heap m -> nodes m' = nodes m -> nodeMap m' = nodeMap m -> numNodes m' = numNodes m ->
  config m' = config m -> hooks m' = hooks m -> leave m' = leave m -> events m' = events m ->
  (incarnation m' = incarnation m \/ incarnation m' = u32 (incarnation m + 1)) -> keeps None m m' -> good m m'.
Proof.
  intros Hinv Eh En Em Enum Ec Ehk El Ee Ei Hk. split_and!.
  - apply (wfTable_ext m); auto. apply Hinv.
  - by split.
  - apply eff_same; auto using toldQuiet_refl. unfold view. by rewrite Eh, Em.
Qed.

Lemma good_dropTimer nm m :
  inv m -> (forall st, view m !! nm = Some st -> State st <> StateSuspect) -> good m (dropTimer nm m).
Proof.
  intros Hinv Hns. apply good_quiet; auto. by eapply keeps_drop_idle.
Qed.

Lemma confirm_good i t s now m :
  inv m -> timers m !! i = Some t -> good m (confirmTimer i t s now m).
Proof.
  intros Hinv Et. unfold confirmTimer. destruct (Suspicion.Confirm _ _ _) as [[su new] calls].
  set (m1 := setTimers _ _ _ _ m).
  assert (Hk : keeps None m m1) by (by eapply objs_update).
  destruct new; [|by apply good_quiet; auto].
  destruct (broadcast_shape (sNode s) (GSuspect s) None m1) as (q & fin & E).
  unfold encodeAndBroadcast. rewrite E. apply good_quiet; auto. destruct Hk. split; auto.
Qed.

(** Assigning an entry, then broadcasting and counting. *)
Lemma view_assign nm l st st' m m' :
  wfTable m -> lookupNode nm m = Some (l, st) -> Name (node st') = nm ->
  heap m' = <[l := st']> (heap m) -> nodes m' = nodes m -> nodeMap m' = nodeMap m -> numNodes m' = numNodes m ->
  wfTable m' /\ view m' = <[nm := st']> (view m).
Proof.
  intros Hwf E Hn Eh En Em Enum. split.
  - apply (wfTable_ext (setNode l st' m)); auto. by eapply wfTable_setNode.
  - rewrite <- (view_setNode nm l st st' m) by done. unfold view. by rewrite Eh, Em.
Qed.

Lemma refute_good l st acc m m1 :
  inv m -> lookupNode (self m) m = Some (l, st) -> Incarnation st <= acc ->
  DeadOrLeft st = false -> m1 = m \/ m1 = dropTimer (self m) m -> good m (refute l st acc m1).
Proof.
  intros Hinv E Hacc Hdl Hm1. destruct (refute_shape l st acc m1) as (q & fin & ->).
  pose proof (lookup_in _ _ _ _ (inv_table _ Hinv) E) as (_ & _ & Hn).
  assert (Hk : keeps None m m1).
  { destruct Hm1 as [-> | ->]; [by apply keeps_eq|]. eapply keeps_drop_idle; [done..|]. by apply inv_self. }
  assert (Ei : incarnation m1 = incarnation m) by (by destruct Hm1 as [-> | ->]). rewrite Ei.
  set (m' := setBroadcasts _ _ _).
  destruct (view_assign (self m) l st (withIncarnation (refuteInc acc (incarnation m)) st) m m') as [Hwf Hv];
    [apply Hinv|exact E|exact Hn|by destruct Hm1 as [-> | ->]..|].
  split_and!; [exact Hwf|by destruct Hm1 as [-> | ->]|].
  eapply (eff_refute _ _ st acc); eauto using lookup_view.
  - by destruct Hm1 as [-> | ->].
  - destruct Hk as [? ? ?]. by split.
  - rewrite Hdl. by destruct Hm1 as [-> | ->].
Qed.

Lemma suspect_good s now m : inv m -> good m (suspectNode s now m).
Proof.
  intros Hinv. unfold suspectNode. destruct (lookupNode (sNode s) m) as [[l st]|] eqn:E; [|by apply good_refl].
  case_match eqn:Hinc; [by apply good_refl|]. zify_bool.
  destruct (nodeTimers m !! sNode s) as [i|] eqn:Et.
  { destruct (timers m !! i) as [t|] eqn:Eti; [by apply confirm_good|by apply good_refl]. }
  destruct (bool_decide (State st = StateAlive)) eqn:Hal; simpl; [|by apply good_refl]. zify_bool.
  pose proof (lookup_in _ _ _ _ (inv_table _ Hinv) E) as (_ & _ & Hn).
  case_bool_decide as Hself.
  - rewrite Hn in Hself. rewrite Hself in E. apply (refute_good l st _ m m); auto. unfold DeadOrLeft. by rewrite Hal.
  - destruct (broadcast_shape (sNode s) (GSuspect s) None m) as (q & fin & Eb).
    unfold encodeAndBroadcast. rewrite Eb. unfold startTimer. simpl.
    set (m' := setTimers _ _ _ _ _).
    destruct (view_assign (sNode s) l st (suspectState s now st) m m') as [Hwf Hv]; auto; [apply Hinv|].
    split_and!; [done|done|]. eapply (eff_suspect _ _ (sNode s) st (sIncarnation s) now); eauto using lookup_view.
    congruence.
Qed.

Lemma not_suspect_DeadOrLeft st : DeadOrLeft st = true -> State st <> StateSuspect.
Proof. unfold DeadOrLeft. by destruct (State st). Qed.

(** Telling the delegate changes the event log and nothing else. *)
Definition setEvents (evs : list event) m : ML :=
  mkMemberlist (config m) (hooks m) (incarnation m) (numNodes m) (leave m) (heap m) (nodes m) (nodeMap m)
    (nodeTimers m) (timers m) (fired m) (pendingDead m) (health m) (broadcasts m) (finished m) evs.

Lemma notifyEvent_shape e m :
  notifyEvent e m = setEvents (events m ++ (if EventsD (hooks m) then [e] else [])) m.
Proof.
  unfold notifyEvent, addEvent, setEvents. destruct (EventsD (hooks m)); [done|]. rewrite app_nil_r. by destruct m.
Qed.

Lemma dead_good d now m : inv m -> good m (deadNode d now m).
Proof.
  intros Hinv. unfold deadNode. destruct (lookupNode (dNode d) m) as [[l st]|] eqn:E; [|by apply good_refl].
  case_match eqn:Hinc; [by apply good_refl|]. zify_bool.
  pose proof (lookup_in _ _ _ _ (inv_table _ Hinv) E) as (_ & _ & Hn).
  pose proof (lookup_view _ _ _ _ E) as Hv0.
  destruct (DeadOrLeft st) eqn:Hdl.
  { apply good_dropTimer; [done|]. intros x Hx. simplify_eq. by apply not_suspect_DeadOrLeft. }
  change (self (dropTimer (dNode d) m)) with (self m).
  change (hasLeft (dropTimer (dNode d) m)) with (leave m).
  destruct (bool_decide (Name (node st) = self m) && negb (leave m)) eqn:Href.
  - zify_bool. rewrite Hn in *. replace (dNode d) with (self m) in *. by apply (refute_good l st _ m); auto.
  - match goal with |- context [encodeBroadcastNotify ?n ?g ?t ?m1] =>
      destruct (broadcast_shape n g t m1) as (q & fin & ->) end.
    rewrite notifyEvent_shape. set (m' := setEvents _ _).
    destruct (view_assign (dNode d) l st (deadState d now st) m m') as [Hwf Hv]; auto; [apply Hinv|].
    split_and!; [done|done|]. eapply (eff_dead _ _ (dNode d) st d now); eauto.
    + intros Hs. rewrite Hn, Hs, bool_decide_eq_true_2 in Href by done. by destruct (leave m).
    + by apply keeps_drop.
    + apply lookup_delete_eq.
    + done.
Qed.

(** The messages the local node announces, and those the network brings. *)
Definition admissible (a : alive) (bootstrap : bool) m : Prop :=
  0 <= aIncarnation a /\
  (bootstrap = true -> aNode a = self m /\ aIncarnation a <= incarnation m).

Lemma setVersions_name vsn n n' : setVersions vsn n = Ret n' -> Name n' = Name n /\ Addr n' = Addr n.
Proof. unfold setVersions. repeat case_match; intros [= <-]; auto. Qed.

Lemma alive_refute_good a l st m :
  inv m -> lookupNode (self m) m = Some (l, st) -> leave m = false -> Incarnation st <= aIncarnation a ->
  let m1 := refute l st (aIncarnation a) (dropTimer (self m) m) in
  let st' := match heap m1 !! l with Some x => x | None => st end in
  good m (notifyAlive st st' m1).
Proof.
  intros Hinv E Hl Hacc. simpl.
  pose proof (lookup_in _ _ _ _ (inv_table _ Hinv) E) as (_ & Eh & Hn).
  destruct (refute_shape l st (aIncarnation a) (dropTimer (self m) m)) as (q & fin & ->). simpl.
  rewrite list_lookup_insert_eq by (by eapply lookup_lt_Some).
  set (m1 := setBroadcasts _ _ _). set (inc := refuteInc _ _) in *.
  assert (Es : notifyAlive st (withIncarnation inc st) m1 =
    setEvents (events m ++ (if DeadOrLeft st && EventsD (hooks m) then [NotifyJoin (node st)] else [])) m1).
  { unfold notifyAlive. simpl. rewrite bool_decide_eq_true_2 by done.
    destruct (DeadOrLeft st); simpl; [by rewrite notifyEvent_shape|]. by rewrite app_nil_r. }
  rewrite Es. set (m' := setEvents _ _).
  destruct (view_assign (self m) l st (withIncarnation inc st) m m') as [Hwf Hv];
    [apply Hinv|exact E|exact Hn|done..|].
  split_and!; [exact Hwf|done|]. eapply (eff_refute _ _ st (aIncarnation a)); eauto using lookup_view.
  - eapply keeps_drop_idle; [done..|]. by apply inv_self.
  - unfold told. simpl. destruct (DeadOrLeft st); simpl; [done|]. by rewrite app_nil_r.
Qed.

Lemma alive_accept_good a l st notify n now m :
  inv m -> lookupNode (aNode a) m = Some (l, st) -> Name n = aNode a ->
  (aNode a = self m -> leave m = false) ->
  (Incarnation st < aIncarnation a \/
   (DeadOrLeft st = true /\ (Addr (node st), Port (node st)) <> (aAddr a, aPort a)) \/
   (aNode a = self m /\ Incarnation st <= aIncarnation a <= incarnation m)) ->
  let m1 := encodeBroadcastNotify (aNode a) (GAlive a) notify (dropTimer (aNode a) m) in
  let st' := aliveState a now n st in
  good m (notifyAlive st st' (setNode l st' m1)).
Proof.
  intros Hinv E Hn Hl Hfr. simpl.
  destruct (broadcast_shape (aNode a) (GAlive a) notify (dropTimer (aNode a) m)) as (q & fin & ->).
  set (st' := aliveState a now n st). set (m1 := setNode _ _ _).
  assert (exists evs, notifyAlive st st' m1 = setEvents (events m ++ evs) m1 /\
    if DeadOrLeft st then evs = (if EventsD (hooks m) then [NotifyJoin (node st')] else []) else Forall quiet evs)
    as (evs & -> & Hevs).
  { unfold notifyAlive. destruct (DeadOrLeft st); [eexists; by rewrite notifyEvent_shape|].
    case_bool_decide; [exists []; by rewrite app_nil_r|]. rewrite notifyEvent_shape. eexists. split; [done|].
    simpl. destruct (EventsD (hooks m)); repeat constructor. }
  set (m' := setEvents _ _).
  destruct (view_assign (aNode a) l st st' m m') as [Hwf Hv]; auto; [apply Hinv|].
  split_and!; [done|done|]. eapply (eff_alive _ _ (aNode a) st st'); eauto using lookup_view.
  - by apply keeps_drop.
  - apply lookup_delete_eq.
  - destruct (DeadOrLeft st); [by unfold told; simpl; rewrite Hevs|]. by exists evs.
Qed.

Lemma aliveUpdate_good a l st upd notify bootstrap now m m' :
  inv m -> lookupNode (aNode a) m = Some (l, st) -> admissible a bootstrap m ->
  (aNode a = self m -> leave m = false) ->
  (upd = true -> DeadOrLeft st = true /\ (Addr (node st), Port (node st)) <> (aAddr a, aPort a)) ->
  aliveUpdate a l st upd notify bootstrap now m = Ret m' -> good m m'.
Proof.
  intros Hinv E [_ Hboot] Hl Hupd. unfold aliveUpdate.
  pose proof (lookup_in _ _ _ _ (inv_table _ Hinv) E) as (_ & _ & Hn). rewrite Hn.
  case_match eqn:H1; [intros [= <-]; by apply good_refl|].
  case_match eqn:H2; [intros [= <-]; by apply good_refl|].
  destruct (bool_decide (aNode a = self m)) eqn:Hself; zify_bool; simpl in *.
  - rewrite andb_true_r in *. zify_bool. rewrite Hself in *. destruct bootstrap; simpl.
    + destruct (setVersions (aVsn a) (node st)) as [n|] eqn:Ev; simpl; [|done]. intros [= <-].
      apply setVersions_name in Ev as [Ev _]. rewrite <- Hself in *.
      apply alive_accept_good; auto; [congruence|]. right. right. split; [done|]. split; [lia|]. by apply Hboot.
    + case_match; intros [= <-].
      * apply good_dropTimer; [done|]. by apply inv_self.
      * apply alive_refute_good; auto.
  - rewrite andb_true_r in H1. rewrite andb_false_r.
    destruct (setVersions (aVsn a) (node st)) as [n|] eqn:Ev; simpl; [|done]. intros [= <-].
    apply setVersions_name in Ev as [Ev _]. apply alive_accept_good; auto; [congruence|].
    apply andb_false_iff in H1 as [H1|H1]; zify_bool; [left; lia|]. right. left. by apply Hupd.
Qed.

Lemma good_inv m m' : inv m -> good m m' -> inv m'.
Proof. intros Hinv (Hwf & Hc & He). by eapply inv_effect. Qed.

(** Zero or more effects, from a state with the invariant. *)
Definition evolves : ML -> ML -> Prop := rtc (fun m m' => inv m /\ good m m').

Lemma evolves_inv m m' : inv m -> evolves m m' -> inv m'.
Proof. intros Hinv. induction 1 as [|m m1 m2 [_ Hg] _ IH]; [done|]. by eapply IH, good_inv. Qed.

(** One handler call: possibly a preparation that keeps all entries, then one
    effect. *)
Definition chain m m' : Prop :=
  exists m1, (m1 = m \/ good m m1) /\ view m ⊆ view m1 /\ good m1 m'.

Lemma good_chain m m' : good m m' -> chain m m'.
Proof. intros Hg. exists m. auto. Qed.

Lemma chain_evolves m m' : inv m -> chain m m' -> evolves m m'.
Proof.
  intros Hinv (m1 & [->|Hg1] & _ & Hg); [by apply rtc_once|].
  eapply rtc_l; [by split|]. apply rtc_once. split; [|done]. by eapply good_inv.
Qed.

Lemma addNode_good a rnd m :
  inv m -> lookupNode (aNode a) m = None -> good m (addNode a rnd m).2.
Proof.
  intros Hinv E. destruct (addNode_spec a rnd m (inv_table _ Hinv) E) as [Hwf Hlk].
  split_and!; [done|done|].
  assert (Hname : Name (node (newNodeState a)) = aNode a)
    by (unfold newNodeState, nodeOfAlive; simpl; by repeat case_match).
  eapply (eff_stub _ _ (aNode a) (newNodeState a)); auto; [by apply lookupNode_None| |by apply keeps_eq].
  apply map_eq. intros nm. rewrite view_lookup, Hlk, lookup_insert.
  repeat case_decide; subst; try done. by rewrite view_lookup.
Qed.

Lemma sameAddress_false a n :
  sameAddress a n = false -> (Addr n, Port n) <> (aAddr a, aPort a).
Proof.
  unfold sameAddress. intros Hs [= E1 E2]. rewrite E1, E2, bool_decide_eq_true_2, Z.eqb_refl in Hs; done.
Qed.

Lemma canTakeOver_gone st now m : canTakeOver st now m = true -> DeadOrLeft st = true.
Proof. unfold canTakeOver, DeadOrLeft. by destruct (State st). Qed.

Lemma alive_chain a notify bootstrap rnd now m m' :
  inv m -> admissible a bootstrap m -> aliveNode a notify bootstrap rnd now m = Ret m' -> chain m m'.
Proof.
  intros Hinv Hadm. unfold aliveNode.
  assert (Hsame : Ret m = Ret m' -> chain m m') by (intros [= <-]; by apply good_chain, good_refl).
  case_match eqn:Hleft; [done|]. case_match; [done|]. case_match; [done|].
  assert (Hl : aNode a = self m -> leave m = false).
  { intros Es. rewrite bool_decide_eq_true_2, andb_true_r in Hleft by done. done. }
  destruct (lookupNode (aNode a) m) as [[l st]|] eqn:E.
  - destruct (sameAddress a (node st)) eqn:Ea; simpl.
    { intros Hu. apply good_chain. by eapply aliveUpdate_good in Hu. }
    case_match; [done|]. case_match eqn:Ht.
    + intros Hu. apply good_chain. eapply aliveUpdate_good in Hu; eauto.
      intros _. split; [by eapply canTakeOver_gone|by apply sameAddress_false].
    + intros [= <-]. apply good_chain. case_match; [|by apply good_refl].
      split_and!; [apply (wfTable_ext m); auto; apply Hinv|done|].
      apply eff_same; auto; [by apply keeps_eq|]. eexists. split; [|done]. by repeat constructor.
  - case_match; [done|]. pose proof (addNode_good a rnd m Hinv E) as Hg.
    destruct (addNode_spec a rnd m (inv_table _ Hinv) E) as [_ Hlk].
    destruct (addNode a rnd m) as [l m1] eqn:Em. simpl in *. intros Hu.
    assert (Ec : config m1 = config m /\ leave m1 = leave m /\ incarnation m1 = incarnation m)
      by (unfold addNode in Em; by simplify_eq/=). destruct Ec as (Ec & El & Ei).
    pose proof (good_inv _ _ Hinv Hg) as Hinv1.
    exists m1. split_and!; [by right| |].
    { apply map_subseteq_spec. intros nm x Hx. rewrite view_lookup, Hlk. destruct (decide (nm = aNode a)) as [->|Hd].
      - apply view_Some in Hx as [? Hx]. congruence.
      - by rewrite <- view_lookup. }
    unfold self in *. eapply (aliveUpdate_good a l (newNodeState a)) in Hu; eauto.
    + by rewrite Hlk, decide_True.
    + unfold admissible, self. by rewrite Ec, Ei.
    + unfold self. by rewrite Ec, El.
Qed.

Lemma reset_good rnd now m : inv m -> good m (resetNodes rnd now m).
Proof.
  intros Hinv. pose proof (inv_table _ Hinv) as Hwf.
  split_and!; [by apply wfTable_reset|split; unfold resetNodes; by case_match|].
  apply (eff_reap _ _ now); try (unfold resetNodes; by case_match).
  - intros nm. rewrite !view_lookup, lookup_reset by done.
    destruct (lookupNode nm m) as [[l st]|]; [|done]. by destruct (reaped m now st).
  - apply keeps_eq; unfold resetNodes; by case_match.
Qed.

Lemma expire_good i now m : inv m -> good m (expireTimer i now m).
Proof.
  intros Hinv. unfold expireTimer. destruct (timers m !! i) as [t|] eqn:Et; [|by apply good_refl].
  destruct (Suspicion.expire now (timerOf t)) as [su calls]. apply good_quiet; auto. by eapply objs_update.
Qed.

Lemma timeout_good j m : inv m -> good m (runTimeout j m).
Proof.
  intros Hinv. unfold runTimeout. case_match; [|by apply good_refl]. apply good_quiet; auto. by apply keeps_eq.
Qed.

Lemma deliver_chain j now m : inv m -> chain m (deliverDead j now m).
Proof.
  intros Hinv. unfold deliverDead. destruct (pendingDead m !! j) as [d|]; [|by apply good_chain, good_refl].
  set (m1 := setTimers _ _ _ _ m).
  assert (Hg : good m m1) by (apply good_quiet; auto; by apply keeps_eq).
  exists m1. split_and!; [by right|done|]. apply dead_good. by eapply good_inv.
Qed.

Lemma step_chain m m' : inv m -> step m m' -> chain m m'.
Proof.
  intros Hinv. destruct 1 as [a rnd now m m' Ha Hr|s now m|d now m|i now m|j m|j now m|rnd now m|m
    |inc addr port meta notify rnd now m m' Hi Hr|m].
  - eapply alive_chain; eauto. by split.
  - by apply good_chain, suspect_good.
  - by apply good_chain, dead_good.
  - by apply good_chain, expire_good.
  - by apply good_chain, timeout_good.
  - by apply deliver_chain.
  - by apply good_chain, reset_good.
  - apply good_chain, good_quiet; auto. by apply keeps_eq.
  - eapply alive_chain; eauto. split; simpl; [lia|]. intros _. split; [done|lia].
  - apply good_chain. split_and!; [apply (wfTable_ext m); auto; apply Hinv|done|].
    apply eff_left; auto. by apply keeps_eq.
Qed.

Lemma step_evolves m m' : inv m -> step m m' -> evolves m m'.
Proof. intros Hinv Hs. by apply chain_evolves, step_chain. Qed.

Lemma steps_evolve m m' : inv m -> steps m m' -> evolves m m'.
Proof.
  intros Hinv. induction 1 as [|m m1 m2 Hs _ IH]; [apply rtc_refl|].
  pose proof (step_evolves _ _ Hinv Hs) as H1. etrans; [exact H1|]. apply IH. by eapply evolves_inv.
Qed.

Lemma inv_new conf hk : inv (newMemberlist conf hk).
Proof.
  assert (Hv : view (newMemberlist conf hk) = (∅ : gmap string nodeState)) by (unfold view; simpl; apply omap_empty).
  split.
  - split; simpl; try done; [constructor|..].
    + intros nm l. rewrite lookup_empty. split; [done|]. by intros [?%elem_of_nil _].
    + by intros l ?%elem_of_nil.
  - intros nm i. simpl. by rewrite lookup_empty.
  - intros nm st. by rewrite Hv, lookup_empty.
  - intros st. by rewrite Hv, lookup_empty.
Qed.

End Proofs.

End Membership.
