(* ===== verification/Guarantees.v ===== *)
(** * What the membership state machine guarantees

    The abstract SWIM protocol on a map of members, and the theorems about the
    implementation: it refines the protocol, its structure and timers are
    consistent, the local node defends itself, delegates are told the truth. *)

From Stdlib Require Import ZArith Lia Strings.Byte.
From stdpp Require Import tactics base numbers strings gmap list.
From S2P Require Import Prelude Timing Awareness Queue Suspicion Config Members Membership.

Local Open Scope Z_scope.
Local Open Scope go_scope.

Module Guarantees.

Import Members Membership.

(** ** The abstract protocol *)

(** The members a node knows, whether it is leaving, its own incarnation. *)
Record cluster := mkCluster {
  members : gmap string nodeState;
  leaving : bool;
  own : Z
}.

(** The SWIM rules for one node's view, for a local node [me]; [old] says which
    dead entries may be forgotten at a time. *)
Inductive swim (me : string) (old : gotime -> nodeState -> bool) : cluster -> cluster -> Prop :=
| sw_next c : swim me old c (mkCluster (members c) (leaving c) (u32 (own c + 1)))
| sw_leave c : swim me old c (mkCluster (members c) true (own c))
| sw_discover c nm st :
    members c !! nm = None -> Name (node st) = nm -> State st = StateDead -> Incarnation st = 0 ->
    swim me old c (mkCluster (<[nm := st]> (members c)) (leaving c) (own c))
| sw_alive c nm st st' :
    members c !! nm = Some st -> Name (node st') = nm -> State st' = StateAlive ->
    (nm = me -> leaving c = false) -> fresher me (own c) nm st st' ->
    swim me old c (mkCluster (<[nm := st']> (members c)) (leaving c) (own c))
| sw_refute c st acc :
    members c !! me = Some st -> (leaving c = false \/ DeadOrLeft st = false) -> Incarnation st <= acc ->
    swim me old c (mkCluster (<[me := withIncarnation (refuteInc acc (own c)) st]> (members c))
                     (leaving c) (refuteInc acc (own c)))
| sw_suspect c nm st inc now :
    members c !! nm = Some st -> State st = StateAlive -> nm <> me -> Incarnation st <= inc ->
    swim me old c (mkCluster (<[nm := mkNodeState (node st) inc StateSuspect now]> (members c))
                     (leaving c) (own c))
| sw_dead c nm st d now :
    members c !! nm = Some st -> DeadOrLeft st = false -> (nm = me -> leaving c = true) ->
    Incarnation st <= dIncarnation d -> dNode d = nm ->
    swim me old c (mkCluster (<[nm := deadState d now st]> (members c)) (leaving c) (own c))
| sw_forget c now :
    swim me old c (mkCluster (filter (fun p => old now p.2 = false) (members c)) (leaving c) (own c)).

(** The names of the members that are neither dead nor left. *)
Definition liveNames (v : gmap string nodeState) : gset string :=
  dom (filter (fun p => DeadOrLeft p.2 = false) v).

(** The membership that a delegate reconstructs from its calls. *)
Definition replay (evs : list event) : gset string :=
  fold_left (fun s e => match e with
                        | NotifyJoin n => {[ Name n ]} ∪ s
                        | NotifyLeave n => s ∖ {[ Name n ]}
                        | _ => s
                        end) evs ∅.

Section Theorems.

Context {T : Type} `{!Queue.BTree Queue.memberlistBroadcast T} `{!GossipCodec}.

Abbreviation ML := (Memberlist T).

Implicit Types m : ML.

Definition abstract m : cluster := mkCluster (view m) (leave m) (incarnation m).

Definition forgets m : gotime -> nodeState -> bool := reaped m.

Lemma good_common m m' : good m m' -> config m' = config m /\ hooks m' = hooks m.
Proof. by intros (_ & [? ?] & _). Qed.

Lemma effect_swim m m' :
  config m' = config m -> effect m m' ->
  rtc (swim (self m) (forgets m)) (abstract m) (abstract m').
Proof.
  intros _. unfold abstract. destruct 1 as [Hv Hl _ _ [Hi|Hi]|Hv Hl _ _ Hi|nm st' Hn Hv Hl _ Hname Hs Hz _ _ Hi
    |nm st st' Hn Hv Hl _ _ Hname Hs Hself Hf _ Hi|st acc Hn Hl Hv Hl' _ Hi Hacc _
    |nm st inc now t Hn Hs Hself Hinc Hv Hl _ _ _ _ _ Hi
    |nm st d now Hn Hdl Hself Hinc Hd Hv Hl _ _ _ Hi|now Hv Hl _ _ Hi]; rewrite ?Hv, ?Hl, ?Hl', ?Hi.
  - apply rtc_refl.
  - apply rtc_once, (sw_next _ _ (abstract m)).
  - apply rtc_once, (sw_leave _ _ (abstract m)).
  - apply rtc_once, (sw_discover _ _ (abstract m) nm); auto.
  - apply rtc_once. by eapply (sw_alive _ _ (abstract m) nm).
  - apply rtc_once, (sw_refute _ _ (abstract m)); auto.
  - apply rtc_once, (sw_suspect _ _ (abstract m)); auto.
  - apply rtc_once. by eapply (sw_dead _ _ (abstract m) nm).
  - assert (E : view m' = filter (fun p => forgets m now p.2 = false) (view m)).
    { apply map_eq. intros nm. rewrite Hv. symmetry. destruct (view m !! nm) as [st|] eqn:E.
      - unfold forgets. destruct (reaped m now st) eqn:Er.
        + apply map_lookup_filter_None. right. intros x Hx. simplify_eq/=. congruence.
        + by apply map_lookup_filter_Some.
      - apply map_lookup_filter_None. by left. }
    rewrite E. apply rtc_once, (sw_forget _ _ (abstract m)).
Qed.

Lemma evolves_config m m' : evolves m m' -> config m' = config m /\ hooks m' = hooks m.
Proof.
  induction 1 as [|m m1 m2 [_ Hg] _ [IH1 IH2]]; [done|]. apply good_common in Hg as [? ?]. split; congruence.
Qed.

Lemma evolves_swim m m' :
  evolves m m' -> rtc (swim (self m) (forgets m)) (abstract m) (abstract m').
Proof.
  induction 1 as [|m m1 m2 [_ Hg] _ IH]; [apply rtc_refl|].
  pose proof (good_common _ _ Hg) as [Hc _]. destruct Hg as (_ & _ & He).
  etrans; [by apply effect_swim|]. unfold self, forgets, reaped in *. by rewrite Hc in IH.
Qed.

(** ** Invariants of runs *)

(** An invariant of single effects holds along every run. *)
Lemma evolves_preserve (P : ML -> Prop) m m' :
  (forall m1 m2, inv m1 -> good m1 m2 -> P m1 -> P m2) -> evolves m m' -> P m -> P m'.
Proof. intros HP. induction 1 as [|m m1 m2 [Hi Hg] _ IH]; [done|]. intros Hm. by eapply IH, HP. Qed.

(** While it is not leaving, the local node is in its own list, alive. *)
Definition running m : Prop :=
  leave m = false -> exists st, view m !! self m = Some st /\ State st = StateAlive.

Lemma running_good m m' : inv m -> good m m' -> running m -> running m'.
Proof.
  intros Hinv Hg Hr. pose proof (good_common _ _ Hg) as [Hc _]. destruct Hg as (_ & _ & He).
  unfold running, self in *. rewrite Hc. set (me := Config.Name (config m)) in *.
  destruct He as [Hv Hl _ _ _|Hv Hl _ _ _|nm st' Hn Hv Hl _ _ _ _ _ _ _
    |nm st st' Hn Hv Hl _ _ _ Hs _ _ _ _|st acc Hn _ Hv Hl _ _ _ _
    |nm st inc now t Hn _ Hself _ Hv Hl _ _ _ _ _ _
    |nm st d now Hn _ Hself _ _ Hv Hl _ _ _ _|now Hv Hl _ _ _];
    rewrite Hl; try done; intros Hleave; destruct (Hr Hleave) as (x & Hx & Hxs).
  - rewrite Hv. eauto.
  - rewrite Hv. exists x. rewrite lookup_insert_ne by congruence. auto.
  - rewrite Hv. destruct (decide (nm = me)) as [->|Hne]; [rewrite lookup_insert_eq|rewrite lookup_insert_ne by done]; eauto.
  - rewrite Hv. exists (withIncarnation (refuteInc acc (incarnation m)) st).
    unfold self. fold me. rewrite lookup_insert_eq. split; [done|]. unfold self in Hn. fold me in Hn. by simplify_eq.
  - rewrite Hv. exists x. rewrite lookup_insert_ne; [auto|]. exact Hself.
  - destruct (decide (nm = me)) as [->|Hne]; [unfold self in Hself; rewrite Hself in Hleave by done; done|].
    rewrite Hv. exists x. rewrite lookup_insert_ne by done. auto.
  - exists x. rewrite Hv, Hx. unfold reaped, DeadOrLeft. by rewrite Hxs.
Qed.

(** After leaving, the local node is gone from its own list. *)
Definition departed m : Prop :=
  leave m = true /\ forall st, view m !! self m = Some st -> DeadOrLeft st = true.

Lemma deadState_gone d now st : DeadOrLeft (deadState d now st) = true.
Proof. unfold DeadOrLeft, deadState. simpl. by case_bool_decide. Qed.

Lemma departed_good m m' : inv m -> good m m' -> departed m -> departed m'.
Proof.
  intros Hinv Hg [Hleave Hd]. pose proof (good_common _ _ Hg) as [Hc _]. destruct Hg as (_ & _ & He).
  unfold departed, self in *. rewrite Hc. set (me := Config.Name (config m)) in *.
  destruct He as [Hv Hl _ _ _|Hv Hl _ _ _|nm st' Hn Hv Hl _ _ Hs _ _ _ _
    |nm st st' Hn Hv Hl _ _ _ Hs Hself _ _ _|st acc Hn Hcond Hv Hl _ _ _ _
    |nm st inc now t Hn _ Hself _ Hv Hl _ _ _ _ _ _
    |nm st d now Hn _ Hself _ _ Hv Hl _ _ _ _|now Hv Hl _ _ _];
    rewrite Hl; (split; [done|]); intros x; rewrite Hv; auto.
  - rewrite lookup_insert_Some. intros [[_ <-]|[_ ?]]; auto. unfold DeadOrLeft. by rewrite Hs.
  - destruct (decide (nm = me)) as [->|Hne]; [|rewrite lookup_insert_ne by done; auto].
    unfold self in Hself. fold me in Hself. rewrite Hself in Hleave by done. done.
  - unfold self in *. fold me in Hn |- *. rewrite lookup_insert_eq. intros [= <-]. destruct Hcond as [?|Hf]; [congruence|].
    specialize (Hd _ Hn). congruence.
  - rewrite lookup_insert_ne; [auto|]. exact Hself.
  - rewrite lookup_insert_Some. intros [[_ <-]|[_ ?]]; auto. apply deadState_gone.
  - destruct (view m !! me) as [y|]; [|done]. case_match; [done|]. intros [= <-]. auto.
Qed.

(** ** Events *)

Lemma replay_snoc evs e :
  replay (evs ++ [e]) = match e with
                        | NotifyJoin n => {[ Name n ]} ∪ replay evs
                        | NotifyLeave n => replay evs ∖ {[ Name n ]}
                        | _ => replay evs
                        end.
Proof. unfold replay. by rewrite fold_left_app. Qed.

Lemma replay_quiet evs qs : Forall quiet qs -> replay (evs ++ qs) = replay evs.
Proof.
  induction qs as [|e qs IH] using rev_ind; [by rewrite app_nil_r|]. intros [Hq He]%Forall_app.
  rewrite app_assoc, replay_snoc. rewrite Forall_singleton in He. destruct e; simpl in He; try done; by apply IH.
Qed.

Lemma live_insert (v : gmap string nodeState) nm st :
  liveNames (<[nm := st]> v) =
    if DeadOrLeft st then liveNames v ∖ {[ nm ]} else {[ nm ]} ∪ liveNames v.
Proof.
  unfold liveNames. apply set_eq. intros n.
  rewrite elem_of_dom. unfold is_Some. setoid_rewrite map_lookup_filter_Some. simpl.
  destruct (DeadOrLeft st) eqn:Ed.
  - rewrite elem_of_difference, elem_of_dom, elem_of_singleton. unfold is_Some. setoid_rewrite map_lookup_filter_Some.
    simpl. split.
    + intros (x & [[<- <-]|[Hne Hx]]%lookup_insert_Some & Hl); [congruence|]. eauto.
    + intros [(x & Hx & Hl) Hne]. exists x. by rewrite lookup_insert_ne.
  - rewrite elem_of_union, elem_of_dom, elem_of_singleton. unfold is_Some. setoid_rewrite map_lookup_filter_Some.
    simpl. split.
    + intros (x & [[<- <-]|[Hne Hx]]%lookup_insert_Some & Hl); [by left|]. eauto.
    + intros [->|(x & Hx & Hl)]; [exists st; by rewrite lookup_insert_eq|].
      destruct (decide (n = nm)) as [->|Hne]; [exists st; by rewrite lookup_insert_eq|].
      exists x. by rewrite lookup_insert_ne.
Qed.

Lemma elem_of_live (v : gmap string nodeState) nm :
  nm ∈ liveNames v <-> exists st, v !! nm = Some st /\ DeadOrLeft st = false.
Proof. unfold liveNames. rewrite elem_of_dom. unfold is_Some. by setoid_rewrite map_lookup_filter_Some. Qed.

Lemma live_add (v : gmap string nodeState) nm st :
  v !! nm = Some st -> DeadOrLeft st = false -> {[ nm ]} ∪ liveNames v = liveNames v.
Proof. intros Hv Hl. assert (nm ∈ liveNames v) by (apply elem_of_live; eauto). set_solver. Qed.

Lemma live_remove (v : gmap string nodeState) nm :
  (forall st, v !! nm = Some st -> DeadOrLeft st = true) -> liveNames v ∖ {[ nm ]} = liveNames v.
Proof.
  intros Hv. assert (nm ∉ liveNames v); [|set_solver]. rewrite elem_of_live. intros (st & Hst & Hl).
  rewrite (Hv _ Hst) in Hl. done.
Qed.

Lemma view_name m nm st : inv m -> view m !! nm = Some st -> Name (node st) = nm.
Proof. intros Hinv [l E]%view_Some. apply lookup_in in E as (_ & _ & ?); [done|apply Hinv]. Qed.

(** The calls of the event delegate say whether [nm] is a member. *)
Definition toldOf m (nm : string) : Prop := nm ∈ replay (events m) <-> nm ∈ liveNames (view m).

(** The entry of [nm] counts: for the local node, once it is not the dead entry that
    an early message about its name leaves. *)
Definition settled m (nm : string) : Prop :=
  nm = self m -> exists st, view m !! nm = Some st /\ State st <> StateDead.

Record eventsTrue m : Prop := {
  et_hook : EventsD (hooks m) = true;
  et_told : forall nm, settled m nm -> toldOf m nm;
  et_left : forall st, view m !! self m = Some st -> State st = StateLeft -> leave m = true
}.

Lemma eventsTrue_new conf hk : EventsD hk = true -> eventsTrue (newMemberlist conf hk).
Proof.
  intros He. split; [done| |].
  - intros nm _. unfold toldOf. rewrite elem_of_live. simpl. unfold replay. simpl. split; [set_solver|].
    intros (st & Hst & _). apply view_Some in Hst as [l E]. unfold lookupNode in E. simpl in E. by rewrite lookup_empty in E.
  - intros st [l E]%view_Some. unfold lookupNode in E. simpl in E. by rewrite lookup_empty in E.
Qed.

Lemma toldOf_good m m' nm :
  inv m -> good m m' -> eventsTrue m -> settled m' nm -> toldOf m' nm.
Proof.
  intros Hinv Hg [Hev Ht Hleft] Hset. pose proof (good_common _ _ Hg) as [Hc _]. destruct Hg as (_ & _ & He).
  assert (Hself : self m' = self m) by (unfold self; by rewrite Hc). unfold settled in Hset. rewrite Hself in Hset.
  assert (Hkeep : view m' !! nm = view m !! nm -> toldOf m nm) by (intros E; apply Ht; intros En; rewrite <- E; by apply Hset).
  unfold toldOf in *. destruct He as [Hv _ _ (qs & Hq & ->) _|Hv _ _ -> _|n st' Hn Hv _ _ _ Hs _ _ -> _
    |n st st' Hn Hv _ _ _ Hname Hs _ _ Htl _|st acc Hn Hcond Hv _ _ _ _ Htl
    |n st inc now t Hn Hs Hne _ Hv _ _ _ _ _ -> _
    |n st d now Hn Hdl _ _ _ Hv _ _ _ Htl _|now Hv _ _ -> _].
  - rewrite replay_quiet, Hv by done. by rewrite Hv in Hkeep; apply Hkeep.
  - rewrite Hv in *. by apply Hkeep.
  - rewrite Hv, live_insert. unfold DeadOrLeft. rewrite Hs, live_remove by congruence.
    destruct (decide (nm = n)) as [->|]; [|apply Hkeep; rewrite Hv; by apply lookup_insert_ne].
    destruct (decide (n = self m)) as [->|]; [|by apply Ht; intros ?].
    destruct Hset as (x & Hx & Hxd); [done|]. rewrite Hv, lookup_insert_eq in Hx. by simplify_eq.
  - assert (Hl : DeadOrLeft st' = false) by (unfold DeadOrLeft; by rewrite Hs).
    rewrite Hv, live_insert, Hl. destruct (decide (nm = n)) as [->|Hnn].
    2: { rewrite Hv, lookup_insert_ne in Hkeep by done. specialize (Hkeep eq_refl). destruct (DeadOrLeft st).
         - unfold told in Htl. rewrite Htl, Hev, replay_snoc, Hname. set_solver.
         - destruct Htl as (qs & Hq & ->). rewrite replay_quiet by done. set_solver. }
    destruct (DeadOrLeft st) eqn:Ed; [unfold told in Htl; rewrite Htl, Hev, replay_snoc, Hname; set_solver|].
    destruct Htl as (qs & Hq & ->). rewrite replay_quiet, (live_add _ _ st) by done. apply Ht. intros _. exists st. split; [done|].
    unfold DeadOrLeft in Ed. by intros E; rewrite E in Ed.
  - rewrite Hv, live_insert. change (DeadOrLeft (withIncarnation _ st)) with (DeadOrLeft st). destruct (DeadOrLeft st) eqn:Ed.
    + rewrite live_remove by (intros x; rewrite Hn; by intros [= <-]). unfold told in Htl. rewrite Htl, Hev, replay_snoc.
      rewrite (view_name _ _ _ Hinv Hn). destruct (decide (nm = self m)) as [->|Hnn].
      * exfalso. destruct Hset as (x & Hx & Hxd); [done|]. rewrite Hv, lookup_insert_eq in Hx. simplify_eq. simpl in Hxd.
        unfold DeadOrLeft in Ed. destruct (State st) eqn:Es; try done. destruct Hcond as [Hl|]; [|done].
        by rewrite (Hleft st Hn Es) in Hl.
      * rewrite Hv, lookup_insert_ne in Hkeep by done. specialize (Hkeep eq_refl). set_solver.
    + rewrite Htl, (live_add _ _ st) by done. apply Ht. intros ->. exists st. split; [done|].
      unfold DeadOrLeft in Ed. by intros E; rewrite E in Ed.
  - rewrite Hv, live_insert. simpl. change (DeadOrLeft _) with false. cbn iota. rewrite (live_add _ _ st); [|done|unfold DeadOrLeft; by rewrite Hs].
    apply Ht. intros ->. destruct (decide (n = self m)) as [|Hnn]; [done|]. destruct Hset as (x & Hx & Hxd); [done|].
    rewrite Hv, lookup_insert_ne in Hx by done. by exists x.
  - unfold told in Htl. rewrite Htl, Hev, replay_snoc, Hv, live_insert, deadState_gone, (view_name m n st) by done.
    destruct (decide (nm = n)) as [->|Hnn]; [set_solver|].
    rewrite Hv, lookup_insert_ne in Hkeep by done. specialize (Hkeep eq_refl). set_solver.
  - assert (E : nm ∈ liveNames (view m') <-> nm ∈ liveNames (view m)).
    { rewrite !elem_of_live, Hv. split.
      - intros (st & Hst & Hl). destruct (view m !! nm) as [x|]; [|done]. case_match; [done|]. simplify_eq. eauto.
      - intros (st & Hst & Hl). exists st. rewrite Hst. unfold reaped. by rewrite Hl. }
    rewrite E. apply Ht. intros En. destruct (Hset En) as (x & Hx & Hxd). rewrite Hv in Hx.
    destruct (view m !! nm) as [y|] eqn:Ey; [|done]. case_match; [done|]. simplify_eq. eauto.
Qed.

Lemma eventsTrue_good m m' : inv m -> good m m' -> eventsTrue m -> eventsTrue m'.
Proof.
  intros Hinv Hg Hm. pose proof (good_common _ _ Hg) as [Hc Hh]. split.
  - rewrite Hh. apply Hm.
  - intros nm. by apply (toldOf_good m).
  - unfold self. rewrite Hc. change (Config.Name (config m)) with (self m). destruct Hm as [_ _ Hleft], Hg as (_ & _ & He).
    destruct He as [Hv Hl _ _ _|Hv Hl _ _ _|n st' Hn Hv Hl _ _ Hs _ _ _ _
      |n st st' Hn Hv Hl _ _ _ Hs Hself _ _ _|st acc Hn Hcond Hv Hl _ _ _ _
      |n st inc now t Hn Hs Hne _ Hv Hl _ _ _ _ _ _
      |n st d now Hn Hdl Hself _ _ Hv Hl _ _ _ _|now Hv Hl _ _ _]; intros x Hx Hxl; rewrite Hl; try done; rewrite Hv in Hx; eauto.
    + apply lookup_insert_Some in Hx as [[_ <-]|[_ Hx]]; [congruence|eauto].
    + apply lookup_insert_Some in Hx as [[_ <-]|[_ Hx]]; [congruence|eauto].
    + rewrite lookup_insert_eq in Hx. simplify_eq/=. eauto.
    + apply lookup_insert_Some in Hx as [[_ <-]|[_ Hx]]; [done|eauto].
    + apply lookup_insert_Some in Hx as [[? _]|[_ Hx]]; [auto|eauto].
    + destruct (view m !! self m) as [y|] eqn:Ey; [|done]. case_match; [done|]. simplify_eq. eauto.
Qed.

(** ** Order of incarnations *)

Definition rank (s : NodeStateType) : Z :=
  match s with StateAlive => 0 | StateSuspect => 1 | StateDead | StateLeft => 2 end.

(** Newer information: a higher incarnation, or the same and a graver state. *)
Definition notOlder (st st' : nodeState) : Prop :=
  Incarnation st < Incarnation st' \/
  (Incarnation st = Incarnation st' /\ rank (State st) <= rank (State st')).

(** The name was taken over by a node at another address, after the old one was
    dead or had left. *)
Definition takenOver (st st' : nodeState) : Prop :=
  DeadOrLeft st = true /\ (Addr (node st), Port (node st)) <> (Addr (node st'), Port (node st')).

Lemma good_notOlder m m' nm st :
  inv m -> good m m' -> nm <> self m -> view m !! nm = Some st ->
  (view m' !! nm = None /\ exists now, reaped m now st = true) \/
  exists st', view m' !! nm = Some st' /\ (notOlder st st' \/ takenOver st st').
Proof.
  intros Hinv (_ & _ & He) Hne Hst.
  assert (Hrefl : exists st', Some st = Some st' /\ (notOlder st st' \/ takenOver st st'))
    by (exists st; split; [done|]; left; right; split; [done|lia]).
  destruct He as [Hv _ _ _ _|Hv _ _ _ _|n st' Hn Hv _ _ _ _ _ _ _ _
    |n x st' Hn Hv _ _ _ _ _ _ Hf _ _|x acc Hn _ Hv _ _ _ _ _
    |n x inc now t Hn Hs _ Hinc Hv _ _ _ _ _ _ _
    |n x d now Hn Hdl _ Hinc _ Hv _ _ _ _ _|now Hv _ _ _ _]; rewrite Hv.
  - right. rewrite Hst. done.
  - right. rewrite Hst. done.
  - right. rewrite lookup_insert_ne by congruence. rewrite Hst. done.
  - right. destruct (decide (n = nm)) as [->|]; [|rewrite lookup_insert_ne, Hst by done; done].
    rewrite lookup_insert_eq. exists st'. split; [done|]. assert (x = st) as -> by congruence.
    destruct Hf as [?|[?|[? _]]]; [by left; left|by right|done].
  - right. rewrite lookup_insert_ne, Hst by done. done.
  - right. destruct (decide (n = nm)) as [->|]; [|rewrite lookup_insert_ne, Hst by done; done].
    rewrite lookup_insert_eq. eexists. split; [done|]. assert (x = st) as -> by congruence. left. unfold notOlder. simpl. rewrite Hs. simpl. lia.
  - right. destruct (decide (n = nm)) as [->|]; [|rewrite lookup_insert_ne, Hst by done; done].
    rewrite lookup_insert_eq. eexists. split; [done|]. assert (x = st) as -> by congruence. left. unfold notOlder, deadState. simpl.
    unfold DeadOrLeft in Hdl. destruct (State st); case_bool_decide; simpl; try done; lia.
  - rewrite Hst. destruct (reaped m now st) eqn:Er; [left; eauto|by right].
Qed.

Lemma chain_notOlder m m' nm st :
  inv m -> chain m m' -> nm <> self m -> view m !! nm = Some st ->
  (view m' !! nm = None /\ exists now, reaped m now st = true) \/
  exists st', view m' !! nm = Some st' /\ (notOlder st st' \/ takenOver st st').
Proof.
  intros Hinv (m1 & Hm1 & Hsub & Hg) Hne Hst.
  assert (Hc : inv m1 /\ config m1 = config m).
  { destruct Hm1 as [->|Hg1]; [done|]. split; [by eapply good_inv|by apply good_common]. }
  destruct Hc as [Hinv1 Hc].
  assert (Hst1 : view m1 !! nm = Some st) by (by eapply lookup_weaken).
  assert (Hne1 : nm <> self m1) by (unfold self; by rewrite Hc).
  destruct (good_notOlder m1 m' nm st Hinv1 Hg Hne1 Hst1) as [[Hn (now & Hr)]|Hr]; [left|by right].
  split; [done|]. exists now. unfold reaped in *. by rewrite Hc in Hr.
Qed.

(** ** The member list *)

Lemma members_elem m n :
  wfTable m -> n ∈ map Name (Members m) <-> exists st, view m !! n = Some st /\ DeadOrLeft st = false.
Proof.
  intros Hwf. unfold Members. rewrite map_map. split.
  - intros (st & -> & [Hl Hst]%list_elem_of_filter)%list_elem_of_fmap. exists st. split; [|done].
    by apply nodeStates_view.
  - intros (st & Hv & Hl). pose proof (view_Some _ _ _ Hv) as [l E].
    apply lookup_in in E as (_ & _ & Hn); [|done]. subst.
    apply (list_elem_of_fmap_2 (fun st => Name (node st))), list_elem_of_filter. split; [done|].
    by apply nodeStates_view.
Qed.

Lemma names_NoDup_omap (h : list nodeState) (ns : list nat) :
  NoDup ns -> (forall l l' st st', l ∈ ns -> l' ∈ ns -> h !! l = Some st -> h !! l' = Some st' ->
    Name (node st) = Name (node st') -> l = l') ->
  NoDup (map (fun st => Name (node st)) (omap (fun l => h !! l) ns)).
Proof.
  induction ns as [|l ns IH]; [constructor|]. intros [Hl Hnd]%NoDup_cons Hinj.
  assert (Hrest : NoDup (map (fun st => Name (node st)) (omap (fun l => h !! l) ns))).
  { apply IH; [done|]. intros l1 l2 ? ? H1 H2. apply Hinj; by right. }
  cbn [omap list_omap]. destruct (h !! l) as [st|] eqn:E; [|done]. simpl. constructor; [|done].
  intros (x & Hn & (l' & Hl' & Hx)%list_elem_of_omap)%list_elem_of_fmap.
  apply Hl. by rewrite (Hinj l l' st x) by (done || by left || by right).
Qed.

Lemma members_NoDup m : wfTable m -> NoDup (map Name (Members m)).
Proof.
  intros Hwf. unfold Members. rewrite map_map.
  eapply sublist_NoDup; [|apply fmap_sublist, sublist_filter]. apply names_NoDup_omap; [apply Hwf|].
  intros. by eapply heap_unique.
Qed.

Lemma numMembers_length m : NumMembers m = Z.of_nat (length (Members m)).
Proof.
  unfold NumMembers, Members. rewrite length_map.
  rewrite <- (Z.add_0_l (Z.of_nat _)). generalize 0. induction (nodeStates m) as [|st l IH]; intros n; simpl; [lia|].
  rewrite filter_cons, IH. destruct (DeadOrLeft st); case_decide; simpl; try done; lia.
Qed.

Lemma anyAlive_live m :
  wfTable m -> anyAlive m = true <-> exists n, n <> self m /\ n ∈ liveNames (view m).
Proof.
  intros Hwf. unfold anyAlive. rewrite existsb_exists. split.
  - intros (st & Hst%list_elem_of_In & Hb). zify_bool. apply nodeStates_view in Hst; [|done].
    exists (Name (node st)). split; [done|]. apply elem_of_live. eauto.
  - intros (n & Hne & (st & Hv & Hl)%elem_of_live). pose proof (view_Some _ _ _ Hv) as [l E].
    apply lookup_in in E as (_ & _ & Hn); [|done]. exists st. split.
    + apply list_elem_of_In, nodeStates_view; [done|]. by rewrite Hn.
    + rewrite Hl. simpl. rewrite bool_decide_eq_false_2; [done|]. by rewrite Hn.
Qed.

(** ** Theorems about runs *)

Definition reachable (conf : Config.Config) (hk : delegates) m : Prop := steps (newMemberlist conf hk) m.

Lemma reachable_inv conf hk m : reachable conf hk m -> inv m.
Proof. intros Hr. eapply evolves_inv, steps_evolve; [apply inv_new..|done]. Qed.

(** C2: The shared structures stay consistent in every reachable state, under any
    interleaving of messages, timers and user calls: the node list has no
    duplicates, the name map refers to exactly its objects under their own names,
    the node count is the length of the list; a suspicion timer is registered for
    exactly the suspect nodes; the local node is never suspect. *)
Theorem membership_invariant conf hk m (Hr : reachable conf hk m) :
  NoDup (nodes m) /\
  (forall nm l, nodeMap m !! nm = Some l <->
     l ∈ nodes m /\ exists st, heap m !! l = Some st /\ Name (node st) = nm) /\
  numNodes m = u32 (Z.of_nat (length (nodes m))) /\
  (forall nm, is_Some (nodeTimers m !! nm) <-> exists st, view m !! nm = Some st /\ State st = StateSuspect) /\
  (forall st, view m !! self m = Some st -> State st <> StateSuspect).
Proof.
  apply reachable_inv in Hr as [[Hnd Hmap _ Hnum] Ht Hs Hself]. split_and!; auto.
  intros nm. split.
  - intros [i Hi]. destruct (Ht nm i Hi) as (_ & st & _ & _ & ? & ? & _). eauto.
  - intros (st & Hv & Hst). by apply (Hs nm st).
Qed.

(** C1: The implementation refines the SWIM protocol: whatever the shared objects,
    timers, queues and locks do, every run of the implementation is, on the map of
    members, a run of the abstract rules. *)
Theorem refines_swim conf hk m m' (Hr : reachable conf hk m) (Hs : steps m m') :
  rtc (swim (self m) (forgets m)) (abstract m) (abstract m').
Proof. apply evolves_swim, steps_evolve; [by eapply reachable_inv|done]. Qed.

(** C15: Information about another node never goes back: in one step its entry
    stays, or moves to a higher incarnation, or to a graver state of the same
    incarnation; otherwise it was removed as an old dead or left entry, or its
    name was taken over at a new address after it was dead or had left. *)
Theorem incarnations_advance conf hk m m' nm st
    (Hr : reachable conf hk m) (Hs : step m m') (Hne : nm <> self m) (Hst : view m !! nm = Some st) :
  (view m' !! nm = None /\ exists now, reaped m now st = true) \/
  exists st', view m' !! nm = Some st' /\ (notOlder st st' \/ takenOver st st').
Proof. apply reachable_inv in Hr. apply chain_notOlder; auto. by apply step_chain. Qed.

(** C16: Nobody else can declare the local node suspect or dead: once it has
    announced itself it stays alive in its own view, whatever messages arrive,
    until it leaves. *)
Theorem local_stays_alive conf hk m m'
    (Hr : reachable conf hk m) (Hrun : running m) (Hs : steps m m') (Hl : leave m' = false) :
  exists st, view m' !! self m' = Some st /\ State st = StateAlive.
Proof.
  apply reachable_inv in Hr. revert Hl. change (running m').
  eapply evolves_preserve; [exact running_good|by apply steps_evolve|done].
Qed.

(** C17: A node that left does not come back: once it is leaving and dead or left
    in its own view, no message (such as an alive message still in flight) revives
    it. *)
Theorem no_rejoin_after_leave conf hk m m'
    (Hr : reachable conf hk m) (Hd : departed m) (Hs : steps m m') : departed m'.
Proof.
  apply reachable_inv in Hr. eapply evolves_preserve; [exact departed_good|by apply steps_evolve|done].
Qed.

(** The event delegate is told the truth, from the creation of the node on: about
    every other node, and about the node itself once it has announced itself. *)
Lemma steps_told conf hk m :
  EventsD hk = true -> reachable conf hk m -> forall nm, settled m nm -> toldOf m nm.
Proof.
  intros He Hr. apply et_told. eapply evolves_preserve; [exact eventsTrue_good|apply steps_evolve; [apply inv_new|exact Hr]|].
  by apply eventsTrue_new.
Qed.

(** [Members] lists each live member once and [NumMembers] counts them. *)
Theorem members_are_live conf hk m (Hr : reachable conf hk m) :
  NoDup (map Name (Members m)) /\ list_to_set (map Name (Members m)) = liveNames (view m) /\
  NumMembers m = Z.of_nat (length (Members m)).
Proof.
  apply reachable_inv in Hr as Hinv. pose proof (inv_table _ Hinv) as Hwf. split_and!.
  - apply members_NoDup. done.
  - apply set_eq. intros n. rewrite elem_of_list_to_set, elem_of_live. apply members_elem. done.
  - apply numMembers_length.
Qed.

(** ** The local node defends itself *)

(** The announcement that a refutation gossips. *)
Definition announcement (st : nodeState) : gossipMsg :=
  GAlive (mkAlive (Incarnation st) (Name (node st)) (Addr (node st)) (Port (node st)) (Meta (node st))
            (versionsOf (node st))).

(** [refute], explicitly: the entry, the counter, the health and the queue. *)
Lemma refute_effect l st acc m :
  wfTable m -> lookupNode (self m) m = Some (l, st) ->
  let st' := withIncarnation (refuteInc acc (incarnation m)) st in
  let m' := refute l st acc m in
  view m' = <[self m := st']> (view m) /\ incarnation m' = Incarnation st' /\
  health m' = Awareness.ApplyDelta 1 (health m) /\
  (forall buf, encodeGossip (announcement st') = Some buf ->
     broadcasts m' = (Queue.QueueBroadcast
       (Queue.mkMB (string_of_bytes (Config.ipString (Addr (node st)))) buf None) (broadcasts m)).1).
Proof.
  intros Hwf E. cbv zeta. pose proof (lookup_in _ _ _ _ Hwf E) as (_ & _ & Hn).
  pose proof (view_setNode (self m) l st (withIncarnation (refuteInc acc (incarnation m)) st) m Hwf E Hn) as Hv.
  unfold refute, nextIncarnation, skipIncarnation, refuteInc, encodeAndBroadcast, encodeBroadcastNotify,
    queueBroadcast, announcement in *. simpl in *.
  destruct (acc >=? u32 (incarnation m + 1)); simpl in *;
    (destruct (encodeGossip _) as [buf|]; [destruct (Queue.QueueBroadcast _ _) as [q fin] eqn:Eq|]; simpl);
    split_and!; try done; intros buf' Hb; simplify_eq; by rewrite Eq.
Qed.

(** The accusations that make a running node refute: they are not older than its
    own entry. *)
Lemma suspect_self_refutes acc from now m l st :
  inv m -> lookupNode (self m) m = Some (l, st) -> State st = StateAlive -> Incarnation st <= acc ->
  suspectNode (mkSuspect acc (self m) from) now m = refute l st acc m.
Proof.
  intros Hinv E Hs Hacc. unfold suspectNode. simpl. rewrite E.
  replace (acc <? Incarnation st) with false by (symmetry; apply Z.ltb_ge; lia).
  destruct (nodeTimers m !! self m) as [i|] eqn:Et.
  { destruct (inv_timer _ Hinv _ _ Et) as (_ & x & _ & _ & Hx & Hxs & _).
    exfalso. by apply (inv_self _ Hinv x). }
  pose proof (lookup_in _ _ _ _ (inv_table _ Hinv) E) as (_ & _ & Hn).
  rewrite !bool_decide_eq_true_2 by done. done.
Qed.

Lemma dead_self_refutes acc from now m l st :
  inv m -> lookupNode (self m) m = Some (l, st) -> State st = StateAlive -> leave m = false ->
  Incarnation st <= acc ->
  deadNode (mkDead acc (self m) from) now m = refute l st acc (dropTimer (self m) m).
Proof.
  intros Hinv E Hs Hl Hacc. unfold deadNode. simpl. rewrite E.
  replace (acc <? Incarnation st) with false by (symmetry; apply Z.ltb_ge; lia).
  pose proof (lookup_in _ _ _ _ (inv_table _ Hinv) E) as (_ & _ & Hn).
  unfold DeadOrLeft. rewrite Hs. change (self (dropTimer (self m) m)) with (self m).
  rewrite bool_decide_eq_true_2 by done. unfold hasLeft. simpl. by rewrite Hl.
Qed.

(** C9: A running node refutes every accusation: on a suspect or dead message
    about itself that is not older than its entry, it stays alive, takes an
    incarnation that beats the accusation and its own counter, lowers its health,
    and queues an alive message with that incarnation (as long as the 32-bit
    counters do not overflow); no other entry changes. *)
Theorem refutation_beats_accusation conf hk m st acc from now m' buf
    (Hr : reachable conf hk m) (Hv : view m !! self m = Some st) (Hs : State st = StateAlive)
    (Hl : leave m = false) (Hacc : Incarnation st <= acc) (Hnn : 0 <= acc < maxU32)
    (Hinc : 0 <= incarnation m < maxU32)
    (Hm' : m' = suspectNode (mkSuspect acc (self m) from) now m \/
           m' = deadNode (mkDead acc (self m) from) now m)
    (Henc : encodeGossip (announcement (withIncarnation (Z.max (incarnation m + 1) (acc + 1)) st)) = Some buf) :
  let st' := withIncarnation (Z.max (incarnation m + 1) (acc + 1)) st in
  view m' = <[self m := st']> (view m) /\ State st' = StateAlive /\ acc < Incarnation st' /\
  incarnation m' = Incarnation st' /\ health m' = Awareness.ApplyDelta 1 (health m) /\
  broadcasts m' = (Queue.QueueBroadcast
    (Queue.mkMB (string_of_bytes (Config.ipString (Addr (node st)))) buf None) (broadcasts m)).1.
Proof.
  apply reachable_inv in Hr. apply view_Some in Hv as [l E].
  assert (exists m1, m' = refute l st acc m1 /\ (m1 = m \/ m1 = dropTimer (self m) m)) as (m1 & -> & Hm1).
  { destruct Hm' as [-> | ->].
    - exists m. split; [by apply suspect_self_refutes|by left].
    - exists (dropTimer (self m) m). split; [by apply dead_self_refutes|by right]. }
  destruct (refute_effect l st acc m1) as (Hv & Hi & Hh & Hb).
  { destruct Hm1 as [-> | ->]; [apply Hr|]. apply (wfTable_ext m); auto. apply Hr. }
  { by destruct Hm1 as [-> | ->]. }
  assert (Ei : incarnation m1 = incarnation m) by (by destruct Hm1 as [-> | ->]).
  rewrite Ei, refuteInc_small in Hv, Hi, Hb by lia. specialize (Hb _ Henc).
  cbv zeta. split_and!; try (by destruct Hm1 as [-> | ->]); simpl; auto. lia.
Qed.

(** The 32-bit incarnation can be exhausted: an accusation with the largest
    incarnation makes the refutation wrap around to incarnation zero, which does
    not beat it. *)
Theorem refutation_wraps conf hk m st from now
    (Hr : reachable conf hk m) (Hv : view m !! self m = Some st) (Hs : State st = StateAlive)
    (Hst : Incarnation st <= maxU32) (Hinc : 0 <= incarnation m < maxU32) :
  let m' := suspectNode (mkSuspect maxU32 (self m) from) now m in
  view m' !! self m = Some (withIncarnation 0 st) /\ incarnation m' = 0.
Proof.
  apply reachable_inv in Hr. apply view_Some in Hv as [l E]. cbv zeta.
  rewrite (suspect_self_refutes maxU32 from now m l st) by done.
  destruct (refute_effect l st maxU32 m (inv_table _ Hr) E) as (Hv & Hi & _).
  assert (Ez : refuteInc maxU32 (incarnation m) = 0).
  { unfold refuteInc. rewrite (u32_small (incarnation m + 1)) by lia.
    replace (maxU32 >=? _) with true by (symmetry; apply Z.geb_le; lia).
    rewrite (u32_small (maxU32 - _)) by lia. rewrite (u32_small (_ + 1)) by lia.
    replace (incarnation m + 1 + (maxU32 - (incarnation m + 1) + 1)) with (2 ^ 32) by (unfold maxU32; lia).
    done. }
  rewrite Ez in Hv, Hi. rewrite Hv, lookup_insert_eq. auto.
Qed.

(** ** Names and addresses *)

(** C29: A live member's name cannot be hijacked: an alive message that claims the
    name of an alive or suspect member for another address changes nothing (nor
    does it reset the suspicion); at most the conflict delegate is told. *)
Theorem live_address_protected conf hk m m' a notify bootstrap rnd now st
    (Hr : reachable conf hk m) (Hv : view m !! aNode a = Some st) (Hl : DeadOrLeft st = false)
    (Haddr : (Addr (node st), Port (node st)) <> (aAddr a, aPort a))
    (Ha : aliveNode a notify bootstrap rnd now m = Ret m') :
  view m' = view m /\ nodeTimers m' = nodeTimers m /\ broadcasts m' = broadcasts m /\
  incarnation m' = incarnation m /\
  (events m' = events m \/ exists other, events m' = events m ++ [NotifyConflict (node st) other]).
Proof.
  apply view_Some in Hv as [l E]. unfold aliveNode in Ha. rewrite E in Ha.
  assert (Hsame : sameAddress a (node st) = false).
  { unfold sameAddress. apply andb_false_iff. destruct (decide (Addr (node st) = aAddr a)) as [Ea|].
    - right. apply Z.eqb_neq. intros Ep. apply Haddr. congruence.
    - left. by apply bool_decide_eq_false_2. }
  assert (Hno : canTakeOver st now m = false).
  { unfold canTakeOver. unfold DeadOrLeft in Hl. by destruct (State st). }
  rewrite Hsame, Hno in Ha. simpl in Ha. unfold hasLeft in Ha.
  repeat case_match; injection Ha as <-; split_and!; eauto.
Qed.

(** The periodic reset removes exactly the entries that are dead or left for
    longer than the gossip-to-the-dead time; it keeps all the others, keeps the
    node list a permutation of the kept ones, and recounts. *)
Theorem resetNodes_reaps conf hk m rnd now (Hr : reachable conf hk m) :
  let m' := resetNodes rnd now m in
  view m' = filter (fun p => reaped m now p.2 = false) (view m) /\
  nodeStates m' ≡ₚ filter (fun st => reaped m now st = false) (nodeStates m) /\
  numNodes m' = u32 (Z.of_nat (length (nodes m'))).
Proof.
  apply reachable_inv in Hr as Hinv. cbv zeta. pose proof (inv_table _ Hinv) as Hwf. split_and!.
  - apply map_eq. intros nm. rewrite view_lookup, lookup_reset by done. symmetry.
    destruct (lookupNode nm m) as [[l st]|] eqn:E.
    + apply lookup_view in E. destruct (reaped m now st) eqn:Er.
      * apply map_lookup_filter_None. right. intros x Hx. simplify_eq/=. congruence.
      * by apply map_lookup_filter_Some.
    + apply map_lookup_filter_None. left. by apply lookupNode_None.
  - unfold nodeStates. assert (Eh : heap (resetNodes rnd now m) = heap m) by (unfold resetNodes; by case_match).
    rewrite Eh, resetNodes_nodes. apply reflexive_eq.
    pose proof (wt_heap _ Hwf) as Hh. revert Hh. generalize (nodes m).
    induction l as [|l ns IH]; intros Hh; [done|].
    assert (IH' := IH (fun k Hk => Hh k ltac:(by right))). destruct (Hh l ltac:(by left)) as [st Hst].
    rewrite filter_cons, (isExpired_reaped m now l st) by done. cbn [omap list_omap]. rewrite Hst, filter_cons.
    repeat case_decide; try done. cbn [omap list_omap]. rewrite Hst. f_equal. exact IH'.
  - by apply (wfTable_reset rnd now m).
Qed.

(** ** Versions *)

(** An alive message with no version or with all six never makes the handler
    panic. *)
Theorem alive_well_versioned_safe a notify bootstrap rnd now m
    (Hv : length (aVsn a) = 0%nat \/ (6 <= length (aVsn a))%nat) :
  exists m', aliveNode a notify bootstrap rnd now m = Ret m'.
Proof.
  assert (Hset : forall n, exists n', setVersions (aVsn a) n = Ret n').
  { intros n. unfold setVersions, sixVersions. destruct (aVsn a) as [|v0 [|v1 [|v2 [|v3 [|v4 [|v5 l]]]]]]; simpl in Hv;
      (eexists; reflexivity) || lia. }
  assert (Hupd : forall l st upd m0, exists m', aliveUpdate a l st upd notify bootstrap now m0 = Ret m').
  { intros l st upd m0. unfold aliveUpdate. destruct (Hset (node st)) as [n' ->]. simpl.
    repeat case_match; eauto. }
  unfold aliveNode. repeat case_match; eauto.
Qed.

(** A version list that is too short for the six indices the code reads, and that
    passes the check of the first three. *)
Definition truncated (vsn : list Z) : Prop := (1 <= length vsn <= 5)%nat /\ badVersions vsn = false.

Lemma truncated_panics vsn n : truncated vsn -> setVersions vsn n = Panic "index out of range".
Proof.
  intros [Hlen _]. destruct vsn as [|v0 [|v1 [|v2 [|v3 [|v4 [|v5 vsn]]]]]]; simpl in *; try done; lia.
Qed.

(** An alive message about an unknown node with one to five protocol versions --
    not the six the code expects -- crashes the receiving process with an index
    error, unless an alive delegate, the allowed networks or the check of the
    first three versions stop it. *)
Theorem alive_short_versions_panic a notify rnd now m
    (Hunknown : lookupNode (aNode a) m = None) (Hself : aNode a <> self m)
    (Hd : AliveD (hooks m) = None) (Hip : Config.CIDRsAllowed (config m) = [])
    (Hinc : 0 < aIncarnation a) (Hvsn : truncated (aVsn a)) :
  aliveNode a notify false rnd now m = Panic "index out of range".
Proof.
  unfold aliveNode, aliveAccepted. rewrite (bool_decide_eq_false_2 (aNode a = self m)) by done.
  rewrite andb_false_r, Hd, Hunknown, (proj2 Hvsn).
  unfold Config.IPAllowed, Config.IPMustBeChecked. rewrite Hip. simpl.
  assert (Hname : Name (node (newNodeState a)) = aNode a)
    by (unfold newNodeState, nodeOfAlive; simpl; by repeat case_match).
  unfold aliveUpdate. rewrite Hname.
  change (self (setTables _ _ _ _ m)) with (self m). rewrite (bool_decide_eq_false_2 (aNode a = self m)) by done.
  change (Incarnation (newNodeState a)) with 0. rewrite (proj2 (Z.leb_gt _ _)) by done. simpl.
  by rewrite andb_false_r, (truncated_panics _ _ Hvsn).
Qed.

(** ** Protocol versions of a push/pull *)

(** The version ranges that constrain the cluster: those of the alive nodes. *)
Definition rangeOf (r : pushNodeState) : option (Z * Z * Z * Z) :=
  match rVsn r with
  | p0 :: p1 :: _ :: d0 :: d1 :: _ =>
      if rState r =? stateCode StateAlive then Some (p0, p1, d0, d1) else None
  | _ => None
  end.

Definition remoteRanges (remote : list pushNodeState) : list (Z * Z * Z * Z) := omap rangeOf remote.

Definition localRanges m : list (Z * Z * Z * Z) :=
  map (fun st => (PMin (node st), PMax (node st), DMin (node st), DMax (node st)))
    (filter (fun st => State st = StateAlive) (nodeStates m)).

(** The versions that are spoken, by every node, alive or not. *)
Definition remoteSpoken (remote : list pushNodeState) : list (Z * Z) :=
  map (fun r => match rVsn r with _ :: _ :: p :: _ :: _ :: d :: _ => (p, d) | _ => (0, 0) end) remote.

Definition localSpoken m : list (Z * Z) := map (fun st => (PCur (node st), DCur (node st))) (nodeStates m).

Definition understands (r : Z * Z * Z * Z) (s : Z * Z) : Prop :=
  let '(p0, p1, d0, d1) := r in p0 <= s.1 <= p1 /\ d0 <= s.2 <= d1.

(** [v] allows what the initial range and the ranges [rs] all allow. *)
Definition summarises (v : vrange) (rs : list (Z * Z * Z * Z)) : Prop :=
  forall p d, speaks p d v = true <->
    (0 <= p <= 255 /\ 0 <= d <= 255) /\ Forall (fun r => understands r (p, d)) rs.

Lemma summarises_tighten v rs p0 p1 d0 d1 :
  summarises v rs -> summarises (tighten p0 p1 d0 d1 v) (rs ++ [(p0, p1, d0, d1)]).
Proof.
  intros Hv p d. rewrite Forall_app, Forall_singleton. specialize (Hv p d).
  assert (E : speaks p d (tighten p0 p1 d0 d1 v) = true <->
    speaks p d v = true /\ p0 <= p <= p1 /\ d0 <= d <= d1).
  { unfold speaks, tighten. simpl. rewrite !andb_true_iff, !Z.leb_le. repeat case_match; zify_bool; lia. }
  rewrite E, Hv. simpl. tauto.
Qed.

Lemma summarises_remotes remote v rs v' :
  tightenRemotes remote v = Ret v' -> summarises v rs -> summarises v' (rs ++ remoteRanges remote).
Proof.
  revert v rs. induction remote as [|r remote IH]; intros v rs; cbn [tightenRemotes].
  { intros [= <-]. by rewrite app_nil_r. }
  assert (Ec : remoteRanges (r :: remote) =
    match rangeOf r with Some x => x :: remoteRanges remote | None => remoteRanges remote end) by done.
  rewrite Ec. clear Ec. unfold tightenRemote, rangeOf. destruct (rState r =? stateCode StateAlive) eqn:Es; simpl.
  - destruct (rVsn r) as [|p0 [|p1 [|p2 [|d0 [|d1 l]]]]]; simpl; try done; [by apply IH|].
    intros H1 H2. rewrite (cons_middle _ rs), app_assoc. eapply IH; [exact H1|]. by apply summarises_tighten.
  - destruct (rVsn r) as [|? [|? [|? [|? [|? ?]]]]]; apply IH.
Qed.

Lemma summarises_locals l v rs :
  summarises v rs -> summarises (fold_left tightenLocal l v)
    (rs ++ map (fun st => (PMin (node st), PMax (node st), DMin (node st), DMax (node st)))
             (filter (fun st => State st = StateAlive) l)).
Proof.
  revert v rs. induction l as [|st l IH]; intros v rs Hv; simpl; [by rewrite app_nil_r|].
  unfold tightenLocal at 2. rewrite filter_cons. case_decide as Hs.
  - rewrite bool_decide_eq_true_2 by done. simpl. rewrite (cons_middle _ rs), app_assoc.
    by apply IH, summarises_tighten.
  - rewrite bool_decide_eq_false_2 by done. simpl. by apply IH.
Qed.

Lemma remotesSpeak_spec remote v b :
  remotesSpeak remote v = Ret b ->
  b = true <-> Forall (fun s => speaks s.1 s.2 v = true) (remoteSpoken remote).
Proof.
  revert b. induction remote as [|r remote IH]; intros b; simpl.
  { intros [= <-]. split; [constructor|done]. }
  assert (E : forall pd, remoteCur (rVsn r) = Ret pd ->
    pd = match rVsn r with _ :: _ :: p :: _ :: _ :: d :: _ => (p, d) | _ => (0, 0) end).
  { unfold remoteCur, sixVersions. intros pd.
    destruct (rVsn r) as [|? [|? [|? [|? [|? [|? ?]]]]]]; simpl; congruence. }
  destruct (remoteCur (rVsn r)) as [pd|] eqn:Ec; simpl; [|done]. rewrite <- (E pd) by done.
  destruct (speaks pd.1 pd.2 v) eqn:Es.
  - intros H1. rewrite (IH b H1), Forall_cons. tauto.
  - intros [= <-]. rewrite Forall_cons, Es. split; [done|]. by intros [? _].
Qed.

Lemma forallb_Forall {A} (f : A -> bool) l : forallb f l = true <-> Forall (fun x => f x = true) l.
Proof.
  induction l as [|x l IH]; simpl; [split; [constructor|done]|]. rewrite andb_true_iff, Forall_cons, IH. done.
Qed.

(** C33: [verifyProtocol] accepts a push/pull exactly when every node, local or
    remote, speaks protocol and delegate versions that every alive node
    understands. *)
Theorem verifyProtocol_exact remote m b
    (H8 : Forall (fun s => 0 <= s.1 <= 255 /\ 0 <= s.2 <= 255) (remoteSpoken remote ++ localSpoken m))
    (Hv : verifyProtocol remote m = Ret b) :
  b = true <-> Forall (fun s => Forall (fun r => understands r s) (remoteRanges remote ++ localRanges m))
                 (remoteSpoken remote ++ localSpoken m).
Proof.
  unfold verifyProtocol in Hv.
  destruct (tightenRemotes remote (mkVrange 0 255 0 255)) as [v|] eqn:Et; simpl in Hv; [|done].
  destruct (remotesSpeak remote _) as [ok|] eqn:Er; simpl in Hv; [|done]. injection Hv as <-.
  assert (Hs : summarises (fold_left tightenLocal (nodeStates m) v) (remoteRanges remote ++ localRanges m)).
  { apply summarises_locals. apply (summarises_remotes _ _ []) in Et; [done|].
    intros p d. unfold speaks. simpl. rewrite !andb_true_iff, !Z.leb_le, Forall_nil. tauto. }
  assert (Hq : forall l, Forall (fun s => 0 <= s.1 <= 255 /\ 0 <= s.2 <= 255) l ->
    Forall (fun s => speaks s.1 s.2 (fold_left tightenLocal (nodeStates m) v) = true) l <->
    Forall (fun s => Forall (fun r => understands r s) (remoteRanges remote ++ localRanges m)) l).
  { intros l Hl. rewrite !Forall_forall. rewrite Forall_forall in Hl.
    split; intros H1 [p d] Hx; specialize (H1 _ Hx); specialize (Hl _ Hx); apply (Hs p d); auto. }
  rewrite andb_true_iff, (remotesSpeak_spec _ _ _ Er), forallb_Forall. rewrite <- Hq by done.
  rewrite Forall_app. unfold localSpoken. by rewrite Forall_map.
Qed.

(** ** Push/pull never declares a node dead *)

(** Members other than the local node that were not dead are still not dead. *)
Definition sparesOthers m m' : Prop :=
  forall nm st, nm <> self m -> view m !! nm = Some st -> State st <> StateDead ->
    exists st', view m' !! nm = Some st' /\ State st' <> StateDead.

Lemma spares_view m m' : view m' = view m -> sparesOthers m m'.
Proof. intros Hv nm st _ Hst Hd. rewrite Hv. eauto. Qed.

Lemma spares_insert m m' nm st' :
  view m' = <[nm := st']> (view m) -> nm = self m \/ State st' <> StateDead -> sparesOthers m m'.
Proof.
  intros Hv Hor n st Hne Hst Hd. rewrite Hv. destruct (decide (n = nm)) as [->|Hn].
  - exists st'. rewrite lookup_insert_eq. by destruct Hor.
  - exists st. by rewrite lookup_insert_ne.
Qed.

Lemma spares_refute l st acc m m1 :
  inv m -> lookupNode (self m) m = Some (l, st) -> m1 = m \/ m1 = dropTimer (self m) m ->
  sparesOthers m (refute l st acc m1).
Proof.
  intros Hinv E Hm1. destruct (refute_effect l st acc m1) as (Hv & _).
  { destruct Hm1 as [-> | ->]; [apply Hinv|]. apply (wfTable_ext m); auto. apply Hinv. }
  { by destruct Hm1 as [-> | ->]. }
  eapply spares_insert; [|by left]. by destruct Hm1 as [-> | ->].
Qed.

Lemma spares_suspect s now m : inv m -> sparesOthers m (suspectNode s now m).
Proof.
  intros Hinv. unfold suspectNode. destruct (lookupNode (sNode s) m) as [[l st]|] eqn:E; [|by apply spares_view].
  case_match; [by apply spares_view|].
  destruct (nodeTimers m !! sNode s) as [i|] eqn:Et.
  { destruct (timers m !! i) as [t|]; [|by apply spares_view]. apply spares_view. unfold confirmTimer.
    destruct (Suspicion.Confirm _ _ _) as [[su []] calls]; [|done].
    unfold encodeAndBroadcast. match goal with |- context [encodeBroadcastNotify ?n ?g ?t' ?m1] =>
      destruct (broadcast_shape n g t' m1) as (q & fin & ->) end. done. }
  destruct (bool_decide (State st = StateAlive)); simpl; [|by apply spares_view].
  pose proof (lookup_in _ _ _ _ (inv_table _ Hinv) E) as (_ & _ & Hn).
  case_bool_decide as Hself.
  - rewrite <- Hn, Hself in E. by apply (spares_refute l st _ m m); auto.
  - destruct (broadcast_shape (sNode s) (GSuspect s) None m) as (q & fin & Eb).
    unfold encodeAndBroadcast. rewrite Eb. unfold startTimer. set (m' := setTimers _ _ _ _ _).
    destruct (view_assign (sNode s) l st (suspectState s now st) m m') as [_ Hv]; auto; [apply Hinv|].
    eapply spares_insert; [exact Hv|by right].
Qed.

Lemma spares_left inc nm now m : inv m -> sparesOthers m (deadNode (mkDead inc nm nm) now m).
Proof.
  intros Hinv. unfold deadNode. simpl. destruct (lookupNode nm m) as [[l st]|] eqn:E; [|by apply spares_view].
  case_match; [by apply spares_view|]. case_match; [by apply spares_view|].
  pose proof (lookup_in _ _ _ _ (inv_table _ Hinv) E) as (_ & _ & Hn). case_match eqn:Hloc.
  - apply andb_prop in Hloc as [Hs _]. apply bool_decide_eq_true in Hs.
    change (self (dropTimer nm m)) with (self m) in Hs. rewrite Hn in Hs. subst nm. rewrite Hs in *.
    by apply (spares_refute l st _ m); auto.
  - match goal with |- context [encodeBroadcastNotify ?n ?g ?t ?m1] =>
      destruct (broadcast_shape n g t m1) as (q & fin & ->) end.
    rewrite notifyEvent_shape. set (m' := setEvents _ _).
    destruct (view_assign nm l st (deadState (mkDead inc nm nm) now st) m m') as [_ Hv]; auto; [apply Hinv|].
    eapply spares_insert; [exact Hv|right]. unfold deadState. simpl. by rewrite bool_decide_eq_true_2.
Qed.

Lemma notifyAlive_view st st' m : view (notifyAlive st st' m) = view m.
Proof. unfold notifyAlive. repeat case_match; rewrite ?notifyEvent_shape; done. Qed.

Lemma spares_trans m m1 m2 :
  self m1 = self m -> sparesOthers m m1 -> sparesOthers m1 m2 -> sparesOthers m m2.
Proof.
  intros Hs H1 H2 nm st Hne Hst Hd. destruct (H1 nm st Hne Hst Hd) as (x & Hx & Hxd).
  apply (H2 nm x); [congruence|done..].
Qed.

Lemma spares_aliveUpdate a l st upd notify now m m' :
  inv m -> lookupNode (aNode a) m = Some (l, st) ->
  aliveUpdate a l st upd notify false now m = Ret m' -> sparesOthers m m'.
Proof.
  intros Hinv E. pose proof (lookup_in _ _ _ _ (inv_table _ Hinv) E) as (_ & _ & Hn).
  unfold aliveUpdate. rewrite Hn. case_match; [intros [= <-]; by apply spares_view|].
  case_match; [intros [= <-]; by apply spares_view|]. simpl.
  destruct (bool_decide (aNode a = self m)) eqn:Hself; zify_bool.
  - case_match; intros [= <-]; [by apply spares_view|].
    rewrite Hself in *. pose proof (spares_refute l st (aIncarnation a) m (dropTimer (self m) m) Hinv E) as Hsp.
    intros nm x. rewrite notifyAlive_view. apply Hsp. by right.
  - destruct (setVersions (aVsn a) (node st)) as [n|] eqn:Ev; simpl; [|done]. intros [= <-].
    apply setVersions_name in Ev as [Ev _].
    destruct (broadcast_shape (aNode a) (GAlive a) notify (dropTimer (aNode a) m)) as (q & fin & ->).
    set (st' := aliveState a now n st). set (m1 := setNode _ _ _).
    destruct (view_assign (aNode a) l st st' m m1) as [_ Hv]; auto; [apply Hinv|simpl; congruence|].
    eapply (spares_insert m _ (aNode a) st'); [by rewrite notifyAlive_view|by right].
Qed.

Lemma spares_alive a notify rnd now m m' :
  inv m -> aliveNode a notify false rnd now m = Ret m' -> sparesOthers m m'.
Proof.
  intros Hinv. unfold aliveNode.
  assert (Hsame : Ret m = Ret m' -> sparesOthers m m') by (intros [= <-]; by apply spares_view).
  case_match; [done|]. case_match; [done|]. case_match; [done|].
  destruct (lookupNode (aNode a) m) as [[l st]|] eqn:E.
  - repeat case_match; try done; try (intros [= <-]; by apply spares_view); by apply spares_aliveUpdate.
  - case_match; [done|]. pose proof (addNode_good a rnd m Hinv E) as Hg.
    destruct (addNode_spec a rnd m (inv_table _ Hinv) E) as [_ Hlk].
    destruct (addNode a rnd m) as [l m1] eqn:Em. simpl in *. intros Hu.
    assert (Ec : self m1 = self m) by (unfold addNode in Em; by simplify_eq/=).
    apply (spares_trans m m1); [done| |].
    + intros nm st _ Hst Hd. exists st. split; [|done]. rewrite view_lookup, Hlk.
      destruct (decide (nm = aNode a)) as [->|]; [apply view_Some in Hst as [? ?]; congruence|].
      by rewrite <- view_lookup.
    + eapply spares_aliveUpdate; [by eapply good_inv| |exact Hu]. by rewrite Hlk, decide_True.
Qed.

Lemma mergeOne_spares r rnd now m m' :
  inv m -> 0 <= rIncarnation r -> mergeOne r rnd now m = Ret m' ->
  evolves m m' /\ sparesOthers m m'.
Proof.
  intros Hinv Hi. unfold mergeOne. case_match.
  - intros Ha. split; [|by eapply spares_alive].
    apply chain_evolves; [done|]. eapply alive_chain; [done| |exact Ha]. by split.
  - case_match; [intros [= <-]; split; [by apply rtc_once; split; [|apply dead_good]|by apply spares_left]|].
    case_match; intros [= <-]; [|split; [apply rtc_refl|by apply spares_view]].
    split; [by apply rtc_once; split; [|apply suspect_good]|by apply spares_suspect].
Qed.

(** Merging spares the others. *)
Lemma mergeState_spares remote m m' :
  inv m -> Forall (fun r => 0 <= rIncarnation r.1.1) remote -> mergeState remote m = Ret m' ->
  evolves m m' /\ sparesOthers m m'.
Proof.
  revert m. induction remote as [|[[r rnd] now] remote IH]; intros m Hinv Hi Hm; simpl in Hm.
  { injection Hm as <-. split; [apply rtc_refl|by apply spares_view]. }
  apply Forall_cons in Hi as [Hi1 Hi]. destruct (mergeOne r rnd now m) as [m1|] eqn:E1; simpl in Hm; [|done].
  apply mergeOne_spares in E1 as [He Hs]; [|done..]. destruct (IH m1) as [He2 Hs2]; [by eapply evolves_inv|done..|].
  split; [by etrans|]. apply (spares_trans m m1); [|done..].
  unfold self. apply evolves_config in He as [-> _]. done.
Qed.

(** ** Failure detection and leaving *)

Lemma dead_other d now m st :
  inv m -> view m !! dNode d = Some st -> DeadOrLeft st = false -> Incarnation st <= dIncarnation d ->
  (dNode d = self m -> leave m = true) ->
  view (deadNode d now m) = <[dNode d := deadState d now st]> (view m).
Proof.
  intros Hinv Hv Hl Hinc Hself. apply view_Some in Hv as [l E]. unfold deadNode. rewrite E.
  pose proof (lookup_in _ _ _ _ (inv_table _ Hinv) E) as (_ & _ & Hn).
  replace (dIncarnation d <? Incarnation st) with false by (symmetry; apply Z.ltb_ge; lia).
  rewrite Hl. change (self (dropTimer (dNode d) m)) with (self m).
  change (hasLeft (dropTimer (dNode d) m)) with (leave m).
  replace (bool_decide (Name (node st) = self m) && negb (leave m)) with false.
  2: { symmetry. apply andb_false_iff. destruct (decide (Name (node st) = self m)) as [Es|].
       - right. rewrite Hself by congruence. done.
       - left. by apply bool_decide_eq_false_2. }
  match goal with |- context [encodeBroadcastNotify ?n ?g ?t ?m1] =>
    destruct (broadcast_shape n g t m1) as (q & fin & ->) end.
  rewrite notifyEvent_shape. set (m' := setEvents _ _).
  destruct (view_assign (dNode d) l st (deadState d now st) m m') as [_ Hv]; auto. apply Hinv.
Qed.

(** The timeout of a node that is still suspect, up to its death. *)
Lemma timeout_kills m nm st i t dl now
    (Hinv : inv m) (Hv : view m !! nm = Some st) (Hs : State st = StateSuspect)
    (Hi : nodeTimers m !! nm = Some i) (Ht : timers m !! i = Some t)
    (Hrun : Suspicion.tmr (timerOf t) = Suspicion.Running dl) (Hdl : dl <= now)
    (Hidle : fired m = [] /\ pendingDead m = []) :
  view (deliverDead 0 now (runTimeout 0 (expireTimer i now m))) !! nm =
    Some (mkNodeState (node st) (Incarnation st) StateDead now).
Proof.
  destruct Hidle as [Hf Hp].
  destruct (inv_timer _ Hinv _ _ Hi) as (t' & st' & Ht' & Hsn & Hv' & _ & Hct).
  assert (t' = t) as -> by congruence. assert (st' = st) as -> by congruence. clear Ht' Hv'. subst nm.
  assert (Hself : suspNode t <> self m) by (intros Es; rewrite Es in Hv; by apply (inv_self _ Hinv _ Hv)).
  pose proof (view_name _ _ _ Hinv Hv) as Hname.
  pose proof (expire_good i now m Hinv) as Hg1. unfold expireTimer, Suspicion.expire in *.
  rewrite Ht, Hrun in *. replace (dl <=? now) with true in * by (symmetry; apply Z.leb_le; lia).
  simpl in *. set (m1 := setTimers _ _ _ _ m) in *.
  pose proof (good_inv _ _ Hinv Hg1) as Hinv1.
  assert (Ec : checkTimeout i m1 = Some (mkDead (Incarnation st) (suspNode t) (self m))).
  { apply view_Some in Hv as [l E]. unfold checkTimeout. simpl.
    rewrite list_lookup_insert_eq by (by eapply lookup_lt_Some). simpl.
    change (lookupNode (suspNode t) m1) with (lookupNode (suspNode t) m).
    rewrite E, bool_decide_eq_true_2, Hct, Z.eqb_refl, Hname by done. done. }
  pose proof (timeout_good 0 m1 Hinv1) as Hg2. unfold runTimeout in *. simpl in *.
  rewrite Hf in *. simpl in *. rewrite Ec, Hp in *. simpl in *.
  set (m2 := setTimers _ _ _ _ m1) in *. pose proof (good_inv _ _ Hinv1 Hg2) as Hinv2.
  unfold deliverDead. simpl. set (m3 := setTimers _ _ _ _ m2).
  assert (Hinv3 : inv m3) by (eapply good_inv; [exact Hinv2|]; apply good_quiet; auto; by apply keeps_eq).
  rewrite (dead_other _ now m3 st Hinv3).
  - simpl. rewrite lookup_insert_eq. unfold deadState. simpl. by rewrite bool_decide_eq_false_2.
  - done.
  - unfold DeadOrLeft. by rewrite Hs.
  - done.
  - done.
Qed.

(** C27: An unrefuted suspicion ends in death: when the timer of a suspect node
    passes its deadline, the timeout function finds the node still suspect and the
    dead message it delivers marks it dead (not left), at the same incarnation. *)
Theorem suspicion_times_out conf hk m nm st i t dl now
    (Hr : reachable conf hk m) (Hv : view m !! nm = Some st) (Hs : State st = StateSuspect)
    (Hi : nodeTimers m !! nm = Some i) (Ht : timers m !! i = Some t)
    (Hrun : Suspicion.tmr (timerOf t) = Suspicion.Running dl) (Hdl : dl <= now)
    (Hidle : fired m = [] /\ pendingDead m = []) :
  view (deliverDead 0 now (runTimeout 0 (expireTimer i now m))) !! nm =
    Some (mkNodeState (node st) (Incarnation st) StateDead now).
Proof. eapply timeout_kills; eauto using reachable_inv. Qed.

(** The effect of [Leave] on the view, the queue and its wait. *)
Lemma Leave_effect conf hk m st now buf
    (Hr : reachable conf hk m) (Hv : view m !! self m = Some st) (Hs : State st = StateAlive)
    (Hl : leave m = false)
    (Henc : encodeGossip (GDead (mkDead (Incarnation st) (self m) (self m))) = Some buf) :
  let m' := (Leave now m).1 in
  view m' = <[self m := mkNodeState (node st) (Incarnation st) StateLeft now]> (view m) /\ departed m' /\
  broadcasts m' = (Queue.QueueBroadcast (Queue.mkMB (self m) buf (Some leaveBroadcast)) (broadcasts m)).1 /\
  ((Leave now m).2 = true <-> exists n, n <> self m /\ n ∈ liveNames (view m)).
Proof.
  apply reachable_inv in Hr as Hinv. pose proof (view_name _ _ _ Hinv Hv) as Hname.
  pose proof (view_Some _ _ _ Hv) as [l E]. unfold Leave, hasLeft. rewrite Hl.
  assert (Hg : good m (setLeave m)).
  { split_and!; [apply (wfTable_ext m); auto; apply Hinv|done|]. apply eff_left; auto. by apply keeps_eq. }
  pose proof (good_inv _ _ Hinv Hg) as Hinv1.
  change (lookupNode (self (setLeave m)) (setLeave m)) with (lookupNode (self m) m). rewrite E. simpl. rewrite Hname.
  set (d := mkDead (Incarnation st) (self m) (self m)). set (m' := deadNode d now (setLeave m)).
  assert (Hv' : view m' = <[self m := mkNodeState (node st) (Incarnation st) StateLeft now]> (view m)).
  { unfold m'. rewrite (dead_other d now (setLeave m) st Hinv1); auto; [|by unfold DeadOrLeft; rewrite Hs|done].
    unfold deadState. simpl. by rewrite bool_decide_eq_true_2. }
  pose proof (dead_good d now (setLeave m) Hinv1) as Hg2. fold m' in Hg2.
  pose proof (good_common _ _ Hg2) as [Hc _].
  assert (Hself : self m' = self m) by (unfold self; by rewrite Hc). split_and!; [done|split| |].
  - unfold m', deadNode. simpl. change (lookupNode (self m) (setLeave m)) with (lookupNode (self m) m). rewrite E.
    rewrite Z.ltb_irrefl. unfold DeadOrLeft. rewrite Hs. simpl. rewrite andb_false_r, notifyEvent_shape.
    match goal with |- context [encodeBroadcastNotify ?n ?g ?t ?m1] =>
      destruct (broadcast_shape n g t m1) as (q & fin & ->) end. done.
  - intros x. rewrite Hself, Hv', lookup_insert_eq. by intros [= <-].
  - unfold m', deadNode. simpl. change (lookupNode (self m) (setLeave m)) with (lookupNode (self m) m). rewrite E.
    rewrite Z.ltb_irrefl. unfold DeadOrLeft. rewrite Hs. simpl. rewrite andb_false_r, notifyEvent_shape.
    change (self (dropTimer (self m) (setLeave m))) with (self m).
    rewrite bool_decide_eq_true_2 by done. unfold encodeBroadcastNotify, queueBroadcast. fold d in Henc. rewrite Henc.
    simpl. by destruct (Queue.QueueBroadcast _ _).
  - rewrite anyAlive_live by apply (good_inv _ _ Hinv1 Hg2). rewrite Hself, Hv'.
    setoid_rewrite live_insert. simpl. set_solver.
Qed.

(** Leaving announces itself: [Leave] marks the running local node as left (not
    dead) at its incarnation, departs for good, queues the leave message under its
    name with the leave channel, and waits exactly when some other member is live. *)
Theorem Leave_departs conf hk m st now buf
    (Hr : reachable conf hk m) (Hv : view m !! self m = Some st) (Hs : State st = StateAlive)
    (Hl : leave m = false)
    (Henc : encodeGossip (GDead (mkDead (Incarnation st) (self m) (self m))) = Some buf) :
  let m' := (Leave now m).1 in
  view m' = <[self m := mkNodeState (node st) (Incarnation st) StateLeft now]> (view m) /\ departed m' /\
  broadcasts m' = (Queue.QueueBroadcast (Queue.mkMB (self m) buf (Some leaveBroadcast)) (broadcasts m)).1 /\
  ((Leave now m).2 = true <-> exists n, n <> self m /\ n ∈ liveNames (view m)).
Proof. by apply (Leave_effect conf hk). Qed.

(** ** Before the node announces itself *)

(** A message about the local node that arrives before its announcement leaves a
    dead entry with the message's address. *)
Lemma early_alive_entry conf hk a rnd now m1 st :
  aNode a = Config.Name conf -> 0 <= aIncarnation a ->
  aliveNode a None false rnd now (newMemberlist conf hk) = Ret m1 -> view m1 !! aNode a = Some st ->
  config m1 = conf /\ leave m1 = false /\ State st = StateDead /\ Addr (node st) = aAddr a /\ Port (node st) = aPort a.
Proof.
  intros Hname Hi H1. unfold aliveNode in H1.
  set (m0 := newMemberlist conf hk) in *. assert (Hinv0 : inv m0) by apply inv_new.
  assert (E0 : lookupNode (aNode a) m0 = None) by (unfold lookupNode; simpl; by rewrite lookup_empty).
  assert (Hno : view m0 !! aNode a = None) by (by apply lookupNode_None). rewrite E0 in H1.
  repeat (case_match; [injection H1 as <-; congruence|]).
  destruct (addNode_spec a rnd m0 (inv_table _ Hinv0) E0) as [Hwf Hlk].
  assert (Hnode : Name (node (newNodeState a)) = aNode a /\ Addr (node (newNodeState a)) = aAddr a /\
    Port (node (newNodeState a)) = aPort a)
    by (unfold newNodeState, nodeOfAlive; simpl; by repeat case_match).
  destruct Hnode as (Hn1 & Hn2 & Hn3).
  unfold aliveUpdate in H1. rewrite Hn1 in H1. destruct (addNode a rnd m0) as [l m] eqn:Em. simpl in Hwf, Hlk.
  assert (Ec : config m = conf /\ leave m = false) by (unfold addNode in Em; by simplify_eq/=). destruct Ec as [Ec El].
  assert (Es : self m = aNode a) by (unfold self; by rewrite Ec).
  assert (Elk : lookupNode (self m) m = Some (l, newNodeState a)) by (rewrite Es; by rewrite Hlk, decide_True).
  rewrite (bool_decide_eq_true_2 (aNode a = self m)) in H1 by done.
  change (Incarnation (newNodeState a)) with 0 in H1.
  replace (aIncarnation a <? 0) with false in H1 by (symmetry; by apply Z.ltb_ge). rewrite andb_false_r in H1. simpl in H1.
  case_match; injection H1 as <-.
  - intros Hv. assert (Hst : Some st = Some (newNodeState a)).
    { rewrite <- Hv, view_lookup. change (lookupNode (aNode a) (dropTimer (aNode a) m)) with (lookupNode (aNode a) m).
      by rewrite <- Es, Elk. }
    by simplify_eq/=.
  - rewrite <- Es. destruct (refute_effect l (newNodeState a) (aIncarnation a) (dropTimer (self m) m)) as (Hv & _).
    { by apply (wfTable_ext m). }
    { done. }
    rewrite notifyAlive_view, Hv, lookup_insert_eq. intros [= <-]. simpl.
    destruct (refute_shape l (newNodeState a) (aIncarnation a) (dropTimer (self m) m)) as (q & fin & ->).
    unfold notifyAlive. rewrite notifyEvent_shape. done.
Qed.

(** A stale alive message can keep a restarting node out: one about its own name
    that arrives between the start of the listeners and the node's own
    announcement leaves a dead entry at the old address, and the announcement from
    a new address is then rejected as a conflict, so the node never becomes alive
    in its own view (unless reclaiming names is enabled). *)
Theorem early_alive_blocks_start conf hk a addr port meta rnd rnd' now now' m1 m2 st
    (Hreclaim : Config.DeadNodeReclaimTime conf <= 0) (Hname : aNode a = Config.Name conf)
    (Hi : 0 <= aIncarnation a) (Haddr : (aAddr a, aPort a) <> (addr, port))
    (H1 : aliveNode a None false rnd now (newMemberlist conf hk) = Ret m1)
    (Hst : view m1 !! aNode a = Some st)
    (H2 : setAlive addr port meta rnd' now' m1 = Ret m2) :
  State st = StateDead /\ members (abstract m2) !! self m2 = Some st.
Proof.
  change (members (abstract m2)) with (view m2). destruct (early_alive_entry conf hk a rnd now m1 st Hname Hi H1 Hst) as (Hc & Hl & Hs & Ha & Hp).
  split; [done|]. apply view_Some in Hst as [l E].
  unfold setAlive, localAlive, aliveNode, hasLeft in H2. simpl in H2. rewrite Hl in H2. simpl in H2.
  assert (Es : self m1 = aNode a) by (unfold self; by rewrite Hc).
  assert (Hgoal : forall m', config m' = config m1 -> view m' = view m1 -> view m' !! self m' = Some st).
  { intros m' Hc' Hv'. unfold self. rewrite Hc', Hv', Hc, <- Hname. by apply lookup_view with l. }
  assert (Hv1 : forall i, view (setIncarnation i m1) = view m1) by done.
  set (m0 := setIncarnation _ m1) in *. change (self m0) with (self m1) in H2.
  change (config m0) with (config m1) in H2. change (lookupNode (self m1) m0) with (lookupNode (self m1) m1) in H2.
  rewrite Es, E in H2. unfold sameAddress in H2. simpl in H2. rewrite Ha, Hp in H2.
  replace (bool_decide (aAddr a = addr) && (aPort a =? port)) with false in H2.
  2: { symmetry. apply andb_false_iff. destruct (decide (aAddr a = addr)) as [Ea|]; [|left; by apply bool_decide_eq_false_2].
       right. apply Z.eqb_neq. intros Ep. apply Haddr. congruence. }
  unfold canTakeOver in H2. rewrite Hs in H2. change (config m0) with (config m1) in H2. rewrite Hc in H2.
  rewrite Z.gtb_ltb, (proj2 (Z.ltb_ge _ _)) in H2 by done. simpl in H2.
  repeat case_match; simplify_eq; by apply Hgoal.
Qed.

(** ** The field State of a Node *)

(** Every node object, and every node told to a delegate, has [Node.State] at zero. *)
Definition unset (n : Node) : Prop := NState n = stateCode StateAlive.

Definition eventUnset (e : event) : Prop :=
  match e with
  | NotifyJoin n | NotifyUpdate n | NotifyLeave n => unset n
  | NotifyConflict a b => unset a /\ unset b
  end.

Definition plain m : Prop := Forall (fun st => unset (node st)) (heap m) /\ Forall eventUnset (events m).

Lemma plain_eq m m' : heap m' = heap m -> events m' = events m -> plain m -> plain m'.
Proof. unfold plain. by intros -> ->. Qed.

Lemma plain_set l st m : plain m -> unset (node st) -> plain (setNode l st m).
Proof. intros [Hh He] Hs. split; [by apply Forall_insert|done]. Qed.

Lemma plain_event e m : plain m -> eventUnset e -> plain (notifyEvent e m).
Proof.
  intros [Hh He] Hs. unfold notifyEvent. destruct (EventsD (hooks m)); [|done]. split; [done|]. simpl.
  apply Forall_app. split; [done|by constructor].
Qed.

Lemma plain_broadcast nm g nt m : plain m -> plain (encodeBroadcastNotify nm g nt m).
Proof. intros Hp. destruct (broadcast_shape nm g nt m) as (q & fin & ->). by apply (plain_eq m). Qed.

Lemma plain_lookup nm l st m : plain m -> lookupNode nm m = Some (l, st) -> unset (node st).
Proof.
  intros [Hh _]. unfold lookupNode. destruct (nodeMap m !! nm) as [l'|]; [|done]. destruct (heap m !! l') as [st'|] eqn:E; [|done].
  intros [= -> ->]. by eapply Forall_lookup_1 in Hh.
Qed.

Lemma plain_notifyAlive st st' m : plain m -> unset (node st') -> plain (notifyAlive st st' m).
Proof. intros Hp Hs. unfold notifyAlive. repeat case_match; [by apply plain_event|done|by apply plain_event]. Qed.

Lemma plain_refute l me inc m : plain m -> unset (node me) -> plain (refute l me inc m).
Proof.
  intros Hp Hs. unfold refute. simpl. destruct (inc >=? _); simpl; apply plain_broadcast;
    (eapply plain_eq; [reflexivity|reflexivity|]); apply plain_set; try done; by apply (plain_eq m).
Qed.

Lemma plain_versions vsn n n' : setVersions vsn n = Ret n' -> NState n' = NState n.
Proof. unfold setVersions. destruct vsn; [by intros [= ->]|]. destruct (sixVersions _) as [[[[[[? ?] ?] ?] ?] ?]|]; [by intros [= <-]|done]. Qed.

Lemma plain_aliveUpdate a l st moved nt boot now m m' :
  plain m -> unset (node st) -> aliveUpdate a l st moved nt boot now m = Ret m' -> plain m'.
Proof.
  intros Hp Hs. unfold aliveUpdate. do 2 (case_match; [by intros [= <-]|]).
  assert (Hd : plain (dropTimer (aNode a) m)) by (by apply (plain_eq m)). case_match.
  - case_match; intros [= <-]; [done|]. pose proof (plain_refute l st (aIncarnation a) _ Hd Hs) as Hr.
    apply plain_notifyAlive; [done|]. destruct (heap _ !! l) as [x|] eqn:E; [|done]. destruct Hr as [Hr _]. by eapply Forall_lookup_1 in Hr.
  - destruct (setVersions _ _) as [n|] eqn:E; [|done]. intros [= <-]. apply plain_versions in E.
    assert (unset (node (aliveState a now n st))) by (unfold unset; simpl; by rewrite E).
    apply plain_notifyAlive; [|done]. apply plain_set; [by apply plain_broadcast|done].
Qed.

Lemma unset_new a : unset (node (newNodeState a)).
Proof. unfold newNodeState. simpl. by destruct (sixVersions _) as [[[[[[? ?] ?] ?] ?] ?]|]. Qed.

Lemma plain_alive a nt boot rnd now m m' : plain m -> aliveNode a nt boot rnd now m = Ret m' -> plain m'.
Proof.
  intros Hp. unfold aliveNode. do 3 (case_match; [by intros [= <-]|]). destruct (lookupNode (aNode a) m) as [[l st]|] eqn:E.
  - pose proof (plain_lookup _ _ _ _ Hp E) as Hs. case_match; [|by apply plain_aliveUpdate]. case_match; [by intros [= <-]|].
    case_match; [by apply plain_aliveUpdate|]. intros [= <-]. case_match; [|done]. destruct Hp as [Hh He]. split; [done|].
    apply Forall_app. split; [done|]. by repeat constructor.
  - case_match; [by intros [= <-]|]. simpl. apply plain_aliveUpdate; [|apply unset_new]. destruct Hp as [Hh He].
    split; [|done]. apply Forall_app. split; [done|]. constructor; [apply unset_new|done].
Qed.

Lemma plain_dead d now m : plain m -> plain (deadNode d now m).
Proof.
  intros Hp. unfold deadNode. destruct (lookupNode _ m) as [[l st]|] eqn:E; [|done]. pose proof (plain_lookup _ _ _ _ Hp E) as Hs.
  case_match; [done|]. assert (Hd : plain (dropTimer (dNode d) m)) by (by apply (plain_eq m)). case_match; [done|].
  case_match; [by apply plain_refute|]. apply plain_event; [|done]. apply plain_set; [by apply plain_broadcast|done].
Qed.

Lemma plain_suspect s now m : plain m -> plain (suspectNode s now m).
Proof.
  intros Hp. unfold suspectNode. destruct (lookupNode _ m) as [[l st]|] eqn:E; [|done]. pose proof (plain_lookup _ _ _ _ Hp E) as Hs.
  case_match; [done|]. destruct (nodeTimers m !! sNode s) as [i|].
  - destruct (timers m !! i) as [t|]; [|done]. unfold confirmTimer. destruct (Suspicion.Confirm _ _ _) as [[su new] calls].
    destruct new; [|by apply (plain_eq m)]. apply plain_broadcast. by apply (plain_eq m).
  - case_match; [done|]. case_match; [by apply plain_refute|].
    eapply plain_eq; [reflexivity|reflexivity|]. apply plain_set; [by apply plain_broadcast|done].
Qed.

Lemma plain_step m m' : step m m' -> plain m -> plain m'.
Proof.
  intros Hs Hp. destruct Hs as [a rnd now m m' _ E|s now m|d now m|i now m|j m|j now m|rnd now m|m|? ? ? ? nt ? ? m m' _ E|m].
  - by eapply plain_alive.
  - by apply plain_suspect.
  - by apply plain_dead.
  - unfold expireTimer. destruct (timers m !! i); [|done]. destruct (Suspicion.expire _ _). by apply (plain_eq m).
  - unfold runTimeout. case_match; [by apply (plain_eq m)|done].
  - unfold deliverDead. case_match; [|done]. apply plain_dead. by apply (plain_eq m).
  - unfold resetNodes. destruct (moveDeadNodes _ _). by apply (plain_eq m).
  - by apply (plain_eq m).
  - by eapply plain_alive.
  - by apply (plain_eq m).
Qed.

Lemma reachable_plain conf hk m : reachable conf hk m -> plain m.
Proof.
  intros Hr. apply (rtc_ind_r (R := step) plain (newMemberlist conf hk)); [by split; constructor| |exact Hr].
  intros m1 m2 _ Hs. by apply plain_step.
Qed.

(** The exported field [Node.State] says nothing: in every reachable state, all
    nodes that [Members] returns and all nodes the delegates were given say that they
    are alive, also when the member list suspects them or has declared them dead. *)
Theorem node_state_unset conf hk m (Hr : reachable conf hk m) :
  Forall (fun n => NState n = stateCode StateAlive) (Members m) /\ Forall eventUnset (events m).
Proof.
  destruct (reachable_plain conf hk m Hr) as [Hh He]. split; [|done]. unfold Members. apply Forall_map, Forall_filter_sub.
  unfold nodeStates. apply Forall_forall. intros st (l & _ & Hl)%list_elem_of_omap. by eapply Forall_lookup_1 in Hh.
Qed.

End Theorems.

(** ** A concrete cluster *)

#[local] Existing Instance Queue.listTree.

(** A codec that tags the message, enough to run the machine. *)
#[local] Instance toyCodec : GossipCodec := {
  encodeGossip := fun g => Some (match g with
    | GAlive a => "004"%byte :: bytes_of_string (aNode a)
    | GSuspect s => "003"%byte :: bytes_of_string (sNode s)
    | GDead d => "005"%byte :: bytes_of_string (dNode d)
    end)
}.

Abbreviation XL := (Memberlist (list (Queue.limitedBroadcast Queue.memberlistBroadcast))).

Definition orElse (o : outcome XL) (d : XL) : XL := match o with Ret x => x | Panic _ => d end.

Definition xconf : Config.Config := Config.DefaultLANConfig "a".
Definition xhooks : delegates := mkDelegates None true true.
Definition xaddr : bytes := ["010"; "000"; "000"; "001"]%byte.
Definition yaddr : bytes := ["010"; "000"; "000"; "002"]%byte.

Definition x0 : XL := newMemberlist xconf xhooks.
Definition x1 : XL := (nextIncarnation x0).2.
Definition selfAlive : alive := mkAlive 1 "a" xaddr 7946 [] (Config.BuildVsnArray xconf).

(** The local node alone, announced. *)
Definition x2 : XL := orElse (aliveNode selfAlive None true 0 1000 x1) x1.

Definition bAlive (inc : Z) : alive := mkAlive inc "b" yaddr 7946 [] [1; 5; 2; 0; 0; 0].

(** With a second member, then suspecting it. *)
Definition x3 : XL := orElse (aliveNode (bAlive 1) None false 0 2000 x2) x2.
Definition x4 : XL := suspectNode (mkSuspect 1 "b" "c") 3000 x3.
Definition x5 : XL := setLeave x3.
Definition x6 : XL := deadNode (mkDead 1 "a" "a") 4000 x5.

Lemma x2_step : step x1 x2.
Proof. apply (step_local 1 xaddr 7946 [] None 0 1000); [vm_compute; split; discriminate|]. vm_compute. reflexivity. Qed.

Lemma x2_reachable : reachable xconf xhooks x2.
Proof. eapply rtc_l; [apply (step_nextIncarnation x0)|]. apply rtc_once, x2_step. Qed.

Lemma x3_step : step x2 x3.
Proof. apply (step_alive (bAlive 1) 0 2000); [vm_compute; discriminate|]. vm_compute. reflexivity. Qed.

Lemma x4_step : step x3 x4.
Proof. apply step_suspect. Qed.

Lemma x3_reachable : reachable xconf xhooks x3.
Proof. eapply rtc_r; [apply x2_reachable|apply x3_step]. Qed.

Lemma x4_reachable : reachable xconf xhooks x4.
Proof. eapply rtc_r; [apply x3_reachable|apply x4_step]. Qed.

Lemma x6_reachable : reachable xconf xhooks x6.
Proof.
  eapply rtc_r; [eapply rtc_r; [apply x3_reachable|apply (step_leave x3)]|].
  apply (step_dead (mkDead 1 "a" "a") 4000 x5).
Qed.

Lemma x2_running : running x2.
Proof. intros _. eexists. split; vm_compute; reflexivity. Qed.

Lemma membership_invariant_witness :
  NoDup (nodes x4) /\ is_Some (nodeTimers x4 !! "b").
Proof.
  destruct (membership_invariant xconf xhooks x4 x4_reachable) as (Hnd & _ & _ & Ht & _).
  split; [exact Hnd|]. apply Ht. eexists. split; vm_compute; reflexivity.
Defined.

Lemma refines_swim_witness :
  rtc (swim "a" (forgets x2)) (abstract x2) (abstract x4).
Proof.
  apply (refines_swim xconf xhooks x2 x4 x2_reachable).
  eapply rtc_l; [exact x3_step|]. apply rtc_once. exact x4_step.
Defined.

Lemma incarnations_advance_witness :
  exists st st', view x3 !! "b" = Some st /\ view x4 !! "b" = Some st' /\ notOlder st st'.
Proof.
  destruct (view x3 !! "b") as [st|] eqn:E; [|by vm_compute in E].
  destruct (incarnations_advance xconf xhooks x3 x4 "b" st x3_reachable x4_step ltac:(done) E)
    as [[Hn _]|(st' & Hv & [H|[H _]])].
  - by vm_compute in Hn.
  - by exists st, st'.
  - vm_compute in E. injection E as <-. by vm_compute in H.
Defined.

Lemma local_stays_alive_witness :
  exists st, view x4 !! "a" = Some st /\ State st = StateAlive.
Proof.
  apply (local_stays_alive xconf xhooks x2 x4 x2_reachable x2_running); [|by vm_compute].
  eapply rtc_l; [exact x3_step|]. apply rtc_once. exact x4_step.
Defined.

Lemma no_rejoin_after_leave_witness :
  departed (orElse (aliveNode (mkAlive 9 "a" xaddr 7946 [] []) None false 0 5000 x6) x0).
Proof.
  apply (no_rejoin_after_leave xconf xhooks x6); [exact x6_reachable| |].
  - split; [by vm_compute|]. intros st Hst. vm_compute in Hst. injection Hst as <-. by vm_compute.
  - apply rtc_once. apply (step_alive (mkAlive 9 "a" xaddr 7946 [] []) 0 5000); [vm_compute; discriminate|].
    vm_compute. reflexivity.
Defined.

Lemma members_are_live_witness :
  list_to_set (map Name (Members x4)) = liveNames (view x4) /\ NumMembers x4 = 2.
Proof. split; [apply (members_are_live xconf xhooks x4 x4_reachable)|by vm_compute]. Defined.

Definition aState : nodeState := mkNodeState (mkNode "a" xaddr 7946 [] 0 1 5 2 0 0 0) 1 StateAlive 1000.
Definition bState : nodeState := mkNodeState (mkNode "b" yaddr 7946 [] 0 1 5 2 0 0 0) 1 StateAlive 2000.

Lemma refutation_beats_accusation_witness :
  let m' := deadNode (mkDead 41 "a" "b") 5000 x3 in
  view m' = <[ "a" := withIncarnation 42 aState ]> (view x3) /\ incarnation m' = 42 /\ Awareness.score (health m') = 1.
Proof.
  destruct (refutation_beats_accusation xconf xhooks x3 aState 41 "b" 5000
    (deadNode (mkDead 41 "a" "b") 5000 x3) ("004"%byte :: bytes_of_string "a"))
    as (Hv & _ & _ & Hi & Hh & _).
  - exact x3_reachable.
  - vm_compute. reflexivity.
  - reflexivity.
  - vm_compute. reflexivity.
  - vm_compute. discriminate.
  - vm_compute. split; [discriminate|reflexivity].
  - vm_compute. split; [discriminate|reflexivity].
  - right. reflexivity.
  - vm_compute. reflexivity.
  - split_and!; [exact Hv|exact Hi|]. rewrite Hh. vm_compute. reflexivity.
Defined.

Lemma refutation_wraps_witness :
  let m' := suspectNode (mkSuspect maxU32 "a" "b") 5000 x3 in
  view m' !! "a" = Some (withIncarnation 0 aState) /\ incarnation m' = 0.
Proof.
  apply (refutation_wraps xconf xhooks x3 aState "b" 5000 x3_reachable).
  - vm_compute. reflexivity.
  - reflexivity.
  - vm_compute. discriminate.
  - vm_compute. split; [discriminate|reflexivity].
Defined.

Definition hijack : alive := mkAlive 7 "b" xaddr 7946 [] [1; 5; 2; 0; 0; 0].

Lemma live_address_protected_witness :
  exists m', aliveNode hijack None false 0 5000 x4 = Ret m' /\ view m' = view x4 /\ nodeTimers m' = nodeTimers x4.
Proof.
  destruct (aliveNode hijack None false 0 5000 x4) as [m'|] eqn:E; [|by vm_compute in E].
  exists m'. split; [reflexivity|].
  destruct (live_address_protected xconf xhooks x4 m' hijack None false 0 5000
    (mkNodeState (node bState) 1 StateSuspect 3000) x4_reachable) as (Hv & Ht & _).
  - vm_compute. reflexivity.
  - reflexivity.
  - vm_compute. discriminate.
  - exact E.
  - split; [exact Hv|exact Ht].
Defined.

(** After the gossip-to-the-dead time the departed local entry is reaped. *)
Lemma resetNodes_reaps_witness :
  let m' := resetNodes (fun i => i) (100 * nsSecond) x6 in
  view m' = filter (fun p => reaped x6 (100 * nsSecond) p.2 = false) (view x6) /\ dom (view m') = {[ "b" ]}.
Proof.
  split; [|by vm_compute]. apply (resetNodes_reaps xconf xhooks x6 (fun i => i) (100 * nsSecond) x6_reachable).
Defined.

Lemma alive_well_versioned_safe_witness :
  exists m', aliveNode (bAlive 3) None false 0 5000 x4 = Ret m'.
Proof. apply (alive_well_versioned_safe (bAlive 3) None false 0 5000 x4). right. vm_compute. lia. Defined.

Lemma alive_short_versions_panic_witness :
  aliveNode (mkAlive 1 "z" yaddr 7946 [] [1; 5; 2]) None false 0 5000 x3 = Panic "index out of range".
Proof.
  apply (alive_short_versions_panic (mkAlive 1 "z" yaddr 7946 [] [1; 5; 2]) None 0 5000 x3);
    [vm_compute; reflexivity|vm_compute; discriminate|reflexivity|reflexivity|simpl; lia|split; [simpl; lia|reflexivity]].
Defined.

Definition remoteC : pushNodeState := mkPush "c" yaddr 7946 [] 4 0 [2; 4; 3; 0; 0; 0].

Lemma verifyProtocol_exact_witness :
  verifyProtocol [remoteC] x3 = Ret true /\
  Forall (fun s => Forall (fun r => understands r s) (remoteRanges [remoteC] ++ localRanges x3))
    (remoteSpoken [remoteC] ++ localSpoken x3).
Proof.
  split; [vm_compute; reflexivity|].
  apply (verifyProtocol_exact [remoteC] x3 true); [|vm_compute; reflexivity|reflexivity].
  vm_compute. repeat constructor; discriminate.
Defined.

(** The peer holds [b] for dead: here it becomes suspect. *)
Lemma suspicion_times_out_witness :
  exists st, view (deliverDead 0 (9 * nsSecond) (runTimeout 0 (expireTimer 0 (9 * nsSecond) x4))) !! "b" = Some st
    /\ State st = StateDead.
Proof.
  destruct (timers x4 !! 0%nat) as [t|] eqn:Et; [|by vm_compute in Et].
  eexists. split.
  - apply (suspicion_times_out xconf xhooks x4 "b" (mkNodeState (node bState) 1 StateSuspect 3000) 0 t
      (3000 + 4 * nsSecond) (9 * nsSecond) x4_reachable);
      [vm_compute; reflexivity|reflexivity|vm_compute; reflexivity|exact Et| |vm_compute; discriminate|].
    + vm_compute in Et. injection Et as <-. vm_compute. reflexivity.
    + split; vm_compute; reflexivity.
  - reflexivity.
Defined.

Lemma Leave_departs_witness :
  view (Leave 5000 x3).1 = <[ "a" := mkNodeState (node aState) 1 StateLeft 5000 ]> (view x3) /\
  (Leave 5000 x3).2 = true.
Proof.
  destruct (Leave_departs xconf xhooks x3 aState 5000 ("005"%byte :: bytes_of_string "a") x3_reachable)
    as (Hv & _ & _ & _); [vm_compute; reflexivity..|].
  split; [exact Hv|vm_compute; reflexivity].
Defined.

Definition staleAlive : alive := mkAlive 5 "a" yaddr 7946 [] [1; 5; 2; 0; 0; 0].

Lemma early_alive_blocks_start_witness :
  exists m1 m2 st, aliveNode staleAlive None false 0 500 x0 = Ret m1 /\
    setAlive xaddr 7946 [] 0 1000 m1 = Ret m2 /\ view m2 !! "a" = Some st /\ State st = StateDead.
Proof.
  destruct (aliveNode staleAlive None false 0 500 x0) as [m1|] eqn:E1; [|by vm_compute in E1].
  destruct (setAlive xaddr 7946 [] 0 1000 m1) as [m2|] eqn:E2.
  2: { vm_compute in E1. injection E1 as <-. by vm_compute in E2. }
  destruct (view m1 !! "a") as [st|] eqn:Ev.
  2: { vm_compute in E1. injection E1 as <-. by vm_compute in Ev. }
  destruct (early_alive_blocks_start xconf xhooks staleAlive xaddr 7946 [] 0 0 500 1000 m1 m2 st) as [Hs Hv];
    [vm_compute; discriminate|reflexivity|vm_compute; discriminate|vm_compute; discriminate|exact E1|exact Ev|exact E2|].
  exists m1, m2, st. split_and!; [reflexivity|exact E2| |exact Hs].
  replace "a" with (self m2); [exact Hv|].
  vm_compute in E1. injection E1 as <-. vm_compute in E2. injection E2 as <-. reflexivity.
Defined.

(** Before the node announces itself, its delegate can be told of its own join while
    its entry is dead. *)
Lemma early_join_told :
  exists m, aliveNode staleAlive None false 0 500 x0 = Ret m /\ replay (events m) = {[ "a" ]} /\
    State <$> view m !! "a" = Some StateDead.
Proof. eexists. split; [vm_compute; reflexivity|]. split; vm_compute; reflexivity. Qed.

End Guarantees.
