(* ===== verification/Learning.v ===== *)
(** * What a member learns (state.go)

    The handlers of alive, suspect and dead messages and [mergeState] as functions
    on single entries of the membership: the handlers work on shared objects, a
    list, a name map and timers, but what they do to the view is to change the
    entry of the node they are about, as a function of that entry and the message.
    For push/pull this gives the result for every node, and that two members agree
    afterwards on whoever one of them knew to be alive. *)

From Stdlib Require Import ZArith Lia Strings.Byte.
From stdpp Require Import tactics base numbers strings gmap list relations.
From S2P Require Import Prelude Queue Config Suspicion Members Membership Guarantees.

Local Open Scope Z_scope.
Local Open Scope go_scope.

Module Learning.

Import Members Membership Guarantees.

(** ** The specification: one entry *)

(** A later incarnation replaces the entry, and so does a node that takes over the
    name ([moved]). *)
Definition freshAlive (a : alive) (now : gotime) (moved : bool) (st : nodeState) : outcome nodeState :=
  if (aIncarnation a <=? Incarnation st) && negb moved then Ret st
  else let! n := setVersions (aVsn a) (node st) in Ret (aliveState a now n st).

(** A name may move to a new address when its node left, or is dead for long. *)
Definition mayMove (c : Config.Config) (now : gotime) (st : nodeState) : bool :=
  match State st with
  | StateLeft => true
  | StateDead => (Config.DeadNodeReclaimTime c >? 0) && (timeSub now (StateChange st) >? Config.DeadNodeReclaimTime c)
  | _ => false
  end.

Definition hearAlive (accepted : bool) (c : Config.Config) (a : alive) (now : gotime) (o : option nodeState) :
    outcome (option nodeState) :=
  if badVersions (aVsn a) || negb accepted then Ret o
  else
    match o with
    | None =>
        if Config.IPAllowed c (aAddr a)
        then let! st := freshAlive a now false (newNodeState a) in Ret (Some st) else Ret None
    | Some st =>
        if sameAddress a (node st) then let! st := freshAlive a now false st in Ret (Some st)
        else if Config.IPAllowed c (aAddr a) && mayMove c now st
        then let! st := freshAlive a now true st in Ret (Some st)
        else Ret (Some st)
    end.

Definition hearSuspect (s : suspect) (now : gotime) (o : option nodeState) : option nodeState :=
  match o with
  | Some st => if (sIncarnation s <? Incarnation st) || negb (bool_decide (State st = StateAlive)) then Some st
               else Some (suspectState s now st)
  | None => None
  end.

Definition hearDead (d : dead) (now : gotime) (o : option nodeState) : option nodeState :=
  match o with
  | Some st => if (dIncarnation d <? Incarnation st) || DeadOrLeft st then Some st else Some (deadState d now st)
  | None => None
  end.

(** An entry of a push/pull, at a member called [me]. *)
Definition aliveOf (r : pushNodeState) : alive :=
  mkAlive (rIncarnation r) (rName r) (rAddr r) (rPort r) (rMeta r) (rVsn r).

Definition hear (hk : delegates) (c : Config.Config) (r : pushNodeState) (now : gotime) (o : option nodeState) :
    outcome (option nodeState) :=
  if rState r =? stateCode StateAlive then
    let accepted := match AliveD hk with
                    | None => true
                    | Some f => match sixVersions (rVsn r) with None => false | Some v => f (nodeOfAlive (aliveOf r) v) end
                    end in
    hearAlive accepted c (aliveOf r) now o
  else if rState r =? stateCode StateLeft then Ret (hearDead (mkDead (rIncarnation r) (rName r) (rName r)) now o)
  else if (rState r =? stateCode StateDead) || (rState r =? stateCode StateSuspect)
  then Ret (hearSuspect (mkSuspect (rIncarnation r) (rName r) (Config.Name c)) now o)
  else Ret o.

Section Learning.

Context {T : Type} `{!Queue.BTree Queue.memberlistBroadcast T} `{!GossipCodec}.

Abbreviation ML := (Memberlist T).

Implicit Types m : ML.

(** The view with the entry of one name replaced. *)
Definition withEntry (nm : string) (o : option nodeState) (v : gmap string nodeState) : gmap string nodeState :=
  partial_alter (fun _ => o) nm v.

Lemma withEntry_same nm v : withEntry nm (v !! nm) v = v.
Proof. apply partial_alter_self. Qed.

Lemma withEntry_insert nm st v : withEntry nm (Some st) v = <[nm := st]> v.
Proof. done. Qed.

Lemma withEntry_eq nm o v : withEntry nm o v !! nm = o.
Proof. apply lookup_partial_alter_eq. Qed.

Lemma withEntry_ne nm nm' o v : nm <> nm' -> withEntry nm o v !! nm' = v !! nm'.
Proof. apply lookup_partial_alter_ne. Qed.

Lemma withEntry_twice nm o o' v : withEntry nm o (withEntry nm o' v) = withEntry nm o v.
Proof.
  apply map_eq. intros n. destruct (decide (nm = n)) as [<-|Hn]; [by rewrite !withEntry_eq|].
  by rewrite !withEntry_ne by done.
Qed.

(** Only the entry of [nm] changes. *)
Definition onlyAt (nm : string) m m' : Prop := exists o, view m' = withEntry nm o (view m).

Lemma onlyAt_same nm m m' : view m' = view m -> onlyAt nm m m'.
Proof. intros E. exists (view m !! nm). by rewrite withEntry_same. Qed.

Lemma onlyAt_insert nm m m' st : view m' = <[nm := st]> (view m) -> onlyAt nm m m'.
Proof. intros E. by exists (Some st). Qed.

(** ** The handlers *)

Lemma refute_view l st acc m m1 :
  inv m -> lookupNode (self m) m = Some (l, st) -> m1 = m \/ m1 = dropTimer (self m) m ->
  exists st', view (refute l st acc m1) = <[self m := st']> (view m).
Proof.
  intros Hinv E Hm1. destruct (refute_effect l st acc m1) as (Hv & _).
  { destruct Hm1 as [-> | ->]; [apply Hinv|]. apply (wfTable_ext m); auto. apply Hinv. }
  { by destruct Hm1 as [-> | ->]. }
  eexists. rewrite Hv. by destruct Hm1 as [-> | ->].
Qed.

Lemma confirmTimer_view i t s now m : view (confirmTimer i t s now m) = view m.
Proof.
  unfold confirmTimer. destruct (Suspicion.Confirm _ _ _) as [[su []] calls]; [|done].
  unfold encodeAndBroadcast. match goal with |- context [encodeBroadcastNotify ?n ?g ?t' ?m1] =>
    destruct (broadcast_shape n g t' m1) as (q & fin & ->) end. done.
Qed.

(** A suspect message about the local node changes at most its own entry, one about
    another node changes that entry as specified. *)
Lemma suspect_view s now m :
  inv m -> onlyAt (sNode s) m (suspectNode s now m) /\
  (sNode s <> self m -> view (suspectNode s now m) = withEntry (sNode s) (hearSuspect s now (view m !! sNode s)) (view m)).
Proof.
  intros Hinv. assert (Hsame : forall o, view m !! sNode s = o -> hearSuspect s now o = o ->
    onlyAt (sNode s) m m /\ (sNode s <> self m -> view m = withEntry (sNode s) (hearSuspect s now (view m !! sNode s)) (view m))).
  { intros o Eo Hh. split; [by apply onlyAt_same|]. intros _. by rewrite Eo, Hh, <- Eo, withEntry_same. }
  unfold suspectNode. destruct (lookupNode (sNode s) m) as [[l st]|] eqn:E.
  2: { apply (Hsame None); [by apply lookupNode_None|done]. }
  pose proof (lookup_view _ _ _ _ E) as Hv.
  destruct (sIncarnation s <? Incarnation st) eqn:Hi; [apply (Hsame (Some st)); [done|simpl; by rewrite Hi]|].
  destruct (nodeTimers m !! sNode s) as [i|] eqn:Et.
  { destruct (inv_timer _ Hinv _ _ Et) as (t & x & -> & _ & Hx & Hxs & _). simplify_eq.
    split; [by apply onlyAt_same, confirmTimer_view|]. intros _. rewrite confirmTimer_view. rewrite Hv. simpl.
    rewrite Hi, Hxs. simpl. by rewrite <- Hv, withEntry_same. }
  destruct (bool_decide (State st = StateAlive)) eqn:Ha; cbn [negb].
  2: { apply (Hsame (Some st)); [done|]. simpl. by rewrite Ha, orb_true_r. }
  pose proof (lookup_in _ _ _ _ (inv_table _ Hinv) E) as (_ & _ & Hn). rewrite Hn. destruct (decide (sNode s = self m)) as [Hself|Hself].
  - rewrite bool_decide_eq_true_2 by done. split; [|done]. rewrite Hself in *.
    destruct (refute_view l st (sIncarnation s) m m Hinv E) as [st' Hst']; [by left|]. by eapply onlyAt_insert.
  - rewrite bool_decide_eq_false_2 by done. destruct (broadcast_shape (sNode s) (GSuspect s) None m) as (q & fin & Eb).
    unfold encodeAndBroadcast. rewrite Eb. unfold startTimer. set (m' := setTimers _ _ _ _ _).
    destruct (view_assign (sNode s) l st (suspectState s now st) m m') as [_ Hm']; auto; [apply Hinv|].
    split; [by eapply onlyAt_insert|]. intros _. rewrite Hm', Hv. simpl. by rewrite Hi, Ha.
Qed.

Lemma dead_view d now m :
  inv m -> onlyAt (dNode d) m (deadNode d now m) /\
  (dNode d <> self m -> view (deadNode d now m) = withEntry (dNode d) (hearDead d now (view m !! dNode d)) (view m)).
Proof.
  intros Hinv. destruct (lookupNode (dNode d) m) as [[l st]|] eqn:E.
  2: { replace (deadNode d now m) with m by (unfold deadNode; by rewrite E). split; [by apply onlyAt_same|]. intros _.
       apply lookupNode_None in E. rewrite E. simpl. by rewrite <- E, withEntry_same. }
  pose proof (lookup_view _ _ _ _ E) as Hv. pose proof (lookup_in _ _ _ _ (inv_table _ Hinv) E) as (_ & _ & Hn).
  destruct ((dIncarnation d <? Incarnation st) || DeadOrLeft st) eqn:Ho.
  { assert (Hs : view (deadNode d now m) = view m).
    { unfold deadNode. rewrite E. apply orb_true_iff in Ho as [->| ->]; [done|]. by case_match. }
    split; [by apply onlyAt_same|]. intros _. rewrite Hs, Hv. simpl. by rewrite Ho, <- Hv, withEntry_same. }
  apply orb_false_iff in Ho as [Hi Hd]. destruct (decide (dNode d = self m /\ leave m = false)) as [[Hs Hl]|Hs].
  - split; [|done]. unfold deadNode. rewrite E, Hi, Hd. change (self (dropTimer (dNode d) m)) with (self m).
    change (hasLeft (dropTimer (dNode d) m)) with (leave m). rewrite bool_decide_eq_true_2, Hl by congruence. cbn [negb andb].
    rewrite Hs in *. destruct (refute_view l st (dIncarnation d) m (dropTimer (self m) m) Hinv E) as [st' Hst']; [by right|].
    by eapply onlyAt_insert.
  - pose proof (dead_other d now m st Hinv Hv Hd) as Hdo. zify_bool.
    rewrite Hdo; [|lia|intros Es; destruct (leave m); [done|by destruct Hs]].
    split; [by apply (onlyAt_insert _ _ _ (deadState d now st)), Hdo; [lia|intros Es; destruct (leave m); [done|by destruct Hs]]|].
    intros _. rewrite Hv. simpl. rewrite Hd. by destruct (Z.ltb_spec (dIncarnation d) (Incarnation st)); [lia|].
Qed.

(** Accepting an alive message. *)
Lemma alive_accept_view a l st notify n now m :
  wfTable m -> lookupNode (aNode a) m = Some (l, st) -> Name n = aNode a ->
  view (notifyAlive st (aliveState a now n st)
    (setNode l (aliveState a now n st) (encodeBroadcastNotify (aNode a) (GAlive a) notify (dropTimer (aNode a) m)))) =
  <[aNode a := aliveState a now n st]> (view m).
Proof.
  intros Hwf E Hn. rewrite notifyAlive_view.
  destruct (broadcast_shape (aNode a) (GAlive a) notify (dropTimer (aNode a) m)) as (q & fin & ->).
  set (m' := setNode _ _ _). destruct (view_assign (aNode a) l st (aliveState a now n st) m m') as [_ Hv]; auto.
Qed.

Lemma aliveUpdate_view a l st moved notify bootstrap now m :
  wfTable m -> lookupNode (aNode a) m = Some (l, st) -> aNode a <> self m ->
  match aliveUpdate a l st moved notify bootstrap now m with
  | Ret m' => exists st', freshAlive a now moved st = Ret st' /\ view m' = <[aNode a := st']> (view m)
  | Panic w => freshAlive a now moved st = Panic w
  end.
Proof.
  intros Hwf E Hne. pose proof (lookup_in _ _ _ _ Hwf E) as (_ & _ & Hn). pose proof (lookup_view _ _ _ _ E) as Hv.
  unfold aliveUpdate, freshAlive. rewrite Hn, (bool_decide_eq_false_2 (aNode a = self m)) by done. cbn [negb].
  rewrite !andb_true_r, !andb_false_r.
  destruct ((aIncarnation a <=? Incarnation st) && negb moved); [exists st; by rewrite insert_id|].
  destruct (setVersions (aVsn a) (node st)) as [n|w] eqn:Ev; cbn [obind]; [|done].
  eexists. split; [done|]. apply alive_accept_view; [done..|]. apply setVersions_name in Ev as [-> _]. done.
Qed.

Lemma canTakeOver_mayMove st now m : canTakeOver st now m = mayMove (config m) now st.
Proof. done. Qed.

(** An alive message about another node. *)
Lemma alive_view a notify bootstrap rnd now m :
  inv m -> aNode a <> self m ->
  match aliveNode a notify bootstrap rnd now m with
  | Ret m' => exists o, hearAlive (aliveAccepted a m) (config m) a now (view m !! aNode a) = Ret o /\
      view m' = withEntry (aNode a) o (view m)
  | Panic w => hearAlive (aliveAccepted a m) (config m) a now (view m !! aNode a) = Panic w
  end.
Proof.
  intros Hinv Hne. pose proof (inv_table _ Hinv) as Hwf. unfold aliveNode, hearAlive.
  rewrite (bool_decide_eq_false_2 (aNode a = self m)), andb_false_r by done.
  destruct (badVersions (aVsn a)); [eexists; split; [done|]; by rewrite withEntry_same|]. cbn [orb].
  destruct (aliveAccepted a m); cbn [negb]; [|eexists; split; [done|]; by rewrite withEntry_same].
  destruct (lookupNode (aNode a) m) as [[l st]|] eqn:E.
  - pose proof (lookup_view _ _ _ _ E) as Hv. rewrite Hv.
    assert (Hst : view m = withEntry (aNode a) (Some st) (view m)) by (by rewrite <- Hv, withEntry_same).
    destruct (sameAddress a (node st)); cbn [negb].
    { pose proof (aliveUpdate_view a l st false notify bootstrap now m Hwf E Hne) as Hu.
      destruct (aliveUpdate _ _ _ _ _ _ _ _) as [m'|w]; [destruct Hu as (st' & -> & ->)|by rewrite Hu].
      eexists. split; [done|]. by rewrite withEntry_insert. }
    destruct (Config.IPAllowed (config m) (aAddr a)); cbn [negb andb]; [|eauto].
    rewrite canTakeOver_mayMove. destruct (mayMove (config m) now st).
    + pose proof (aliveUpdate_view a l st true notify bootstrap now m Hwf E Hne) as Hu.
      destruct (aliveUpdate _ _ _ _ _ _ _ _) as [m'|w]; [destruct Hu as (st' & -> & ->)|by rewrite Hu].
      eexists. split; [done|]. by rewrite withEntry_insert.
    + eexists. split; [done|]. by destruct (ConflictD (hooks m)).
  - pose proof (proj1 (lookupNode_None _ _) E) as Hv. rewrite Hv.
    destruct (Config.IPAllowed (config m) (aAddr a)); cbn [negb].
    2: { eexists. split; [done|]. by rewrite <- Hv, withEntry_same. }
    destruct (addNode_spec a rnd m Hwf E) as [Hwf1 Hlk]. destruct (addNode a rnd m) as [l m1] eqn:Em. cbn [snd fst] in *.
    assert (Hs : self m1 = self m) by (unfold addNode in Em; by simplify_eq/=).
    assert (E1 : lookupNode (aNode a) m1 = Some (l, newNodeState a)) by (by rewrite Hlk, decide_True).
    assert (Hv1 : forall st', <[aNode a := st']> (view m1) = <[aNode a := st']> (view m)).
    { intros st'. apply map_eq. intros nm. rewrite !lookup_insert. case_decide as Hd; [done|].
      by rewrite !view_lookup, Hlk, decide_False. }
    pose proof (aliveUpdate_view a l (newNodeState a) false notify bootstrap now m1 Hwf1 E1) as Hu. rewrite Hs in Hu. specialize (Hu Hne).
    destruct (aliveUpdate _ _ _ _ _ _ _ _) as [m'|w]; [destruct Hu as (st' & -> & ->)|by rewrite Hu].
    eexists. split; [done|]. by rewrite withEntry_insert, Hv1.
Qed.

(** An alive message from the network about the local node. *)
Lemma aliveUpdate_self_view l st a moved notify now m m' :
  inv m -> lookupNode (self m) m = Some (l, st) -> aNode a = self m ->
  aliveUpdate a l st moved notify false now m = Ret m' -> onlyAt (self m) m m'.
Proof.
  intros Hinv E Hs. pose proof (lookup_in _ _ _ _ (inv_table _ Hinv) E) as (_ & _ & Hn).
  unfold aliveUpdate. rewrite Hn, Hs, (bool_decide_eq_true_2 (self m = self m)) by done. cbn [negb andb].
  repeat (case_match; [intros [= <-]; by apply onlyAt_same|]). intros [= <-].
  destruct (refute_view l st (aIncarnation a) m (dropTimer (self m) m) Hinv E) as [st' Hst']; [by right|].
  eapply onlyAt_insert. by rewrite notifyAlive_view.
Qed.

Lemma alive_self_view a notify rnd now m m' :
  inv m -> aNode a = self m -> aliveNode a notify false rnd now m = Ret m' -> onlyAt (self m) m m'.
Proof.
  intros Hinv Hs. unfold aliveNode. rewrite Hs.
  repeat (case_match; [intros [= <-]; by apply onlyAt_same|]).
  destruct (lookupNode (self m) m) as [[l st]|] eqn:E.
  - destruct (sameAddress a (node st)); cbn [negb]; [by apply aliveUpdate_self_view|].
    case_match; [intros [= <-]; by apply onlyAt_same|]. destruct (canTakeOver st now m); [by apply aliveUpdate_self_view|].
    intros [= <-]. by destruct (ConflictD (hooks m)); apply onlyAt_same.
  - case_match; [intros [= <-]; by apply onlyAt_same|]. rewrite <- Hs in E. pose proof (addNode_good a rnd m Hinv E) as Hg.
    destruct (addNode_spec a rnd m (inv_table _ Hinv) E) as [_ Hlk]. destruct (addNode a rnd m) as [l m1] eqn:Em. cbn [snd fst] in *.
    assert (Hs1 : self m1 = self m) by (unfold addNode in Em; by simplify_eq/=). intros Hu.
    apply aliveUpdate_self_view in Hu as [o Ho]; [|by eapply good_inv|by rewrite Hlk, decide_True by congruence|congruence].
    exists o. rewrite Ho, Hs1. apply map_eq. intros nm. destruct (decide (self m = nm)) as [<-|Hne]; [by rewrite !withEntry_eq|].
    rewrite !withEntry_ne by done. by rewrite !view_lookup, Hlk, decide_False by congruence.
Qed.

(** ** Push/pull *)

Lemma mergeOne_view r rnd now m m' :
  inv m -> mergeOne r rnd now m = Ret m' ->
  onlyAt (rName r) m m' /\
  (rName r <> self m -> exists o, hear (hooks m) (config m) r now (view m !! rName r) = Ret o /\ view m' = withEntry (rName r) o (view m)).
Proof.
  intros Hinv. unfold mergeOne, hear. destruct (rState r =? stateCode StateAlive).
  - intros Ha. destruct (decide (rName r = self m)) as [Hs|Hs].
    + split; [|done]. rewrite Hs. eapply alive_self_view; [done| |exact Ha]. done.
    + pose proof (alive_view (aliveOf r) None false rnd now m Hinv Hs) as Hv. unfold aliveOf in Hv at 1. rewrite Ha in Hv.
      destruct Hv as (o & Ho & Hv). split; [by exists o|]. intros _. exists o. by split.
  - destruct (rState r =? stateCode StateLeft).
    + intros [= <-]. destruct (dead_view (mkDead (rIncarnation r) (rName r) (rName r)) now m Hinv) as [H1 H2]. split; [done|].
      intros Hs. eexists. split; [done|]. by apply H2.
    + destruct (_ || _); intros [= <-].
      * destruct (suspect_view (mkSuspect (rIncarnation r) (rName r) (self m)) now m Hinv) as [H1 H2]. split; [done|].
        intros Hs. eexists. split; [done|]. by apply H2.
      * split; [by apply onlyAt_same|]. intros _. eexists. split; [done|]. by rewrite withEntry_same.
Qed.

Lemma mergeOne_keeps r rnd now m m' :
  inv m -> 0 <= rIncarnation r -> mergeOne r rnd now m = Ret m' -> inv m' /\ config m' = config m /\ hooks m' = hooks m.
Proof.
  intros Hinv Hi Hm. apply mergeOne_spares in Hm as [He _]; [|done..].
  split; [by eapply evolves_inv|]. by apply evolves_config.
Qed.

(** The names in a list of remote entries. *)
Definition remoteNames (remote : list (pushNodeState * Z * gotime)) : list string := map (fun r => rName r.1.1) remote.

Lemma mergeState_view remote m m' :
  inv m -> Forall (fun r => 0 <= rIncarnation r.1.1) remote -> NoDup (remoteNames remote) ->
  mergeState remote m = Ret m' ->
  forall nm, nm <> self m ->
    (nm ∉ remoteNames remote -> view m' !! nm = view m !! nm) /\
    (forall r rnd now, (r, rnd, now) ∈ remote -> rName r = nm ->
       hear (hooks m) (config m) r now (view m !! nm) = Ret (view m' !! nm)).
Proof.
  revert m. induction remote as [|[[r rnd] now] remote IH]; intros m Hinv Hi Hnd Hm nm Hne.
  { injection Hm as <-. split; [done|]. by intros r rnd now ?%elem_of_nil. }
  cbn [remoteNames map] in Hnd. apply NoDup_cons in Hnd as [Hnin Hnd]. apply Forall_cons in Hi as [Hi1 Hi].
  cbn [mergeState] in Hm. destruct (mergeOne r rnd now m) as [m1|] eqn:E1; [|done]. cbn [obind] in Hm.
  destruct (mergeOne_keeps r rnd now m m1) as (Hinv1 & Hc1 & Hh1); [done..|].
  assert (Hs1 : self m1 = self m) by (unfold self; by rewrite Hc1).
  destruct (IH m1 Hinv1 Hi Hnd Hm nm) as [IHn IHr]; [congruence|].
  destruct (mergeOne_view r rnd now m m1 Hinv E1) as [[o Ho] Hr]. rewrite Hc1, Hh1 in IHr. split.
  - cbn [remoteNames map]. intros [Hn1 Hn2]%not_elem_of_cons. rewrite IHn by done. rewrite Ho. by apply withEntry_ne.
  - intros r' rnd' now' [E|Hin]%elem_of_cons En.
    + injection E as -> -> ->. subst nm. destruct (Hr Hne) as (o' & Hh & Hv). rewrite Hh, IHn by done.
      by rewrite Hv, withEntry_eq.
    + rewrite <- (IHr r' rnd' now' Hin En). rewrite Ho, withEntry_ne; [done|]. intros Ename. apply Hnin.
      apply list_elem_of_fmap. exists (r', rnd', now'). split; [|done]. simpl in *. congruence.
Qed.

(** ** What a merge can do to a member *)

Lemma hear_live hk c r now st o :
  State st <> StateDead -> State st <> StateLeft -> hear hk c r now (Some st) = Ret o ->
  exists st', o = Some st' /\ Incarnation st <= Incarnation st' /\ State st' <> StateDead /\
    (State st' = StateLeft -> rState r = stateCode StateLeft /\ Incarnation st <= rIncarnation r).
Proof.
  intros Hd Hl. assert (Hsame : Ret (Some st) = Ret o -> exists st', o = Some st' /\ Incarnation st <= Incarnation st' /\ State st' <> StateDead /\
    (State st' = StateLeft -> rState r = stateCode StateLeft /\ Incarnation st <= rIncarnation r)) by (intros [= <-]; by exists st).
  assert (Hmove : mayMove c now st = false) by (unfold mayMove; by destruct (State st)).
  unfold hear. destruct (rState r =? stateCode StateAlive).
  - unfold hearAlive. destruct (badVersions _ || _); [exact Hsame|]. rewrite Hmove, andb_false_r.
    destruct (sameAddress _ _); [|exact Hsame]. unfold freshAlive. cbn [negb]. rewrite andb_true_r.
    destruct (Z.leb_spec (aIncarnation (aliveOf r)) (Incarnation st)); cbn [obind]; [exact Hsame|].
    destruct (setVersions _ _) as [n|]; cbn [obind]; [|done]. intros E. injection E as <-. eexists. split; [done|]. simpl in *. split; [lia|done].
  - destruct (rState r =? stateCode StateLeft) eqn:El; zify_bool.
    + unfold hearDead. case_match eqn:Eo; [exact Hsame|]. intros E. injection E as <-.
      apply orb_false_iff in Eo as [Hi _]. simpl in Hi. zify_bool.
      eexists. split; [done|]. unfold deadState. simpl. rewrite bool_decide_eq_true_2 by done. by split_and!.
    + destruct (_ || _); [|exact Hsame]. unfold hearSuspect. case_match eqn:Eo; [exact Hsame|]. intros E. injection E as <-.
      apply orb_false_iff in Eo as [Hi _]. simpl in Hi. zify_bool. eexists. split; [done|]. simpl. split; [lia|done].
Qed.

(** A live member can only become left, by the peer's word that it left. *)
Lemma mergeState_left remote m m' nm st st' :
  inv m -> Forall (fun r => 0 <= rIncarnation r.1.1) remote -> mergeState remote m = Ret m' ->
  nm <> self m -> view m !! nm = Some st -> State st <> StateDead -> State st <> StateLeft ->
  view m' !! nm = Some st' -> State st' = StateLeft ->
  exists r rnd now, (r, rnd, now) ∈ remote /\ rName r = nm /\ rState r = stateCode StateLeft /\ Incarnation st <= rIncarnation r.
Proof.
  revert m st. induction remote as [|[[r rnd] now] remote IH]; intros m st Hinv Hi Hm Hne Hst Hd Hl Hst' Hl'.
  { injection Hm as <-. congruence. }
  apply Forall_cons in Hi as [Hi1 Hi]. cbn [mergeState] in Hm. destruct (mergeOne r rnd now m) as [m1|] eqn:E1; [|done].
  destruct (mergeOne_keeps r rnd now m m1) as (Hinv1 & Hc1 & _); [done..|].
  assert (Hs1 : nm <> self m1) by (unfold self; by rewrite Hc1).
  destruct (mergeOne_view r rnd now m m1 Hinv E1) as [[o' Ho'] Hr].
  destruct (decide (rName r = nm)) as [En|Hn].
  - destruct Hr as (o & Hh & Hv); [congruence|]. rewrite En, Hst in Hh.
    apply hear_live in Hh as (x & -> & Hix & Hxd & Hxl); [|done..].
    assert (Hx : view m1 !! nm = Some x) by (by rewrite Hv, En, withEntry_eq).
    destruct (decide (State x = StateLeft)) as [Hleft|Hleft].
    + exists r, rnd, now. destruct (Hxl Hleft). split_and!; [by left|done..].
    + destruct (IH m1 x) as (r' & rnd' & now' & Hin & Hn' & Hrl & Hri); [done..|].
      exists r', rnd', now'. split_and!; [by right|done|done|lia].
  - assert (Hst1 : view m1 !! nm = Some st) by (by rewrite Ho', withEntry_ne).
    destruct (IH m1 st) as (r' & rnd' & now' & Hin & Hrest); [done..|].
    exists r', rnd', now'. split; [by right|done].
Qed.

(** ** Agreement *)

(** What a member believes about a node. *)
Definition belief (st : nodeState) : Z * NodeStateType := (Incarnation st, State st).

(** The node that an alive message describes, with [Node.State] at its zero value. *)
Definition described (n : Node) : Node :=
  mkNode (Name n) (Addr n) (Port n) (Meta n) 0 (PMin n) (PMax n) (PCur n) (DMin n) (DMax n) (DCur n).

(** The delegate of alive messages, if there is one, accepts the node. *)
Definition accepts (hk : delegates) (st : nodeState) : Prop :=
  match AliveD hk with None => True | Some f => f (described (node st)) = true end.

(** A node another member can learn from this entry. *)
Definition presentable (hk : delegates) (st : nodeState) : Prop :=
  accepts hk st /\ badVersions (versionsOf (node st)) = false.

Lemma presentable_accepted hk st :
  accepts hk st ->
  match AliveD hk with
  | None => true
  | Some f => match sixVersions (rVsn (localNodeState st)) with
              | None => false | Some v => f (nodeOfAlive (aliveOf (localNodeState st)) v) end
  end = true.
Proof. unfold accepts. destruct (AliveD hk) as [f|]; [|done]. simpl. by destruct (node st). Qed.

Lemma hear_alive_known hk c now (a b : nodeState) :
  State a = StateAlive -> presentable hk a -> Addr (node b) = Addr (node a) -> Port (node b) = Port (node a) ->
  exists b', hear hk c (localNodeState a) now (Some b) = Ret (Some b') /\
    belief b' = (if Incarnation a <=? Incarnation b then belief b else belief a).
Proof.
  intros Ha [Hacc Hbv] Had Hpo. unfold hear. cbn [rState localNodeState]. rewrite Ha. cbn [Z.eqb stateCode].
  rewrite (presentable_accepted hk a Hacc). unfold hearAlive. cbn [aVsn aliveOf rVsn localNodeState]. rewrite Hbv. cbn [orb negb].
  unfold sameAddress. cbn [aAddr aPort aliveOf rAddr rPort localNodeState]. rewrite bool_decide_eq_true_2, Hpo, Z.eqb_refl by done. cbn [andb].
  unfold freshAlive. cbn [aIncarnation aliveOf rIncarnation localNodeState]. rewrite andb_true_r.
  destruct (Incarnation a <=? Incarnation b); cbn [obind]; [by eexists|].
  eexists. split; [reflexivity|]. unfold belief. simpl. by rewrite Ha.
Qed.

Lemma hear_alive_unknown hk c now (b : nodeState) :
  State b = StateAlive -> presentable hk b -> 0 < Incarnation b -> Config.IPAllowed c (Addr (node b)) = true ->
  exists a', hear hk c (localNodeState b) now None = Ret (Some a') /\ belief a' = belief b /\ node a' = described (node b).
Proof.
  intros Hb [Hacc Hbv] Hi Hip. unfold hear. cbn [rState localNodeState]. rewrite Hb. cbn [Z.eqb stateCode].
  rewrite (presentable_accepted hk b Hacc). unfold hearAlive. cbn [aVsn aliveOf rVsn localNodeState]. rewrite Hbv. cbn [orb negb].
  cbn [aAddr aliveOf rAddr localNodeState]. rewrite Hip. unfold freshAlive. cbn [aIncarnation aliveOf rIncarnation localNodeState].
  replace (Incarnation b <=? Incarnation (newNodeState (aliveOf (localNodeState b)))) with false
    by (symmetry; apply Z.leb_gt; exact Hi).
  cbn [andb negb]. eexists. split; [reflexivity|]. unfold belief. simpl. rewrite Hb. by split.
Qed.

(** A member that knows the node alive hears the other's entry. *)
Lemma alive_hears hk c now (a b : nodeState) :
  State a = StateAlive -> State b <> StateDead -> (State b = StateAlive -> presentable hk b) ->
  Addr (node b) = Addr (node a) -> Port (node b) = Port (node a) ->
  exists a', hear hk c (localNodeState b) now (Some a) = Ret (Some a') /\
    belief a' = (if Incarnation a <=? Incarnation b then
                   if bool_decide (State b = StateAlive) && (Incarnation b <=? Incarnation a) then belief a else belief b
                 else belief a).
Proof.
  intros Ha Hd Hpr Had Hpo. destruct (State b) eqn:Eb; [..|done|].
  - destruct (hear_alive_known hk c now b a) as (a' & Hh & Hbel); [done|auto|congruence..|]. exists a'. split; [done|].
    rewrite Hbel, bool_decide_eq_true_2 by done. unfold belief. rewrite Ha, Eb. cbn [andb].
    destruct (Z.leb_spec (Incarnation b) (Incarnation a)), (Z.leb_spec (Incarnation a) (Incarnation b)); try done; lia.
  - unfold hear. cbn [rState localNodeState]. rewrite Eb. cbn. rewrite Ha. cbn.
    unfold belief. rewrite Ha, Eb. destruct (Z.ltb_spec (Incarnation b) (Incarnation a)), (Z.leb_spec (Incarnation a) (Incarnation b)); try lia;
      eexists; (split; [reflexivity|]); simpl; by rewrite ?Ha.
  - unfold hear. cbn [rState localNodeState]. rewrite Eb. cbn. unfold DeadOrLeft. rewrite Ha. cbn.
    unfold belief. rewrite Ha, Eb. destruct (Z.ltb_spec (Incarnation b) (Incarnation a)), (Z.leb_spec (Incarnation a) (Incarnation b)); try lia;
      eexists; (split; [reflexivity|]); unfold deadState; simpl; by rewrite ?Ha, ?bool_decide_eq_true_2.
Qed.

Lemma localNodes_names m : map rName (localNodes m) = map (fun st => Name (node st)) (nodeStates m).
Proof. unfold localNodes. by rewrite map_map. Qed.

Lemma localNodes_NoDup m : wfTable m -> NoDup (map rName (localNodes m)).
Proof.
  intros Hwf. rewrite localNodes_names. unfold nodeStates.
  apply names_NoDup_omap; [apply Hwf|]. intros l l' st st' Hl Hl' E E' Hn. by eapply heap_unique.
Qed.

(** The entry of a list sent by [m] about [nm] is the one [m] has. *)
Lemma localNodes_elem m nm : wfTable m ->
  (nm ∈ map rName (localNodes m) <-> is_Some (view m !! nm)) /\
  (forall st, view m !! nm = Some st -> localNodeState st ∈ localNodes m /\ rName (localNodeState st) = nm).
Proof.
  intros Hwf. assert (Hin : forall st, view m !! nm = Some st -> localNodeState st ∈ localNodes m /\ rName (localNodeState st) = nm).
  { intros st Hst. pose proof (view_Some _ _ _ Hst) as [l E]. apply lookup_in in E as (_ & _ & Hn); [|done]. split; [|done].
    apply list_elem_of_fmap_2, nodeStates_view; [done|congruence]. }
  split; [|done]. split.
  - intros (r & -> & (st & -> & Hst%nodeStates_view)%list_elem_of_fmap)%list_elem_of_fmap; [|done]. by exists st.
  - intros [st [H1 <-]%Hin]. by apply list_elem_of_fmap_2.
Qed.

(** What [m2] sends in a push/pull, with the random number and the time of the
    handler that receives each entry. *)
Definition sentBy (m2 : ML) (remote : list (pushNodeState * Z * gotime)) : Prop :=
  map (fun x => x.1.1) remote = localNodes m2.

(** Incarnations are unsigned. *)
Definition unsigned m : Prop := map_Forall (fun _ st => 0 <= Incarnation st) (view m).

Lemma sentBy_nonneg m2 remote :
  wfTable m2 -> unsigned m2 -> sentBy m2 remote -> Forall (fun r => 0 <= rIncarnation r.1.1) remote.
Proof.
  intros Hwf Hu Hs. apply Forall_forall. intros x Hx.
  assert (x.1.1 ∈ localNodes m2) as (st & -> & Hst)%list_elem_of_fmap 
    by (rewrite <- Hs; by apply (list_elem_of_fmap_2 (fun x => x.1.1))).
  apply nodeStates_view in Hst; [|done]. by apply (Hu _ _ Hst).
Qed.

Lemma hears_all m1 m2 m1' remote nm :
  inv m1 -> inv m2 -> unsigned m2 -> sentBy m2 remote -> mergeState remote m1 = Ret m1' -> nm <> self m1 ->
  match view m2 !! nm with
  | None => view m1' !! nm = view m1 !! nm
  | Some st => exists now, hear (hooks m1) (config m1) (localNodeState st) now (view m1 !! nm) = Ret (view m1' !! nm)
  end.
Proof.
  intros I1 I2 Hu Hs Hm Hne. pose proof (inv_table _ I2) as Hwf.
  assert (En : remoteNames remote = map rName (localNodes m2)).
  { unfold remoteNames. by rewrite <- Hs, map_map. }
  destruct (mergeState_view remote m1 m1' I1 (sentBy_nonneg m2 remote Hwf Hu Hs)) with (nm := nm) as [Hnot Hyes]; [|done..|].
  { rewrite En. by apply localNodes_NoDup. }
  destruct (localNodes_elem m2 nm Hwf) as [Hdom Hel]. destruct (view m2 !! nm) as [st|].
  - destruct (Hel st eq_refl) as [Hin Hname]. rewrite <- Hs in Hin.
    apply list_elem_of_fmap in Hin as ([[r rnd] now] & Er & Hr). simpl in Er. subst r. exists now. by eapply Hyes.
  - apply Hnot. rewrite En, Hdom. by intros [x ?].
Qed.

(** One of two members knows the node to be alive and the other does not hold it
    for dead: unknown there, its address is allowed; known there, it is the same
    address. *)
Definition oneKnowsAlive (m1 m2 : ML) (nm : string) : Prop :=
  match view m1 !! nm, view m2 !! nm with
  | None, None => True
  | Some a, None =>
      State a = StateAlive /\ 0 < Incarnation a /\ presentable (hooks m2) a /\ Config.IPAllowed (config m2) (Addr (node a)) = true
  | None, Some b =>
      State b = StateAlive /\ 0 < Incarnation b /\ presentable (hooks m1) b /\ Config.IPAllowed (config m1) (Addr (node b)) = true
  | Some a, Some b =>
      (State a = StateAlive \/ State b = StateAlive) /\ State a <> StateDead /\ State b <> StateDead /\
      (State a = StateAlive -> presentable (hooks m2) a) /\ (State b = StateAlive -> presentable (hooks m1) b) /\
      Addr (node a) = Addr (node b) /\ Port (node a) = Port (node b)
  end.

(** The entries of the two sides after both have heard the other's. *)
Lemma agree_entries hk1 hk2 c1 c2 now1 now2 (a b : nodeState) o1 o2 :
  State a = StateAlive -> State b <> StateDead -> presentable hk2 a -> (State b = StateAlive -> presentable hk1 b) ->
  Addr (node a) = Addr (node b) -> Port (node a) = Port (node b) ->
  hear hk1 c1 (localNodeState b) now1 (Some a) = Ret o1 -> hear hk2 c2 (localNodeState a) now2 (Some b) = Ret o2 ->
  belief <$> o1 = belief <$> o2.
Proof.
  intros Ha Hb Pa Pb Had Hpo H1 H2.
  destruct (alive_hears hk1 c1 now1 a b) as (a' & E1 & Ba); [done..|].
  destruct (hear_alive_known hk2 c2 now2 a b) as (b' & E2 & Bb); [done..|].
  rewrite E1 in H1. rewrite E2 in H2. injection H1 as <-. injection H2 as <-. simpl. f_equal. rewrite Ba, Bb.
  destruct (Z.leb_spec (Incarnation a) (Incarnation b)); [|done]. case_bool_decide as Hs; [|done]. cbn [andb].
  destruct (Z.leb_spec (Incarnation b) (Incarnation a)); [|done]. unfold belief. rewrite Ha, Hs. f_equal. lia.
Qed.

(** [m1] has learned from [m2]: every node that was unknown to it and alive there,
    if it may accept it, it now knows alive, as [m2] does. *)
Definition learned (m1 m2 m1' : ML) : Prop :=
  forall nm b, nm <> self m1 -> view m1 !! nm = None -> view m2 !! nm = Some b ->
    State b = StateAlive -> 0 < Incarnation b -> presentable (hooks m1) b ->
    Config.IPAllowed (config m1) (Addr (node b)) = true ->
    exists a', view m1' !! nm = Some a' /\ belief a' = belief b /\ node a' = described (node b).

Lemma merge_learns m1 m2 m1' remote :
  inv m1 -> inv m2 -> unsigned m2 -> sentBy m2 remote -> mergeState remote m1 = Ret m1' -> learned m1 m2 m1'.
Proof.
  intros I1 I2 Hu Hs Hm nm b Hne E1 E2 Hb Hi Hp Hip.
  pose proof (hears_all m1 m2 m1' remote nm I1 I2 Hu Hs Hm Hne) as Hh. rewrite E1, E2 in Hh. destruct Hh as [now Hh].
  destruct (hear_alive_unknown (hooks m1) (config m1) now b) as (a' & Ha & R); [done..|].
  rewrite Ha in Hh. injection Hh as Hh. by exists a'.
Qed.

(** ** Theorems *)

(** C14: What a push/pull does to each node: merging the entries of a peer, each
    name once, changes every other node's entry as a function of that entry and of
    the peer's entry alone, [hear], and leaves the nodes the peer did not mention
    as they were -- independently of order, timers and the other nodes. *)
Theorem merge_pointwise conf hk remote m m'
    (Hr : reachable conf hk m) (Hi : Forall (fun r => 0 <= rIncarnation r.1.1) remote)
    (Hnd : NoDup (remoteNames remote)) (Hm : mergeState remote m = Ret m') :
  forall nm, nm <> self m ->
    (nm ∉ remoteNames remote -> view m' !! nm = view m !! nm) /\
    (forall r rnd now, (r, rnd, now) ∈ remote -> rName r = nm ->
       hear (hooks m) (config m) r now (view m !! nm) = Ret (view m' !! nm)).
Proof. apply mergeState_view; [by eapply reachable_inv|done..]. Qed.

(** C28: Push/pull does not kill: merging a peer's state, whatever it claims,
    never makes a member other than the local one dead that was not. It makes a
    member left only if the peer says that it left, at no older incarnation; and
    where the peer mentions each name once, a member it holds for dead is
    suspected, with a suspicion timer running, if it was alive at no later
    incarnation than the peer's, and keeps its entry otherwise. *)
Theorem merge_never_declares_dead conf hk remote m m' nm st
    (Hr : reachable conf hk m) (Hi : Forall (fun r => 0 <= rIncarnation r.1.1) remote)
    (Hm : mergeState remote m = Ret m')
    (Hne : nm <> self m) (Hst : view m !! nm = Some st) (Hd : State st <> StateDead) :
  (exists st', view m' !! nm = Some st' /\ State st' <> StateDead /\
     (State st' = StateLeft -> State st = StateLeft \/
        exists r rnd now, (r, rnd, now) ∈ remote /\ rName r = nm /\ rState r = stateCode StateLeft /\ Incarnation st <= rIncarnation r)) /\
  (NoDup (remoteNames remote) -> forall r rnd now,
     (r, rnd, now) ∈ remote -> rName r = nm -> rState r = stateCode StateDead ->
     if bool_decide (State st = StateAlive) && (Incarnation st <=? rIncarnation r)
     then view m' !! nm = Some (mkNodeState (node st) (rIncarnation r) StateSuspect now) /\ is_Some (nodeTimers m' !! nm)
     else view m' !! nm = Some st).
Proof.
  apply reachable_inv in Hr. destruct (mergeState_spares remote m m' Hr Hi Hm) as [He Hs]. split.
  - destruct (Hs nm st) as (st' & Hst' & Hd'); [done..|]. exists st'. split_and!; [done..|]. intros Hl.
    destruct (decide (State st = StateLeft)) as [|Hnl]; [by left|right]. by eapply mergeState_left.
  - intros Hnd r rnd now Hin En Hrs. destruct (mergeState_view remote m m' Hr Hi Hnd Hm nm Hne) as [_ Hv].
    specialize (Hv r rnd now Hin En). rewrite Hst in Hv. unfold hear in Hv. rewrite Hrs in Hv. cbn in Hv.
    assert (Eb : (rIncarnation r <? Incarnation st) || negb (bool_decide (State st = StateAlive)) =
      negb (bool_decide (State st = StateAlive) && (Incarnation st <=? rIncarnation r))).
    { rewrite negb_andb, orb_comm. f_equal. by rewrite Z.leb_antisym, negb_involutive. }
    rewrite Eb in Hv. destruct (bool_decide (State st = StateAlive) && _); cbn [negb] in Hv; injection Hv as Hv; [|done].
    split; [done|]. eapply (inv_suspect m'); [by eapply evolves_inv|by symmetry|done].
Qed.

(** C7: Push/pull makes members agree: after two members have merged each other's
    states, they believe the same -- incarnation and state -- about every third
    node that one of them knew to be alive, unless the other held it for dead, or
    knew it at another address, or may not accept it. *)
Theorem push_pull_agrees conf1 hk1 conf2 hk2 (m1 m2 m1' m2' : ML) remote1 remote2 nm
    (Hr1 : reachable conf1 hk1 m1) (Hr2 : reachable conf2 hk2 m2) (Hu1 : unsigned m1) (Hu2 : unsigned m2)
    (Hs1 : sentBy m2 remote1) (Hs2 : sentBy m1 remote2)
    (Hm1 : mergeState remote1 m1 = Ret m1') (Hm2 : mergeState remote2 m2 = Ret m2')
    (Hn1 : nm <> self m1) (Hn2 : nm <> self m2) (Hk : oneKnowsAlive m1 m2 nm) :
  belief <$> view m1' !! nm = belief <$> view m2' !! nm.
Proof.
  apply reachable_inv in Hr1, Hr2.
  pose proof (hears_all m1 m2 m1' remote1 nm Hr1 Hr2 Hu2 Hs1 Hm1 Hn1) as H1.
  pose proof (hears_all m2 m1 m2' remote2 nm Hr2 Hr1 Hu1 Hs2 Hm2 Hn2) as H2. unfold oneKnowsAlive in Hk.
  destruct (view m1 !! nm) as [a|] eqn:E1, (view m2 !! nm) as [b|] eqn:E2.
  - destruct H1 as [now1 H1], H2 as [now2 H2], Hk as (Hor & Hda & Hdb & Pa & Pb & Had & Hpo).
    destruct Hor as [Ha|Hb]; [|symmetry]; (eapply agree_entries; [..|eassumption|eassumption]); auto.
  - destruct H2 as [now2 H2], Hk as (Ha & Hi & Pa & Hip). rewrite H1.
    destruct (hear_alive_unknown (hooks m2) (config m2) now2 a) as (x & Hx & Bx & _); [done..|].
    rewrite Hx in H2. injection H2 as <-. simpl. by rewrite Bx.
  - destruct H1 as [now1 H1], Hk as (Hb & Hi & Pb & Hip). rewrite H2.
    destruct (hear_alive_unknown (hooks m1) (config m1) now1 b) as (x & Hx & Bx & _); [done..|].
    rewrite Hx in H1. injection H1 as <-. simpl. by rewrite Bx.
  - by rewrite H1, H2.
Qed.

End Learning.

(** ** Witnesses *)

#[local] Existing Instances Queue.listTree Guarantees.toyCodec.

(** The member [c], which knows [b] with a later incarnation than [a] does. *)
Definition yconf : Config.Config := Config.DefaultLANConfig "c".
Definition caddr : bytes := ["010"; "000"; "000"; "003"]%byte.

Definition y2 : XL :=
  orElse (aliveNode (mkAlive 1 "c" caddr 7946 [] (Config.BuildVsnArray yconf)) None true 0 1000
    (nextIncarnation (newMemberlist yconf xhooks)).2) x0.
Definition y3 : XL := orElse (aliveNode (bAlive 2) None false 0 2000 y2) y2.

Lemma y3_reachable : reachable yconf xhooks y3.
Proof.
  eapply rtc_l; [apply (step_nextIncarnation (newMemberlist yconf xhooks))|].
  eapply rtc_l; [apply (step_local 1 caddr 7946 [] None 0 1000 _ y2); [vm_compute; split; discriminate|vm_compute; reflexivity]|].
  apply rtc_once. apply (step_alive (bAlive 2) 0 2000); [vm_compute; discriminate|]. vm_compute. reflexivity.
Qed.

(** Each entry with a random number and a time. *)
Definition at5 (rs : list pushNodeState) : list (pushNodeState * Z * gotime) := map (fun r => (r, 0, 5000)) rs.

Lemma at5_sent (m : XL) : sentBy m (at5 (localNodes m)).
Proof. unfold sentBy, at5. rewrite map_map. apply map_id. Qed.

Lemma merge_pointwise_witness :
  exists m', mergeState (at5 (localNodes y3)) x4 = Ret m' /\
    (belief <$> view m' !! "b") = Some (2, StateAlive) /\ (belief <$> view m' !! "c") = Some (1, StateAlive).
Proof.
  destruct (mergeState (at5 (localNodes y3)) x4) as [m'|] eqn:E; [|by vm_compute in E].
  assert (Hi : Forall (fun r => 0 <= rIncarnation r.1.1) (at5 (localNodes y3)))
    by (vm_compute; repeat constructor; discriminate).
  assert (Hnd : NoDup (remoteNames (at5 (localNodes y3))))
    by (refine (bool_decide_unpack (NoDup (remoteNames (at5 (localNodes y3)))) _); vm_compute; exact I).
  pose proof (merge_pointwise xconf xhooks _ x4 m' x4_reachable Hi Hnd E) as Hp.
  exists m'. split; [reflexivity|]. split.
  - destruct (Hp "b") as [_ Hb]; [discriminate|].
    specialize (Hb (localNodeState (mkNodeState (node bState) 2 StateAlive 2000)) 0 5000).
    revert Hb. generalize (view m' !! "b"). intros o Hb. vm_compute in Hb.
    assert (E' := Hb ltac:(repeat constructor) eq_refl). injection E' as <-. reflexivity.
  - destruct (Hp "c") as [_ Hc]; [discriminate|].
    specialize (Hc (mkPush "c" caddr 7946 [] 1 0 [1; 5; 2; 0; 0; 0]) 0 5000).
    revert Hc. generalize (view m' !! "c"). intros o Hc. vm_compute in Hc.
    assert (E' := Hc ltac:(repeat constructor) eq_refl). injection E' as <-. reflexivity.
Defined.

Lemma merge_never_declares_dead_witness :
  exists m', mergeState [(mkPush "b" yaddr 7946 [] 5 2 [], 0, 5000)] x3 = Ret m' /\
    view m' !! "b" = Some (mkNodeState (node bState) 5 StateSuspect 5000).
Proof.
  destruct (mergeState [(mkPush "b" yaddr 7946 [] 5 2 [], 0, 5000)] x3) as [m'|] eqn:E; [|by vm_compute in E].
  destruct (merge_never_declares_dead xconf xhooks [(mkPush "b" yaddr 7946 [] 5 2 [], 0, 5000)] x3 m' "b" bState x3_reachable)
    as [_ H]; [repeat constructor; vm_compute; discriminate|exact E|discriminate|vm_compute; reflexivity|discriminate|].
  exists m'. split; [reflexivity|].
  refine (proj1 (H _ (mkPush "b" yaddr 7946 [] 5 2 []) 0 5000 _ _ _));
    [apply NoDup_singleton|by left|reflexivity|reflexivity].
Defined.

(** [a] suspects [b], [c] knows that it is alive; and the other way round for the
    incarnations. *)
Lemma push_pull_agrees_witness :
  exists m1' m2', mergeState (at5 (localNodes y3)) x4 = Ret m1' /\ mergeState (at5 (localNodes x4)) y3 = Ret m2' /\
    belief <$> view m1' !! "b" = belief <$> view m2' !! "b".
Proof.
  destruct (mergeState (at5 (localNodes y3)) x4) as [m1'|] eqn:E1; [|by vm_compute in E1].
  destruct (mergeState (at5 (localNodes x4)) y3) as [m2'|] eqn:E2; [|by vm_compute in E2].
  exists m1', m2'. split; [reflexivity|]. split; [reflexivity|].
  apply (push_pull_agrees xconf xhooks yconf xhooks x4 y3 m1' m2' (at5 (localNodes y3)) (at5 (localNodes x4)) "b");
    [exact x4_reachable|exact y3_reachable| | |apply at5_sent|apply at5_sent|exact E1|exact E2|discriminate|discriminate|].
  - refine (bool_decide_unpack (map_Forall (fun _ st => 0 <= Incarnation st) (view x4)) _). vm_compute. exact I.
  - refine (bool_decide_unpack (map_Forall (fun _ st => 0 <= Incarnation st) (view y3)) _). vm_compute. exact I.
  - vm_compute. repeat split; try discriminate. by right.
Defined.

End Learning.
