(* ===== verification/Events.v ===== *)
(** * Events over a channel (event_delegate.go)

    [ChannelEventDelegate] sends every notification on a channel and blocks until it
    is taken or there is room, in the handler that notifies and with the lock of the
    member list held. A system of the member list, the channel and its reader shows
    that the reader can reconstruct the membership. *)

From Stdlib Require Import ZArith Lia Strings.Byte.
From stdpp Require Import tactics base numbers strings gmap list relations.
From S2P Require Import Prelude Queue Config Members Membership Guarantees.

Local Open Scope Z_scope.

Module Events.

Import Members Membership Guarantees.

Inductive NodeEventType := NodeJoin | NodeLeave | NodeUpdate.

Record NodeEvent := mkNodeEvent { Event : NodeEventType; evNode : Node }.

(** The three methods: what is sent for a notification; the node is copied. The
    conflict delegate is another one. *)
Definition notifyCh (e : event) : option NodeEvent :=
  match e with
  | NotifyJoin n => Some (mkNodeEvent NodeJoin n)
  | NotifyLeave n => Some (mkNodeEvent NodeLeave n)
  | NotifyUpdate n => Some (mkNodeEvent NodeUpdate n)
  | NotifyConflict _ _ => None
  end.

(** The live members as the reader sees them. *)
Definition readMembers (l : list NodeEvent) : gset string :=
  fold_left (fun s e => match Event e with
                        | NodeJoin => {[ Name (evNode e) ]} ∪ s
                        | NodeLeave => s ∖ {[ Name (evNode e) ]}
                        | NodeUpdate => s
                        end) l ∅.

Lemma readMembers_replay evs : readMembers (omap notifyCh evs) = replay evs.
Proof.
  unfold readMembers, replay. generalize (∅ : gset string). induction evs as [|e evs IH]; intros s; [done|].
  destruct e; simpl; apply IH.
Qed.

Section Channel.

Context {T : Type} `{!Queue.BTree Queue.memberlistBroadcast T} `{!GossipCodec}.

(** [sending] are the notifications of the handler that runs, which are not sent
    yet; [buffer] is the channel's, [taken] what the reader has received. *)
Record channel := mkChannel {
  list_ : Memberlist T;
  sending : list NodeEvent;
  buffer : list NodeEvent;
  taken : list NodeEvent
}.

(** A handler runs when the last one has returned. A send proceeds when the buffer
    has room, and on a channel without buffer together with a receive. *)
Inductive chanStep (cap : nat) : channel -> channel -> Prop :=
| ch_handler m m' evs buf tk :
    step m m' -> events m' = events m ++ evs -> chanStep cap (mkChannel m [] buf tk) (mkChannel m' (omap notifyCh evs) buf tk)
| ch_send m e l buf tk :
    (length buf < cap)%nat -> chanStep cap (mkChannel m (e :: l) buf tk) (mkChannel m l (buf ++ [e]) tk)
| ch_take m l e buf tk :
    chanStep cap (mkChannel m l (e :: buf) tk) (mkChannel m l buf (tk ++ [e]))
| ch_handOver m e l tk :
    cap = 0%nat -> chanStep cap (mkChannel m (e :: l) [] tk) (mkChannel m l [] (tk ++ [e])).

(** The reader has seen everything [m] has told. *)
Definition caughtUp (m : Memberlist T) : channel := mkChannel m [] [] (omap notifyCh (events m)).

(** Nothing is lost, doubled or out of order. *)
Lemma chan_order cap m c :
  rtc (chanStep cap) (caughtUp m) c ->
  steps m (list_ c) /\ taken c ++ buffer c ++ sending c = omap notifyCh (events (list_ c)) /\ (length (buffer c) <= cap)%nat.
Proof.
  intros Hr. revert Hr. apply (rtc_ind_r (R := chanStep cap) (fun c => steps m (list_ c) /\
    taken c ++ buffer c ++ sending c = omap notifyCh (events (list_ c)) /\ (length (buffer c) <= cap)%nat) (caughtUp m)).
  - simpl. split; [apply rtc_refl|]. rewrite app_nil_r. split; [done|lia].
  - intros c1 c2 _ Hs (Hst & Ho & Hb). destruct Hs as [m1 m2 evs buf tk Hs He|m1 e l buf tk Hl|m1 l e buf tk|m1 e l tk _]; simpl in *.
    + split; [by eapply rtc_r|]. split; [|done]. rewrite He, omap_app, <- Ho, app_nil_r. by rewrite <- app_assoc.
    + split; [done|]. split; [by rewrite <- Ho, <- !app_assoc|]. rewrite length_app. simpl. lia.
    + split; [done|]. split; [by rewrite <- Ho, <- !app_assoc|lia].
    + split; [done|]. split; [by rewrite <- Ho, <- !app_assoc|lia].
Qed.

(** C13: The reader of a [ChannelEventDelegate] knows the membership: from the
    creation of the member list on, whatever the capacity of the channel and
    however reading interleaves with the handlers, events arrive in order and none
    is lost; and a reader that has caught up has been told exactly the other
    members that are neither dead nor left, and, once the entry of the local node
    is alive or left, exactly the members. (Until the node has announced itself, a
    message about its own name can leave a dead entry and yet tell of a join.) *)
Theorem reader_knows_members cap conf hk c
    (He : EventsD hk = true) (Hc : rtc (chanStep cap) (caughtUp (newMemberlist conf hk)) c) :
  let m := list_ c in
  taken c ++ buffer c ++ sending c = omap notifyCh (events m) /\
  (buffer c = [] -> sending c = [] ->
     (forall nm, nm <> self m -> nm ∈ readMembers (taken c) <-> nm ∈ liveNames (view m)) /\
     (forall st, view m !! self m = Some st -> State st <> StateDead -> readMembers (taken c) = liveNames (view m))).
Proof.
  intros m. destruct (chan_order cap _ c Hc) as (Hs & Ho & _). split; [done|]. intros Eb Es.
  rewrite Eb, Es, !app_nil_r in Ho. rewrite Ho, readMembers_replay. fold m in Hs |- *.
  pose proof (steps_told conf hk m He Hs) as Ht. split.
  - intros nm Hnm. apply Ht. by intros ?.
  - intros st Hst Hd. apply set_eq. intros nm. apply Ht. intros ->. by exists st.
Qed.

(** A reader that does not read stops the member list: with an event to send and no
    room for it, nothing happens but a receive. *)
Theorem full_channel_blocks cap c c'
    (Hs : sending c <> []) (Hfull : (cap <= length (buffer c))%nat) (Hst : chanStep cap c c') :
  list_ c' = list_ c /\ exists e, taken c' = taken c ++ [e].
Proof. destruct Hst; simpl in *; [done|lia|eauto..]. Qed.

End Channel.

(** ** A concrete run *)

#[local] Existing Instances Queue.listTree toyCodec.

(** Member "a" announces itself and "b" joins, with a channel of capacity one. *)
Lemma reader_knows_members_witness :
  exists c, rtc (chanStep 1) (caughtUp x0) c /\ length (taken c) = 2%nat /\ readMembers (taken c) = {["a"; "b"]}.
Proof.
  set (ea := mkNodeEvent NodeJoin (mkNode "a" xaddr 7946 [] 0 1 5 2 0 0 0)).
  set (eb := mkNodeEvent NodeJoin (mkNode "b" yaddr 7946 [] 0 1 5 2 0 0 0)).
  set (c := mkChannel x3 [] [] [ea; eb]).
  assert (Hc : rtc (chanStep 1) (caughtUp x0) c).
  { eapply rtc_l; [apply (ch_handler 1 x0 x1 [] [] _ (step_nextIncarnation x0)); vm_compute; reflexivity|].
    eapply rtc_l; [apply (ch_handler 1 x1 x2 [NotifyJoin (evNode ea)] [] _ x2_step); vm_compute; reflexivity|].
    eapply rtc_l; [apply ch_send; simpl; lia|]. eapply rtc_l; [apply ch_take|].
    eapply rtc_l; [apply (ch_handler 1 x2 x3 [NotifyJoin (evNode eb)] [] _ x3_step); vm_compute; reflexivity|].
    eapply rtc_l; [apply ch_send; simpl; lia|]. apply rtc_once. apply ch_take. }
  exists c. split; [exact Hc|]. split; [reflexivity|].
  destruct (reader_knows_members 1 xconf xhooks c eq_refl Hc) as [_ H]. destruct (H eq_refl eq_refl) as [_ Hm].
  rewrite (Hm aState); [vm_compute; reflexivity|vm_compute; reflexivity|discriminate].
Defined.

End Events.
