(* ===== verification/Acks.v ===== *)
(** * Acknowledgements (state.go, net.go)

    The handlers that wait for the acknowledgement of a ping: of this node's own
    probes, which read a channel, and of the pings it forwards for others, whose
    acknowledgement it relays. Timers, channels and the goroutines that send
    nacks are data of the state; their firing is an operation. What is handed to
    the encoder goes to [outbox]. How these operations interleave with each other
    and with the calls that wait for an answer is in [Calls]. *)

From Stdlib Require Import ZArith Lia Strings.Byte.
From stdpp Require Import tactics base numbers strings gmap list.
From S2P Require Import Prelude Config.

Local Open Scope Z_scope.
Local Open Scope go_scope.

Module Acks.

(** [Address] of transport.go. *)
Record Address := mkAddress { Addr : bytes; Name : string }.

Record ping := mkPing {
  pSeqNo : Z;
  pNode : string;
  pSourceAddr : bytes;
  pSourcePort : Z;
  pSourceNode : string
}.

Record indirectPingReq := mkIndirect {
  iSeqNo : Z;
  iTarget : bytes;
  iPort : Z;
  iNode : string;
  iNack : bool;
  iSourceAddr : bytes;
  iSourcePort : Z;
  iSourceNode : string
}.

Record ackResp := mkAckResp { aSeqNo : Z; aPayload : bytes }.

Record nackResp := mkNackResp { nSeqNo : Z }.

Inductive wire :=
| WPing (p : ping)
| WIndirect (r : indirectPingReq)
| WAck (a : ackResp)
| WNack (n : nackResp).

Record ackMessage := mkAckMessage { Complete : bool; Payload : bytes; Timestamp : gotime }.

(** The two functions the code installs: [setProbeChannels] sends to a channel,
    [handleIndirectPing] closes its cancel channel and relays the ack. *)
Inductive ackFunc :=
| ToProbe (ackCh : nat)
| ToRequestor (cancelCh : nat) (a : Address) (seqNo : Z).

(** [nackFn] is [None] when the field is nil; the channel inside is [None] when
    the channel is nil, on which a send never proceeds. *)
Record ackHandler := mkAckHandler {
  ackFn : ackFunc;
  nackFn : option (option nat);
  timer : nat
}.

(** What a reaper does when its timer fires. *)
Record reaper := mkReaper { reapSeq : Z; reapCh : option nat }.

(** The goroutine that sends a nack unless it is cancelled first. *)
Record nacker := mkNacker { cancel : nat; nackAddr : Address; nackSeq : Z }.

(** [freshId] names the next timer, channel or goroutine; channels are buffers
    with their capacity. *)
Record ackState := mkAckState {
  sequenceNum : Z;
  ackHandlers : gmap Z ackHandler;
  timers : gmap nat reaper;
  ackChans : gmap nat (nat * list ackMessage);
  nackChans : gmap nat (nat * nat);
  closed : list nat;
  nackers : gmap nat nacker;
  outbox : list (Address * wire);
  freshId : nat
}.

Definition newAckState : ackState := mkAckState 0 ∅ ∅ ∅ ∅ [] ∅ [] 0.

Implicit Types s : ackState.

Definition setHandlers h s : ackState :=
  mkAckState (sequenceNum s) h (timers s) (ackChans s) (nackChans s) (closed s) (nackers s) (outbox s) (freshId s).

Definition setTimers t s : ackState :=
  mkAckState (sequenceNum s) (ackHandlers s) t (ackChans s) (nackChans s) (closed s) (nackers s) (outbox s)
    (freshId s).

Definition send (a : Address) (w : wire) s : ackState :=
  mkAckState (sequenceNum s) (ackHandlers s) (timers s) (ackChans s) (nackChans s) (closed s) (nackers s)
    (outbox s ++ [(a, w)]) (freshId s).

Definition setNackers g s : ackState :=
  mkAckState (sequenceNum s) (ackHandlers s) (timers s) (ackChans s) (nackChans s) (closed s) g (outbox s)
    (freshId s).

(** A fresh identifier. *)
Definition fresh s : nat * ackState :=
  (freshId s,
   mkAckState (sequenceNum s) (ackHandlers s) (timers s) (ackChans s) (nackChans s) (closed s) (nackers s)
     (outbox s) (S (freshId s))).

(** [make(chan ackMessage, cap)] and [make(chan struct{}, cap)]. *)
Definition makeAckChan (cap : nat) s : nat * ackState :=
  let '(ch, s) := fresh s in
  (ch, mkAckState (sequenceNum s) (ackHandlers s) (timers s) (<[ch := (cap, [])]> (ackChans s)) (nackChans s)
         (closed s) (nackers s) (outbox s) (freshId s)).

Definition makeNackChan (cap : nat) s : nat * ackState :=
  let '(ch, s) := fresh s in
  (ch, mkAckState (sequenceNum s) (ackHandlers s) (timers s) (ackChans s) (<[ch := (cap, O)]> (nackChans s))
         (closed s) (nackers s) (outbox s) (freshId s)).

(** [close]: closing a closed channel panics. *)
Definition closeChan (c : nat) s : outcome ackState :=
  if bool_decide (c ∈ closed s) then Panic "close of closed channel"
  else Ret (mkAckState (sequenceNum s) (ackHandlers s) (timers s) (ackChans s) (nackChans s) (c :: closed s)
              (nackers s) (outbox s) (freshId s)).

(** [select { case ch <- v: default: }] *)
Definition offerAck (ch : nat) (v : ackMessage) s : ackState :=
  match ackChans s !! ch with
  | None => s
  | Some (cap, l) =>
      if Nat.ltb (length l) cap
      then mkAckState (sequenceNum s) (ackHandlers s) (timers s) (<[ch := (cap, l ++ [v])]> (ackChans s))
             (nackChans s) (closed s) (nackers s) (outbox s) (freshId s)
      else s
  end.

Definition offerNack (ch : nat) s : ackState :=
  match nackChans s !! ch with
  | None => s
  | Some (cap, n) =>
      if Nat.ltb n cap
      then mkAckState (sequenceNum s) (ackHandlers s) (timers s) (ackChans s) (<[ch := (cap, S n)]> (nackChans s))
             (closed s) (nackers s) (outbox s) (freshId s)
      else s
  end.

(** ** Operations *)

Definition nextSeqNo s : Z * ackState :=
  let n := u32 (sequenceNum s + 1) in
  (n, mkAckState n (ackHandlers s) (timers s) (ackChans s) (nackChans s) (closed s) (nackers s) (outbox s)
        (freshId s)).

(** Storing a handler and starting its reaper, in one step: the code stores the
    handler first and sets its [timer] field after the lock is released. *)
Definition setHandler (seqNo : Z) (f : ackFunc) (nf : option (option nat)) (ch : option nat) s : ackState :=
  let '(t, s) := fresh s in
  setTimers (<[t := mkReaper seqNo ch]> (timers s))
    (setHandlers (<[seqNo := mkAckHandler f nf t]> (ackHandlers s)) s).

Definition setProbeChannels (seqNo : Z) (ackCh : nat) (nackCh : option nat) s : ackState :=
  setHandler seqNo (ToProbe ackCh) (Some nackCh) (Some ackCh) s.

Definition setAckHandler (seqNo : Z) (f : ackFunc) s : ackState :=
  setHandler seqNo f None None s.

(** The function given to [time.AfterFunc], in two parts: under the lock it removes
    the handler, then it tells the channel, if there is one. *)
Definition reapHandler (r : reaper) s : ackState := setHandlers (delete (reapSeq r) (ackHandlers s)) s.

Definition tellReaped (r : reaper) (now : gotime) s : ackState :=
  match reapCh r with
  | None => s
  | Some ch => offerAck ch (mkAckMessage false [] now) s
  end.

Definition runAckFn (f : ackFunc) (payload : bytes) (timestamp : gotime) s : outcome ackState :=
  match f with
  | ToProbe ch => Ret (offerAck ch (mkAckMessage true payload timestamp) s)
  | ToRequestor c a seqNo => let! s := closeChan c s in Ret (send a (WAck (mkAckResp seqNo [])) s)
  end.

(** [invokeAckHandler], in two parts: under the lock it takes the handler out of the
    map, then it stops the timer and calls the function. A timer that has fired
    already is not stopped. *)
Definition takeHandler (seqNo : Z) s : option ackHandler * ackState :=
  (ackHandlers s !! seqNo, setHandlers (delete seqNo (ackHandlers s)) s).

Definition runHandler (ah : ackHandler) (payload : bytes) (timestamp : gotime) s : outcome ackState :=
  runAckFn (ackFn ah) payload timestamp (setTimers (delete (timer ah) (timers s)) s).

Definition invokeAckHandler (ack : ackResp) (timestamp : gotime) s : outcome ackState :=
  let '(ah, s) := takeHandler (aSeqNo ack) s in
  match ah with
  | None => Ret s
  | Some ah => runHandler ah (aPayload ack) timestamp s
  end.

Definition invokeNackHandler (nack : nackResp) s : ackState :=
  match ackHandlers s !! nSeqNo nack with
  | None => s
  | Some ah =>
      match nackFn ah with
      | None => s
      | Some None => s
      | Some (Some ch) => offerNack ch s
      end
  end.

(** What a node says of itself in a ping: [getAdvertise] and its name. *)
Record identity := mkIdentity { advAddr : bytes; advPort : Z; advName : string }.

Definition pingFrom (me : identity) (seqNo : Z) (target : string) : ping :=
  mkPing seqNo target (advAddr me) (advPort me) (advName me).

(** The start of [probeNode]: the ping, its channels and its handler. *)
Definition startProbe (me : identity) (target : string) (indirectChecks : Z) s :
    outcome (ping * nat * nat * ackState) :=
  if indirectChecks + 1 <? 0 then Panic "makechan: size out of range"
  else
    let '(seqNo, s) := nextSeqNo s in
    let '(ackCh, s) := makeAckChan (Z.to_nat (indirectChecks + 1)) s in
    let '(nackCh, s) := makeNackChan (Z.to_nat (indirectChecks + 1)) s in
    Ret (pingFrom me seqNo target, ackCh, nackCh, setProbeChannels seqNo ackCh (Some nackCh) s).

(** The start of [Ping]: no nack channel; the ping is then sent. *)
Definition startPing (me : identity) (target : string) (to : bytes) (indirectChecks : Z) s :
    outcome (nat * ackState) :=
  if indirectChecks + 1 <? 0 then Panic "makechan: size out of range"
  else
    let '(seqNo, s) := nextSeqNo s in
    let '(ackCh, s) := makeAckChan (Z.to_nat (indirectChecks + 1)) s in
    let s := setProbeChannels seqNo ackCh None s in
    Ret (ackCh, send (mkAddress to target) (WPing (pingFrom me seqNo target)) s).

(** Where an answer goes: the address in the message, else the packet's source. *)
Definition replyAddr (sourceAddr : bytes) (sourcePort : Z) (from : bytes) : bytes :=
  if Nat.ltb 0 (length sourceAddr) && (sourcePort >? 0)
  then Config.joinHostPort (Config.ipString sourceAddr) sourcePort
  else from.

(** [handlePing]; [payload] is what the ping delegate's [AckPayload] returns, if
    there is a delegate. *)
Definition handlePing (me : identity) (payload : option bytes) (p : ping) (from : bytes) s : ackState :=
  if negb (bool_decide (pNode p = EmptyString)) && negb (bool_decide (pNode p = advName me)) then s
  else
    let ack := mkAckResp (pSeqNo p) (match payload with Some b => b | None => [] end) in
    send (mkAddress (replyAddr (pSourceAddr p) (pSourcePort p) from) (pSourceNode p)) (WAck ack) s.

Definition handleIndirectPing (c : Config.Config) (me : identity) (ind : indirectPingReq)
    (from : bytes) s : ackState :=
  let port := if (Config.ProtocolVersion c <? 2) || (iPort ind =? 0) then u16 (Config.BindPort c) else iPort ind in
  let '(localSeqNo, s) := nextSeqNo s in
  let indAddr := mkAddress (replyAddr (iSourceAddr ind) (iSourcePort ind) from) (iSourceNode ind) in
  let '(cancelCh, s) := fresh s in
  let s := setAckHandler localSeqNo (ToRequestor cancelCh indAddr (iSeqNo ind)) s in
  let s := send (mkAddress (Config.joinHostPort (Config.ipString (iTarget ind)) port) (iNode ind))
             (WPing (pingFrom me localSeqNo (iNode ind))) s in
  if iNack ind then
    let '(g, s) := fresh s in
    setNackers (<[g := mkNacker cancelCh indAddr (iSeqNo ind)]> (nackers s)) s
  else s.

(** The nack goroutine ends: silently when it is cancelled, else with a nack.
    [timedOut] tells whether its timer is ready; a cancelled goroutine whose timer
    is ready too may take either branch, which [pickTimer] decides. *)
Definition runNacker (g : nat) (timedOut pickTimer : bool) s : ackState :=
  match nackers s !! g with
  | None => s
  | Some k =>
      let cancelled := bool_decide (cancel k ∈ closed s) in
      let sent := setNackers (delete g (nackers s)) (send (nackAddr k) (WNack (mkNackResp (nackSeq k))) s) in
      let quiet := setNackers (delete g (nackers s)) s in
      if cancelled then (if timedOut && pickTimer then sent else quiet)
      else if timedOut then sent else s
  end.

End Acks.
