(* ===== verification/Calls.v ===== *)
(** * Probes and pings in flight (state.go, net.go)

    The system of the acknowledgement handlers and of everything that runs beside
    them: the calls of [probeNode] and [Ping] that wait on their channels, the timers
    and their functions, the functions of handlers that were taken for an
    acknowledgement, the goroutines that send nacks. A step is what happens between
    two points where the code can be interrupted. Each call, seen alone, is a small
    machine (its [cell]); the system is shown to move every cell as that machine
    does, and the theorems are proved there. *)

From Stdlib Require Import ZArith Lia Strings.Byte.
From stdpp Require Import tactics base numbers strings gmap list relations.
From S2P Require Import Prelude Config Acks.

Local Open Scope Z_scope.
Local Open Scope go_scope.

Module Calls.

Import Acks.

(** ** Calls *)

Inductive callKind := IsProbe | IsPing.

(** Where a call is: sending the ping, in the [select] on the channel and
    [ProbeTimeout], putting the reaper's message back, at HANDLE_REMOTE_FAILURE, in
    the second receive, polling the fallback channel, or returned. *)
Inductive callPc :=
| Sending
| Selecting
| Requeueing (v : ackMessage)
| Asking
| Receiving
| Polling
| Returned.

(** The channel [fallbackCh]: not made, with its goroutine running, or closed, with
    what the goroutine sent before. *)
Inductive fallbackState := FbNone | FbRunning | FbClosed (didContact : option bool).

(** [cseq] and [ctimer] are the sequence number and the timer of the call's handler. *)
Record call := mkCall { kind : callKind; cpc : callPc; tcp : fallbackState; cseq : Z; ctimer : nat }.

Definition goto (p : callPc) (cl : call) : call := mkCall (kind cl) p (tcp cl) (cseq cl) (ctimer cl).

Definition setTcp (f : fallbackState) (cl : call) : call := mkCall (kind cl) (cpc cl) f (cseq cl) (ctimer cl).

(** One step of [probeNode] or [Ping], or of the goroutine that pings over TCP, on
    the buffer of the call's channel of capacity [cap]. A receive needs a message, a
    send room in the buffer. [Ping] returns where [probeNode] goes on. *)
Inductive callStep (cap : nat) : call -> list ackMessage -> call -> list ackMessage -> Prop :=
| c_sent cl l : cpc cl = Sending -> callStep cap cl l (goto Selecting cl) l
| c_failedRemote cl l : cpc cl = Sending -> kind cl = IsProbe -> callStep cap cl l (goto Asking cl) l
| c_failedLocal cl l : cpc cl = Sending -> callStep cap cl l (goto Returned cl) l
| c_ack cl v l : cpc cl = Selecting -> Complete v = true -> callStep cap cl (v :: l) (goto Returned cl) l
| c_reaped cl v l : cpc cl = Selecting -> Complete v = false -> kind cl = IsProbe ->
    callStep cap cl (v :: l) (goto (Requeueing v) cl) l
| c_pingReaped cl v l : cpc cl = Selecting -> Complete v = false -> kind cl = IsPing ->
    callStep cap cl (v :: l) (goto Returned cl) l
| c_timeout cl l : cpc cl = Selecting -> kind cl = IsProbe -> callStep cap cl l (goto Asking cl) l
| c_pingTimeout cl l : cpc cl = Selecting -> kind cl = IsPing -> callStep cap cl l (goto Returned cl) l
| c_requeue cl v l : cpc cl = Requeueing v -> (length l < cap)%nat -> callStep cap cl l (goto Asking cl) (l ++ [v])
| c_ask cl (pings : bool) l : cpc cl = Asking ->
    callStep cap cl l (goto Receiving (setTcp (if pings then FbRunning else FbClosed None) cl)) l
| c_lateAck cl v l : cpc cl = Receiving -> Complete v = true -> callStep cap cl (v :: l) (goto Returned cl) l
| c_noAck cl v l : cpc cl = Receiving -> Complete v = false -> callStep cap cl (v :: l) (goto Polling cl) l
| c_polled cl r l : cpc cl = Polling -> tcp cl = FbClosed r -> callStep cap cl l (goto Returned cl) l
| c_fallback cl r l : tcp cl = FbRunning -> callStep cap cl l (setTcp (FbClosed r) cl) l.

(** ** The system *)

(** [firing] are the functions of the timers that have fired, by the timer, with
    whether the locked part is done; [invoking] the handlers that were taken for an
    acknowledgement and have yet to run, by their timer; [calls] the calls, by their
    channel. *)
Record system := mkSystem {
  acks : ackState;
  firing : gmap nat (reaper * bool);
  invoking : gmap nat (ackHandler * bytes * gotime);
  calls : gmap nat call
}.

Definition newSystem : system := mkSystem newAckState ∅ ∅ ∅.

Implicit Types y : system.

Definition setAcks (s : ackState) y : system := mkSystem s (firing y) (invoking y) (calls y).

Definition setAckChan (ch : nat) (x : nat * list ackMessage) (s : ackState) : ackState :=
  mkAckState (sequenceNum s) (ackHandlers s) (timers s) (<[ch := x]> (ackChans s)) (nackChans s) (closed s) (nackers s)
    (outbox s) (freshId s).

(** A call that has stored its handler, in state [s]. *)
Definition newCall (k : callKind) (s : ackState) : call :=
  mkCall k Sending FbNone (sequenceNum s)
    match ackHandlers s !! sequenceNum s with Some h => timer h | None => 0%nat end.

(** The channel of a handler's function. *)
Definition probeCh (f : ackFunc) : option nat :=
  match f with ToProbe ch => Some ch | ToRequestor _ _ _ => None end.

(** A step, with the channel of the call it serves: of the call itself, of its timer
    and of a handler that was taken for it. The others are new calls, messages, and
    the goroutines of forwarded pings. *)
Inductive sysStep (c : Config.Config) : option nat -> system -> system -> Prop :=
| sy_probe me target p ac nc s' y :
    startProbe me target (Config.IndirectChecks c) (acks y) = Ret (p, ac, nc, s') ->
    sysStep c None y (mkSystem s' (firing y) (invoking y) (<[ac := newCall IsProbe s']> (calls y)))
| sy_ping me target to ac s' y :
    startPing me target to (Config.IndirectChecks c) (acks y) = Ret (ac, s') ->
    sysStep c None y (mkSystem s' (firing y) (invoking y) (<[ac := newCall IsPing s']> (calls y)))
| sy_call ch cl cap l cl' l' y :
    calls y !! ch = Some cl -> ackChans (acks y) !! ch = Some (cap, l) -> callStep cap cl l cl' l' ->
    sysStep c (Some ch) y
      (mkSystem (setAckChan ch (cap, l') (acks y)) (firing y) (invoking y) (<[ch := cl']> (calls y)))
| sy_expire t r y :
    timers (acks y) !! t = Some r ->
    sysStep c (reapCh r) y
      (mkSystem (setTimers (delete t (timers (acks y))) (acks y)) (<[t := (r, false)]> (firing y)) (invoking y) (calls y))
| sy_reap t r y :
    firing y !! t = Some (r, false) ->
    sysStep c (reapCh r) y (mkSystem (reapHandler r (acks y)) (<[t := (r, true)]> (firing y)) (invoking y) (calls y))
| sy_tell t r now y :
    firing y !! t = Some (r, true) ->
    sysStep c (reapCh r) y (mkSystem (tellReaped r now (acks y)) (delete t (firing y)) (invoking y) (calls y))
| sy_ack ack ts h s' y :
    takeHandler (aSeqNo ack) (acks y) = (Some h, s') ->
    sysStep c None y (mkSystem s' (firing y) (<[timer h := (h, aPayload ack, ts)]> (invoking y)) (calls y))
| sy_run t h payload ts s' y :
    invoking y !! t = Some (h, payload, ts) -> runHandler h payload ts (acks y) = Ret s' ->
    sysStep c (probeCh (ackFn h)) y (mkSystem s' (firing y) (delete t (invoking y)) (calls y))
| sy_nack nack y : sysStep c None y (setAcks (invokeNackHandler nack (acks y)) y)
| sy_handlePing me payload p from y : sysStep c None y (setAcks (handlePing me payload p from (acks y)) y)
| sy_indirect me ind from y : sysStep c None y (setAcks (handleIndirectPing c me ind from (acks y)) y)
| sy_nacker g timedOut pickTimer y : sysStep c None y (setAcks (runNacker g timedOut pickTimer (acks y)) y).

Definition anyStep (c : Config.Config) (y y' : system) : Prop := exists o, sysStep c o y y'.

Definition reachable (c : Config.Config) : system -> Prop := rtc (anyStep c) newSystem.

(** ** The invariant *)

(** The handlers in the map, and those that were taken. *)
Definition held y (k : Z + nat) : option ackHandler :=
  match k with
  | inl n => ackHandlers (acks y) !! n
  | inr t => (fun x => x.1.1) <$> invoking y !! t
  end.

Definition noCall y (t : nat) : Prop := forall ch cl, calls y !! ch = Some cl -> ctimer cl <> t.

(** A function that is to run knows its call. *)
Definition serves y (t : nat) (o : option nat) : Prop :=
  match o with
  | Some ch => exists cl, calls y !! ch = Some cl /\ ctimer cl = t
  | None => noCall y t
  end.

Record inv y : Prop := {
  iv_reaper : forall t r, timers (acks y) !! t = Some r \/ (exists b, firing y !! t = Some (r, b)) ->
    (t < freshId (acks y))%nat /\ serves y t (reapCh r);
  iv_excl : forall t r, timers (acks y) !! t = Some r -> firing y !! t = None;
  iv_call : forall ch cl, calls y !! ch = Some cl -> (ch < freshId (acks y))%nat /\ (ctimer cl < freshId (acks y))%nat;
  iv_inj : forall ch cl ch' cl', calls y !! ch = Some cl -> calls y !! ch' = Some cl' -> ctimer cl = ctimer cl' -> ch = ch';
  iv_held : forall k h, held y k = Some h -> (timer h < freshId (acks y))%nat /\ serves y (timer h) (probeCh (ackFn h));
  iv_key : forall k h k' h', held y k = Some h -> held y k' = Some h' -> timer h = timer h' -> k = k';
  iv_seq : forall n h ch cl, ackHandlers (acks y) !! n = Some h -> calls y !! ch = Some cl -> timer h = ctimer cl ->
    n = cseq cl;
  iv_invoking : forall t h p ts, invoking y !! t = Some (h, p, ts) -> timer h = t;
  iv_open : forall k h c a q, held y k = Some h -> ackFn h = ToRequestor c a q ->
    (c ∉ closed (acks y)) /\ (c < freshId (acks y))%nat;
  iv_uniq : forall k h k' h' c a q a' q', held y k = Some h -> held y k' = Some h' ->
    ackFn h = ToRequestor c a q -> ackFn h' = ToRequestor c a' q' -> k = k';
  iv_nacker : forall k h c a q g n, held y k = Some h -> ackFn h = ToRequestor c a q ->
    nackers (acks y) !! g = Some n -> cancel n = c -> nackAddr n = a /\ nackSeq n = q;
  iv_relayed : forall g n, nackers (acks y) !! g = Some n -> cancel n ∈ closed (acks y) ->
    (nackAddr n, WAck (mkAckResp (nackSeq n) [])) ∈ outbox (acks y);
  iv_f_closed : forall c, c ∈ closed (acks y) -> (c < freshId (acks y))%nat;
  iv_f_nacker : forall g n, nackers (acks y) !! g = Some n -> (cancel n < freshId (acks y))%nat
}.

Lemma inv_newSystem : inv newSystem.
Proof.
  assert (Hh : forall k, held newSystem k = None) by (intros [n|t]; simpl; by rewrite lookup_empty).
  split; intros *; rewrite ?Hh; simpl; rewrite ?lookup_empty; try done; set_solver.
Qed.

(** The calls are the same but for where they are. *)
Definition sameCalls y y' : Prop :=
  forall ch, (fun cl => (cseq cl, ctimer cl)) <$> calls y' !! ch = (fun cl => (cseq cl, ctimer cl)) <$> calls y !! ch.

Lemma sameCalls_serves y y' t o : sameCalls y y' -> serves y t o -> serves y' t o.
Proof.
  intros Hc. destruct o as [ch|]; simpl.
  - intros (cl & Hcl & Ht). specialize (Hc ch). rewrite Hcl in Hc. destruct (calls y' !! ch) as [cl'|]; [|done].
    simpl in Hc. exists cl'. split; [done|]. congruence.
  - intros Hn ch cl' Hcl. specialize (Hc ch). rewrite Hcl in Hc. destruct (calls y !! ch) as [cl|] eqn:E; [|done].
    simpl in Hc. apply Hn in E. congruence.
Qed.

(** A change that removes timers, functions and handlers, or takes a handler from one
    place ([f k]) to another ([k]), and that moves calls. *)
Lemma inv_less (f : Z + nat -> Z + nat) y y' :
  inv y -> sameCalls y y' ->
  (forall t r, timers (acks y') !! t = Some r \/ (exists b, firing y' !! t = Some (r, b)) ->
     timers (acks y) !! t = Some r \/ (exists b, firing y !! t = Some (r, b))) ->
  (forall t r, timers (acks y') !! t = Some r -> firing y' !! t = None) ->
  (forall k h, held y' k = Some h -> held y (f k) = Some h) ->
  (forall k h k' h', held y' k = Some h -> held y' k' = Some h' -> f k = f k' -> k = k') ->
  (forall n h, ackHandlers (acks y') !! n = Some h -> ackHandlers (acks y) !! n = Some h) ->
  (forall t h p ts, invoking y' !! t = Some (h, p, ts) -> timer h = t) ->
  closed (acks y') = closed (acks y) ->
  (forall g n, nackers (acks y') !! g = Some n -> nackers (acks y) !! g = Some n) ->
  (forall x, x ∈ outbox (acks y) -> x ∈ outbox (acks y')) -> (freshId (acks y) <= freshId (acks y'))%nat ->
  inv y'.
Proof.
  intros Hi Hc Ht He Hh Hf Hm Hv Hcl Hn Ho Hid.
  assert (Hback : forall ch cl', calls y' !! ch = Some cl' -> exists cl, calls y !! ch = Some cl /\ cseq cl = cseq cl' /\ ctimer cl = ctimer cl').
  { intros ch cl' E. specialize (Hc ch). rewrite E in Hc. destruct (calls y !! ch) as [cl|]; [|done]. simpl in Hc. exists cl. split; [done|].
    by injection Hc as -> ->. }
  split; [|exact He|..].
  - intros t r Hr. destruct (iv_reaper y Hi t r) as [Hlt Hs]; [by apply Ht|split; [lia|by apply (sameCalls_serves y)]].
  - intros ch cl' (cl & Hcl' & _ & Et)%Hback. destruct (iv_call y Hi _ _ Hcl'). split; lia.
  - intros ch cl ch' cl' (x & Hx & _ & Ex)%Hback (x' & Hx' & _ & Ex')%Hback E. eapply (iv_inj y Hi); [exact Hx|exact Hx'|congruence].
  - intros k h Hk. apply Hh in Hk. destruct (iv_held y Hi _ _ Hk). split; [lia|]. by apply (sameCalls_serves y).
  - intros k h k' h' Hk Hk' E. eapply Hf; [done..|]. by apply (iv_key y Hi _ h _ h'); [apply Hh|apply Hh|].
  - intros n h ch cl Hnh (x & Hx & <- & Ex)%Hback E. eapply (iv_seq y Hi); [by apply Hm|exact Hx|congruence].
  - exact Hv.
  - intros k h c a q Hk%Hh Hq. rewrite Hcl. destruct (iv_open y Hi _ _ _ _ _ Hk Hq). split; [done|lia].
  - intros k h k' h' c a q a' q' Hk Hk' Hq Hq'. eapply Hf; [done..|]. by apply (iv_uniq y Hi _ h _ h' c a q a' q'); [apply Hh|apply Hh| |].
  - intros k h c a q g n Hk%Hh Hq Hg%Hn. by eapply (iv_nacker y Hi).
  - intros g n Hg%Hn. rewrite Hcl. intros Hx. apply Ho. by apply (iv_relayed y Hi g).
  - intros c. rewrite Hcl. intros Hx%(iv_f_closed y Hi). lia.
  - intros g n Hg%Hn. apply (iv_f_nacker y Hi) in Hg. lia.
Qed.

Lemma sameCalls_refl y y' : calls y' = calls y -> sameCalls y y'.
Proof. intros E ch. by rewrite E. Qed.

(** Changes of the other fields of the state. *)
Lemma inv_quiet y s' :
  inv y -> ackHandlers s' = ackHandlers (acks y) -> timers s' = timers (acks y) -> closed s' = closed (acks y) ->
  nackers s' = nackers (acks y) -> (forall x, x ∈ outbox (acks y) -> x ∈ outbox s') -> (freshId (acks y) <= freshId s')%nat ->
  inv (setAcks s' y).
Proof.
  intros Hi Eh Et Ec En Ho Hf. apply (inv_less id y); try done; simpl; rewrite ?Eh, ?Et, ?En; try done.
  - apply (iv_excl y Hi).
  - intros [n|t] h; simpl; by rewrite ?Eh.
  - apply (iv_invoking y Hi).
Qed.

(** The channel that a function uses. *)
Definition chanOf (f : ackFunc) : nat := match f with ToProbe ch => ch | ToRequestor c _ _ => c end.

Definition addCall (k : callKind) (n : Z) (t : nat) (f : ackFunc) (cs : gmap nat call) : gmap nat call :=
  match f with ToProbe ch => <[ch := mkCall k Sending FbNone n t]> cs | ToRequestor _ _ _ => cs end.

(** Storing a new handler, with a new timer and a new channel, and for a probe or
    ping the new call. *)
Lemma inv_add y s' k n f nf t :
  inv y ->
  (freshId (acks y) <= chanOf f < freshId s')%nat -> (freshId (acks y) <= t < freshId s')%nat ->
  ackHandlers s' = <[n := mkAckHandler f nf t]> (ackHandlers (acks y)) ->
  timers s' = <[t := mkReaper n (probeCh f)]> (timers (acks y)) ->
  closed s' = closed (acks y) -> (forall x, x ∈ outbox (acks y) -> x ∈ outbox s') ->
  (forall g x, nackers s' !! g = Some x -> nackers (acks y) !! g = Some x \/
     exists c a q, f = ToRequestor c a q /\ x = mkNacker c a q) ->
  inv (mkSystem s' (firing y) (invoking y) (addCall k n t f (calls y))).
Proof.
  intros Hi Hch Ht Eh Et Ec Ho Hn. set (y' := mkSystem _ _ _ _).
  assert (Hcalls : forall ch cl, calls y' !! ch = Some cl ->
    (f = ToProbe ch /\ cl = mkCall k Sending FbNone n t) \/ ((ch < freshId (acks y))%nat /\ calls y !! ch = Some cl)).
  { intros ch cl. simpl. destruct f as [ch0|c0 a0 q0]; simpl in *.
    - intros [[<- <-]|[_ E]]%lookup_insert_Some; [by left|right]. split; [|done]. by apply (iv_call y Hi) in E as [? _].
    - intros E. right. split; [|done]. by apply (iv_call y Hi) in E as [? _]. }
  assert (Hserves : forall t' o, (t' < freshId (acks y))%nat -> serves y t' o -> serves y' t' o).
  { intros t' [ch|] Hlt; simpl.
    - intros (cl & Hcl & E). exists cl. split; [|done]. destruct f as [ch0|]; simpl in *; [|done].
      rewrite lookup_insert_ne; [done|]. apply (iv_call y Hi) in Hcl as [? _]. lia.
    - intros Hno ch cl [[_ ->]|[_ E]]%Hcalls; simpl; [lia|by eapply Hno]. }
  assert (Hnew : serves y' t (probeCh f)).
  { destruct f as [ch|c a q]; simpl; [eexists; split; [apply lookup_insert_eq|done]|].
    intros ch cl Hcl. apply (iv_call y Hi) in Hcl as [_ ?]. lia. }
  assert (Hheld : forall j h, held y' j = Some h -> (j = inl n /\ h = mkAckHandler f nf t) \/ held y j = Some h).
  { intros [n'|t'] h; simpl; [|by right]. rewrite Eh. intros [[<- <-]|[_ E]]%lookup_insert_Some; [by left|by right]. }
  split; simpl.
  - intros t' r [Hr|[b Hr]].
    + rewrite Et in Hr. apply lookup_insert_Some in Hr as [[<- <-]|[_ Hr]]; [split; [lia|done]|].
      destruct (iv_reaper y Hi t' r) as [Hlt Hs]; [by left|]. split; [lia|by apply Hserves].
    + destruct (iv_reaper y Hi t' r) as [Hlt Hs]; [right; by exists b|]. split; [lia|by apply Hserves].
  - intros t' r. rewrite Et. intros [[<- _]|[_ Hr]]%lookup_insert_Some; [|by apply (iv_excl y Hi) in Hr].
    destruct (firing y !! t) as [[r' b]|] eqn:E; [|done]. destruct (iv_reaper y Hi t r') as [Hlt _]; [right; by exists b|lia].
  - intros ch cl [[-> ->]|[_ E]]%Hcalls; simpl in *; [lia|]. destruct (iv_call y Hi _ _ E). lia.
  - intros ch cl ch' cl' [[-> ->]|[_ E]]%Hcalls [[E' ->]|[_ E']]%Hcalls; simpl; try congruence.
    + destruct (iv_call y Hi _ _ E'). lia.
    + destruct (iv_call y Hi _ _ E). lia.
    + by apply (iv_inj y Hi ch cl ch' cl').
  - intros j h [[-> ->]|E]%Hheld; simpl; [split; [lia|done]|]. destruct (iv_held y Hi _ _ E). split; [lia|by apply Hserves].
  - intros j h j' h' [[-> ->]|E]%Hheld [[-> ->]|E']%Hheld; simpl; intros Htt; try done.
    + destruct (iv_held y Hi _ _ E'). lia.
    + destruct (iv_held y Hi _ _ E). lia.
    + by apply (iv_key y Hi j h j' h').
  - intros n' h ch cl Hh Hcl Htt. destruct (Hheld (inl n') h Hh) as [[[= ->] ->]|E]; apply Hcalls in Hcl as [[_ ->]|[_ Hcl]]; simpl in *; try done.
    + destruct (iv_call y Hi _ _ Hcl). lia.
    + destruct (iv_held y Hi (inl n') _ E). lia.
    + by apply (iv_seq y Hi n' h ch cl).
  - by apply (iv_invoking y Hi).
  - intros j h c a q [[-> ->]|E]%Hheld Hq; rewrite Ec; simpl in *.
    + subst f. simpl in *. split; [|lia]. intros Hx%(iv_f_closed y Hi). lia.
    + destruct (iv_open y Hi _ _ _ _ _ E Hq). split; [done|lia].
  - intros j h j' h' c a q a' q' [[-> ->]|E]%Hheld [[-> ->]|E']%Hheld; simpl; intros Hq Hq'; try done.
    + subst f. simpl in *. destruct (iv_open y Hi _ _ _ _ _ E' Hq'). lia.
    + subst f. simpl in *. destruct (iv_open y Hi _ _ _ _ _ E Hq). lia.
    + by apply (iv_uniq y Hi j h j' h' c a q a' q').
  - intros j h c a q g x Hj Hq Hx Hcx. apply Hn in Hx as [Hx|(c' & a' & q' & -> & ->)]; apply Hheld in Hj as [[-> ->]|E]; simpl in *.
    + subst f. simpl in *. apply (iv_f_nacker y Hi) in Hx. lia.
    + by apply (iv_nacker y Hi j h c a q g x).
    + by injection Hq as -> -> ->.
    + destruct (iv_open y Hi _ _ _ _ _ E Hq). lia.
  - intros g x [Hx|(c' & a' & q' & -> & ->)]%Hn; rewrite Ec; simpl; [intros Hc; apply Ho; by apply (iv_relayed y Hi g)|].
    intros Hc%(iv_f_closed y Hi). simpl in *. lia.
  - intros c. rewrite Ec. intros Hc%(iv_f_closed y Hi). lia.
  - intros g x [Hx|(c' & a' & q' & -> & ->)]%Hn; simpl in *; [apply (iv_f_nacker y Hi) in Hx; lia|lia].
Qed.

Lemma inv_probe c me target p ac nc s' y :
  inv y -> startProbe me target (Config.IndirectChecks c) (acks y) = Ret (p, ac, nc, s') ->
  inv (mkSystem s' (firing y) (invoking y) (<[ac := newCall IsProbe s']> (calls y))).
Proof.
  intros Hi E. unfold startProbe in E. case_match; [done|]. simpl in E. injection E as <- <- <- <-.
  unfold newCall. simpl. rewrite lookup_insert_eq.
  apply (inv_add y _ IsProbe _ (ToProbe (freshId (acks y))) (Some (Some (S (freshId (acks y))))) (S (S (freshId (acks y)))));
    simpl; try done; try lia. by left.
Qed.

Lemma inv_ping c me target to ac s' y :
  inv y -> startPing me target to (Config.IndirectChecks c) (acks y) = Ret (ac, s') ->
  inv (mkSystem s' (firing y) (invoking y) (<[ac := newCall IsPing s']> (calls y))).
Proof.
  intros Hi E. unfold startPing in E. case_match; [done|]. simpl in E. injection E as <- <-.
  unfold newCall. simpl. rewrite lookup_insert_eq.
  apply (inv_add y _ IsPing _ (ToProbe (freshId (acks y))) (Some None) (S (freshId (acks y))));
    simpl; try done; try lia; [set_solver|by left].
Qed.

Lemma inv_indirect c me ind from y : inv y -> inv (setAcks (handleIndirectPing c me ind from (acks y)) y).
Proof.
  intros Hi. unfold handleIndirectPing. simpl. set (a := mkAddress (replyAddr _ _ from) _). set (f := freshId (acks y)).
  destruct (iNack ind);
    apply (inv_add y _ IsProbe (u32 (sequenceNum (acks y) + 1)) (ToRequestor f a (iSeqNo ind)) None (S f)); simpl; try done; try lia; try set_solver.
  intros g x [[_ <-]|[_ Hx]]%lookup_insert_Some; [right; eauto|by left].
Qed.

Lemma callStep_same cap cl l cl' l' : callStep cap cl l cl' l' -> cseq cl' = cseq cl /\ ctimer cl' = ctimer cl.
Proof. by destruct 1. Qed.

Lemma inv_call ch cl cap l cl' l' y :
  inv y -> calls y !! ch = Some cl -> callStep cap cl l cl' l' ->
  inv (mkSystem (setAckChan ch (cap, l') (acks y)) (firing y) (invoking y) (<[ch := cl']> (calls y))).
Proof.
  intros Hi Hcl [Es Et]%callStep_same. apply (inv_less id y); try done.
  - intros ch'. simpl. destruct (decide (ch = ch')) as [<-|]; [|by rewrite lookup_insert_ne].
    rewrite lookup_insert_eq, Hcl. simpl. by rewrite Es, Et.
  - apply (iv_excl y Hi).
  - apply (iv_invoking y Hi).
Qed.

Lemma sys_expire t r y :
  inv y -> timers (acks y) !! t = Some r ->
  inv (mkSystem (setTimers (delete t (timers (acks y))) (acks y)) (<[t := (r, false)]> (firing y)) (invoking y) (calls y)).
Proof.
  intros Hi Hr. apply (inv_less id y); try done; simpl.
  - intros t' r' [[_ ?]%lookup_delete_Some|[b [[<- [= <- _]]|[_ ?]]%lookup_insert_Some]]; eauto.
  - intros t' r' [Hne Hr']%lookup_delete_Some. rewrite lookup_insert_ne by done. by eapply (iv_excl y Hi).
  - apply (iv_invoking y Hi).
Qed.

Lemma inv_reap t r y :
  inv y -> firing y !! t = Some (r, false) ->
  inv (mkSystem (reapHandler r (acks y)) (<[t := (r, true)]> (firing y)) (invoking y) (calls y)).
Proof.
  intros Hi Hr. apply (inv_less id y); try done; simpl.
  - intros t' r' [?|[b [[<- [= <- _]]|[_ ?]]%lookup_insert_Some]]; eauto.
  - intros t' r' Hr'. rewrite lookup_insert_ne; [by eapply (iv_excl y Hi)|]. intros <-. by rewrite (iv_excl y Hi _ _ Hr') in Hr.
  - intros [n|t'] h; simpl; [|done]. by intros [_ ?]%lookup_delete_Some.
  - by intros n h [_ ?]%lookup_delete_Some.
  - apply (iv_invoking y Hi).
Qed.

Lemma offerAck_rest ch v s : exists cs,
  offerAck ch v s = mkAckState (sequenceNum s) (ackHandlers s) (timers s) cs (nackChans s) (closed s) (nackers s)
                      (outbox s) (freshId s).
Proof. destruct s. unfold offerAck. repeat case_match; by eexists. Qed.

Lemma tellReaped_rest r now s : exists cs,
  tellReaped r now s = mkAckState (sequenceNum s) (ackHandlers s) (timers s) cs (nackChans s) (closed s) (nackers s)
                      (outbox s) (freshId s).
Proof. unfold tellReaped. destruct (reapCh r); [apply offerAck_rest|]. destruct s. by eexists. Qed.

Lemma inv_tell t r now y :
  inv y -> inv (mkSystem (tellReaped r now (acks y)) (delete t (firing y)) (invoking y) (calls y)).
Proof.
  intros Hi. destruct (tellReaped_rest r now (acks y)) as [cs ->]. apply (inv_less id y); try done; simpl.
  - intros t' r' [?|[b [_ ?]%lookup_delete_Some]]; eauto.
  - intros t' r' Hr'. apply lookup_delete_None. right. by eapply (iv_excl y Hi).
  - apply (iv_invoking y Hi).
Qed.

Lemma inv_ack ack ts h s' y :
  inv y -> takeHandler (aSeqNo ack) (acks y) = (Some h, s') ->
  inv (mkSystem s' (firing y) (<[timer h := (h, aPayload ack, ts)]> (invoking y)) (calls y)).
Proof.
  intros Hi [= Hh <-]. set (n := aSeqNo ack) in *.
  apply (inv_less (fun k => if decide (k = inr (timer h)) then inl n else k) y); try done; simpl.
  - apply (iv_excl y Hi).
  - intros [n'|t] h'; simpl.
    + by intros [_ ?]%lookup_delete_Some.
    + rewrite lookup_insert. repeat case_decide; simplify_eq/=; try done. by intros [= <-].
  - intros [n1|t1] h1 [n2|t2] h2; simpl; repeat case_decide; simplify_eq; try done.
    + intros [? _]%lookup_delete_Some _. congruence.
    + intros _ [? _]%lookup_delete_Some. congruence.
  - by intros n' h' [_ ?]%lookup_delete_Some.
  - intros t h' p ts' [[<- [= <- _ _]]|[_ E]]%lookup_insert_Some; [done|by apply (iv_invoking y Hi) in E].
Qed.

(** A cancel channel is closed, and the acknowledgement sent. *)
Lemma inv_closeCh c a q y :
  inv y -> (c < freshId (acks y))%nat -> (forall k h a' q', held y k = Some h -> ackFn h <> ToRequestor c a' q') ->
  (forall g n, nackers (acks y) !! g = Some n -> cancel n = c -> nackAddr n = a /\ nackSeq n = q) ->
  let s := acks y in
  inv (setAcks (send a (WAck (mkAckResp q [])) (mkAckState (sequenceNum s) (ackHandlers s) (timers s) (ackChans s) (nackChans s)
    (c :: closed s) (nackers s) (outbox s) (freshId s))) y).
Proof.
  intros Hi Hc Hno Hn s. destruct Hi. split; simpl; try done.
  - intros k h c' a' q' Hk Hq. destruct (iv_open0 k h c' a' q' Hk Hq). split; [|done]. apply not_elem_of_cons. split; [|done].
    intros ->. by eapply Hno.
  - intros g n Hg [Hcn|Hin]%elem_of_cons.
    + destruct (Hn g n Hg Hcn) as [-> ->]. set_solver.
    + specialize (iv_relayed0 g n Hg Hin). set_solver.
  - intros c' [->|Hin]%elem_of_cons; [done|by apply iv_f_closed0].
Qed.

(** A handler that was taken runs without a panic. *)
Lemma runHandler_ok t h payload ts y :
  inv y -> invoking y !! t = Some (h, payload, ts) ->
  exists s', runHandler h payload ts (acks y) = Ret s' /\
    inv (mkSystem s' (firing y) (delete t (invoking y)) (calls y)).
Proof.
  intros Hi Hv. pose proof (iv_invoking y Hi _ _ _ _ Hv) as Et. assert (Hk : held y (inr t) = Some h) by (simpl; by rewrite Hv).
  set (y1 := mkSystem (setTimers (delete (timer h) (timers (acks y))) (acks y)) (firing y) (delete t (invoking y)) (calls y)).
  assert (Hi1 : inv y1).
  { apply (inv_less id y); try done; simpl.
    - intros t' r' [[_ ?]%lookup_delete_Some|?]; eauto.
    - intros t' r' [_ ?]%lookup_delete_Some. by eapply (iv_excl y Hi).
    - intros [n|t'] h'; simpl; [done|]. rewrite lookup_delete. case_decide; done.
    - intros t' h' p' ts' [_ E]%lookup_delete_Some. by apply (iv_invoking y Hi) in E. }
  unfold runHandler, runAckFn. destruct (ackFn h) as [ch|c a q] eqn:Ef.
  - eexists. split; [done|]. destruct (offerAck_rest ch (mkAckMessage true payload ts) (acks y1)) as [cs E]. simpl in E. rewrite E.
    by apply (inv_quiet y1).
  - destruct (iv_open y Hi _ _ _ _ _ Hk Ef) as [Hcl Hlt]. unfold closeChan. simpl. rewrite bool_decide_false by done. eexists. split; [done|].
    apply (inv_closeCh c a q y1); [done|done| |].
    + intros k h' a' q' Hk' Hq. assert (Hky : held y k = Some h').
      { destruct k as [n|t']; simpl in *; [done|]. rewrite lookup_delete in Hk'. by case_decide. }
      assert (k = inr t) as -> by (by eapply (iv_uniq y Hi)). simpl in Hk'. by rewrite lookup_delete_eq in Hk'.
    + intros g n Hg Hcn. by eapply (iv_nacker y Hi).
Qed.

Lemma inv_dropNacker g y s :
  inv (setAcks s y) -> inv (setAcks (setNackers (delete g (nackers s)) s) y).
Proof.
  intros Hi. apply (inv_less id (setAcks s y)); try done; simpl.
  - apply (iv_excl _ Hi).
  - apply (iv_invoking _ Hi).
  - by intros g' n [_ ?]%lookup_delete_Some.
Qed.

Lemma inv_runNacker g r p y : inv y -> inv (setAcks (runNacker g r p (acks y)) y).
Proof.
  intros Hi. assert (Hi0 : inv (setAcks (acks y) y)) by (by destruct y). unfold runNacker. destruct (nackers (acks y) !! g) as [k|]; [|done].
  pose proof (inv_dropNacker g y _ Hi0) as H2.
  assert (H1 : inv (setAcks (send (nackAddr k) (WNack (mkNackResp (nackSeq k))) (acks y)) y)).
  { apply inv_quiet; try done. simpl. set_solver. }
  apply (inv_dropNacker g) in H1. simpl in H1. repeat case_match; done.
Qed.

Lemma sysStep_inv c o y y' : sysStep c o y y' -> inv y -> inv y'.
Proof.
  intros Hst Hi. destruct Hst; eauto using inv_probe, inv_ping, inv_call, sys_expire, inv_reap, inv_tell, inv_ack, inv_indirect, inv_runNacker.
  - destruct (runHandler_ok t h payload ts y) as (s2 & E2 & Hs2); [done..|]. congruence.
  - apply inv_quiet; try done; unfold invokeNackHandler, offerNack; by repeat case_match.
  - apply inv_quiet; try done; unfold handlePing; case_match; simpl; try done. set_solver.
Qed.

Lemma reachable_callsInv c y : reachable c y -> inv y.
Proof.
  intros Hr. assert (Hi := inv_newSystem). unfold reachable in Hr.
  induction Hr as [|y0 y1 y2 [o Hst] _ IH]; [done|]. by eapply IH, sysStep_inv.
Qed.

(** ** One call alone *)

(** A call with its channel, the steps its reaper has still to make (3 while the timer
    runs), and those of its handler (2 in the map, 1 taken). *)
Record cell := mkCell { self : call; cap : nat; buf : list ackMessage; reaper_ : nat; acker : nat }.

Definition reaperLeft y (t : nat) : nat :=
  match timers (acks y) !! t, firing y !! t with
  | Some _, _ => 3
  | None, Some (_, false) => 2
  | None, Some (_, true) => 1
  | None, None => 0
  end.

Definition ackLeft y (cl : call) : nat :=
  match invoking y !! ctimer cl, ackHandlers (acks y) !! cseq cl with
  | Some _, _ => 1
  | None, Some h => if bool_decide (timer h = ctimer cl) then 2 else 0
  | None, None => 0
  end.

Definition cellOf y (ch : nat) : option cell :=
  match calls y !! ch, ackChans (acks y) !! ch with
  | Some cl, Some (cap, l) => Some (mkCell cl cap l (reaperLeft y (ctimer cl)) (ackLeft y cl))
  | _, _ => None
  end.

(** [select { case ch <- v: default: }] on the buffer. *)
Definition offered (v : ackMessage) (cap : nat) (l : list ackMessage) : list ackMessage :=
  if Nat.ltb (length l) cap then l ++ [v] else l.

(** The handler is still there, or it was removed from the map. *)
Definition keptOrGone (a a' : nat) : Prop := a' = a \/ (a = 2%nat /\ a' = 0%nat).

(** The steps of a cell; [own] are those that serve the call. *)
Inductive cellStep : bool -> cell -> cell -> Prop :=
| cs_other cl n l r a a' : keptOrGone a a' -> cellStep false (mkCell cl n l r a) (mkCell cl n l r a')
| cs_taken cl n l r : cellStep false (mkCell cl n l r 2) (mkCell cl n l r 1)
| cs_call cl n l r a cl' l' : callStep n cl l cl' l' -> cellStep true (mkCell cl n l r a) (mkCell cl' n l' r a)
| cs_expire cl n l a : cellStep true (mkCell cl n l 3 a) (mkCell cl n l 2 a)
| cs_reap cl n l a a' : keptOrGone a a' -> cellStep true (mkCell cl n l 2 a) (mkCell cl n l 1 a')
| cs_tell cl n l a now : cellStep true (mkCell cl n l 1 a) (mkCell cl n (offered (mkAckMessage false [] now) n l) 0 a)
| cs_run cl n l r r' payload ts : r' = r \/ (r = 3%nat /\ r' = 0%nat) ->
    cellStep true (mkCell cl n l r 1) (mkCell cl n (offered (mkAckMessage true payload ts) n l) r' 0).

(** *** The system moves cells as specified *)

Lemma offerAck_chan ch v s ch' :
  ackChans (offerAck ch v s) !! ch' =
    if decide (ch = ch') then (fun x => (x.1, offered v x.1 x.2)) <$> ackChans s !! ch' else ackChans s !! ch'.
Proof.
  unfold offerAck, offered. destruct (decide (ch = ch')) as [<-|Hne].
  - destruct (ackChans s !! ch) as [[n l]|] eqn:E; [|by rewrite E]. simpl.
    destruct (Nat.ltb (length l) n); simpl; [by rewrite lookup_insert_eq|done].
  - destruct (ackChans s !! ch) as [[n l]|] eqn:E; [|done]. destruct (Nat.ltb (length l) n); [|done]. simpl. by rewrite lookup_insert_ne.
Qed.

(** A handler that is removed or replaced by one with another timer. *)
Lemma ackLeft_less y y' cl :
  invoking y' !! ctimer cl = invoking y !! ctimer cl ->
  (ackHandlers (acks y') !! cseq cl = ackHandlers (acks y) !! cseq cl \/
   forall h, ackHandlers (acks y') !! cseq cl = Some h -> timer h <> ctimer cl) ->
  keptOrGone (ackLeft y cl) (ackLeft y' cl).
Proof.
  unfold ackLeft, keptOrGone. intros -> [->|Hh]; [by left|]. destruct (invoking y !! ctimer cl); [by left|].
  assert (E : match ackHandlers (acks y') !! cseq cl with
              | Some h => if bool_decide (timer h = ctimer cl) then 2%nat else 0%nat | None => 0%nat end = 0%nat).
  { destruct (ackHandlers (acks y') !! cseq cl) as [h|]; [|done]. rewrite bool_decide_false; [done|by apply Hh]. }
  rewrite E. destruct (ackHandlers (acks y) !! cseq cl) as [h|]; [|by left]. case_bool_decide; auto.
Qed.

(** A step that leaves the call, its channel and its reaper alone. *)
Lemma cell_other y y' ch cl n l :
  calls y' !! ch = Some cl -> ackChans (acks y') !! ch = Some (n, l) ->
  timers (acks y') !! ctimer cl = timers (acks y) !! ctimer cl -> firing y' !! ctimer cl = firing y !! ctimer cl ->
  keptOrGone (ackLeft y cl) (ackLeft y' cl) ->
  exists x', cellOf y' ch = Some x' /\ cellStep false (mkCell cl n l (reaperLeft y (ctimer cl)) (ackLeft y cl)) x'.
Proof.
  intros Hc Hl Ht Hf Hk. unfold cellOf. rewrite Hc, Hl. eexists. split; [done|].
  replace (reaperLeft y' (ctimer cl)) with (reaperLeft y (ctimer cl)) by (unfold reaperLeft; by rewrite Ht, Hf).
  by constructor.
Qed.

(** Storing a handler with a new timer. *)
Lemma cell_new y s' cs n f nf t m0 ch cl m l :
  inv y -> calls y !! ch = Some cl -> ackChans (acks y) !! ch = Some (m, l) ->
  cs !! ch = calls y !! ch -> ackChans s' !! ch = ackChans (acks y) !! ch -> (freshId (acks y) <= t)%nat ->
  ackHandlers s' = <[n := mkAckHandler f nf t]> (ackHandlers (acks y)) -> timers s' = <[t := m0]> (timers (acks y)) ->
  exists x', cellOf (mkSystem s' (firing y) (invoking y) cs) ch = Some x' /\
    cellStep false (mkCell cl m l (reaperLeft y (ctimer cl)) (ackLeft y cl)) x'.
Proof.
  intros Hi Hcl Hl Ecs Ech Ht Eh Et. destruct (iv_call y Hi _ _ Hcl) as [_ Hlt].
  apply cell_other; simpl; try congruence.
  - rewrite Et. apply lookup_insert_ne. lia.
  - apply ackLeft_less; [done|]. simpl. rewrite Eh. destruct (decide (n = cseq cl)) as [->|]; [right|left; by apply lookup_insert_ne].
    rewrite lookup_insert_eq. intros h [= <-]. simpl. lia.
Qed.

(** The step [y'] of the system, labelled [o], moves the cell of [ch]. *)
Definition moves y y' (o : option nat) (ch : nat) : Prop :=
  forall x, cellOf y ch = Some x -> exists x', cellOf y' ch = Some x' /\ cellStep (bool_decide (o = Some ch)) x x'.

Lemma cellOf_Some y ch x :
  cellOf y ch = Some x -> exists cl n l, calls y !! ch = Some cl /\ ackChans (acks y) !! ch = Some (n, l) /\
    x = mkCell cl n l (reaperLeft y (ctimer cl)) (ackLeft y cl).
Proof.
  unfold cellOf. destruct (calls y !! ch) as [cl|]; [|done]. destruct (ackChans (acks y) !! ch) as [[n l]|]; [|done].
  intros [= <-]. by exists cl, n, l.
Qed.

Ltac open_cell Hcl Hl :=
  let x := fresh "x" in
  intros x; let E := fresh "E" in intros E; apply cellOf_Some in E as (cl & n & l & Hcl & Hl & ->).

Lemma moves_start c me target p ac nc s' ch y :
  inv y -> startProbe me target (Config.IndirectChecks c) (acks y) = Ret (p, ac, nc, s') ->
  moves y (mkSystem s' (firing y) (invoking y) (<[ac := newCall IsProbe s']> (calls y))) None ch.
Proof.
  intros Hi E. open_cell Hcl Hl. unfold startProbe in E. case_match; [done|]. simpl in E. injection E as <- <- <- <-.
  destruct (iv_call y Hi _ _ Hcl). eapply cell_new; [done..| | | |reflexivity|reflexivity]; simpl; rewrite ?lookup_insert_ne by lia; done || lia.
Qed.

Lemma moves_ping c me target to ac s' ch y :
  inv y -> startPing me target to (Config.IndirectChecks c) (acks y) = Ret (ac, s') ->
  moves y (mkSystem s' (firing y) (invoking y) (<[ac := newCall IsPing s']> (calls y))) None ch.
Proof.
  intros Hi E. open_cell Hcl Hl. unfold startPing in E. case_match; [done|]. simpl in E. injection E as <- <-.
  destruct (iv_call y Hi _ _ Hcl). eapply cell_new; [done..| | | |reflexivity|reflexivity]; simpl; rewrite ?lookup_insert_ne by lia; done || lia.
Qed.

Lemma moves_indirect c me ind from ch y :
  inv y -> moves y (setAcks (handleIndirectPing c me ind from (acks y)) y) None ch.
Proof.
  intros Hi. open_cell Hcl Hl. unfold handleIndirectPing. simpl. destruct (iNack ind);
    (eapply cell_new; [done..| |reflexivity|reflexivity]; simpl; lia).
Qed.

Lemma moves_quiet o s' ch y :
  o <> Some ch -> ackHandlers s' = ackHandlers (acks y) -> timers s' = timers (acks y) ->
  ackChans s' !! ch = ackChans (acks y) !! ch -> moves y (setAcks s' y) o ch.
Proof.
  intros Ho Eh Et Ec. open_cell Hcl Hl. rewrite bool_decide_false by done.
  apply cell_other; simpl; rewrite ?Et, ?Ec; try done. apply ackLeft_less; [done|]. left. simpl. by rewrite Eh.
Qed.

Lemma moves_call c0 cl0 m l0 cl' l' ch y :
  calls y !! c0 = Some cl0 -> ackChans (acks y) !! c0 = Some (m, l0) -> callStep m cl0 l0 cl' l' ->
  moves y (mkSystem (setAckChan c0 (m, l') (acks y)) (firing y) (invoking y) (<[c0 := cl']> (calls y))) (Some c0) ch.
Proof.
  intros Hc0 Hl0 Hs. open_cell Hcl Hl. destruct (decide (c0 = ch)) as [<-|Hne].
  - rewrite bool_decide_true by done. simplify_eq. destruct (callStep_same _ _ _ _ _ Hs) as [Es Et].
    unfold cellOf. simpl. rewrite !lookup_insert_eq. eexists. split; [done|]. unfold reaperLeft, ackLeft. simpl. rewrite Es, Et. by constructor.
  - rewrite bool_decide_false by congruence. apply cell_other; simpl; rewrite ?lookup_insert_ne by done; try done. by left.
Qed.

(** The timer, function or handler at [t] serves the call with that timer. *)
Lemma serves_iff y t o ch cl :
  inv y -> serves y t o -> calls y !! ch = Some cl -> o = Some ch <-> ctimer cl = t.
Proof.
  intros Hi Hs Hcl. destruct o as [c0|]; simpl in Hs.
  - destruct Hs as (cl0 & Hc0 & <-). split; [by intros [= ->]; simplify_eq|]. intros E. f_equal. by eapply (iv_inj y Hi).
  - split; [done|]. intros E. by apply (Hs _ _ Hcl) in E.
Qed.

Lemma moves_expire t r ch y :
  inv y -> timers (acks y) !! t = Some r ->
  moves y (mkSystem (setTimers (delete t (timers (acks y))) (acks y)) (<[t := (r, false)]> (firing y)) (invoking y) (calls y)) (reapCh r) ch.
Proof.
  intros Hi Hr. open_cell Hcl Hl. destruct (iv_reaper y Hi t r) as [_ Hs]; [by left|].
  pose proof (serves_iff y t (reapCh r) ch cl Hi Hs Hcl) as Hiff. destruct (decide (ctimer cl = t)) as [<-|Hne].
  - rewrite bool_decide_true by tauto. unfold cellOf. simpl. rewrite Hcl, Hl. eexists. split; [done|]. unfold reaperLeft. simpl.
    rewrite Hr, lookup_delete_eq, lookup_insert_eq. apply cs_expire.
  - rewrite bool_decide_false by tauto. apply cell_other; simpl; try done; [by apply lookup_delete_ne|by apply lookup_insert_ne|by left].
Qed.

Lemma ackLeft_reap y f' r cl :
  keptOrGone (ackLeft y cl) (ackLeft (mkSystem (reapHandler r (acks y)) f' (invoking y) (calls y)) cl).
Proof.
  apply ackLeft_less; [done|]. simpl. destruct (decide (reapSeq r = cseq cl)) as [->|]; [right; by rewrite lookup_delete_eq|left].
  by apply lookup_delete_ne.
Qed.

Lemma moves_reap t r ch y :
  inv y -> firing y !! t = Some (r, false) ->
  moves y (mkSystem (reapHandler r (acks y)) (<[t := (r, true)]> (firing y)) (invoking y) (calls y)) (reapCh r) ch.
Proof.
  intros Hi Hr. open_cell Hcl Hl. destruct (iv_reaper y Hi t r) as [_ Hs]; [right; by exists false|].
  assert (Ht : timers (acks y) !! t = None).
  { destruct (timers (acks y) !! t) as [r'|] eqn:E; [|done]. by rewrite (iv_excl y Hi _ _ E) in Hr. }
  pose proof (serves_iff y t (reapCh r) ch cl Hi Hs Hcl) as Hiff.
  pose proof (ackLeft_reap y (<[t := (r, true)]> (firing y)) r cl) as Ha. destruct (decide (ctimer cl = t)) as [<-|Hne].
  - rewrite bool_decide_true by tauto. unfold cellOf. simpl. rewrite Hcl, Hl. eexists. split; [done|]. unfold reaperLeft. simpl.
    rewrite Ht, Hr, lookup_insert_eq. by apply cs_reap.
  - rewrite bool_decide_false by tauto. apply cell_other; simpl; try done. by apply lookup_insert_ne.
Qed.

Lemma moves_tell t r now ch y :
  inv y -> firing y !! t = Some (r, true) ->
  moves y (mkSystem (tellReaped r now (acks y)) (delete t (firing y)) (invoking y) (calls y)) (reapCh r) ch.
Proof.
  intros Hi Hr. open_cell Hcl Hl. destruct (iv_reaper y Hi t r) as [_ Hs]; [right; by exists true|].
  assert (Ht : timers (acks y) !! t = None).
  { destruct (timers (acks y) !! t) as [r'|] eqn:E; [|done]. by rewrite (iv_excl y Hi _ _ E) in Hr. }
  pose proof (serves_iff y t (reapCh r) ch cl Hi Hs Hcl) as Hiff.
  assert (Hch : ackChans (tellReaped r now (acks y)) !! ch =
    if decide (reapCh r = Some ch) then Some (n, offered (mkAckMessage false [] now) n l) else Some (n, l)).
  { unfold tellReaped. destruct (reapCh r) as [c0|]; [|done]. rewrite offerAck_chan, Hl. repeat case_decide; simplify_eq; done. }
  destruct (tellReaped_rest r now (acks y)) as [cs E]. rewrite E in Hch |- *. simpl in Hch.
  destruct (decide (ctimer cl = t)) as [<-|Hne].
  - rewrite bool_decide_true by tauto. rewrite decide_True in Hch by tauto. unfold cellOf. simpl. rewrite Hcl, Hch. eexists. split; [done|].
    unfold reaperLeft. simpl. rewrite Ht, Hr, lookup_delete_eq. apply cs_tell.
  - rewrite bool_decide_false by tauto. rewrite decide_False in Hch by tauto.
    apply cell_other; simpl; try done; [by apply lookup_delete_ne|by left].
Qed.

Lemma moves_ack ack ts h s' ch y :
  inv y -> takeHandler (aSeqNo ack) (acks y) = (Some h, s') ->
  moves y (mkSystem s' (firing y) (<[timer h := (h, aPayload ack, ts)]> (invoking y)) (calls y)) None ch.
Proof.
  intros Hi [= Hh <-]. open_cell Hcl Hl. rewrite bool_decide_false by done. set (nm := aSeqNo ack) in *.
  destruct (decide (timer h = ctimer cl)) as [Et|Hne].
  - assert (nm = cseq cl) as Eq by (by eapply (iv_seq y Hi)).
    assert (Hv : invoking y !! ctimer cl = None).
    { destruct (invoking y !! ctimer cl) as [[[h' p'] ts']|] eqn:E; [|done]. exfalso. pose proof (iv_invoking y Hi _ _ _ _ E) as Et'.
      assert (Hk : inl nm = inr (ctimer cl) :> Z + nat); [|done].
      apply (iv_key y Hi _ h _ h'); [exact Hh|simpl; by rewrite E|congruence]. }
    unfold cellOf. simpl. rewrite Hcl, Hl. eexists. split; [done|]. unfold ackLeft. simpl.
    rewrite Hv, <- Eq, Hh, Et, lookup_insert_eq, bool_decide_true by done. apply cs_taken.
  - apply cell_other; simpl; try done. apply ackLeft_less; simpl; [by apply lookup_insert_ne|].
    destruct (decide (nm = cseq cl)) as [->|]; [right; by rewrite lookup_delete_eq|left; by apply lookup_delete_ne].
Qed.

Lemma moves_run t h payload ts s' ch y :
  inv y -> invoking y !! t = Some (h, payload, ts) -> runHandler h payload ts (acks y) = Ret s' ->
  moves y (mkSystem s' (firing y) (delete t (invoking y)) (calls y)) (probeCh (ackFn h)) ch.
Proof.
  intros Hi Hv Hrun. open_cell Hcl Hl. pose proof (iv_invoking y Hi _ _ _ _ Hv) as Et.
  assert (Hk : held y (inr t) = Some h) by (simpl; by rewrite Hv). destruct (iv_held y Hi _ _ Hk) as [_ Hs]. rewrite Et in Hs.
  pose proof (serves_iff y t _ ch cl Hi Hs Hcl) as Hiff.
  assert (Hs' : ackHandlers s' = ackHandlers (acks y) /\ timers s' = delete t (timers (acks y)) /\
    ackChans s' !! ch = if decide (probeCh (ackFn h) = Some ch) then Some (n, offered (mkAckMessage true payload ts) n l) else Some (n, l)).
  { unfold runHandler, runAckFn in Hrun. rewrite Et in Hrun. destruct (ackFn h) as [c0|c a q]; simpl in *.
    - injection Hrun as <-. set (s1 := setTimers _ _). destruct (offerAck_rest c0 (mkAckMessage true payload ts) s1) as [cs E].
      pose proof (offerAck_chan c0 (mkAckMessage true payload ts) s1 ch) as Hc. rewrite E in Hc |- *. simpl in *. split_and!; [done..|].
      rewrite Hc, Hl. repeat case_decide; simplify_eq; done.
    - unfold closeChan in Hrun. case_match; [done|]. simpl in Hrun. by injection Hrun as <-. }
  destruct Hs' as (Eh & Etm & Ech). destruct (decide (ctimer cl = t)) as [<-|Hne].
  - rewrite bool_decide_true by tauto. rewrite decide_True in Ech by tauto. unfold cellOf. simpl. rewrite Hcl, Ech. eexists. split; [done|].
    assert (Ea : ackLeft y cl = 1%nat) by (unfold ackLeft; by rewrite Hv). rewrite Ea.
    assert (Ea' : ackLeft (mkSystem s' (firing y) (delete (ctimer cl) (invoking y)) (calls y)) cl = 0%nat).
    { unfold ackLeft. simpl. rewrite lookup_delete_eq, Eh. destruct (ackHandlers (acks y) !! cseq cl) as [h'|] eqn:E; [|done].
      rewrite bool_decide_false; [done|]. intros E'. assert (Hk' : inl (cseq cl) = inr (ctimer cl) :> Z + nat); [|done].
      apply (iv_key y Hi _ h' _ h); [exact E|exact Hk|congruence]. }
    rewrite Ea'. apply cs_run. unfold reaperLeft. simpl. rewrite Etm, lookup_delete_eq.
    destruct (timers (acks y) !! ctimer cl) as [r|] eqn:E; [right|by left]. by rewrite (iv_excl y Hi _ _ E).
  - rewrite bool_decide_false by tauto. rewrite decide_False in Ech by tauto.
    apply cell_other; simpl; try done; [rewrite Etm; by apply lookup_delete_ne|].
    apply ackLeft_less; simpl; [by apply lookup_delete_ne|left; by rewrite Eh].
Qed.

Lemma cell_sim c o y y' ch : inv y -> sysStep c o y y' -> moves y y' o ch.
Proof.
  intros Hi Hst. destruct Hst; eauto using moves_start, moves_ping, moves_call, moves_expire, moves_reap, moves_tell, moves_ack,
    moves_run, moves_indirect; apply moves_quiet; try done.
  all: unfold invokeNackHandler, offerNack, handlePing, runNacker; by repeat case_match.
Qed.

(** *** What holds of a cell *)

(** The message that a call has taken and will put back. *)
Definition inHand (p : callPc) : nat := match p with Requeueing _ => 1 | _ => 0 end.

(** Before the last receive a message is in the channel or on its way; and there are
    at most two messages, one of the reaper and one of the handler. *)
Record goodCell (room : nat) (x : cell) : Prop := {
  gc_cap : cap x = room;
  gc_two : (length (buf x) + inHand (cpc (self x)) + Nat.min 1 (reaper_ x) + Nat.min 1 (acker x) <= 2)%nat;
  gc_wait : match cpc (self x) with
            | Sending | Selecting | Asking | Receiving => buf x <> [] \/ (0 < reaper_ x)%nat \/ acker x = 1%nat
            | _ => True end;
  gc_tcp : cpc (self x) = Polling \/ cpc (self x) = Receiving -> tcp (self x) <> FbNone;
  gc_left : (reaper_ x <= 3 /\ acker x <= 2)%nat
}.

Lemma offered_room v n l : (length l < n)%nat -> offered v n l = l ++ [v].
Proof. intros Hl. unfold offered. by rewrite (proj2 (Nat.ltb_lt _ _) Hl). Qed.

Lemma app_not_nil (l : list ackMessage) v : l ++ [v] <> [].
Proof. by destruct l. Qed.

Lemma callStep_good room cl l r a cl' l' :
  callStep room cl l cl' l' -> goodCell room (mkCell cl room l r a) -> goodCell room (mkCell cl' room l' r a).
Proof.
  intros Hs [_ H2 Hw Ht Hl]. simpl in *. destruct Hs as [cl l E|cl l E|cl l E|cl v l E|cl v l E|cl v l E|cl l E|cl l E|cl v l E
    |cl b l E|cl v l E|cl v l E|cl r0 l E|cl r0 l E]; try rewrite E in *; simpl in *;
    (split; simpl; [done|try lia|auto|first [by intros [?|?]|by intros _|intros _; apply Ht; by auto|idtac]|done]).
  - rewrite length_app. simpl. lia.
  - left. apply app_not_nil.
  - intros _. by destruct b.
Qed.

Lemma cellStep_good room own x x' :
  (2 <= room)%nat -> cellStep own x x' -> goodCell room x -> goodCell room x'.
Proof.
  intros Hroom Hs Hg. destruct Hs as [cl n l r a a' Hk|cl n l r|cl n l r a cl' l' Hs|cl n l a|cl n l a a' Hk|cl n l a now|cl n l r r' p ts Hr].
  - destruct Hg as [Hc H2 Hw Ht Hl]. simpl in *. destruct Hk as [->|[-> ->]]; [done|]. split; simpl; try done; try lia.
    destruct (cpc cl); try done; intuition lia.
  - destruct Hg as [Hc H2 Hw Ht Hl]. simpl in *. split; simpl; try done; try lia. destruct (cpc cl); try done; auto.
  - assert (n = room) as -> by apply Hg. by eapply callStep_good.
  - destruct Hg as [Hc H2 Hw Ht Hl]. simpl in *. split; simpl; try done; try lia. destruct (cpc cl); try done; intuition lia.
  - destruct Hg as [Hc H2 Hw Ht Hl]. simpl in *. destruct Hk as [->|[-> ->]]; split; simpl; try done; try lia; destruct (cpc cl); try done; intuition lia.
  - destruct Hg as [Hc H2 Hw Ht Hl]. simpl in *. subst n. rewrite offered_room by lia. split; simpl; try done; try lia.
    + rewrite length_app. simpl. lia.
    + destruct (cpc cl); try done; left; apply app_not_nil.
  - destruct Hg as [Hc H2 Hw Ht Hl]. simpl in *. subst n. rewrite offered_room by lia. destruct Hr as [->|[-> ->]]; split; simpl; try done; try lia.
    all: try (rewrite length_app; simpl; lia).
    all: destruct (cpc cl); try done; left; apply app_not_nil.
Qed.

(** What is left to do for a call. *)
Definition rank (p : callPc) : nat :=
  match p with Sending => 12 | Selecting => 10 | Requeueing _ => 8 | Asking => 6 | Receiving => 4 | Polling => 2 | Returned => 0 end.

Definition left_ (x : cell) : nat :=
  rank (cpc (self x)) + match tcp (self x) with FbRunning => 1 | _ => 0 end + reaper_ x + acker x.

Lemma callStep_left n cl l r a cl' l' :
  callStep n cl l cl' l' -> (left_ (mkCell cl' n l' r a) < left_ (mkCell cl n l r a))%nat.
Proof.
  intros Hs. unfold left_. simpl. destruct Hs as [cl l E|cl l E|cl l E|cl v l E|cl v l E|cl v l E|cl l E|cl l E|cl v l E
    |cl b l E|cl v l E|cl v l E|cl r0 l E|cl r0 l E]; simpl; rewrite ?E; simpl; repeat case_match; lia.
Qed.

Lemma cellStep_left own x x' : cellStep own x x' -> (left_ x' + (if own then 1 else 0) <= left_ x)%nat.
Proof.
  destruct 1 as [cl n l r a a' Hk|cl n l r|cl n l r a cl' l' Hs|cl n l a|cl n l a a' Hk|cl n l a now|cl n l r r' p ts Hr];
    try (pose proof (callStep_left n cl l r a cl' l' Hs); lia); unfold left_; simpl; try lia.
  all: first [destruct Hk as [->|[-> ->]]|destruct Hr as [->|[-> ->]]]; lia.
Qed.

(** *** Every call of the system *)

Definition room (c : Config.Config) : nat := Z.to_nat (Config.IndirectChecks c + 1).

Lemma fresh_invoking y t : inv y -> (freshId (acks y) <= t)%nat -> invoking y !! t = None.
Proof.
  intros Hi Ht. destruct (invoking y !! t) as [[[h p] ts]|] eqn:E; [|done]. exfalso.
  pose proof (iv_invoking y Hi _ _ _ _ E). destruct (iv_held y Hi (inr t) h) as [Hlt _]; [simpl; by rewrite E|]. lia.
Qed.

(** A call that appears is new. *)
Lemma new_cell c o y y' ch cl :
  inv y -> sysStep c o y y' -> calls y !! ch = None -> calls y' !! ch = Some cl ->
  exists k n t, cellOf y' ch = Some (mkCell (mkCall k Sending FbNone n t) (room c) [] 3 2).
Proof.
  intros Hi Hst Hn Hcl. destruct Hst as [me target p ac nc s' y E|me target to ac s' y E|ch0 cl0 m l0 cl' l' y Hc0| | | | | | | | | ];
    simpl in Hcl; try congruence.
  - apply lookup_insert_Some in Hcl as [[-> _]|[_ ?]]; [|congruence].
    unfold startProbe in E. case_match; [done|]. simpl in E. injection E as <- <- <- <-.
    unfold cellOf, newCall. simpl. rewrite !lookup_insert_eq. unfold reaperLeft, ackLeft. simpl.
    rewrite !lookup_insert_eq, fresh_invoking, bool_decide_true by (done || lia). eauto.
  - apply lookup_insert_Some in Hcl as [[-> _]|[_ ?]]; [|congruence].
    unfold startPing in E. case_match; [done|]. simpl in E. injection E as <- <-.
    unfold cellOf, newCall. simpl. rewrite !lookup_insert_eq. unfold reaperLeft, ackLeft. simpl.
    rewrite !lookup_insert_eq, fresh_invoking, bool_decide_true by (done || lia). eauto.
  - apply lookup_insert_Some in Hcl as [[-> _]|[_ ?]]; congruence.
Qed.

Lemma reachable_good c y :
  (2 <= room c)%nat -> reachable c y ->
  forall ch cl, calls y !! ch = Some cl -> exists x, cellOf y ch = Some x /\ self x = cl /\ goodCell (room c) x.
Proof.
  intros Hroom Hr. revert Hr. apply (rtc_ind_r (R := anyStep c) (fun y => forall ch cl, calls y !! ch = Some cl ->
    exists x, cellOf y ch = Some x /\ self x = cl /\ goodCell (room c) x) newSystem).
  { intros ch cl. simpl. by rewrite lookup_empty. }
  intros y1 y2 Hr1 [o Hst] IH ch cl Hcl. pose proof (reachable_callsInv c y1 Hr1) as Hi.
  assert (exists x, cellOf y2 ch = Some x /\ goodCell (room c) x) as (x & Hx & Hg).
  { destruct (calls y1 !! ch) as [cl1|] eqn:E.
    - destruct (IH ch cl1 E) as (x & Hx & _ & Hg). destruct (cell_sim c o y1 y2 ch Hi Hst x Hx) as (x' & Hx' & Hs).
      exists x'. split; [done|]. by eapply cellStep_good.
    - destruct (new_cell c o y1 y2 ch cl) as (k & n & t & Hx); [done..|]. eexists. split; [exact Hx|].
      split; simpl; try done; try lia. naive_solver. }
  exists x. split_and!; [done| |done]. apply cellOf_Some in Hx as (cl' & n & l & Hc' & _ & ->). simpl. congruence.
Qed.

(** A run with [k] steps that serve the call of [ch]. *)
Inductive runWith (c : Config.Config) (ch : nat) : nat -> system -> system -> Prop :=
| rw_refl y : runWith c ch 0 y y
| rw_own k y y1 y2 : sysStep c (Some ch) y y1 -> runWith c ch k y1 y2 -> runWith c ch (S k) y y2
| rw_other k o y y1 y2 : o <> Some ch -> sysStep c o y y1 -> runWith c ch k y1 y2 -> runWith c ch k y y2.

Lemma runWith_left c ch k y y' x :
  inv y -> runWith c ch k y y' -> cellOf y ch = Some x -> exists x', cellOf y' ch = Some x' /\ (k + left_ x' <= left_ x)%nat.
Proof.
  intros Hi Hr. revert x Hi. induction Hr as [y|k y y1 y2 Hs _ IH|k o y y1 y2 Ho Hs _ IH]; intros x Hi Hx; [exists x; split; [done|lia]| |];
    destruct (cell_sim c _ y y1 ch Hi Hs x Hx) as (x1 & Hx1 & Hc); apply cellStep_left in Hc;
    destruct (IH x1) as (x2 & Hx2 & Hle); try done; try (by eapply sysStep_inv); exists x2; (split; [done|]).
  - rewrite bool_decide_true in Hc by done. lia.
  - rewrite bool_decide_false in Hc by done. lia.
Qed.

(** A call that waits, and has not returned, can go on, or what it waits for can. *)
Lemma call_progress c y ch cl x :
  (2 <= room c)%nat -> inv y -> cellOf y ch = Some x -> self x = cl -> goodCell (room c) x -> cpc cl <> Returned ->
  exists y', sysStep c (Some ch) y y'.
Proof.
  intros Hroom Hi Hx Hself [Hcap H2 Hw Ht _] Hpc. apply cellOf_Some in Hx as (cl' & n & l & Hcl & Hl & ->). simpl in *. subst cl' n.
  assert (Hstep : forall cl' l', callStep (room c) cl l cl' l' -> exists y', sysStep c (Some ch) y y') by (intros; eexists; by eapply sy_call).
  destruct (cpc cl) as [| |v| | | |] eqn:E; try done.
  - eapply Hstep. by apply c_sent.
  - destruct (kind cl) eqn:Ek; eapply Hstep; [by apply c_timeout|by apply c_pingTimeout].
  - eapply Hstep. apply (c_requeue _ _ v); [done|]. simpl in H2. lia.
  - eapply Hstep. by apply (c_ask _ _ true).
  - destruct l as [|v l]; [|destruct (Complete v) eqn:Ev; eapply Hstep; [by apply c_lateAck|by apply c_noAck]].
    destruct Hw as [?|[Hr|Ha]]; [done|..].
    + unfold reaperLeft in Hr. destruct (timers (acks y) !! ctimer cl) as [r|] eqn:Er; [|destruct (firing y !! ctimer cl) as [[r b]|] eqn:Ef; [|lia]].
      * destruct (iv_reaper y Hi _ r (or_introl Er)) as [_ Hs]. pose proof (proj2 (serves_iff y _ _ ch cl Hi Hs Hcl) eq_refl) as E1.
        eexists. rewrite <- E1. exact (sy_expire c _ r y Er).
      * destruct (iv_reaper y Hi _ r (or_intror (ex_intro _ b Ef))) as [_ Hs]. pose proof (proj2 (serves_iff y _ _ ch cl Hi Hs Hcl) eq_refl) as E1.
        destruct b; eexists; rewrite <- E1; [exact (sy_tell c _ r 0 y Ef)|exact (sy_reap c _ r y Ef)].
    + unfold ackLeft in Ha. destruct (invoking y !! ctimer cl) as [[[h p] ts]|] eqn:Ev; [|by repeat case_match].
      destruct (runHandler_ok _ _ _ _ y Hi Ev) as (s' & Hrun & _). assert (Hk : held y (inr (ctimer cl)) = Some h) by (simpl; by rewrite Ev).
      destruct (iv_held y Hi _ _ Hk) as [_ Hs]. rewrite (iv_invoking y Hi _ _ _ _ Ev) in Hs.
      pose proof (proj2 (serves_iff y _ _ ch cl Hi Hs Hcl) eq_refl) as E1. eexists. rewrite <- E1. exact (sy_run c _ h p ts s' y Ev Hrun).
  - destruct (tcp cl) as [| |r] eqn:Et; [by destruct Ht; [left|]| |]; eapply Hstep; [by apply (c_fallback _ _ None)|by eapply c_polled].
Qed.

(** ** Theorems *)

(** C12: A probe or ping never hangs: with at least one indirect check, whatever
    calls, acknowledgements, nacks, forwarded pings and timers interleave, as long
    as a call has not returned there is a step that serves it and can be taken --
    of the call itself, of its timer, of the handler taken for it, or the end of
    its TCP ping -- and in any run at most 18 such steps follow. So the receive
    that ends [probeNode] proceeds, and the message of the reaper that the first
    receive took always finds room in the channel again. *)
Theorem probes_always_answered c y ch cl
    (Hc : 1 <= Config.IndirectChecks c) (Hr : reachable c y) (Hcl : calls y !! ch = Some cl) :
  (cpc cl <> Returned -> exists y', sysStep c (Some ch) y y') /\
  (forall k y', runWith c ch k y y' -> (k <= 18)%nat).
Proof.
  assert (Hroom : (2 <= room c)%nat) by (unfold room; lia). pose proof (reachable_callsInv c y Hr) as Hi.
  destruct (reachable_good c y Hroom Hr ch cl Hcl) as (x & Hx & Hself & Hg). split.
  - by eapply call_progress.
  - intros k y' Hk. destruct (runWith_left c ch k y y' x Hi Hk Hx) as (x' & _ & Hle).
    assert (left_ x <= 18)%nat; [|lia]. destruct (gc_left _ _ Hg). unfold left_, rank. repeat case_match; lia.
Qed.

(** Without indirect checks the channel has room for one message, and [probeNode] can
    hang: once the reaper's message was taken and the acknowledgement filled the
    channel, the call is stuck for ever where it puts the message back. *)
Theorem requeue_hangs c y y' ch cl v n l
    (Hr : reachable c y) (Hcl : calls y !! ch = Some cl) (Hpc : cpc cl = Requeueing v)
    (Hl : ackChans (acks y) !! ch = Some (n, l)) (Hfull : (n <= length l)%nat) (Hs : rtc (anyStep c) y y') :
  exists cl', calls y' !! ch = Some cl' /\ cpc cl' = Requeueing v.
Proof.
  assert (Hx : exists x, cellOf y ch = Some x /\ cpc (self x) = Requeueing v /\ (cap x <= length (buf x))%nat)
    by (unfold cellOf; rewrite Hcl, Hl; by eexists). clear Hcl Hpc Hl Hfull.
  assert (exists x, cellOf y' ch = Some x /\ cpc (self x) = Requeueing v /\ (cap x <= length (buf x))%nat) as (x & Hx' & Hp & _).
  { apply reachable_callsInv in Hr. revert Hr Hx. induction Hs as [|y y1 y2 [o Hst] _ IH]; intros Hi (x0 & Hx0 & Hp0 & Hf); [by exists x0|].
    apply IH; [by eapply sysStep_inv|]. destruct (cell_sim c o y y1 ch Hi Hst x0 Hx0) as (x1 & Hx1 & Hstep). exists x1. split; [done|].
    assert (Hoff : forall u n l, (n <= length l)%nat -> offered u n l = l)
      by (intros u n' l' Hle; unfold offered; by rewrite (proj2 (Nat.ltb_ge _ _) Hle)).
    destruct Hstep as [| |cl0 n0 l0 r a cl' l' Hs| | | | ]; simpl in *; rewrite ?Hoff by done; try done.
    destruct Hs; simpl in *; try congruence; [simplify_eq; lia|done]. }
  apply cellOf_Some in Hx' as (cl' & n' & l' & Hc' & _ & ->). by exists cl'.
Qed.

(** Running the function of a handler never panics: the cancel channel of a forwarded
    ping is closed at most once. *)
Theorem acks_run_safely c y t h payload ts
    (Hr : reachable c y) (Hv : invoking y !! t = Some (h, payload, ts)) :
  exists s', runHandler h payload ts (acks y) = Ret s'.
Proof. destruct (runHandler_ok t h payload ts y (reachable_callsInv c y Hr) Hv) as (s' & E & _). by exists s'. Qed.

(** A forwarded ping is relayed: the acknowledgement of the local ping sends the
    requestor an acknowledgement with the requestor's own sequence number and
    cancels the nack, so the goroutine that was to send it ends silently. *)
Theorem relay_forwards_ack c me ind from pl ts y (Hr : reachable c y) :
  let s := acks y in
  let s1 := handleIndirectPing c me ind from s in
  let requestor := mkAddress (replyAddr (iSourceAddr ind) (iSourcePort ind) from) (iSourceNode ind) in
  exists s2, invokeAckHandler (mkAckResp (u32 (sequenceNum s + 1)) pl) ts s1 = Ret s2 /\
    outbox s2 = outbox s1 ++ [(requestor, WAck (mkAckResp (iSeqNo ind) []))] /\
    forall g k p, nackers s1 !! g = Some k -> cancel k = freshId s ->
      outbox (runNacker g false p s2) = outbox s2 /\ nackers (runNacker g false p s2) !! g = None.
Proof.
  intros s s1 requestor. pose proof (reachable_callsInv c y Hr) as Hi.
  assert (Hh : ackHandlers s1 !! u32 (sequenceNum s + 1) =
     Some (mkAckHandler (ToRequestor (freshId s) requestor (iSeqNo ind)) None (S (freshId s)))).
  { unfold s1, handleIndirectPing. simpl. destruct (iNack ind); simpl; apply lookup_insert_eq. }
  assert (Hcl : freshId s ∉ closed s1).
  { assert (closed s1 = closed s) as -> by (unfold s1, handleIndirectPing; simpl; by case_match).
    intros Hc%(iv_f_closed y Hi). fold s in Hc. lia. }
  unfold invokeAckHandler, takeHandler. cbn [aSeqNo aPayload]. rewrite Hh. unfold runHandler, runAckFn, closeChan. cbn [ackFn].
  cbn [closed setTimers setHandlers]. rewrite bool_decide_false by done. eexists. split; [reflexivity|]. split; [done|].
  intros g k p Hk Hc. unfold runNacker. simpl. rewrite Hk, Hc, bool_decide_true by set_solver. simpl.
  split; [done|]. apply lookup_delete_eq.
Qed.

(** A forwarded ping that asked for a nack is always answered: once its goroutine
    has timed out, it is gone and the requestor has been sent the relayed
    acknowledgement or the nack. *)
Theorem relay_answers c y g k p
    (Hr : reachable c y) (Hk : nackers (acks y) !! g = Some k) :
  let s' := runNacker g true p (acks y) in
  nackers s' !! g = None /\
  ((nackAddr k, WAck (mkAckResp (nackSeq k) [])) ∈ outbox s' \/
   (nackAddr k, WNack (mkNackResp (nackSeq k))) ∈ outbox s').
Proof.
  intros s'. pose proof (iv_relayed y (reachable_callsInv c y Hr) g k Hk) as Hrel.
  unfold s', runNacker. rewrite Hk. destruct (bool_decide_reflect (cancel k ∈ closed (acks y))) as [Hc|Hc];
    [destruct p|]; simpl; rewrite lookup_delete_eq; (split; [done|]); [right|left|right]; set_solver.
Qed.

(** ** Concrete runs *)

Definition exConfig : Config.Config := Config.DefaultLANConfig "n1".
Definition exMe : identity := mkIdentity [x7f; x00; x00; x01] 7946 "n1".
Definition exReq : indirectPingReq := mkIndirect 42 [x7f; x00; x00; x02] 7946 "n2" true [x7f; x00; x00; x03] 7946 "n3".

(** After the start of a probe. *)
Definition afterStart (k : Z) : system :=
  match startProbe exMe "n2" k newAckState with
  | Ret (_, ac, _, s) => mkSystem s ∅ ∅ (<[ac := newCall IsProbe s]> ∅)
  | Panic _ => newSystem
  end.

Lemma afterStart_reachable c : 0 <= Config.IndirectChecks c -> reachable c (afterStart (Config.IndirectChecks c)).
Proof.
  intros Hc. unfold afterStart. destruct (startProbe exMe "n2" (Config.IndirectChecks c) newAckState) as [[[[p ac] nc] s]|] eqn:E.
  - apply rtc_once. exists None. exact (sy_probe c exMe "n2" p ac nc s newSystem E).
  - unfold startProbe in E. case_match; [zify_bool; lia|done].
Qed.

(** A probe beside a forwarded ping. *)
Definition exSystem : system :=
  setAcks (handleIndirectPing exConfig exMe exReq [] (acks (afterStart 3))) (afterStart 3).

Lemma exReachable : reachable exConfig exSystem.
Proof.
  eapply rtc_r; [apply (afterStart_reachable exConfig); vm_compute; discriminate|]. exists None. apply sy_indirect.
Qed.

Lemma probes_always_answered_witness :
  exists cl, calls exSystem !! 0%nat = Some cl /\ exists y', sysStep exConfig (Some 0%nat) exSystem y'.
Proof.
  eexists. split; [reflexivity|].
  refine (proj1 (probes_always_answered exConfig exSystem 0 _ _ exReachable _) _); [by vm_compute|reflexivity|discriminate].
Defined.

(** Without indirect checks: the acknowledgement's handler is taken, the reaper tells
    the channel before that handler runs, the call takes the reaper's message, and
    then the acknowledgement fills the channel. *)
Definition exNoChecks : Config.Config := Config.withIndirectChecks 0 exConfig.

Lemma requeue_hangs_witness :
  exists y, reachable exNoChecks y /\
    forall y', rtc (anyStep exNoChecks) y y' -> exists cl, calls y' !! 0%nat = Some cl /\ cpc cl <> Returned.
Proof.
  set (v := mkAckMessage false [] 9).
  assert (Hr : exists y cl l, reachable exNoChecks y /\ calls y !! 0%nat = Some cl /\ cpc cl = Requeueing v /\
    ackChans (acks y) !! 0%nat = Some (1%nat, l) /\ (1 <= length l)%nat).
  { do 3 eexists. split.
    - unfold reachable. etrans; [apply (afterStart_reachable exNoChecks); vm_compute; discriminate|].
      eapply rtc_l; [eexists; eapply (sy_call exNoChecks 0); [vm_compute; reflexivity|vm_compute; reflexivity|apply c_sent; reflexivity]|].
      eapply rtc_l; [eexists; eapply (sy_ack exNoChecks (mkAckResp 1 []) 8); vm_compute; reflexivity|].
      eapply rtc_l; [eexists; eapply (sy_expire exNoChecks 2); vm_compute; reflexivity|].
      eapply rtc_l; [eexists; eapply (sy_reap exNoChecks 2); vm_compute; reflexivity|].
      eapply rtc_l; [eexists; eapply (sy_tell exNoChecks 2 _ 9); vm_compute; reflexivity|].
      eapply rtc_l; [eexists; eapply (sy_call exNoChecks 0); [vm_compute; reflexivity|vm_compute; reflexivity|apply (c_reaped _ _ v); reflexivity]|].
      eapply rtc_l; [eexists; eapply (sy_run exNoChecks 2); vm_compute; reflexivity|]. apply rtc_refl.
    - split; [vm_compute; reflexivity|]. split; [reflexivity|]. split; [vm_compute; reflexivity|]. vm_compute. lia. }
  destruct Hr as (y & cl & l & Hr & Hcl & Hpc & Hl & Hf). exists y. split; [exact Hr|]. intros y' Hs.
  destruct (requeue_hangs exNoChecks y y' 0 cl v 1 l Hr Hcl Hpc Hl Hf Hs) as (cl' & Hcl' & Hpc').
  exists cl'. split; [exact Hcl'|]. rewrite Hpc'. discriminate.
Defined.

Lemma relay_forwards_ack_witness :
  exists s2, invokeAckHandler (mkAckResp (u32 (sequenceNum (acks exSystem) + 1)) []) 9
      (handleIndirectPing exConfig exMe exReq [] (acks exSystem)) = Ret s2 /\
    outbox s2 = outbox (handleIndirectPing exConfig exMe exReq [] (acks exSystem)) ++
      [(mkAddress (replyAddr (iSourceAddr exReq) (iSourcePort exReq) []) "n3", WAck (mkAckResp 42 []))].
Proof.
  destruct (relay_forwards_ack exConfig exMe exReq [] [] 9 exSystem exReachable) as (s2 & E & Ho & _).
  exists s2. split; [exact E|exact Ho].
Defined.

Lemma relay_answers_witness :
  let k := mkNacker 3 (mkAddress (replyAddr (iSourceAddr exReq) (iSourcePort exReq) []) "n3") 42 in
  nackers (acks exSystem) !! 5%nat = Some k /\ nackers (runNacker 5 true true (acks exSystem)) !! 5%nat = None.
Proof.
  intros k. split; [reflexivity|].
  apply (relay_answers exConfig exSystem 5 k true); [apply exReachable|reflexivity].
Defined.

End Calls.
