(* ===== verification/Waiting.v ===== *)
(** * Waiting (memberlist.go, broadcast.go, state.go)

    The calls that wait: [Leave] and [UpdateNode] for their broadcast, [Ping] for an
    answer. The queue tells a broadcast's channel that it is done by a send that
    does not block, so whether a waiting call learns of it depends on the capacity
    of the channel: one for [Leave], none for [UpdateNode]. A system of the member
    list and one waiting call shows what that means under every interleaving. *)

From Stdlib Require Import ZArith Lia Strings.Byte.
From stdpp Require Import tactics base numbers strings gmap list relations.
From S2P Require Import Prelude Timing Queue Suspicion Config Members Membership Guarantees Acks.

Local Open Scope Z_scope.
Local Open Scope go_scope.

Module Waiting.

Import Members Membership Guarantees.

(** ** The wait *)

(** Before the [select], blocked in it, or returned. *)
Inductive selectPc := Before | Blocked | Notified | TimedOut.

#[global] Instance selectPc_eq_dec : EqDecision selectPc.
Proof. solve_decision. Defined.

(** The values in the channel's buffer, and where the call is. *)
Record waiter := mkWaiter { buffered : nat; at_ : selectPc }.

Definition waiting : waiter := mkWaiter 0 Before.

(** [Finished] of a broadcast, as the call with channel [ch] of capacity [cap] sees
    it: a blocked receiver is woken, else the value goes to the buffer, else it is
    dropped. *)
Definition Finished (ch cap : nat) (w : waiter) (bc : Queue.memberlistBroadcast) : waiter :=
  if bool_decide (Queue.notify bc = Some ch) then
    match at_ w with
    | Blocked => mkWaiter (buffered w) Notified
    | _ => if Nat.ltb (buffered w) cap then mkWaiter (S (buffered w)) (at_ w) else w
    end
  else w.

Definition finishAll (ch cap : nat) (fin : list Queue.memberlistBroadcast) (w : waiter) : waiter :=
  foldl (Finished ch cap) w fin.

(** The call comes to its [select]. *)
Definition enterSelect (w : waiter) : waiter :=
  match buffered w with
  | O => mkWaiter 0 Blocked
  | S n => mkWaiter n Notified
  end.

(** What it returns, once it has returned; [what] is "update" or "leave". *)
Definition waitResult (what : string) (w : waiter) : option (res string unit) :=
  match at_ w with
  | Notified => Some (Ok tt)
  | TimedOut => Some (Err ("timeout waiting for " +:+ what +:+ " broadcast"))
  | _ => None
  end.

Section Waiting.

Context {T : Type} `{!Queue.BTree Queue.memberlistBroadcast T} `{!GossipCodec}.

Abbreviation ML := (Memberlist T).

Implicit Types m : ML.

(** The steps of the others: all of [Members.step], where only the call itself
    announces with its channel [ch], and a message that takes its broadcasts from
    the queue. *)
Inductive otherStep (ch : nat) : ML -> ML -> Prop :=
| os_alive a rnd now m m' : 0 <= aIncarnation a -> aliveNode a None false rnd now m = Ret m' -> otherStep ch m m'
| os_suspect s now m : otherStep ch m (suspectNode s now m)
| os_dead d now m : otherStep ch m (deadNode d now m)
| os_expire i now m : otherStep ch m (expireTimer i now m)
| os_timeout j m : otherStep ch m (runTimeout j m)
| os_deliver j now m : otherStep ch m (deliverDead j now m)
| os_reset rnd now m : otherStep ch m (resetNodes rnd now m)
| os_nextIncarnation m : otherStep ch m (nextIncarnation m).2
| os_local inc addr port meta notify rnd now m m' :
    0 <= inc <= incarnation m -> notify <> Some ch ->
    aliveNode (mkAlive inc (self m) addr port meta (Config.BuildVsnArray (config m))) notify true rnd now m = Ret m' ->
    otherStep ch m m'
| os_leave m : otherStep ch m (setLeave m)
| os_gossip delegate overhead limit msgs q fin m :
    Queue.getBroadcasts delegate overhead limit (estNumNodes m) (broadcasts m) = Some (msgs, q, fin) ->
    otherStep ch m (setBroadcasts q (finished m ++ fin) m).

(** The member list and a call that waits on channel [ch] with [timeout]. The
    [select] chooses freely when its timer is ready too. *)
Inductive waitStep (ch cap : nat) (timeout : duration) : ML * waiter -> ML * waiter -> Prop :=
| ws_other m m' fin w :
    otherStep ch m m' -> finished m' = finished m ++ fin -> waitStep ch cap timeout (m, w) (m', finishAll ch cap fin w)
| ws_select m w : at_ w = Before -> waitStep ch cap timeout (m, w) (m, enterSelect w)
| ws_timeout m w :
    timeout > 0 -> at_ w = Before \/ at_ w = Blocked -> waitStep ch cap timeout (m, w) (m, mkWaiter (buffered w) TimedOut).

(** ** What is in the queue *)

(** All broadcasts of a queue, in the tree or under a name. *)
Definition allB (P : Queue.memberlistBroadcast -> Prop) (q : Queue.TransmitLimitedQueue Queue.memberlistBroadcast T) : Prop :=
  Forall (fun x => P (Queue.b x)) (Queue.items q) /\ map_Forall (fun _ x => P (Queue.b x)) (Queue.tm q).

Context `{!Queue.BTreeLaws Queue.memberlistBroadcast T}.

Lemma allB_delete P x q : allB P q -> allB P (Queue.deleteItem x q).
Proof.
  intros [Hi Ht]. unfold Queue.deleteItem. destruct (Queue.tq q) as [t|] eqn:E; [|done]. split; simpl.
  - unfold Queue.items in *. simpl. rewrite E in Hi. rewrite Queue.btDelete_items. by apply Forall_filter_sub.
  - case_bool_decide; [done|]. by apply map_Forall_delete.
Qed.

Lemma allB_add P x q : P (Queue.b x) -> allB P q -> allB P (Queue.addItem x q).
Proof.
  intros Hx [Hi Ht]. unfold Queue.addItem. destruct (Queue.tq q) as [t|] eqn:E; [|done]. split; simpl.
  - unfold Queue.items in *. simpl. rewrite E in Hi. rewrite Queue.btInsert_items. unfold Queue.insertItem.
    apply Forall_app. split; [by apply Forall_filter_sub|]. constructor; [done|by apply Forall_filter_sub].
  - case_bool_decide; [done|]. by apply map_Forall_insert_2.
Qed.

Lemma allB_queue P bc q :
  P bc -> allB P q -> allB P (Queue.QueueBroadcast bc q).1 /\ Forall P (Queue.QueueBroadcast bc q).2.
Proof.
  intros Hb Hq. unfold Queue.QueueBroadcast, Queue.queueBroadcast. set (q0 := Queue.setIdGen _ _).
  assert (Hq0 : allB P q0).
  { destruct Hq as [Hi Ht]. unfold q0, Queue.lazyInit. destruct (Queue.tq q) eqn:E; split; simpl; try done.
    unfold Queue.items. simpl. rewrite Queue.btNew_items. constructor. }
  cbn [Queue.kindOf Queue.memberlistBroadcast_Broadcast]. case_bool_decide.
  - destruct (Queue.tm q0 !! Queue.node bc) as [old|] eqn:E; cbn [fst snd].
    + split; [apply allB_add; [done|by apply allB_delete]|]. constructor; [|constructor]. exact (proj2 Hq0 _ _ E).
    + split; [by apply allB_add|constructor].
  - cbn [negb fst snd]. set (l := Queue.invalidated bc q0).
    assert (Hl : Forall (fun x => P (Queue.b x)) l) by (apply Forall_filter_sub, Hq0). clearbody l q0. split.
    + apply allB_add; [done|]. clear Hl. revert q0 Hq0. induction l as [|x l IH]; intros q1 Hq1; simpl; [done|].
      by apply IH, allB_delete.
    + by apply Forall_map.
Qed.

Lemma allB_loop P fuel ov lim tl tier mx s s' :
  allB P (Queue.gbQueue s) -> Forall (fun x => P (Queue.b x)) (Queue.reinsert s) -> Forall P (Queue.gbFinished s) ->
  Queue.gbLoop fuel ov lim tl tier mx s = Some s' ->
  allB P (Queue.gbQueue s') /\ Forall (fun x => P (Queue.b x)) (Queue.reinsert s') /\ Forall P (Queue.gbFinished s').
Proof.
  revert tier s. induction fuel as [|fuel IH]; intros tier s Hq Hr Hf; simpl; [done|].
  destruct (tier <=? mx); [|intros [= <-]; done]. destruct (_ <=? 0); [intros [= <-]; done|].
  destruct (Queue.findKeep _ _ _) as [keep|] eqn:E; [|by apply IH]. apply IH.
  all: assert (Hk : P (Queue.b keep)).
  all: try (unfold Queue.findKeep in E; destruct (Queue.tq (Queue.gbQueue s)) as [t|] eqn:Et; [|done];
    apply find_some in E as [E _]; apply list_elem_of_In in E; rewrite Queue.btRange_items in E;
    apply list_elem_of_filter in E as [_ E]; destruct Hq as [Hi _]; unfold Queue.items in Hi; rewrite Et in Hi;
    by rewrite Forall_forall in Hi; apply (Hi _ E)).
  all: unfold Queue.takeItem; case_match; simpl; try (by apply allB_delete); try done.
  all: apply Forall_app; split; [done|by constructor].
Qed.

Lemma allB_get P d ov lim n q msgs q' fin :
  allB P q -> Queue.getBroadcasts d ov lim n q = Some (msgs, q', fin) -> allB P q' /\ Forall P fin.
Proof.
  intros Hq. assert (Hg : forall ms, Queue.GetBroadcasts ov lim n q = Some (ms, q', fin) -> allB P q' /\ Forall P fin).
  { intros ms. unfold Queue.GetBroadcasts, Queue.GetBroadcastsFuel. destruct (_ =? 0); [by intros [= _ <- <-]|].
    destruct (Queue.getTransmitRange q) as [lo hi]. destruct (Queue.gbLoop _ _ _ _ _ _ _) as [s|] eqn:E; [|done].
    intros [= _ <- <-]. apply (allB_loop P) in E as (Hs & Hr & Hf); [|done|constructor..]. split; [|done].
    revert Hs Hr. generalize (Queue.gbQueue s). induction (Queue.reinsert s) as [|x l IH]; intros q0 Hs Hr; simpl; [done|].
    inversion Hr; subst. by apply IH; [apply allB_add|]. }
  unfold Queue.getBroadcasts. destruct (Queue.GetBroadcasts ov lim n q) as [[[ms q1] f1]|] eqn:E; [|done].
  repeat case_match; intros [= _ <- <-]; by eapply Hg.
Qed.

(** ** What the handlers queue *)

(** The broadcasts that are queued and those that are finished. *)
Definition bq m := (broadcasts m, finished m).

(** From [m] to [m'], nothing was queued, or one broadcast with a name and
    a channel in [P]. *)
Definition queues (P : string -> option nat -> Prop) m m' : Prop :=
  bq m' = bq m \/ exists nm buf nt, P nm nt /\ bq m' = bq (queueBroadcast nm buf nt m).

Lemma bq_queueBroadcast nm buf nt m m1 : bq m1 = bq m -> bq (queueBroadcast nm buf nt m1) = bq (queueBroadcast nm buf nt m).
Proof.
  intros [= E1 E2]. unfold queueBroadcast. rewrite E1, E2. destruct (Queue.QueueBroadcast _ _) as [q fin]. reflexivity.
Qed.

Lemma queues_frame P m m1 m2 m3 : bq m1 = bq m -> bq m3 = bq m2 -> queues P m1 m2 -> queues P m m3.
Proof.
  intros E1 E3 [E|(nm & buf & nt & HP & E)]; [left; congruence|right].
  exists nm, buf, nt. split; [done|]. rewrite E3, E. by apply bq_queueBroadcast.
Qed.

Lemma queues_encode (P : string -> option nat -> Prop) nm g nt m : P nm nt -> queues P m (encodeBroadcastNotify nm g nt m).
Proof. intros HP. unfold encodeBroadcastNotify. destruct (encodeGossip g) as [buf|]; [right|by left]. by exists nm, buf, nt. Qed.

Lemma bq_notifyEvent e m : bq (notifyEvent e m) = bq m.
Proof. unfold notifyEvent. by destruct (EventsD (hooks m)). Qed.

Lemma bq_notifyAlive st st' m : bq (notifyAlive st st' m) = bq m.
Proof. unfold notifyAlive. repeat case_match; rewrite ?bq_notifyEvent; done. Qed.

Lemma bq_dropTimer nm m : bq (dropTimer nm m) = bq m.
Proof. unfold dropTimer. by repeat case_match. Qed.

Lemma queues_refute (P : string -> option nat -> Prop) l me inc m : (forall nm, P nm None) -> queues P m (refute l me inc m).
Proof.
  intros HP. unfold refute. simpl. destruct (inc >=? _); simpl;
    (eapply queues_frame; [|reflexivity|by apply queues_encode]; reflexivity).
Qed.

Lemma queues_aliveUpdate (P : string -> option nat -> Prop) a l st moved nt boot now m m' :
  (boot = false -> forall nm, P nm None) -> P (aNode a) nt -> aliveUpdate a l st moved nt boot now m = Ret m' -> queues P m m'.
Proof.
  intros Hno HP. unfold aliveUpdate. do 2 (case_match; [intros [= <-]; by left|]). case_match.
  - case_match; intros [= <-]; [left; apply bq_dropTimer|].
    eapply queues_frame; [apply bq_dropTimer|apply bq_notifyAlive|apply queues_refute, Hno; by destruct boot].
  - destruct (setVersions _ _) as [n|]; [|done]. intros [= <-].
    eapply queues_frame; [apply bq_dropTimer|rewrite bq_notifyAlive; reflexivity|by apply queues_encode].
Qed.

Lemma queues_alive (P : string -> option nat -> Prop) a nt boot rnd now m m' :
  (boot = false -> forall nm, P nm None) -> P (aNode a) nt -> aliveNode a nt boot rnd now m = Ret m' -> queues P m m'.
Proof.
  intros Hno HP. unfold aliveNode. do 3 (case_match; [intros [= <-]; by left|]).
  destruct (lookupNode (aNode a) m) as [[l st]|].
  - case_match; [|by apply queues_aliveUpdate]. case_match; [intros [= <-]; by left|].
    case_match; [by apply queues_aliveUpdate|]. intros [= <-]. left. by case_match.
  - case_match; [intros [= <-]; by left|]. simpl. intros E. eapply queues_frame; [|reflexivity|by eapply queues_aliveUpdate]. done.
Qed.

Lemma queues_suspect (P : string -> option nat -> Prop) s now m : (forall nm, P nm None) -> queues P m (suspectNode s now m).
Proof.
  intros HP. unfold suspectNode. destruct (lookupNode _ m) as [[l st]|]; [|by left]. case_match; [by left|].
  destruct (nodeTimers m !! sNode s) as [i|].
  - destruct (timers m !! i) as [t|]; [|by left]. unfold confirmTimer. destruct (Suspicion.Confirm _ _ _) as [[su new] calls].
    destruct new; [|by left]. eapply queues_frame; [|reflexivity|by apply queues_encode]. done.
  - case_match; [by left|]. case_match; [by apply queues_refute|].
    eapply queues_frame; [reflexivity| |by apply queues_encode]. done.
Qed.

Lemma queues_dead (P : string -> option nat -> Prop) d now m :
  (forall nm, P nm None) -> (forall nm, P nm (Some leaveBroadcast)) -> queues P m (deadNode d now m).
Proof.
  intros Hno HP. unfold deadNode. destruct (lookupNode _ m) as [[l st]|]; [|by left]. case_match; [by left|].
  case_match; [left; apply bq_dropTimer|]. case_match.
  - eapply queues_frame; [apply bq_dropTimer|reflexivity|by apply queues_refute].
  - eapply queues_frame; [apply bq_dropTimer|rewrite bq_notifyEvent; reflexivity|]. apply queues_encode. by case_match.
Qed.

(** The channel of a call that is not [Leave]'s is not touched by the others: if no
    broadcast carries it, none will, and none that does is finished. *)
Definition without (ch : nat) (bc : Queue.memberlistBroadcast) : Prop := Queue.notify bc <> Some ch.

Lemma queues_without ch m m' :
  queues (fun _ nt => nt <> Some ch) m m' -> allB (without ch) (broadcasts m) ->
  allB (without ch) (broadcasts m') /\ exists fin, finished m' = finished m ++ fin /\ Forall (without ch) fin.
Proof.
  intros [[= -> ->]|(nm & buf & nt & Hnt & E)] Hb.
  - split; [done|]. exists []. by rewrite app_nil_r.
  - unfold bq, queueBroadcast in E. destruct (allB_queue (without ch) (Queue.mkMB nm buf nt) (broadcasts m)) as [Hq Hf]; [done..|].
    destruct (Queue.QueueBroadcast _ _) as [q fin]. injection E as -> ->. split; [done|]. by exists fin.
Qed.

Lemma other_without ch m m' :
  ch <> leaveBroadcast -> otherStep ch m m' -> allB (without ch) (broadcasts m) ->
  allB (without ch) (broadcasts m') /\ exists fin, finished m' = finished m ++ fin /\ Forall (without ch) fin.
Proof.
  intros Hch Hs. assert (Hl : Some leaveBroadcast <> Some ch) by congruence.
  destruct Hs as [a rnd now m m' _ E|s now m|d now m|i now m|j m|j now m|rnd now m|m|? ? ? ? nt ? ? m m' _ Hnt E|m|d ov lim ms q fin m E].
  - apply queues_without. eapply queues_alive; [| |exact E]; done.
  - apply queues_without, queues_suspect. discriminate.
  - apply queues_without, queues_dead; [discriminate|done].
  - apply queues_without. left. unfold expireTimer. repeat case_match; reflexivity.
  - apply queues_without. left. unfold runTimeout. by case_match.
  - apply queues_without. unfold deliverDead. case_match; [|by left].
    eapply queues_frame; [|reflexivity|apply queues_dead; [discriminate|done]]. done.
  - apply queues_without. left. unfold resetNodes. by case_match.
  - apply queues_without. by left.
  - apply queues_without. eapply queues_alive; [| |exact E]; done.
  - apply queues_without. by left.
  - intros Hb. apply (allB_get (without ch)) in E as [Hq Hf]; [|done]. split; [done|]. by exists fin.
Qed.

Lemma finishAll_without ch cap fin w : Forall (without ch) fin -> finishAll ch cap fin w = w.
Proof.
  intros Hf. revert w. induction Hf as [|bc fin Hb _ IH]; intros w; simpl; [done|].
  unfold Finished. rewrite bool_decide_eq_false_2 by done. apply IH.
Qed.

(** Once no broadcast carries the channel, and without a timeout, the call can only
    go on to block for ever. *)
Lemma stuck ch timeout m w m' w' :
  ch <> leaveBroadcast -> allB (without ch) (broadcasts m) -> timeout <= 0 -> buffered w = 0%nat -> at_ w = Before \/ at_ w = Blocked ->
  rtc (waitStep ch 0 timeout) (m, w) (m', w') -> buffered w' = 0%nat /\ (at_ w' = Before \/ at_ w' = Blocked).
Proof.
  intros Hch Hb Hto Hn Hw Hr. remember (m, w) as x eqn:Ex. remember (m', w') as y eqn:Ey. revert m w m' w' Ex Ey Hb Hn Hw.
  induction Hr as [x|x y z Hs _ IH]; intros m w m' w' -> Ez Hb Hn Hw; [by simplify_eq|].
  inversion Hs; subst.
  - destruct (other_without ch m m'0 Hch) as [Hb' (fin' & Ef & Hf)]; [done..|].
    assert (fin = fin') as -> by (eapply (app_inv_head (finished m)); congruence).
    rewrite (finishAll_without _ _ _ _ Hf) in *. by eapply IH.
  - eapply IH; [reflexivity|reflexivity|done|..]; unfold enterSelect; rewrite Hn; simpl; auto.
  - lia.
Qed.

(** A broadcast that is replaced leaves nothing behind. *)
Lemma allB_replace P i x q :
  Queue.name x <> EmptyString -> is_Some (Queue.tq q) -> allB P q ->
  allB P (Queue.deleteItem x (Queue.setIdGen i (Queue.addItem x q))).
Proof.
  intros Hx [t Ht] [Hi Hm]. unfold Queue.items in Hi. rewrite Ht in Hi. unfold Queue.addItem, Queue.deleteItem. rewrite Ht.
  cbn [Queue.setIdGen Queue.tq]. rewrite bool_decide_eq_false_2 by done. split; simpl.
  - unfold Queue.items. simpl. rewrite Queue.btDelete_items, Queue.btInsert_items. unfold Queue.insertItem.
    rewrite filter_app, filter_cons_False by (by intros Hne). apply Forall_app. split; by do 2 apply Forall_filter_sub.
  - rewrite delete_insert_eq. by apply map_Forall_delete.
Qed.

(** Where a broadcast is added: a tree, and the next id. *)
Definition base (q : Queue.TransmitLimitedQueue Queue.memberlistBroadcast T) :=
  Queue.setIdGen (Queue.nextId (Queue.lazyInit q)) (Queue.lazyInit q).

Lemma base_ok P q : allB P q -> allB P (base q) /\ is_Some (Queue.tq (base q)) /\ Queue.tm (base q) = Queue.tm q.
Proof.
  intros [Hi Ht]. unfold base, Queue.lazyInit. destruct (Queue.tq q) eqn:E; simpl; [by rewrite E|].
  split_and!; [split; [|done]|done|done]. unfold Queue.items. simpl. rewrite Queue.btNew_items. constructor.
Qed.

Lemma queueNamed bc q :
  Queue.node bc <> EmptyString -> exists lb, Queue.b lb = bc /\ Queue.name lb = Queue.node bc /\
    Queue.QueueBroadcast bc q =
      match Queue.tm q !! Queue.node bc with
      | Some old => (Queue.addItem lb (Queue.deleteItem old (base q)), [Queue.b old])
      | None => (Queue.addItem lb (base q), [])
      end.
Proof.
  intros Hn. unfold Queue.QueueBroadcast, Queue.queueBroadcast. eexists. split; [|split]; [| |].
  3: { fold (base q). cbn [Queue.kindOf Queue.memberlistBroadcast_Broadcast]. rewrite bool_decide_eq_true_2 by done.
       replace (Queue.tm (base q)) with (Queue.tm q) by (unfold base, Queue.lazyInit; by case_match).
       destruct (Queue.tm q !! Queue.node bc); reflexivity. }
  all: done.
Qed.

Lemma overtaken P nm buf1 nt1 buf2 nt2 q :
  nm <> EmptyString -> allB P q -> P (Queue.mkMB nm buf2 nt2) ->
  let r := Queue.QueueBroadcast (Queue.mkMB nm buf2 nt2) (Queue.QueueBroadcast (Queue.mkMB nm buf1 nt1) q).1 in
  allB P r.1 /\ r.2 = [Queue.mkMB nm buf1 nt1].
Proof.
  intros Hnm Hq HP. destruct (base_ok P q Hq) as (Hb & [t Ht] & _).
  assert (exists lb q1, (Queue.QueueBroadcast (Queue.mkMB nm buf1 nt1) q).1 = Queue.addItem lb q1 /\
    Queue.b lb = Queue.mkMB nm buf1 nt1 /\ Queue.name lb = nm /\ allB P q1 /\ is_Some (Queue.tq q1)) as (lb & q1 & -> & Elb & Enm & Hq1 & [t1 Ht1]).
  { destruct (queueNamed (Queue.mkMB nm buf1 nt1) q) as (lb & ? & ? & ->); [done|]. exists lb. cbn [Queue.node].
    destruct (Queue.tm q !! nm) as [old|]; eexists; (split_and!; [reflexivity|done|done|..]); [by apply allB_delete| |done|by rewrite Ht].
    unfold Queue.deleteItem. by rewrite Ht. }
  destruct (queueNamed (Queue.mkMB nm buf2 nt2) (Queue.addItem lb q1)) as (lb2 & Elb2 & _ & ->); [done|]. simpl.
  assert (Queue.tm (Queue.addItem lb q1) !! nm = Some lb) as ->.
  { unfold Queue.addItem. rewrite Ht1. simpl. rewrite Enm, bool_decide_eq_false_2 by done. apply lookup_insert_eq. }
  split; [|by rewrite Elb]. apply allB_add; [by rewrite Elb2|]. simpl. unfold base.
  replace (Queue.lazyInit (Queue.addItem lb q1)) with (Queue.addItem lb q1) by (unfold Queue.lazyInit, Queue.addItem; by rewrite Ht1).
  apply allB_replace; [by rewrite Enm|by rewrite Ht1|done].
Qed.

(** ** A buffered notification *)

(** The call has returned, or will when it comes to its [select]. *)
Definition ready (w : waiter) : Prop := at_ w <> Blocked /\ (at_ w = Before -> (0 < buffered w)%nat).

Lemma Finished_ready ch w bc : ready w \/ Queue.notify bc = Some ch -> ready (Finished ch 1 w bc).
Proof.
  unfold Finished, ready. destruct w as [n pc]. intros Hw. case_bool_decide; [|by destruct Hw].
  destruct pc; simpl; try done; destruct n as [|n]; simpl; (split; [done|]); intros _; lia.
Qed.

Lemma finishAll_ready ch fin w :
  ready w \/ (exists bc, bc ∈ fin /\ Queue.notify bc = Some ch) -> ready (finishAll ch 1 fin w).
Proof.
  revert w. induction fin as [|bc fin IH]; intros w Hw; simpl; [destruct Hw as [?|(? & ? & ?)]; [done|set_solver]|].
  apply IH. destruct Hw as [Hw|(b' & [->|Hb]%elem_of_cons & Hn)]; [left; apply Finished_ready; by left| |right; by exists b'].
  left. apply Finished_ready. by right.
Qed.

Lemma finishAll_at ch cap fin w : at_ (finishAll ch cap fin w) = at_ w \/ (at_ w = Blocked /\ at_ (finishAll ch cap fin w) = Notified).
Proof.
  revert w. induction fin as [|bc fin IH]; intros w; simpl; [by left|]. destruct (IH (Finished ch cap w bc)) as [->|[Hb ->]];
    revert Hb || idtac; unfold Finished; case_bool_decide; auto; destruct w as [n []]; simpl; try case_match; simpl; auto; done.
Qed.

(** A notification before or after the [select] ends the wait. *)
Lemma select_notified ch f1 f2 w :
  (exists bc, bc ∈ f1 /\ Queue.notify bc = Some ch) \/ (exists bc, bc ∈ f2 /\ Queue.notify bc = Some ch) ->
  at_ w = Before -> at_ (finishAll ch 1 f2 (enterSelect (finishAll ch 1 f1 w))) = Notified.
Proof.
  intros Hin Hw. set (w1 := finishAll ch 1 f1 w). assert (Hw1 : at_ w1 = Before) by (unfold w1; destruct (finishAll_at ch 1 f1 w) as [E|[E _]]; congruence).
  assert (Hr : ready (finishAll ch 1 f2 (enterSelect w1))).
  { apply finishAll_ready. destruct Hin as [Hin|Hin]; [left|by right].
    destruct (finishAll_ready ch f1 w (or_intror Hin)) as [_ Hb]. fold w1 in Hb. specialize (Hb Hw1).
    unfold enterSelect. destruct (buffered w1); [lia|done]. }
  destruct Hr as [Hr _]. assert (He : at_ (enterSelect w1) = Blocked \/ at_ (enterSelect w1) = Notified)
    by (unfold enterSelect; destruct (buffered w1); auto).
  destruct (finishAll_at ch 1 f2 (enterSelect w1)) as [E|[_ E]]; destruct He; congruence.
Qed.

Lemma wait_ready ch timeout m w m' w' :
  rtc (waitStep ch 1 timeout) (m, w) (m', w') -> exists fin, finished m' = finished m ++ fin /\
    (ready w \/ (exists bc, bc ∈ fin /\ Queue.notify bc = Some ch) -> ready w').
Proof.
  intros Hr. remember (m, w) as x eqn:Ex. remember (m', w') as y eqn:Ey. revert m w m' w' Ex Ey.
  induction Hr as [x|x y z Hs _ IH]; intros m w m' w' -> Ez.
  - simplify_eq. exists []. rewrite app_nil_r. split; [done|]. intros [?|(? & ? & ?)]; [done|set_solver].
  - inversion Hs as [? m1 fin1 ? _ Hf|? ? Hb|? ? _ Hb]; subst.
    + destruct (IH _ _ _ _ eq_refl eq_refl) as (fin & -> & Hi). exists (fin1 ++ fin). rewrite Hf, app_assoc. split; [done|].
      intros Hw. apply Hi. destruct Hw as [Hw|(bc & [Hbc|Hbc]%elem_of_app & Hn)]; [left..|right; by exists bc];
        apply finishAll_ready; [by left|right; by exists bc].
    + destruct (IH _ _ _ _ eq_refl eq_refl) as (fin & -> & Hi). exists fin. split; [done|]. intros [[Hb1 Hw]|?]; apply Hi; [left|by right].
      specialize (Hw Hb). unfold enterSelect. destruct (buffered w); [lia|]. by split.
    + destruct (IH _ _ _ _ eq_refl eq_refl) as (fin & -> & Hi). exists fin. split; [done|]. intros [_|?]; apply Hi; [left|by right].
      by split.
Qed.

(** ** Rounds of gossip *)

(** [k] rounds that take broadcasts from the queue. *)
Fixpoint rounds (ch cap : nat) (k : nat) (ov lim : Z) (s : ML * waiter) : option (ML * waiter) :=
  match k with
  | O => Some s
  | S k' =>
      match rounds ch cap k' ov lim s with
      | None => None
      | Some (m, w) =>
          match Queue.getBroadcasts None ov lim (estNumNodes m) (broadcasts m) with
          | None => None
          | Some (_, q, fin) => Some (setBroadcasts q (finished m ++ fin) m, finishAll ch cap fin w)
          end
      end
  end.

Lemma rounds_gossip ch cap k ov lim m w rs q fin :
  Queue.gossip k ov lim (estNumNodes m) (broadcasts m) = Some (rs, q, fin) ->
  rounds ch cap k ov lim (m, w) = Some (setBroadcasts q (finished m ++ fin) m, finishAll ch cap fin w).
Proof.
  revert rs q fin. induction k as [|k IH]; intros rs q fin; simpl.
  - intros [= _ <- <-]. rewrite app_nil_r. by destruct m.
  - destruct (Queue.gossip k _ _ _ _) as [[[rs1 q1] f1]|]; [|done]. rewrite (IH _ _ _ eq_refl).
    cbn [broadcasts setBroadcasts estNumNodes numNodes]. unfold Queue.getBroadcasts, estNumNodes.
    destruct (Queue.GetBroadcasts ov lim (numNodes m) q1) as [[[ms q2] f2]|] eqn:E; [|done]. intros [= _ <- <-].
    unfold finishAll. rewrite foldl_app, app_assoc. reflexivity.
Qed.

Lemma gossip_split j k ov lim n q rs q' fin :
  Queue.gossip (T := T) (j + k) ov lim n q = Some (rs, q', fin) ->
  exists rs1 q1 f1 rs2 f2, Queue.gossip j ov lim n q = Some (rs1, q1, f1) /\
    Queue.gossip k ov lim n q1 = Some (rs2, q', f2) /\ fin = f1 ++ f2.
Proof.
  revert rs q' fin. induction k as [|k IH]; intros rs q' fin.
  - rewrite Nat.add_0_r. intros E. exists rs, q', fin, [], []. simpl. by rewrite app_nil_r.
  - rewrite Nat.add_succ_r. simpl. destruct (Queue.gossip (j + k) ov lim n q) as [[[r1 q1] f1]|] eqn:E; [|done].
    destruct (Queue.GetBroadcasts ov lim n q1) as [[[ms q2] f2]|] eqn:E2; [|done]. intros [= _ <- <-].
    destruct (IH _ _ _ eq_refl) as (rs1 & qa & fa & rs2 & fb & Ha & Hb & ->).
    exists rs1, qa, fa, (rs2 ++ [ms]), (fb ++ f2). rewrite Hb, E2, app_assoc. done.
Qed.

(** ** Properties *)

(** [UpdateNode] queues at most one broadcast, under the local name. *)
Lemma UpdateNode_queues meta ch rnd now m m' wait :
  UpdateNode meta ch rnd now m = Ret (m', wait) -> queues (fun nm nt => nm = self m /\ nt = Some ch) m m'.
Proof.
  unfold UpdateNode. destruct (lookupNode (self m) m) as [[l st]|]; [|done]. unfold localAlive. cbn [nextIncarnation].
  destruct (aliveNode _ _ _ _ _ _) as [m1|] eqn:E; [|done]. intros [= <- _].
  eapply queues_frame; [|reflexivity|eapply queues_alive; [| |exact E]]; [reflexivity|done|by split].
Qed.

(** A leaving member learns that its message is out: the channel of [Leave] has a
    buffer, so under every interleaving of the call with the rest of the member, once
    a broadcast with the channel is finished, the call is not blocked: it has
    returned, or it will return as soon as it comes to its [select]. *)
Theorem leave_not_missed timeout m m' w' fin bc
    (Hr : rtc (waitStep leaveBroadcast 1 timeout) (m, waiting) (m', w'))
    (Hf : finished m' = finished m ++ fin) (Hin : bc ∈ fin) (Hn : Queue.notify bc = Some leaveBroadcast) :
  is_Some (waitResult "leave" w') \/ (at_ w' = Before /\ waitResult "leave" (enterSelect w') = Some (Ok tt)).
Proof.
  destruct (wait_ready _ _ _ _ _ _ Hr) as (fin' & Hf' & Hi). assert (fin' = fin) as -> by (eapply (app_inv_head (finished m)); congruence).
  destruct Hi as [Hb Hw]; [right; by exists bc|]. unfold waitResult, enterSelect. destruct (at_ w'); [|done|by left|by left].
  right. split; [done|]. destruct (buffered w'); [specialize (Hw eq_refl); lia|done].
Qed.

(** C18: Leaving ends: when a running member leaves and its queue is well formed
    and fits into a packet, then after as many rounds of gossip as the retransmit
    limit says, [Leave] returns without an error, no matter after how many of them
    it came to its [select]. *)
Theorem leave_returns conf hk m st now buf m' j k ov lim
    (Hr : reachable conf hk m) (Hv : view m !! self m = Some st) (Hs : State st = StateAlive) (Hl : leave m = false)
    (Henc : encodeGossip (GDead (mkDead (Incarnation st) (self m) (self m))) = Some buf)
    (Hwf : Queue.wf (broadcasts m)) (Hlen : blen buf <= maxI64) (Hgen : Queue.idGen (broadcasts m) <= maxI64)
    (Hid : ~ Queue.nextId (broadcasts m) ∈ map Queue.id (Queue.items (broadcasts m)))
    (Hm' : m' = (Leave now m).1) (Hov : 0 <= ov)
    (Hroom : Queue.sizeOf ov (map Queue.msgOf (Queue.items (broadcasts m'))) < lim)
    (Hk : (0 < j + k)%nat) (Hlim : Timing.retransmitLimit (Queue.RetransmitMult (broadcasts m')) (estNumNodes m') <= Z.of_nat (j + k)) :
  exists m1 w1 m2 w2, rounds leaveBroadcast 1 j ov lim (m', waiting) = Some (m1, w1) /\
    rounds leaveBroadcast 1 k ov lim (m1, enterSelect w1) = Some (m2, w2) /\ waitResult "leave" w2 = Some (Ok tt).
Proof.
  destruct (Leave_effect conf hk m st now buf Hr Hv Hs Hl Henc) as (_ & _ & Hb & _). rewrite <- Hm' in Hb.
  destruct (Queue.queueBroadcast_spec (Queue.mkMB (self m) buf (Some leaveBroadcast)) 0 (broadcasts m) Hwf Hlen Hgen Hid) as (Hi & _ & Hwf').
  fold (Queue.QueueBroadcast (Queue.mkMB (self m) buf (Some leaveBroadcast)) (broadcasts m)) in Hi, Hwf'. rewrite <- Hb in Hi, Hwf'.
  destruct (Queue.gossip_spec (j + k) ov lim (estNumNodes m') (broadcasts m') Hwf' Hov Hroom) as (rs & q' & fin & Hg & _ & _ & _ & Hfin & _).
  destruct (gossip_split _ _ _ _ _ _ _ _ _ Hg) as (rs1 & q1 & f1 & rs2 & f2 & H1' & H2' & ->).
  assert (Hin : exists bc, bc ∈ f1 ++ f2 /\ Queue.notify bc = Some leaveBroadcast).
  { eexists. split; [rewrite Hfin; apply list_elem_of_fmap; eexists; split; [reflexivity|]; apply list_elem_of_filter; split|].
    2: { rewrite Hi. by left. } 2: done. unfold Queue.remains. simpl. lia. }
  do 4 eexists. split; [by eapply rounds_gossip|]. split; [eapply rounds_gossip; exact H2'|].
  unfold waitResult. rewrite select_notified; [done| |done]. destruct Hin as (bc & [Hbc|Hbc]%elem_of_app & Hn); [left|right]; by exists bc.
Qed.

(** C37: Concurrent updates can hang: when a second [UpdateNode] replaces the
    broadcast of a first one that has not yet come to its [select], the first
    one's notification is dropped, since its channel has no buffer; without a
    timeout the first call then never returns, whatever the member does from there
    on. *)
Theorem concurrent_update_hangs ch1 ch2 meta1 meta2 rnd1 rnd2 now1 now2 timeout m m1 m2 fin bc wait1 wait2
    (Hself : self m1 <> EmptyString) (Hleave : ch1 <> leaveBroadcast) (Hne : ch1 <> ch2)
    (Hfresh : allB (without ch1) (broadcasts m))
    (Hfirst : UpdateNode meta1 ch1 rnd1 now1 m = Ret (m1, wait1)) (Hs : self m1 = self m)
    (Hsecond : UpdateNode meta2 ch2 rnd2 now2 m1 = Ret (m2, wait2))
    (Hfin : finished m2 = finished m1 ++ fin) (Hin : bc ∈ fin) (Hdone : Queue.notify bc = Some ch1) (Hto : timeout <= 0) :
  finishAll ch1 0 fin waiting = waiting /\
  forall m' w', rtc (waitStep ch1 0 timeout) (m2, waiting) (m', w') -> waitResult "update" w' = None.
Proof.
  assert (Hm2 : allB (without ch1) (broadcasts m2)).
  { apply UpdateNode_queues in Hsecond as [[= Eb Ef]|(nm2 & buf2 & nt2 & [-> ->] & E2)].
    - rewrite Ef in Hfin. rewrite <- (app_nil_r (finished m1)) in Hfin at 1. apply app_inv_head in Hfin. subst fin. set_solver.
    - unfold bq, queueBroadcast in E2. apply UpdateNode_queues in Hfirst as [[= Eb Ef]|(nm1 & buf1 & nt1 & [-> ->] & E1)].
      + rewrite Eb in E2. destruct (allB_queue (without ch1) (Queue.mkMB (self m1) buf2 (Some ch2)) (broadcasts m)) as [Hq Hf];
          [by intros [= ?]|done|]. destruct (Queue.QueueBroadcast _ _) as [q fin']. injection E2 as -> _. done.
      + unfold bq, queueBroadcast in E1. rewrite Hs in *.
        destruct (overtaken (without ch1) (self m) buf1 (Some ch1) buf2 (Some ch2) (broadcasts m)) as [Hq _]; [done..|by intros [= ?]|].
        destruct (Queue.QueueBroadcast (Queue.mkMB (self m) buf1 (Some ch1)) _) as [q1 f1]. injection E1 as Eb1 _. rewrite Eb1 in E2.
        cbn [fst] in Hq. destruct (Queue.QueueBroadcast _ q1) as [q2 f2]. injection E2 as -> _. done. }
  split.
  - clear. induction fin as [|x fin IH]; simpl; [done|].
    assert (Finished ch1 0 waiting x = waiting) as -> by (unfold Finished; by case_bool_decide). done.
  - intros m' w' Hr. apply (stuck ch1 timeout) in Hr as [_ Hw]; [|done|done|done|done|by left]. unfold waitResult. by destruct Hw as [-> | ->].
Qed.

(** An update after leaving can hang: once the member has left, [UpdateNode]
    queues nothing, yet it waits for the broadcast if any other member is live;
    without a timeout it never returns. *)
Theorem update_after_leave_hangs ch meta rnd now timeout m m1
    (Hl : hasLeft m = true) (Hleave : ch <> leaveBroadcast) (Hfresh : allB (without ch) (broadcasts m))
    (Hup : UpdateNode meta ch rnd now m = Ret (m1, true)) (Hto : timeout <= 0) :
  forall m' w', rtc (waitStep ch 0 timeout) (m1, waiting) (m', w') -> waitResult "update" w' = None.
Proof.
  assert (Hb : broadcasts m1 = broadcasts m).
  { unfold UpdateNode in Hup. destruct (lookupNode (self m) m) as [[l st]|]; [|done].
    unfold localAlive, aliveNode in Hup. cbn [nextIncarnation] in Hup.
    change (hasLeft (setIncarnation _ m)) with (hasLeft m) in Hup. rewrite Hl in Hup. cbn [andb aNode] in Hup.
    rewrite bool_decide_eq_true_2 in Hup by done. by injection Hup as <- _. }
  intros m' w' Hr. apply (stuck ch timeout) in Hr as [_ Hw]; [|done|by rewrite Hb|done|done|by left].
  unfold waitResult. by destruct Hw as [-> | ->].
Qed.

End Waiting.

(** ** Ping *)

(** The error [NoPingResponseError]. *)
Definition noPingResponse (target : string) : string := "No response from node " +:+ target.

(** The end of [Ping]: a message from the channel, or nothing within
    [ProbeTimeout]. *)
Definition pingResult (target : string) (sent : gotime) (r : option Acks.ackMessage) : res string (duration * bytes) :=
  match r with
  | Some v => if Acks.Complete v then Ok (timeSub (Acks.Timestamp v) sent, Acks.Payload v) else Err (noPingResponse target)
  | None => Err (noPingResponse target)
  end.

(** C32: A ping comes back: the peer of that name answers the packet [Ping] sends,
    to the address the sender advertises; and when that answer is handled before
    the handler is reaped, [Ping] returns the time it took and the peer's payload. *)
Theorem ping_answered me peer target to k payload from ts sent s s1 ch s2
    (Hk : 0 <= k) (Hpeer : Acks.advName peer = target) (Hadv : Acks.advAddr me <> [] /\ Acks.advPort me > 0)
    (Hping : Acks.startPing me target to k s = Ret (ch, s1)) :
  exists p a, Acks.outbox s1 = Acks.outbox s ++ [(Acks.mkAddress to target, Acks.WPing p)] /\
    Acks.outbox (Acks.handlePing peer payload p from s2) =
      Acks.outbox s2 ++ [(Acks.mkAddress (Config.joinHostPort (Config.ipString (Acks.advAddr me)) (Acks.advPort me)) (Acks.advName me), Acks.WAck a)] /\
    forall s3, Acks.ackHandlers s3 !! Acks.aSeqNo a = Acks.ackHandlers s1 !! Acks.aSeqNo a ->
      Acks.ackChans s3 !! ch = Acks.ackChans s1 !! ch ->
      exists s4 cap v, Acks.invokeAckHandler a ts s3 = Ret s4 /\ Acks.ackChans s4 !! ch = Some (cap, [v]) /\
        pingResult target sent (Some v) = Ok (timeSub ts sent, match payload with Some b => b | None => [] end).
Proof.
  unfold Acks.startPing in Hping. rewrite (proj2 (Z.ltb_ge _ _)) in Hping by lia. cbn in Hping. injection Hping as <- <-.
  set (n := u32 _) in *. eexists _, _. split; [reflexivity|]. split.
  - unfold Acks.handlePing. cbn. rewrite (bool_decide_eq_true_2 (target = Acks.advName peer)) by done. rewrite andb_false_r. cbn. unfold Acks.replyAddr.
    destruct Hadv as [Ha Hp]. destruct (Acks.advAddr me) as [|x l]; [done|]. cbn [length Nat.ltb Nat.leb andb].
    by rewrite (proj2 (Z.gtb_lt _ _)) by lia.
  - intros s3 Hh Hc. cbn in Hh, Hc. rewrite lookup_insert_eq in Hh. rewrite lookup_insert_eq in Hc.
    unfold Acks.invokeAckHandler. cbn. rewrite Hh. cbn. unfold Acks.offerAck. cbn. rewrite Hc. cbn.
    destruct (Z.to_nat (k + 1)) as [|c] eqn:E; [lia|]. cbn. do 3 eexists. split; [reflexivity|].
    cbn. rewrite lookup_insert_eq. split; [reflexivity|]. done.
Qed.

(** ** Concrete runs *)

#[local] Existing Instances Queue.listTree Queue.listTree_laws toyCodec.

(** The queue of a member that has announced itself and heard of "b". *)
Lemma x3_queue :
  broadcasts x3 = (Queue.QueueBroadcast (Queue.mkMB "b" ("004"%byte :: bytes_of_string "b") None)
    (Queue.QueueBroadcast (Queue.mkMB "a" ("004"%byte :: bytes_of_string "a") None) (Queue.newQueue 4)).1).1.
Proof. vm_compute. reflexivity. Qed.

Lemma x3_wf : Queue.wf (broadcasts x3).
Proof.
  rewrite x3_queue.
  apply Queue.queueBroadcast_spec; [apply Queue.queueBroadcast_spec; [apply Queue.wf_newQueue|..]|..]; vm_compute; try discriminate.
  all: intros Hin; repeat (apply elem_of_cons in Hin as [Hin|Hin]; [discriminate|]); by apply not_elem_of_nil in Hin.
Qed.

Lemma x3_fresh ch : allB (without ch) (broadcasts x3).
Proof. rewrite x3_queue. apply allB_queue; [done|]. apply allB_queue; [done|]. split; [constructor|done]. Qed.

Lemma leave_returns_witness :
  exists m1 w1 m2 w2, rounds leaveBroadcast 1 1 3 1000 ((Leave 5000 x3).1, waiting) = Some (m1, w1) /\
    rounds leaveBroadcast 1 3 3 1000 (m1, enterSelect w1) = Some (m2, w2) /\ waitResult "leave" w2 = Some (Ok tt).
Proof.
  apply (leave_returns xconf xhooks x3 aState 5000 ("005"%byte :: bytes_of_string "a") (Leave 5000 x3).1 1 3 3 1000 x3_reachable);
    [vm_compute; reflexivity..|exact x3_wf|by vm_compute|by vm_compute| |reflexivity|done|vm_compute; reflexivity|lia|by vm_compute].
  intros Hin. vm_compute in Hin. repeat (apply elem_of_cons in Hin as [Hin|Hin]; [discriminate|]). by apply not_elem_of_nil in Hin.
Defined.

(** Two updates of a member that knows "b", with channels 7 and 8. *)
Lemma concurrent_update_hangs_witness :
  exists m1 m2 fin, UpdateNode [x01] 7 0 6000 x3 = Ret (m1, true) /\ UpdateNode [x02] 8 0 6001 m1 = Ret (m2, true) /\
    finished m2 = finished m1 ++ fin /\ finishAll 7 0 fin waiting = waiting /\
    forall m' w', rtc (waitStep 7 0 0) (m2, waiting) (m', w') -> waitResult "update" w' = None.
Proof.
  destruct (UpdateNode [x01] 7 0 6000 x3) as [[m1 wait1]|] eqn:E1; [|discriminate E1].
  destruct (UpdateNode [x02] 8 0 6001 m1) as [[m2 wait2]|] eqn:E2.
  2: { vm_compute in E1. injection E1 as <- _. vm_compute in E2. discriminate E2. }
  exists m1, m2, [Queue.mkMB "a" ("004"%byte :: bytes_of_string "a") (Some 7%nat)].
  assert (wait1 = true /\ wait2 = true /\ self m1 = "a" /\
    finished m2 = finished m1 ++ [Queue.mkMB "a" ("004"%byte :: bytes_of_string "a") (Some 7%nat)]) as (-> & -> & Hs & Hf).
  { vm_compute in E1. injection E1 as <- <-. vm_compute in E2. injection E2 as <- <-. repeat split. }
  split; [done|]. split; [done|]. split; [done|].
  apply (concurrent_update_hangs 7 8 [x01] [x02] 0 0 6000 6001 0 x3 m1 m2 _
    (Queue.mkMB "a" ("004"%byte :: bytes_of_string "a") (Some 7%nat)) true true); try done.
  - by rewrite Hs.
  - apply x3_fresh.
  - by left.
Defined.

(** Member "b" is pinged by "a". *)
Lemma ping_answered_witness :
  exists ch s1 p a, Acks.startPing (Acks.mkIdentity xaddr 7946 "a") "b" (bytes_of_string "10.0.0.2:7946") 3 Acks.newAckState = Ret (ch, s1) /\
    Acks.outbox s1 = [(Acks.mkAddress (bytes_of_string "10.0.0.2:7946") "b", Acks.WPing p)] /\
    exists s4 cap v, Acks.invokeAckHandler a 9000 s1 = Ret s4 /\ Acks.ackChans s4 !! ch = Some (cap, [v]) /\
      pingResult "b" 5000 (Some v) = Ok (4000, [x2a]).
Proof.
  destruct (Acks.startPing (Acks.mkIdentity xaddr 7946 "a") "b" (bytes_of_string "10.0.0.2:7946") 3 Acks.newAckState)
    as [[ch s1]|] eqn:E; [|discriminate E].
  destruct (ping_answered (Acks.mkIdentity xaddr 7946 "a") (Acks.mkIdentity yaddr 7946 "b") "b" (bytes_of_string "10.0.0.2:7946") 3
    (Some [x2a]) (bytes_of_string "10.0.0.1:7946") 9000 5000 Acks.newAckState s1 ch Acks.newAckState) as (p & a & Hp & _ & Hack);
    [done|done|done|exact E|].
  exists ch, s1, p, a. split; [done|]. split; [exact Hp|]. exact (Hack s1 eq_refl eq_refl).
Defined.

End Waiting.
