(* ===== verification/Wire.v ===== *)
(** * Encoding and compressing messages (util.go)

    The msgpack codec is a library the sources only call: the class [Codec] has
    its two operations for a type of messages, [CodecLaws] what the code relies
    on. The codec of a countable type at the end satisfies them. *)

From Stdlib Require Import ZArith Lia Strings.Byte.
From stdpp Require Import tactics base numbers strings gmap list countable.
From S2P Require Import Prelude Compound Lzw Config Queue Members Acks.

Local Open Scope Z_scope.
Local Open Scope go_scope.

Module Wire.

(** ** The codec *)

(** [marshal] is [Encoder.Encode], [None] for an error; [unmarshal] is
    [Decoder.Decode] on a reader, with the bytes it leaves unread. *)
Class Codec (A : Type) := {
  marshal : A -> option bytes;
  unmarshal : bytes -> option (A * bytes)
}.

(** Encodings are self-delimiting and decode to what was encoded. *)
Class CodecLaws (A : Type) `{Codec A} : Prop :=
  unmarshal_marshal : forall (x : A) b rest, marshal x = Some b -> unmarshal (b ++ rest) = Some (x, rest).

(** [encode] puts the message type in front. *)
Definition encode {A} `{Codec A} (msgType : Z) (x : A) : option bytes :=
  match marshal x with Some b => Some (byte_of_Z msgType :: b) | None => None end.

(** [decode] ignores what follows the message. *)
Definition decode {A} `{Codec A} (buf : bytes) : option A :=
  match unmarshal buf with Some (x, _) => Some x | None => None end.

Lemma decode_encode {A} `{CodecLaws A} t (x : A) buf :
  encode t x = Some buf -> exists b, buf = byte_of_Z t :: b /\ decode b = Some x.
Proof.
  unfold encode, decode. destruct (marshal x) as [b|] eqn:E; [|done]. intros [= <-]. exists b. split; [done|].
  rewrite <- (app_nil_r b). by rewrite (unmarshal_marshal x b []).
Qed.

(** The broadcasts of the membership protocol, encoded with these codecs. *)
Definition gossipCodec `{Codec Members.alive, Codec Members.suspect, Codec Members.dead} : Members.GossipCodec := {|
  Members.encodeGossip g :=
    match g with
    | Members.GAlive a => encode Compound.aliveMsg a
    | Members.GSuspect s => encode Compound.suspectMsg s
    | Members.GDead d => encode Compound.deadMsg d
    end
|}.

(** ** Compression *)

Record compress := mkCompress { Algo : Z; Buf : bytes }.

Definition lzwAlgo : Z := 0.

Inductive compressErr :=
| ErrUnknownAlgorithm (algo : Z)
| ErrDecode
| ErrLzw (e : Lzw.lzwErr).

Definition compressPayload `{Codec compress} (inp : bytes) : option bytes :=
  encode Compound.compressMsg (mkCompress lzwAlgo (Lzw.lzwWrite inp)).

Definition decompressBuffer (c : compress) : outcome (res compressErr bytes) :=
  if negb (Algo c =? lzwAlgo) then Ret (Err (ErrUnknownAlgorithm (Algo c)))
  else
    let! r := Lzw.lzwRead (Buf c) in
    Ret (match r with Ok b => Ok b | Err e => Err (ErrLzw e) end).

Definition decompressPayload `{Codec compress} (msg : bytes) : outcome (res compressErr bytes) :=
  match decode msg with
  | None => Ret (Err ErrDecode)
  | Some c => decompressBuffer c
  end.

Lemma decompress_compressed `{CodecLaws compress} inp buf :
  compressPayload inp = Some buf ->
  exists b, buf = byte_of_Z Compound.compressMsg :: b /\ decompressPayload b = Ret (Ok inp).
Proof.
  intros E. destruct (decode_encode _ _ _ E) as (b & -> & Hd). exists b. split; [done|].
  unfold decompressPayload. rewrite Hd. unfold decompressBuffer. simpl. by rewrite Lzw.lzwRead_write.
Qed.

(** ** A codec for countable types *)

(** The bits of the number, one per byte, then an end mark. *)
Fixpoint posBytes (p : positive) : bytes :=
  match p with
  | xH => [x02]
  | xO p' => x00 :: posBytes p'
  | xI p' => x01 :: posBytes p'
  end.

Fixpoint readPos (b : bytes) : option (positive * bytes) :=
  match b with
  | [] => None
  | x00 :: b' => match readPos b' with Some (p, r) => Some (xO p, r) | None => None end
  | x01 :: b' => match readPos b' with Some (p, r) => Some (xI p, r) | None => None end
  | x02 :: b' => Some (xH, b')
  | _ :: _ => None
  end.

Lemma readPos_posBytes p rest : readPos (posBytes p ++ rest) = Some (p, rest).
Proof. induction p as [p IH|p IH|]; simpl; by rewrite ?IH. Qed.

Definition countableCodec {A} `{Countable A} : Codec A := {|
  marshal x := Some (posBytes (countable.encode x));
  unmarshal b :=
    match readPos b with
    | Some (p, r) => match countable.decode p with Some x => Some (x, r) | None => None end
    | None => None
    end
|}.

Lemma countableCodec_laws {A} `{Countable A} : @CodecLaws A countableCodec.
Proof. intros x b rest [= <-]. simpl. by rewrite readPos_posBytes, countable.decode_encode. Qed.

#[export] Instance byte_countable : Countable byte :=
  inj_countable' Z_of_byte byte_of_Z byte_of_Z_of_byte.

#[export] Instance compress_eq_dec : EqDecision compress.
Proof. solve_decision. Defined.

#[export] Instance compress_countable : Countable compress.
Proof. by refine (inj_countable' (fun c => (Algo c, Buf c)) (fun '(a, b) => mkCompress a b) _); intros []. Defined.

#[export] Instance alive_eq_dec : EqDecision Members.alive.
Proof. solve_decision. Defined.

#[export] Instance alive_countable : Countable Members.alive.
Proof.
  by refine (inj_countable' (fun r => (Members.aIncarnation r, Members.aNode r, Members.aAddr r, Members.aPort r, Members.aMeta r, Members.aVsn r))
    (fun '(x, y, z, u, v, w) => Members.mkAlive x y z u v w) _); intros [].
Defined.

#[export] Instance suspect_eq_dec : EqDecision Members.suspect.
Proof. solve_decision. Defined.

#[export] Instance suspect_countable : Countable Members.suspect.
Proof.
  by refine (inj_countable' (fun r => (Members.sIncarnation r, Members.sNode r, Members.sFrom r))
    (fun '(x, y, z) => Members.mkSuspect x y z) _); intros [].
Defined.

#[export] Instance dead_eq_dec : EqDecision Members.dead.
Proof. solve_decision. Defined.

#[export] Instance dead_countable : Countable Members.dead.
Proof.
  by refine (inj_countable' (fun r => (Members.dIncarnation r, Members.dNode r, Members.dFrom r))
    (fun '(x, y, z) => Members.mkDead x y z) _); intros [].
Defined.

#[export] Instance ping_eq_dec : EqDecision Acks.ping.
Proof. solve_decision. Defined.

#[export] Instance ping_countable : Countable Acks.ping.
Proof.
  by refine (inj_countable' (fun r => (Acks.pSeqNo r, Acks.pNode r, Acks.pSourceAddr r, Acks.pSourcePort r, Acks.pSourceNode r))
    (fun '(x, y, z, u, v) => Acks.mkPing x y z u v) _); intros [].
Defined.

#[export] Instance indirectPingReq_eq_dec : EqDecision Acks.indirectPingReq.
Proof. solve_decision. Defined.

#[export] Instance indirectPingReq_countable : Countable Acks.indirectPingReq.
Proof.
  by refine (inj_countable' (fun r => (Acks.iSeqNo r, Acks.iTarget r, Acks.iPort r, Acks.iNode r, Acks.iNack r, Acks.iSourceAddr r, Acks.iSourcePort r, Acks.iSourceNode r))
    (fun '(x, y, z, u, v, w, p, q) => Acks.mkIndirect x y z u v w p q) _); intros [].
Defined.

#[export] Instance ackResp_eq_dec : EqDecision Acks.ackResp.
Proof. solve_decision. Defined.

#[export] Instance ackResp_countable : Countable Acks.ackResp.
Proof.
  by refine (inj_countable' (fun r => (Acks.aSeqNo r, Acks.aPayload r))
    (fun '(x, y) => Acks.mkAckResp x y) _); intros [].
Defined.

#[export] Instance nackResp_eq_dec : EqDecision Acks.nackResp.
Proof. solve_decision. Defined.

#[export] Instance nackResp_countable : Countable Acks.nackResp.
Proof.
  by refine (inj_countable' (fun r => Acks.nSeqNo r)
    Acks.mkNackResp _); intros [].
Defined.

(** ** Properties *)

(** C22: Compression loses nothing: what [compressPayload] produces is a
    compressed message from which [decompressPayload] recovers the input, for
    every input of any length -- through table resets and all code widths. *)
Theorem compress_roundtrip `{CodecLaws compress} (inp buf : bytes) :
  compressPayload inp = Some buf ->
  exists b, buf = byte_of_Z Compound.compressMsg :: b /\ decompressPayload b = Ret (Ok inp).
Proof. apply decompress_compressed. Qed.

(** Decompression always ends, on arbitrary bytes from the network: with the data
    or an error, never with an index out of range and never in a loop over the
    code table. *)
Theorem decompress_total `{Codec compress} (msg : bytes) :
  exists r, decompressPayload msg = Ret r.
Proof.
  unfold decompressPayload. destruct (decode msg) as [c|]; [|eauto]. unfold decompressBuffer.
  destruct (negb (Algo c =? lzwAlgo)); [eauto|].
  destruct (Lzw.lzwRead_total (Buf c)) as [r ->]. simpl. eauto.
Qed.

Definition exText : bytes := bytes_of_string "gossip gossip gossip gossip".

Lemma compress_roundtrip_witness :
  exists buf b, @compressPayload countableCodec exText = Some buf /\
    buf = byte_of_Z Compound.compressMsg :: b /\ @decompressPayload countableCodec b = Ret (Ok exText).
Proof.
  destruct (@compress_roundtrip countableCodec countableCodec_laws exText _ eq_refl) as (b & E & D).
  eexists _, b. split; [reflexivity|]. split; [exact E|exact D].
Defined.

End Wire.
