(* ===== verification/Probe.v ===== *)
(** * Failure detection (state.go, util.go)

    The background tasks: choosing the next node to probe, probing it, random
    peers, and starting and
    stopping the tasks. The handlers of acknowledgements are in [Acks]. The
    answers of the network and of the runtime (sends that fail, acknowledgements
    that arrive, timeouts, random numbers) are arguments. *)

From Stdlib Require Import ZArith Lia Strings.Byte.
From stdpp Require Import tactics base numbers strings gmap list relations.
From S2P Require Import Prelude Timing Awareness Queue Suspicion Config Members Membership Guarantees Acks.

Local Open Scope Z_scope.

Module Probe.

Import Members.

(** ** Random peers (util.go) *)

(** [kRandomNodes]: [rnds] are the random numbers, one per attempt; there are
    [3*n] attempts. *)
Fixpoint kRandomLoop (k : nat) (rnds : list Z) (ns : list nodeState) (exclude : nodeState -> bool)
    (kNodes : list Node) : list Node :=
  match rnds with
  | [] => kNodes
  | r :: rnds' =>
      if Nat.leb k (length kNodes) then kNodes
      else
        match ns !! Z.to_nat (Timing.randomOffset r (Z.of_nat (length ns))) with
        | None => kNodes
        | Some st =>
            if exclude st then kRandomLoop k rnds' ns exclude kNodes
            else if existsb (fun n => bool_decide (Name (node st) = Name n)) kNodes
                 then kRandomLoop k rnds' ns exclude kNodes
                 else kRandomLoop k rnds' ns exclude (kNodes ++ [node st])
        end
  end.

Definition kRandomNodes (k : nat) (rnds : list Z) (ns : list nodeState) (exclude : nodeState -> bool) : list Node :=
  kRandomLoop k (take (3 * length ns) rnds) ns exclude [].

(** The filters of the three uses. *)
Definition excludeIndirect (self target : string) (st : nodeState) : bool :=
  bool_decide (Name (node st) = self) || bool_decide (Name (node st) = target)
  || negb (bool_decide (State st = StateAlive)).

Definition excludePushPull (self : string) (st : nodeState) : bool :=
  bool_decide (Name (node st) = self) || negb (bool_decide (State st = StateAlive)).

Definition excludeGossip (self : string) (gossipToTheDead : duration) (now : gotime) (st : nodeState) : bool :=
  if bool_decide (Name (node st) = self) then true
  else match State st with
       | StateAlive | StateSuspect => false
       | StateDead => timeSub now (StateChange st) >? gossipToTheDead
       | StateLeft => true
       end.

(** ** Choosing the next node *)

Section Choice.

Context {T : Type} `{!Queue.BTree Queue.memberlistBroadcast T}.

Implicit Types m : Memberlist T.

Definition skipped m (st : nodeState) : bool :=
  bool_decide (Name (node st) = self m) || DeadOrLeft st.

Definition nodeAt m (i : nat) : option nodeState :=
  match nodes m !! i with Some l => heap m !! l | None => None end.

(** [probe]: the node it decides to probe, if any, the new index and the state
    after the resets; [rnd] gives the shuffles, [None] is fuel running out. *)
Fixpoint probeLoop (fuel numCheck probeIndex : nat) (rnd : nat -> nat -> nat) (now : gotime) m :
    option (Memberlist T * nat * option nodeState) :=
  match fuel with
  | O => None
  | S fuel' =>
      if Nat.leb (length (nodes m)) numCheck then Some (m, probeIndex, None)
      else if Nat.leb (length (nodes m)) probeIndex then
        probeLoop fuel' (S numCheck) 0 rnd now (resetNodes (rnd numCheck) now m)
      else
        match nodeAt m probeIndex with
        | None => None
        | Some st =>
            if skipped m st then probeLoop fuel' (S numCheck) (S probeIndex) rnd now m
            else Some (m, S probeIndex, Some st)
        end
  end.

Definition probe (probeIndex : nat) (rnd : nat -> nat -> nat) (now : gotime) m :=
  probeLoop (S (length (nodes m))) 0 probeIndex rnd now m.

End Choice.

(** ** Probing a node *)

(** How sending the ping went: [SendFailedRemote] is an error for which
    [failedRemote] holds, [SendFailedLocal] any other, an encoding error included. *)
Inductive sendResult := SendOk | SendFailedRemote | SendFailedLocal.

(** An error of package [net] as [failedRemote] looks at it: the network and the
    operation of a [*net.OpError]. *)
Inductive netError := OpError (network op : string) | OtherError.

Definition failedRemote (e : netError) : bool :=
  match e with
  | OpError network op =>
      if String.prefix "tcp" network then
        bool_decide (op = "dial") || bool_decide (op = "read") || bool_decide (op = "write")
      else if String.prefix "udp" network then bool_decide (op = "write")
      else false
  | OtherError => false
  end.

Definition sendResultOf (e : option netError) : sendResult :=
  match e with
  | None => SendOk
  | Some e => if failedRemote e then SendFailedRemote else SendFailedLocal
  end.

(** The first wait: an ack, the reaper's message, or the probe timeout. *)
Inductive firstWait := GotAck | GotReaped | ProbeTimedOut.

(** Everything the environment answers during one probe: the send, the first
    wait, the random numbers, whether the second wait reads an ack, what the TCP
    fallback reports if it is tried ([None] for an error), and how many nacks are
    in the channel at the end. *)
Record answers := mkAnswers {
  sendError : option netError;
  first : firstWait;
  rnds : list Z;
  lateAck : bool;
  fallback : option bool;
  nackCount : Z
}.

Inductive probeSend :=
| SPing (a : Acks.Address)
| SPingSuspect (a : Acks.Address) (s : suspect)
| SIndirect (a : Acks.Address) (nack : bool)
| SStreamPing (a : Acks.Address).

Definition FullAddress (n : Node) : Acks.Address := Acks.mkAddress (nodeAddress n) (Name n).

(** What one probe does. *)
Record probeResult := mkProbeResult {
  awarenessDelta : Z;
  pingComplete : bool;
  sends : list probeSend;
  suspects : option suspect
}.

Section ProbeNode.

Context {T : Type} `{!Queue.BTree Queue.memberlistBroadcast T} `{!GossipCodec}.
Context (disableTcpPingsForNode : option (string -> bool)).

Implicit Types m : Memberlist T.

Definition accusation m (st : nodeState) : suspect := mkSuspect (Incarnation st) (Name (node st)) (self m).

Definition indirectPeers (w : answers) m (st : nodeState) : list Node :=
  kRandomNodes (Z.to_nat (Config.IndirectChecks (config m))) (rnds w) (nodeStates m)
    (excludeIndirect (self m) (Name (node st))).

Definition tcpPings m (st : nodeState) : bool :=
  negb (Config.DisableTcpPings (config m)
        || match disableTcpPingsForNode with Some f => f (Name (node st)) | None => false end)
  && (3 <=? PMax (node st)).

(** From the label HANDLE_REMOTE_FAILURE on; [delta] is the health change so far. *)
Definition handleRemoteFailure (delta : Z) (out : list probeSend) (w : answers) m (st : nodeState) : probeResult :=
  let kNodes := indirectPeers w m st in
  let expectedNacks := Z.of_nat (length (filter (fun p => 4 <= PMax p) kNodes)) in
  let out := out ++ map (fun p => SIndirect (FullAddress p) (4 <=? PMax p)) kNodes
                 ++ (if tcpPings m st then [SStreamPing (FullAddress (node st))] else []) in
  if lateAck w then mkProbeResult delta false out None
  else if tcpPings m st && match fallback w with Some b => b | None => false end
  then mkProbeResult delta false out None
  else
    let delta := if expectedNacks >? 0
                 then (if nackCount w <? expectedNacks then 0 + (expectedNacks - nackCount w) else 0)
                 else 0 + 1 in
    mkProbeResult delta false out (Some (accusation m st)).

Definition probeNode (w : answers) m (st : nodeState) : probeResult :=
  let out := [if bool_decide (State st = StateAlive) then SPing (FullAddress (node st))
              else SPingSuspect (FullAddress (node st)) (accusation m st)] in
  match sendResultOf (sendError w) with
  | SendFailedLocal => mkProbeResult 0 false out None
  | SendFailedRemote => handleRemoteFailure 0 out w m st
  | SendOk =>
      match first w with
      | GotAck => mkProbeResult (-1) true out None
      | GotReaped | ProbeTimedOut => handleRemoteFailure (-1) out w m st
      end
  end.

(** What a probe does to the member list: the suspicion at its end, and the deferred
    change of the health score. *)
Definition accuse (r : probeResult) (now : gotime) m : Memberlist T :=
  match suspects r with Some s => suspectNode s now m | None => m end.

Definition applyHealth (r : probeResult) m : Memberlist T :=
  setHealth (Awareness.ApplyDelta (awarenessDelta r) (health m)) m.

(** A tick of the failure detector: [probe] chooses a node, and [probeNode] runs on
    the copy [st] of its entry, without the lock. The handlers go on meanwhile: from
    the choice to [m2], where the peers for the indirect pings are drawn, to [m3],
    where the node is suspected, and to [m4], where the health score changes. *)
Inductive probeRun (probeIndex : nat) (rnd : nat -> nat -> nat) (w : answers) : Memberlist T -> Memberlist T -> nat -> Prop :=
| pr_nobody m m' i now :
    probe probeIndex rnd now m = Some (m', i, None) -> probeRun probeIndex rnd w m m' i
| pr_node m m1 m2 m3 m4 i st now now' :
    probe probeIndex rnd now m = Some (m1, i, Some st) -> steps m1 m2 -> steps m2 m3 ->
    steps (accuse (probeNode w m2 st) now' m3) m4 ->
    probeRun probeIndex rnd w m (applyHealth (probeNode w m2 st) m4) i.

(** The choices of [k] ticks in a row. *)
Fixpoint choices (k probeIndex : nat) (rnd : nat -> nat -> nat -> nat) (now : gotime) m :
    option (Memberlist T * nat * list (option nodeState)) :=
  match k with
  | O => Some (m, probeIndex, [])
  | S k' =>
      match probe probeIndex (rnd k) now m with
      | None => None
      | Some (m, i, r) =>
          match choices k' i rnd now m with
          | None => None
          | Some (m, i, rs) => Some (m, i, r :: rs)
          end
      end
  end.

(** [probeNodeByAddr]. *)
Definition probeNodeByAddr (w : answers) (addr : string) m : outcome probeResult :=
  match lookupNode addr m with None => Panic "nil pointer dereference" | Some (_, n) => Ret (probeNode w m n) end.

(** The nodes the current round has still to probe. *)
Definition upcoming (probeIndex : nat) m : list nodeState :=
  filter (fun st => skipped m st = false) (drop probeIndex (nodeStates m)).

End ProbeNode.

(** ** Starting and stopping the background tasks *)

(** The tickers, the recorded stop channel, and the goroutines that run, each
    with the stop channel it listens to. *)
Record taskState := mkTasks {
  tickers : Z;
  stopTick : option nat;
  running : list (string * nat);
  nextChan : nat
}.

Definition schedule (c : Config.Config) (s : taskState) : taskState :=
  if tickers s >? 0 then s
  else
    let stopCh := nextChan s in
    let probing := Config.ProbeInterval c >? 0 in
    let pushing := Config.PushPullInterval c >? 0 in
    let gossiping := (Config.GossipInterval c >? 0) && (Config.GossipNodes c >? 0) in
    let n := tickers s + (if probing then 1 else 0) + (if gossiping then 1 else 0) in
    {| tickers := n;
       stopTick := if n >? 0 then Some stopCh else stopTick s;
       running := running s ++ (if probing then [("probe", stopCh)] else [])
                    ++ (if pushing then [("pushPull", stopCh)] else [])
                    ++ (if gossiping then [("gossip", stopCh)] else []);
       nextChan := S stopCh |}.

(** [deschedule]: closing the channel ends the goroutines that listen to it. *)
Definition deschedule (s : taskState) : taskState :=
  if tickers s =? 0 then s
  else
    {| tickers := 0;
       stopTick := stopTick s;
       running := filter (fun g => stopTick s <> Some g.2) (running s);
       nextChan := nextChan s |}.

(** ** Random peers *)

Lemma kRandomLoop_spec k rs ns exclude acc :
  (length acc <= k)%nat -> NoDup (map Name acc) ->
  (forall n, n ∈ acc -> exists st, st ∈ ns /\ node st = n /\ exclude st = false) ->
  let r := kRandomLoop k rs ns exclude acc in
  (length r <= k)%nat /\ NoDup (map Name r) /\
  (forall n, n ∈ r -> exists st, st ∈ ns /\ node st = n /\ exclude st = false).
Proof.
  revert acc. induction rs as [|r rs IH]; intros acc Hl Hnd Hin; simpl; [done|].
  destruct (Nat.leb_spec k (length acc)) as [|Hk]; [done|].
  destruct (ns !! _) as [st|] eqn:E; [|done]. destruct (exclude st) eqn:Ex; [by apply IH|].
  destruct (existsb _ acc) eqn:Ed; [by apply IH|]. apply IH.
  - rewrite length_app. simpl. lia.
  - rewrite map_app, NoDup_app. split; [done|]. split; [|apply NoDup_singleton].
    intros x Hx ->%list_elem_of_singleton. apply list_elem_of_fmap in Hx as (n & Hn & Hx).
    apply not_true_iff_false in Ed. apply Ed, existsb_exists. exists n. split; [by apply list_elem_of_In|].
    by apply bool_decide_eq_true.
  - intros n [Hn| ->%list_elem_of_singleton]%elem_of_app; [by apply Hin|]. exists st.
    split; [by eapply list_elem_of_lookup_2|done].
Qed.

(** ** Round robin *)

Section RoundRobin.

Context {T : Type} `{!Queue.BTree Queue.memberlistBroadcast T} `{!GossipCodec}.

Implicit Types m : Memberlist T.

Lemma omap_total {A B} (f : A -> option B) (l : list A) :
  (forall x, x ∈ l -> is_Some (f x)) ->
  length (omap f l) = length l /\ forall i, omap f l !! i = match l !! i with Some x => f x | None => None end.
Proof.
  induction l as [|x l IH]; intros Hf; [done|]. simpl.
  destruct (Hf x ltac:(set_solver)) as [y Hy]. rewrite Hy.
  destruct IH as [IHl IHi]; [set_solver|]. split; [simpl; f_equal; exact IHl|]. intros [|i]; simpl; [done|]. apply IHi.
Qed.

Lemma nodeStates_total m :
  Membership.wfTable m ->
  length (nodeStates m) = length (nodes m) /\ forall i, nodeStates m !! i = nodeAt m i.
Proof. intros Hwf. apply omap_total, Hwf. Qed.

Lemma upcoming_cons i m st rest :
  upcoming i m = st :: rest -> exists st', nodeStates m !! i = Some st' /\
    (if skipped m st' then upcoming (S i) m = st :: rest else st' = st /\ upcoming (S i) m = rest).
Proof.
  unfold upcoming. intros E. destruct (nodeStates m !! i) as [st'|] eqn:Ei.
  - exists st'. split; [done|]. rewrite (drop_S _ _ _ Ei), filter_cons in E.
    destruct (skipped m st'); case_decide; try done. by injection E as -> ->.
  - apply lookup_ge_None in Ei. by rewrite drop_ge in E.
Qed.

Lemma probeLoop_scan fuel nc i rnd now m st rest :
  Membership.wfTable m -> upcoming i m = st :: rest -> (nc <= i)%nat -> (length (nodes m) < i + fuel)%nat ->
  exists i', probeLoop fuel nc i rnd now m = Some (m, i', Some st) /\ upcoming i' m = rest.
Proof.
  intros Hwf. destruct (nodeStates_total m Hwf) as [Hlen Hat]. revert nc i.
  induction fuel as [|fuel IH]; intros nc i Hup Hnc Hfuel;
    destruct (upcoming_cons _ _ _ _ Hup) as (st' & Ei & Hst');
    pose proof (lookup_lt_Some _ _ _ Ei) as Hi; [lia|]. simpl.
  destruct (Nat.leb_spec (length (nodes m)) nc); [lia|].
  destruct (Nat.leb_spec (length (nodes m)) i); [lia|]. rewrite <- Hat, Ei.
  destruct (skipped m st'); [by apply IH; [|lia|lia]|]. destruct Hst' as [-> Hrest]. by exists (S i).
Qed.

Lemma choices_scan i rnd now m :
  Membership.wfTable m -> exists i',
    choices (length (upcoming i m)) i rnd now m = Some (m, i', map Some (upcoming i m)) /\ upcoming i' m = [].
Proof.
  intros Hwf. remember (upcoming i m) as up eqn:Hup. symmetry in Hup. revert i Hup.
  induction up as [|st up IH]; intros i Hup; simpl; [by exists i|].
  destruct (probeLoop_scan (S (length (nodes m))) 0 i (rnd (S (length up))) now m st up) as (i1 & E & Hup1);
    try done; [lia|lia|].
  unfold probe. rewrite E. destruct (IH i1 Hup1) as (i' & -> & ?). by exists i'.
Qed.

Lemma resetNodes_le rnd now m : (length (nodes (resetNodes rnd now m)) <= length (nodes m))%nat.
Proof. rewrite (Membership.resetNodes_nodes rnd now m). apply length_filter. Qed.

Lemma resetNodes_self rnd now m : self (resetNodes rnd now m) = self m.
Proof. unfold resetNodes. by case_match. Qed.

Lemma probeLoop_total fuel nc i rnd now m :
  Membership.wfTable m -> (length (nodes m) - nc < fuel)%nat -> exists m' i' r,
    probeLoop fuel nc i rnd now m = Some (m', i', r) /\ Membership.wfTable m' /\ self m' = self m /\
    (forall st, r = Some st -> skipped m' st = false /\ st ∈ nodeStates m').
Proof.
  revert nc i m. induction fuel as [|fuel IH]; intros nc i m Hwf Hf; [lia|]. simpl.
  destruct (Nat.leb_spec (length (nodes m)) nc); [by exists m, i, None|].
  destruct (Nat.leb_spec (length (nodes m)) i) as [|Hi].
  - destruct (IH (S nc) 0%nat (resetNodes (rnd nc) now m)) as (m' & i' & r & E & Hwf' & Hs & Hr).
    + by apply Membership.wfTable_reset.
    + pose proof (resetNodes_le (rnd nc) now m). lia.
    + exists m', i', r. rewrite Hs, resetNodes_self. done.
  - destruct (nodeStates_total m Hwf) as [Hlen Hat].
    destruct (lookup_lt_is_Some_2 (nodeStates m) i) as [st Est]; [lia|]. rewrite <- Hat, Est.
    destruct (skipped m st) eqn:Es; [apply IH; [done|lia]|].
    exists m, (S i), (Some st). do 3 (split; [done|]). intros st' [= <-]. split; [done|].
    by eapply list_elem_of_lookup_2.
Qed.

(** ** Properties *)

(** A tick of the failure detector terminates, for every position of the probe
    index, every membership table and every shuffle, and probes at most one node,
    which is another, known, node that is alive or suspect. *)
Theorem probe_terminates i rnd now m :
  Membership.wfTable m -> exists m' i' r, probe i rnd now m = Some (m', i', r) /\ Membership.wfTable m' /\
    forall st, r = Some st ->
      Membership.view m' !! Name (node st) = Some st /\ Name (node st) <> self m /\
      (State st = StateAlive \/ State st = StateSuspect).
Proof.
  intros Hwf. destruct (probeLoop_total (S (length (nodes m))) 0 i rnd now m Hwf) as (m' & i' & r & E & Hwf' & Hs & Hr);
    [lia|]. exists m', i', r. split; [done|]. split; [done|]. intros st Est. destruct (Hr st Est) as [Hk Hin].
  apply orb_false_iff in Hk as [Hk1 Hk2]. apply bool_decide_eq_false in Hk1. rewrite Hs in Hk1.
  split; [by apply Membership.nodeStates_view|]. split; [done|].
  unfold DeadOrLeft in Hk2. destruct (State st); [by left|by right|done..].
Qed.

(** C25: Probing is round robin: as long as the membership does not change, the
    next ticks probe exactly the nodes that are left in the round, each once and
    in the order of the list, before the list is reset. A round that starts at
    index zero therefore probes every other live or suspect node once. *)
Theorem probe_round_robin i rnd now m :
  Membership.wfTable m -> exists i',
    choices (length (upcoming i m)) i rnd now m = Some (m, i', map Some (upcoming i m)) /\
    upcoming i' m = [] /\
    (forall st, i = 0%nat -> st ∈ upcoming i m <->
       Membership.view m !! Name (node st) = Some st /\ Name (node st) <> self m /\ DeadOrLeft st = false).
Proof.
  intros Hwf. destruct (choices_scan i rnd now m Hwf) as (i' & E & Hup). exists i'. split; [done|]. split; [done|].
  intros st ->. unfold upcoming. rewrite list_elem_of_filter, drop_0, (Membership.nodeStates_view m st Hwf).
  unfold skipped. rewrite orb_false_iff, bool_decide_eq_false. tauto.
Qed.

(** A probe accuses its target exactly when the ping left the node or failed for a
    reason on the other side, no acknowledgement came back directly or through a
    peer, and the TCP ping, if allowed, did not get through. The accusation
    carries the incarnation the prober knew, so a refutation made since then wins,
    and the health score changes by at least minus one and by at most the number
    of peers asked (one if none was). *)
Theorem probeNode_accuses f w m st :
  (suspects (probeNode f w m st) = Some (accusation m st) <->
     sendResultOf (sendError w) <> SendFailedLocal /\
     ~ (sendResultOf (sendError w) = SendOk /\ first w = GotAck) /\
     lateAck w = false /\ ~ (tcpPings f m st = true /\ fallback w = Some true)) /\
  (suspects (probeNode f w m st) = None \/ suspects (probeNode f w m st) = Some (accusation m st)) /\
  (0 <= nackCount w -> -1 <= awarenessDelta (probeNode f w m st) <=
     Z.max 1 (Z.of_nat (length (indirectPeers w m st)))).
Proof.
  pose proof (length_filter (fun p => 4 <= PMax p) (indirectPeers w m st)) as Hlen.
  unfold probeNode, handleRemoteFailure.
  destruct (sendResultOf (sendError w)), (first w), (lateAck w), (tcpPings f m st), (fallback w) as [[]|]; simpl;
    (split; [naive_solver|]); (split; [naive_solver|]); intros Hn; zify_bool; repeat case_match; zify_bool; lia.
Qed.

(** A suspicion timer of [m] started at [now], before any confirmation. *)
Definition startedAt (now : gotime) (m : Memberlist T) (t : suspObj) : Prop :=
  let min := Timing.suspicionTimeout (Config.SuspicionMult (config m)) (estNumNodes m) (Config.ProbeInterval (config m)) in
  let max := i64 (Config.SuspicionMaxTimeoutMult (config m) * min) in
  Suspicion.tmr (timerOf t) = Suspicion.Running (now + min) \/
  Suspicion.tmr (timerOf t) = Suspicion.Running (now + max).

(** What an accusation of another node does: nothing when the node is unknown, has
    refuted it with a later incarnation, or is dead or left; a node believed alive
    becomes suspect, with a timer and a broadcast; a suspicion that runs already is at
    most confirmed. *)
Definition accused (s : suspect) (now : gotime) m m' : Prop :=
  events m' = events m /\ incarnation m' = incarnation m /\ leave m' = leave m /\ health m' = health m /\
  match Membership.view m !! sNode s with
  | None => m' = m
  | Some cur =>
      if sIncarnation s <? Incarnation cur then m' = m
      else match State cur with
           | StateAlive =>
               Membership.view m' = <[sNode s := suspectState s now cur]> (Membership.view m) /\
               nodeTimers m' = <[sNode s := length (timers m)]> (nodeTimers m) /\
               (exists t, timers m' = timers m ++ [t] /\ startedAt now m t) /\
               broadcasts m' = broadcasts (encodeAndBroadcast (sNode s) (GSuspect s) m)
           | StateSuspect => Membership.view m' = Membership.view m /\ nodeTimers m' = nodeTimers m
           | StateDead | StateLeft => m' = m
           end
  end.

Lemma suspect_accuses s now m :
  Membership.inv m -> sNode s <> self m -> accused s now m (suspectNode s now m).
Proof.
  intros Hinv Hself. assert (Hsame : accused s now m m -> suspectNode s now m = m -> accused s now m (suspectNode s now m)) by (by intros ? ->).
  unfold suspectNode in *. destruct (lookupNode (sNode s) m) as [[l st]|] eqn:E.
  2: { unfold accused. by rewrite (proj1 (Membership.lookupNode_None _ _) E). }
  pose proof (Membership.lookup_view _ _ _ _ E) as Hv. pose proof (Membership.lookup_in _ _ _ _ (Membership.inv_table _ Hinv) E) as (_ & _ & Hn).
  unfold accused in *. rewrite Hv in *. destruct (sIncarnation s <? Incarnation st); [done|].
  destruct (nodeTimers m !! sNode s) as [i|] eqn:Et.
  - destruct (Membership.inv_timer _ Hinv _ _ Et) as (t & st' & -> & _ & Hv' & Hs & _). assert (st' = st) as -> by congruence. rewrite Hs.
    unfold confirmTimer. destruct (Suspicion.Confirm _ _ _) as [[su []] calls]; [|done].
    unfold encodeAndBroadcast. match goal with |- context [encodeBroadcastNotify ?n ?g ?t' ?m1] =>
      destruct (Membership.broadcast_shape n g t' m1) as (q & fin & ->) end. done.
  - destruct (State st) eqn:Hs; rewrite ?bool_decide_true, ?(bool_decide_false (_ = StateAlive)) by done; cbn [negb]; try done.
    rewrite bool_decide_false by congruence. destruct (Membership.broadcast_shape (sNode s) (GSuspect s) None m) as (q & fin & Eb).
    unfold encodeAndBroadcast. rewrite Eb. do 4 (split; [done|]). split.
    { unfold startTimer. set (m' := setTimers _ _ _ _ _).
      destruct (Membership.view_assign (sNode s) l st (suspectState s now st) m m') as [_ Hm']; auto. apply Hinv. }
    split; [done|]. split; [|done]. eexists. split; [done|]. unfold startedAt, Suspicion.newSuspicion. simpl. repeat case_match; auto.
Qed.

(** The nacks a failed probe can expect. *)
Definition expectedNacks (w : answers) m (st : nodeState) : Z :=
  Z.of_nat (length (filter (fun p => 4 <= PMax p) (indirectPeers w m st))).

Lemma silent_probe f w m st :
  sendResultOf (sendError w) <> SendFailedLocal -> first w <> GotAck -> lateAck w = false -> fallback w <> Some true ->
  suspects (probeNode f w m st) = Some (accusation m st) /\
  awarenessDelta (probeNode f w m st) =
    (if expectedNacks w m st >? 0 then Z.max 0 (expectedNacks w m st - nackCount w) else 1).
Proof.
  intros Hs Hf Hl Hfb. assert (Hh : forall d out, let r := handleRemoteFailure f d out w m st in
    suspects r = Some (accusation m st) /\
    awarenessDelta r = (if expectedNacks w m st >? 0 then Z.max 0 (expectedNacks w m st - nackCount w) else 1)).
  { intros d out. unfold handleRemoteFailure. fold (expectedNacks w m st). rewrite Hl.
    replace (tcpPings f m st && match fallback w with Some b => b | None => false end) with false
      by (symmetry; apply andb_false_iff; destruct (fallback w) as [[]|]; auto; done).
    split; [done|]. simpl. destruct (_ >? 0); [|done]. destruct (Z.ltb_spec (nackCount w) (expectedNacks w m st)); lia. }
  unfold probeNode. destruct (sendResultOf (sendError w)); [|apply Hh|done]. destruct (first w); [done|apply Hh..].
Qed.

(** C11: Failure detection is complete: when the round reaches a node and nothing
    answers -- the ping is sent or fails remotely, no acknowledgement arrives in
    time, no TCP ping gets through -- then, whatever the handlers do to the member
    list meanwhile, the tick ends with an accusation of that node at the
    incarnation it had: if the node is still believed alive and has not refuted it
    by then, it becomes suspect as of now, its suspicion timer is started, due
    after the minimal or the maximal timeout, and the suspicion is queued for
    broadcast; a node that is unknown, dead, left or at a later incarnation by
    then is left alone. The health score worsens by the nacks that are missing, or
    by one when none is expected. *)
Theorem silent_node_suspected f w i rnd conf hk m st rest
    (Hr : Guarantees.reachable conf hk m) (Hup : upcoming i m = st :: rest)
    (Hs : sendResultOf (sendError w) <> SendFailedLocal) (Hf : first w <> GotAck) (Hl : lateAck w = false)
    (Hfb : fallback w <> Some true) :
  (forall now, exists i', probe i rnd now m = Some (m, i', Some st) /\ upcoming i' m = rest) /\
  (forall m' i', probeRun f i rnd w m m' i' -> upcoming i' m = rest /\
     exists m2 m3 m4 now, let s := accusation m st in let n := expectedNacks w m2 st in
       steps m m2 /\ steps m2 m3 /\ accused s now m3 (suspectNode s now m3) /\ steps (suspectNode s now m3) m4 /\
       m' = setHealth (Awareness.ApplyDelta (if n >? 0 then Z.max 0 (n - nackCount w) else 1) (health m4)) m4).
Proof.
  pose proof (Guarantees.reachable_inv _ _ _ Hr) as Hinv.
  assert (Hprobe : forall now, exists i', probe i rnd now m = Some (m, i', Some st) /\ upcoming i' m = rest).
  { intros now. apply probeLoop_scan; [apply Hinv|done|lia|lia]. }
  split; [done|]. intros m' i' Hrun. destruct Hrun as [m m' i' now E|m m1 m2 m3 m4 i' st' now now' E H12 H23 H34];
    destruct (Hprobe now) as (i0 & E0 & Hup0); rewrite E0 in E; [done|]. injection E as <- <- <-. split; [done|].
  destruct (silent_probe f w m2 st Hs Hf Hl Hfb) as [Hsus Hdelta]. exists m2, m3, m4, now'.
  assert (Hc : forall a b, Membership.inv a -> steps a b -> Membership.inv b /\ self b = self a).
  { intros a b Ha Hab. apply Membership.steps_evolve in Hab; [|done]. split; [by eapply Membership.evolves_inv|].
    unfold self. by rewrite (proj1 (Guarantees.evolves_config _ _ Hab)). }
  destruct (Hc _ _ Hinv H12) as [Hi2 Hs2]. destruct (Hc _ _ Hi2 H23) as [Hi3 Hs3].
  assert (Hacc : accusation m2 st = accusation m st) by (unfold accusation; by rewrite Hs2).
  assert (Hne : Name (node st) <> self m).
  { assert (Hin : st ∈ upcoming i m) by (rewrite Hup; set_solver). apply list_elem_of_filter in Hin as [Hsk _].
    apply orb_false_iff in Hsk as [Hne _]. by apply bool_decide_eq_false in Hne. }
  cbv zeta. rewrite <- Hacc. split_and!; [done|done| | |].
  - apply suspect_accuses; [done|]. simpl. congruence.
  - unfold accuse in H34. by rewrite Hsus in H34.
  - unfold applyHealth. by rewrite Hdelta.
Qed.

End RoundRobin.

(** [kRandomNodes] returns at most [k] nodes, no two with the same name, all taken
    from the list and none excluded; in particular indirect pings never go to the
    node itself or to the node under suspicion, and only to alive nodes. *)
Theorem kRandomNodes_sound k rs ns exclude :
  let r := kRandomNodes k rs ns exclude in
  (length r <= k)%nat /\ NoDup (map Name r) /\
  (forall n, n ∈ r -> exists st, st ∈ ns /\ node st = n /\ exclude st = false).
Proof. apply kRandomLoop_spec; [simpl; lia|apply NoDup_nil_2|]. intros n Hn. by apply elem_of_nil in Hn. Qed.

(** When probing or gossip is enabled, starting the background tasks twice starts
    them once, and stopping them stops them all. *)
Theorem schedule_stops c s :
  tickers s = 0 -> running s = [] ->
  (0 < Config.ProbeInterval c \/ (0 < Config.GossipInterval c /\ 0 < Config.GossipNodes c)) ->
  schedule c (schedule c s) = schedule c s /\
  running (deschedule (schedule c s)) = [] /\ tickers (deschedule (schedule c s)) = 0.
Proof.
  intros Ht Hrun Hen.
  assert (Hpos : tickers (schedule c s) > 0 /\ stopTick (schedule c s) = Some (nextChan s)).
  { unfold schedule. rewrite Ht. simpl. repeat case_match; simpl; zify_bool; (split; [lia|]); try done; lia. }
  destruct Hpos as [Hpos Hstop]. split_and!.
  - unfold schedule at 1. destruct (Z.gtb_spec (tickers (schedule c s)) 0); [done|lia].
  - unfold deschedule. destruct (Z.eqb_spec (tickers (schedule c s)) 0); [lia|]. simpl. rewrite Hstop.
    apply filter_none. intros [nm g] Hin Hx. apply Hx. simpl. f_equal. unfold schedule in Hin. rewrite Ht, Hrun in Hin.
    simpl in Hin. repeat case_match; set_solver.
  - unfold deschedule. destruct (Z.eqb_spec (tickers (schedule c s)) 0); [lia|done].
Qed.

(** With push/pull as the only task this fails: no ticker is recorded, so a second
    start runs a second push/pull goroutine, and stopping stops neither. *)
Theorem pushPull_alone_leaks c s :
  tickers s = 0 -> running s = [] -> Config.ProbeInterval c <= 0 -> Config.GossipInterval c <= 0 ->
  0 < Config.PushPullInterval c ->
  running (deschedule (schedule c (schedule c s))) = [("pushPull", nextChan s); ("pushPull", S (nextChan s))].
Proof.
  intros Ht Hrun Hp Hg Hpp. rewrite <- Z.ltb_ge in Hp, Hg. rewrite <- Z.ltb_lt in Hpp.
  unfold schedule, deschedule. rewrite Ht, Hrun, !(Z.gtb_ltb (Config.ProbeInterval c)),
    !(Z.gtb_ltb (Config.PushPullInterval c)), !(Z.gtb_ltb (Config.GossipInterval c)), Hp, Hg, Hpp. reflexivity.
Qed.

(** ** A concrete cluster *)

#[local] Existing Instance Queue.listTree.
#[local] Existing Instance Guarantees.toyCodec.

Definition exSilence : answers := mkAnswers None ProbeTimedOut [0; 1; 2] false None 0.
Definition exNode : nodeState := mkNodeState (nodeOfAlive (Guarantees.bAlive 1) (1, 5, 2, 0, 0, 0)) 1 StateAlive 2000.

Lemma exTable : Membership.wfTable Guarantees.x3.
Proof. apply (Guarantees.reachable_inv _ _ _ Guarantees.x3_reachable). Qed.

Lemma probe_terminates_witness :
  exists m' i' r, probe 5 (fun _ i => i) 7 Guarantees.x3 = Some (m', i', r) /\ Membership.wfTable m'.
Proof.
  destruct (probe_terminates 5 (fun _ i => i) 7 Guarantees.x3 exTable) as (m' & i' & r & E & Hwf & _).
  exists m', i', r. by split.
Defined.

Lemma probe_round_robin_witness :
  exists i', choices 1 0 (fun _ _ i => i) 7 Guarantees.x3 = Some (Guarantees.x3, i', [Some exNode]).
Proof.
  destruct (probe_round_robin 0 (fun _ _ i => i) 7 Guarantees.x3 exTable) as (i' & E & _).
  exists i'. exact E.
Defined.

(** Nobody answers; meanwhile a message about "c" is handled. *)
Definition exMeanwhile : Guarantees.XL :=
  Guarantees.orElse (aliveNode (mkAlive 1 "c" Guarantees.yaddr 7947 [] [1; 5; 2; 0; 0; 0]) None false 0 8500 Guarantees.x3) Guarantees.x3.

Lemma silent_node_suspected_witness :
  upcoming 0 Guarantees.x3 = [exNode] /\
  exists m', probeRun None 0 (fun _ i => i) exSilence Guarantees.x3 m' 1 /\
    option_map State (Membership.view m' !! "b") = Some StateSuspect /\
    exists m3 now, let s := mkSuspect 1 "b" "a" in accused s now m3 (suspectNode s now m3).
Proof.
  split; [by vm_compute|].
  destruct (silent_node_suspected None exSilence 0 (fun _ i => i) Guarantees.xconf Guarantees.xhooks
              Guarantees.x3 exNode [] Guarantees.x3_reachable) as [_ H]; [by vm_compute|done..|].
  assert (Hst : steps Guarantees.x3 exMeanwhile).
  { apply rtc_once, (step_alive (mkAlive 1 "c" Guarantees.yaddr 7947 [] [1; 5; 2; 0; 0; 0]) 0 8500); [done|]. by vm_compute. }
  set (r := probeNode None exSilence exMeanwhile exNode).
  set (m' := applyHealth r (accuse r 9000 exMeanwhile)).
  assert (Hrun : probeRun None 0 (fun _ i => i) exSilence Guarantees.x3 m' 1).
  { apply (pr_node None 0 _ _ _ Guarantees.x3 exMeanwhile exMeanwhile _ _ exNode 8000 9000);
      [by vm_compute|exact Hst|apply rtc_refl|apply rtc_refl]. }
  exists m'. split; [exact Hrun|]. split; [by vm_compute|].
  destruct (H _ _ Hrun) as (_ & m2 & m3 & m4 & now & _ & _ & Ha & _). exists m3, now. exact Ha.
Defined.

Lemma probeNode_accuses_witness :
  suspects (probeNode None exSilence Guarantees.x3 exNode) = Some (mkSuspect 1 "b" "a").
Proof.
  apply (proj1 (probeNode_accuses None exSilence Guarantees.x3 exNode)). split_and!; try done; naive_solver.
Defined.

Definition exTasks : taskState := mkTasks 0 None [] 0.

Lemma schedule_stops_witness :
  running (schedule Guarantees.xconf exTasks) <> [] /\
  running (deschedule (schedule Guarantees.xconf exTasks)) = [].
Proof.
  split; [by vm_compute|]. apply (schedule_stops Guarantees.xconf exTasks); [done|done|left; by vm_compute].
Defined.

Definition exPushPull : Config.Config :=
  let c := Config.DefaultLANConfig "a" in
  Config.withIntervals (Config.PushPullInterval c) 0 0 c.

Lemma pushPull_alone_leaks_witness :
  running (deschedule (schedule exPushPull (schedule exPushPull exTasks))) =
    [("pushPull", 0%nat); ("pushPull", 1%nat)].
Proof. apply (pushPull_alone_leaks exPushPull exTasks); by vm_compute. Defined.

End Probe.
