(* ===== verification/Net.v ===== *)
(** * Packets (net.go, state.go, transport.go)

    Sending: piggybacking broadcasts, compression, checksum, encryption, label.
    Receiving: the reverse, then the dispatch of commands, the two handoff queues
    and the handlers. The handlers of acknowledgements and of membership messages
    are those of [Acks] and [Members]. Packets given to the transport are
    collected in [wires]; random nonces come from [nonces]. *)

From Stdlib Require Import ZArith Lia Strings.Byte.
From stdpp Require Import tactics base numbers strings gmap list.
From S2P Require Import Prelude Awareness Keyring Timing Compound Label Security Lzw Queue Config Addr Members Acks Wire Probe.

Local Open Scope Z_scope.
Local Open Scope go_scope.

Module Net.

Import Compound Label Security Members Wire.

(** ** State *)

Record msgHandoff := mkHandoff { hType : Z; hBuf : bytes; hFrom : bytes }.

(** What does not change: the advertised address, the ping delegate's payload (if
    there is a ping delegate), the delegate's broadcasts (if there is a delegate). *)
Record environment := mkEnv {
  me : Acks.identity;
  ackPayload : option bytes;
  delegate : option (Z -> Z -> list bytes)
}.

Inductive netErr :=
| ErrNodeNamesAreRequired
| ErrBadAddress
| ErrEncode
| ErrRand
| ErrSecurity (e : secErr)
| ErrLabel (e : labelErr).

Section Net.

Context {T : Type} `{!Queue.BTree Queue.memberlistBroadcast T} `{!AEAD}.
Context `{!Codec Acks.ping, !Codec Acks.indirectPingReq, !Codec Acks.ackResp, !Codec Acks.nackResp}.
Context `{!Codec alive, !Codec suspect, !Codec dead, !Codec compress}.

#[local] Existing Instance gossipCodec.

Context (env : environment).

(** The part of [Memberlist] that handles packets. The ends of the queues are at
    the back of the lists; [sentUpTo] counts the acknowledgement messages sent. *)
Record runtime := mkRuntime {
  ml : Memberlist T;
  acks : Acks.ackState;
  highPriorityMsgQueue : list msgHandoff;
  lowPriorityMsgQueue : list msgHandoff;
  handoffCh : bool;
  userMsgs : list bytes;
  wires : list (Acks.Address * bytes);
  nonces : list bytes;
  sentUpTo : nat
}.

Implicit Types rt : runtime.

Definition conf rt : Config.Config := config (ml rt).

Definition setMl m rt : runtime :=
  mkRuntime m (acks rt) (highPriorityMsgQueue rt) (lowPriorityMsgQueue rt) (handoffCh rt) (userMsgs rt) (wires rt)
    (nonces rt) (sentUpTo rt).

Definition setAcks s rt : runtime :=
  mkRuntime (ml rt) s (highPriorityMsgQueue rt) (lowPriorityMsgQueue rt) (handoffCh rt) (userMsgs rt) (wires rt)
    (nonces rt) (sentUpTo rt).

Definition setQueues h l ch rt : runtime :=
  mkRuntime (ml rt) (acks rt) h l ch (userMsgs rt) (wires rt) (nonces rt) (sentUpTo rt).

Definition addUserMsg b rt : runtime :=
  mkRuntime (ml rt) (acks rt) (highPriorityMsgQueue rt) (lowPriorityMsgQueue rt) (handoffCh rt) (userMsgs rt ++ [b])
    (wires rt) (nonces rt) (sentUpTo rt).

Definition setSent ws ns k rt : runtime :=
  mkRuntime (ml rt) (acks rt) (highPriorityMsgQueue rt) (lowPriorityMsgQueue rt) (handoffCh rt) (userMsgs rt) ws ns k.

(** ** Sending *)

(** "Only use compression if it reduced the size". *)
Definition compressed (c : Config.Config) (msg : bytes) : bytes :=
  if Config.EnableCompression c then
    match compressPayload msg with
    | None => msg
    | Some buf => if blen buf <? blen msg then buf else msg
    end
  else msg.

(** The destination node, when the caller does not know it: looked up under the
    bare host of the address. *)
Definition destination (a : Acks.Address) (n : option Node) (m : Memberlist T) : res netErr (option Node) :=
  match n with
  | Some n => Ok (Some n)
  | None =>
      match Addr.SplitHostPort (Acks.Addr a) with
      | None => Err ErrBadAddress
      | Some (toAddr, _) =>
          Ok (match lookupNode (string_of_bytes toAddr) m with Some (_, st) => Some (node st) | None => None end)
      end
  end.

Definition withCrc (n : option Node) (msg : bytes) : bytes :=
  match n with
  | Some n => if PMax n >=? 5 then byte_of_Z hasCrcMsg :: putBE32 (checksumIEEE msg) ++ msg else msg
  | None => msg
  end.

(** The first key of the ring; nil where there is none. *)
Definition primaryKey (c : Config.Config) : bytes :=
  match Config.Keyring c with
  | Some k => match Keyring.GetPrimaryKey k with Some p => p | None => [] end
  | None => []
  end.

Definition encryptsOutgoing (c : Config.Config) : bool := Config.EncryptionEnabled c && Config.GossipVerifyOutgoing c.

Definition encrypted (c : Config.Config) (ns : list bytes) (msg : bytes) : res netErr (bytes * list bytes) :=
  if encryptsOutgoing c then
    match ns with
    | [] => Err ErrRand
    | nonce :: ns' =>
        match encryptPayload (encryptionVersion (Config.ProtocolVersion c)) (primaryKey c) msg
                (bytes_of_string (Config.Label c)) nonce [] with
        | Err e => Err (ErrSecurity e)
        | Ok buf => Ok (buf, ns')
        end
    end
  else Ok (msg, ns).

(** The transport: [labelWrappedTransport] puts the label in front. *)
Definition WriteToAddress (a : Acks.Address) (b : bytes) (ns : list bytes) rt : res netErr runtime :=
  match AddLabelHeaderToPacket b (Config.Label (conf rt)) with
  | Err e => Err (ErrLabel e)
  | Ok buf => Ok (setSent (wires rt ++ [(a, buf)]) ns (sentUpTo rt) rt)
  end.

Definition rawSendMsgPacket (a : Acks.Address) (n : option Node) (msg : bytes) rt : res netErr runtime :=
  if bool_decide (Acks.Name a = EmptyString) && Config.RequireNodeNames (conf rt) then Err ErrNodeNamesAreRequired
  else
    let msg := compressed (conf rt) msg in
    let? n := destination a n (ml rt) in
    let msg := withCrc n msg in
    match encrypted (conf rt) (nonces rt) msg with
    | Err e => Err e
    | Ok (msg, ns) => WriteToAddress a msg ns rt
    end.

(** A failed send leaves the state as it was. *)
Definition sendResult rt (r : res netErr runtime) : runtime * option netErr :=
  match r with Ok rt' => (rt', None) | Err e => (rt, Some e) end.

(** Taking broadcasts for a packet with [avail] bytes to spare. *)
Definition takeBroadcasts (avail : Z) rt : outcome (list bytes * runtime) :=
  let m := ml rt in
  match Queue.getBroadcasts (delegate env) compoundOverhead avail (estNumNodes m) (broadcasts m) with
  | None => Panic "out of fuel"
  | Some (msgs, q, fin) => Ret (msgs, setMl (setBroadcasts q (finished m ++ fin) m) rt)
  end.

(** [sendMsg]: the message and what fits beside it, in one compound message. *)
Definition sendMsg (a : Acks.Address) (msg : bytes) rt : outcome (runtime * option netErr) :=
  let c := conf rt in
  let bytesAvail := Config.UDPBufferSize c - blen msg - compoundHeaderOverhead - labelOverhead (Config.Label c) in
  let! overhead := (if encryptsOutgoing c
                    then encryptOverhead (encryptionVersion (Config.ProtocolVersion c)) else Ret 0) in
  let! '(extra, rt) := takeBroadcasts (bytesAvail - overhead) rt in
  Ret (sendResult rt
         (rawSendMsgPacket a None (match extra with [] => msg | _ => makeCompoundMessage (msg :: extra) end) rt)).

Definition encodeWire (w : Acks.wire) : option bytes :=
  match w with
  | Acks.WPing p => encode pingMsg p
  | Acks.WIndirect r => encode indirectPingMsg r
  | Acks.WAck a => encode ackRespMsg a
  | Acks.WNack n => encode nackRespMsg n
  end.

Definition encodeAndSendMsg (a : Acks.Address) (w : Acks.wire) rt : outcome (runtime * option netErr) :=
  match encodeWire w with
  | None => Ret (rt, Some ErrEncode)
  | Some msg => sendMsg a msg rt
  end.

(** Send what the acknowledgement handlers have handed over since last time; they
    only log the errors. *)
Fixpoint sendAll (ws : list (Acks.Address * Acks.wire)) rt : outcome runtime :=
  match ws with
  | [] => Ret rt
  | (a, w) :: ws' => let! '(rt, _) := encodeAndSendMsg a w rt in sendAll ws' rt
  end.

Definition flushAcks rt : outcome runtime :=
  let! rt' := sendAll (drop (sentUpTo rt) (Acks.outbox (acks rt))) rt in
  Ret (setSent (wires rt') (nonces rt') (length (Acks.outbox (acks rt))) rt').

(** [gossip]: broadcasts for a few random nodes, until there are none left. *)
Definition gossipPackets (msgs : list bytes) : list bytes :=
  match msgs with
  | [msg] => [msg]
  | _ => makeCompoundMessages msgs
  end.

Definition sendPackets (n : Node) (ps : list bytes) rt : runtime :=
  fold_left (fun rt p => fst (sendResult rt (rawSendMsgPacket (Probe.FullAddress n) (Some n) p rt))) ps rt.

Fixpoint gossipTo (ns : list Node) (bytesAvail : Z) rt : outcome runtime :=
  match ns with
  | [] => Ret rt
  | n :: ns' =>
      let! '(msgs, rt) := takeBroadcasts bytesAvail rt in
      match msgs with
      | [] => Ret rt
      | _ => gossipTo ns' bytesAvail (sendPackets n (gossipPackets msgs) rt)
      end
  end.

Definition gossipBytesAvail (c : Config.Config) : outcome Z :=
  let bytesAvail := Config.UDPBufferSize c - compoundHeaderOverhead - labelOverhead (Config.Label c) in
  if Config.EncryptionEnabled c then
    let! overhead := encryptOverhead (encryptionVersion (Config.ProtocolVersion c)) in Ret (bytesAvail - overhead)
  else Ret bytesAvail.

Definition gossip (rnds : list Z) (now : gotime) rt : outcome runtime :=
  let m := ml rt in
  let kNodes := Probe.kRandomNodes (Z.to_nat (Config.GossipNodes (conf rt))) rnds (nodeStates m)
                  (Probe.excludeGossip (self m) (Config.GossipToTheDeadTime (conf rt)) now) in
  let! bytesAvail := gossipBytesAvail (conf rt) in
  gossipTo kNodes bytesAvail rt.

(** ** Receiving *)

(** Run a handler of [Acks] and send what it hands over. *)
Definition withAcks (s : outcome Acks.ackState) rt : outcome runtime :=
  let! s := s in flushAcks (setAcks s rt).

Definition handlePing (buf from : bytes) rt : outcome runtime :=
  match decode buf with
  | None => Ret rt
  | Some p => withAcks (Ret (Acks.handlePing (me env) (ackPayload env) p from (acks rt))) rt
  end.

Definition handleIndirectPing (buf from : bytes) rt : outcome runtime :=
  match decode buf with
  | None => Ret rt
  | Some ind => withAcks (Ret (Acks.handleIndirectPing (conf rt) (me env) ind from (acks rt))) rt
  end.

Definition handleAck (buf : bytes) (timestamp : gotime) rt : outcome runtime :=
  match decode buf with
  | None => Ret rt
  | Some ack => withAcks (Acks.invokeAckHandler ack timestamp (acks rt)) rt
  end.

Definition handleNack (buf : bytes) rt : outcome runtime :=
  match decode buf with
  | None => Ret rt
  | Some nack => Ret (setAcks (Acks.invokeNackHandler nack (acks rt)) rt)
  end.

(** The four message types that are handed to [packetHandler]; a full queue drops
    the message, and the notification is made in any case. *)
Definition enqueue (msgType : Z) (buf from : bytes) rt : runtime :=
  let depth := Config.HandoffQueueDepth (conf rt) in
  let h := mkHandoff msgType buf from in
  if msgType =? aliveMsg then
    if Z.of_nat (length (highPriorityMsgQueue rt)) >=? depth
    then setQueues (highPriorityMsgQueue rt) (lowPriorityMsgQueue rt) true rt
    else setQueues (highPriorityMsgQueue rt ++ [h]) (lowPriorityMsgQueue rt) true rt
  else
    if Z.of_nat (length (lowPriorityMsgQueue rt)) >=? depth
    then setQueues (highPriorityMsgQueue rt) (lowPriorityMsgQueue rt) true rt
    else setQueues (highPriorityMsgQueue rt) (lowPriorityMsgQueue rt ++ [h]) true rt.

Definition queued (t : Z) : bool := (t =? suspectMsg) || (t =? aliveMsg) || (t =? deadMsg) || (t =? userMsg).

(** The two commands that hold others; [handle] is [handleCommand]. *)
Definition handleCompound (handle : bytes -> runtime -> outcome runtime) (buf : bytes) rt : outcome runtime :=
  match decodeCompoundMessage buf with
  | Err _ => Ret rt
  | Ok (_, parts) => fold_left (fun r part => let! rt := r in handle part rt) parts (Ret rt)
  end.

Definition handleCompressed (handle : bytes -> runtime -> outcome runtime) (buf : bytes) rt : outcome runtime :=
  let! r := decompressPayload buf in
  match r with
  | Err _ => Ret rt
  | Ok payload => handle payload rt
  end.

(** Go's stack is bounded: [depth] is the depth of nesting it allows. *)
Fixpoint handleCommand (depth : nat) (buf from : bytes) (timestamp : gotime) rt : outcome runtime :=
  match depth with
  | O => Panic "stack overflow"
  | S depth' =>
      match buf with
      | [] => Ret rt
      | b0 :: buf =>
          let msgType := Z_of_byte b0 in
          if msgType =? compoundMsg then handleCompound (fun part rt => handleCommand depth' part from timestamp rt) buf rt
          else if msgType =? compressMsg then handleCompressed (fun p rt => handleCommand depth' p from timestamp rt) buf rt
          else if msgType =? pingMsg then handlePing buf from rt
          else if msgType =? indirectPingMsg then handleIndirectPing buf from rt
          else if msgType =? ackRespMsg then handleAck buf timestamp rt
          else if msgType =? nackRespMsg then handleNack buf rt
          else if queued msgType then Ret (enqueue msgType buf from rt)
          else Ret rt
      end
  end.

(** The keys to decrypt with. *)
Definition keysOf (c : Config.Config) : list bytes :=
  match Config.Keyring c with Some k => Keyring.GetKeys k | None => [] end.

(** The checksum, if there is one, verified and removed. *)
Definition checkCrc (buf : bytes) : option bytes :=
  match buf with
  | b0 :: c1 :: c2 :: c3 :: c4 :: rest =>
      if Z_of_byte b0 =? hasCrcMsg then
        if checksumIEEE rest =? getBE32 c1 c2 c3 c4 then Some rest else None
      else Some buf
  | _ => Some buf
  end.

(** [ingestPacket] up to the command: [None] where the packet is dropped. *)
Definition openPacket (c : Config.Config) (buf : bytes) : outcome (option bytes) :=
  match RemoveLabelHeaderFromPacket buf with
  | Err _ => Ret None
  | Ok (buf, packetLabel) =>
      if Config.SkipInboundLabelCheck c && negb (bool_decide (packetLabel = EmptyString)) then Ret None
      else
        let packetLabel := if Config.SkipInboundLabelCheck c then Config.Label c else packetLabel in
        if negb (bool_decide (Config.Label c = packetLabel)) then Ret None
        else
          let! plain :=
            (if Config.EncryptionEnabled c then
               let! r := decryptPayload (keysOf c) buf (bytes_of_string packetLabel) in
               Ret (match r with
                    | Ok plain => Some plain
                    | Err _ => if negb (Config.GossipVerifyIncoming c) then Some buf else None
                    end)
             else Ret (Some buf)) in
          Ret (match plain with Some buf => checkCrc buf | None => None end)
  end.

Definition ingestPacket (depth : nat) (buf from : bytes) (timestamp : gotime) rt : outcome runtime :=
  let! p := openPacket (conf rt) buf in
  match p with
  | None => Ret rt
  | Some cmd => handleCommand depth cmd from timestamp rt
  end.

(** [getNextMessage]: the newest message, alive messages first. *)
Definition getNextMessage rt : option (msgHandoff * runtime) :=
  match last (highPriorityMsgQueue rt) with
  | Some h => Some (h, setQueues (removelast (highPriorityMsgQueue rt)) (lowPriorityMsgQueue rt) (handoffCh rt) rt)
  | None =>
      match last (lowPriorityMsgQueue rt) with
      | Some h => Some (h, setQueues (highPriorityMsgQueue rt) (removelast (lowPriorityMsgQueue rt)) (handoffCh rt) rt)
      | None => None
      end
  end.

Definition handleSuspect (buf : bytes) (now : gotime) rt : runtime :=
  match decode buf with None => rt | Some s => setMl (suspectNode s now (ml rt)) rt end.

Definition handleDead (buf : bytes) (now : gotime) rt : runtime :=
  match decode buf with None => rt | Some d => setMl (deadNode d now (ml rt)) rt end.

(** [ensureCanConnect]: [true] where it returns a nil error. *)
Definition ensureCanConnect (c : Config.Config) (from : bytes) : bool :=
  if negb (Config.IPMustBeChecked c) then true
  else if bool_decide (from = bytes_of_string "pipe") then true
  else
    match Addr.SplitHostPort from with
    | None => false
    | Some (host, _) => match Addr.ParseIP host with None => false | Some ip => Config.IPAllowed c ip end
    end.

Definition withPort (p : Z) (a : alive) : alive :=
  mkAlive (aIncarnation a) (aNode a) (aAddr a) p (aMeta a) (aVsn a).

Definition portOf (c : Config.Config) (a : alive) : Z :=
  if (Config.ProtocolVersion c <? 2) || (aPort a =? 0) then u16 (Config.BindPort c) else aPort a.

(** An empty [Addr] decodes to nil or to an empty slice; in both cases the code's
    check decides as [IPAllowed] of the empty address does, or is skipped:
    [nilAddr] tells which. *)
Definition handleAlive (buf from : bytes) (nilAddr : bool) (rnd : Z) (now : gotime) rt : outcome runtime :=
  let c := conf rt in
  if negb (ensureCanConnect c from) then Ret rt
  else
    match decode buf with
    | None => Ret rt
    | Some live =>
        let unchecked := bool_decide (aAddr live = []) && nilAddr in
        if Config.IPMustBeChecked c && negb unchecked && negb (Config.IPAllowed c (aAddr live)) then Ret rt
        else
          let! m := aliveNode (withPort (portOf c live) live) None false rnd now (ml rt) in
          Ret (setMl m rt)
    end.

Definition handleUser (buf : bytes) rt : runtime :=
  match delegate env with None => rt | Some _ => addUserMsg buf rt end.

(** One message of [packetHandler]. *)
Definition handleNext (nilAddr : bool) (rnd : Z) (now : gotime) (h : msgHandoff) rt : outcome runtime :=
  if hType h =? suspectMsg then Ret (handleSuspect (hBuf h) now rt)
  else if hType h =? aliveMsg then handleAlive (hBuf h) (hFrom h) nilAddr rnd now rt
  else if hType h =? deadMsg then Ret (handleDead (hBuf h) now rt)
  else if hType h =? userMsg then Ret (handleUser (hBuf h) rt)
  else Ret rt.

(** The inner loop of [packetHandler], [n] iterations of it; [its i] has the
    random number and the time of the call that leaves [i] iterations to go. *)
Fixpoint drainQueues (its : nat -> bool * Z * gotime) (n : nat) rt : outcome runtime :=
  match n with
  | O => Ret rt
  | S n' =>
      match getNextMessage rt with
      | None => Ret rt
      | Some (h, rt) =>
          let '(nilAddr, rnd, now) := its n' in
          let! rt := handleNext nilAddr rnd now h rt in drainQueues its n' rt
      end
  end.

Definition pendingMsgs rt : nat := (length (highPriorityMsgQueue rt) + length (lowPriorityMsgQueue rt))%nat.

(** One turn of [packetHandler]: it waits for a notification, takes it, and
    handles messages until there are none. *)
Definition packetHandler (its : nat -> bool * Z * gotime) rt : outcome runtime :=
  if handoffCh rt then
    drainQueues its (pendingMsgs rt) (setQueues (highPriorityMsgQueue rt) (lowPriorityMsgQueue rt) false rt)
  else Ret rt.

End Net.

Arguments runtime : clear implicits.

End Net.
