(* ===== verification/Delivery.v ===== *)
(** * Packets end to end

    What [Net] promises: a packet sent by one member is the command its peer
    handles, gossip packets stay within the configured size up to the checksum
    header, the handoff queues are bounded, drained, and give alive messages
    priority. *)

From Stdlib Require Import ZArith Lia Strings.Byte.
From stdpp Require Import tactics base numbers strings gmap list.
From S2P Require Import Prelude Awareness Keyring Timing Compound Label Security Lzw Queue Config Addr Members Guarantees Acks Wire Probe Net.

Local Open Scope Z_scope.
Local Open Scope go_scope.

Module Delivery.

Import Compound Label Security Members Wire Net.

(** ** What the peers need to have in common *)

(** The bytes after which a packet is not taken for a checksummed or a labelled
    one; all commands but those start with another byte. *)
Definition isCommand (msg : bytes) : Prop :=
  match msg with
  | [] => False
  | t :: _ => Z_of_byte t <> hasCrcMsg /\ Z_of_byte t <> hasLabelMsg
  end.

(** The receiver checks labels itself, has the sender's label, expects encryption
    if the sender encrypts, and has the sender's primary key; the keys it tries
    before that one reject what is sealed with it. *)
Record compatible `{!AEAD} (c1 c2 : Config.Config) : Prop := {
  sameLabel : Config.Label c2 = Config.Label c1;
  checksLabel : Config.SkipInboundLabelCheck c2 = false;
  sameEncryption : Config.EncryptionEnabled c2 = encryptsOutgoing c1;
  sharedKey : encryptsOutgoing c1 = true -> exists ks1 ks2,
    keysOf c2 = ks1 ++ primaryKey c1 :: ks2 /\
    Forall (fun k => forall nonce plain data,
      Open k nonce (Seal (primaryKey c1) nonce plain data) data = None) ks1
}.

Section Delivery.

Context {T : Type} `{!Queue.BTree Queue.memberlistBroadcast T} `{!AEAD} `{!AEADLaws}.
Context `{!Codec Acks.ping, !Codec Acks.indirectPingReq, !Codec Acks.ackResp, !Codec Acks.nackResp}.
Context `{!Codec alive, !Codec suspect, !Codec dead, !Codec compress}.
Context `{!CodecLaws compress}.
Context (env : environment).

#[local] Existing Instance gossipCodec.

Implicit Types rt : runtime T.

(** What lets a packet leave: a name if names are required, a destination, a label
    that fits, a valid key and a nonce from the random source. *)
Record sendable (a : Acks.Address) (n : option Node) rt : Prop := {
  named : Config.RequireNodeNames (conf rt) = true -> Acks.Name a <> EmptyString;
  routed : n = None -> is_Some (Addr.SplitHostPort (Acks.Addr a));
  labelFits : slen (Config.Label (conf rt)) <= LabelMaxSize;
  keyFits : encryptsOutgoing (conf rt) = true -> aesKeyOk (primaryKey (conf rt)) = true;
  hasNonce : encryptsOutgoing (conf rt) = true ->
    exists nonce ns, nonces rt = nonce :: ns /\ length nonce = 12%nat
}.

(** ** The packet *)

Lemma encryptionVersion_cases v : encryptionVersion v = 0 \/ encryptionVersion v = 1.
Proof. unfold encryptionVersion. case_match; auto. Qed.

Lemma compressed_cases c msg :
  compressed c msg = msg \/
  exists b, compressed c msg = byte_of_Z compressMsg :: b /\ decompressPayload b = Ret (Ok msg).
Proof.
  unfold compressed. case_match; [|by left]. destruct (compressPayload msg) as [buf|] eqn:E; [|by left].
  case_match; [right|by left]. by apply decompress_compressed.
Qed.

Lemma compressed_command c msg : isCommand msg -> isCommand (compressed c msg).
Proof. intros Hm. destruct (compressed_cases c msg) as [->|(b & -> & _)]; [done|]. split; discriminate. Qed.

(** Undoing the checksum. *)
Lemma crc_undone n msg : isCommand msg -> checkCrc (withCrc n msg) = Some msg.
Proof.
  intros Hm. assert (Hplain : checkCrc msg = Some msg).
  { destruct msg as [|b0 msg]; [done|]. destruct Hm as [Hc _]. apply Z.eqb_neq in Hc.
    unfold checkCrc. destruct msg as [|? [|? [|? [|? ?]]]]; by rewrite ?Hc. }
  unfold withCrc. destruct n as [n|]; [|exact Hplain]. case_match; [|exact Hplain].
  cbv beta iota delta [checkCrc putBE32 app]. rewrite Z_of_byte_small by done.
  rewrite getBE32_put by apply checksum_range. by rewrite !Z.eqb_refl.
Qed.

Lemma withCrc_head n msg : isCommand msg -> exists b r, withCrc n msg = b :: r /\ Z_of_byte b <> hasLabelMsg.
Proof.
  intros Hm. unfold withCrc. destruct msg as [|b0 msg]; [done|]. destruct Hm as [_ Hl].
  destruct n as [n|]; [|eauto]. case_match; [|eauto]. do 2 eexists. split; [reflexivity|discriminate].
Qed.

(** Encrypting, when it is on, and what the receiver makes of the result. *)
Definition opened (c : Config.Config) (buf : bytes) (label : string) : outcome (option bytes) :=
  if Config.EncryptionEnabled c then
    let! r := decryptPayload (keysOf c) buf (bytes_of_string label) in
    Ret (match r with
         | Ok plain => Some plain
         | Err _ => if negb (Config.GossipVerifyIncoming c) then Some buf else None
         end)
  else Ret (Some buf).

Lemma encrypted_opens a n rt c2 msg :
  sendable a n rt -> compatible (conf rt) c2 ->
  (exists b r, msg = b :: r /\ Z_of_byte b <> hasLabelMsg) ->
  exists buf ns, encrypted (conf rt) (nonces rt) msg = Ok (buf, ns) /\
    opened c2 buf (Config.Label (conf rt)) = Ret (Some msg) /\
    exists b r, buf = b :: r /\ Z_of_byte b <> hasLabelMsg.
Proof.
  intros Hs Hc Hm. unfold encrypted, opened. rewrite (sameEncryption _ _ Hc).
  destruct (encryptsOutgoing (conf rt)) eqn:E; [|eauto].
  destruct (hasNonce _ _ _ Hs E) as (nonce & ns & -> & Hn). pose proof (keyFits _ _ _ Hs E) as Hk.
  destruct (sharedKey _ _ Hc E) as (ks1 & ks2 & -> & Hrej).
  pose proof (encryptionVersion_cases (Config.ProtocolVersion (conf rt))) as Hv.
  rewrite encryptPayload_eq by done. do 2 eexists. split; [reflexivity|]. cbn [app]. split.
  - rewrite decrypt_encrypted; [done..|]. eapply Forall_impl; [exact Hrej|]. intros k Hr. apply Hr.
  - do 2 eexists. split; [reflexivity|]. destruct Hv as [-> | ->]; discriminate.
Qed.

Lemma label_removed label buf :
  slen label <= LabelMaxSize -> (exists b r, buf = b :: r /\ Z_of_byte b <> hasLabelMsg) ->
  exists w, AddLabelHeaderToPacket buf label = Ok w /\ RemoveLabelHeaderFromPacket w = Ok (buf, label).
Proof.
  intros Hl (b & r & -> & Hb). unfold AddLabelHeaderToPacket. case_bool_decide as He.
  - exists (b :: r). subst. split; [done|]. simpl. apply Z.eqb_neq in Hb. by rewrite Hb.
  - replace (slen label >? LabelMaxSize) with false by (symmetry; rewrite Z.gtb_ltb; apply Z.ltb_ge; lia).
    eexists. split; [done|]. by apply remove_header.
Qed.

Lemma destination_found a n rt : sendable a n rt -> exists n', destination a n (ml rt) = Ok n'.
Proof.
  intros Hs. unfold destination. destruct n as [n|]; [eauto|].
  destruct (routed _ _ _ Hs eq_refl) as [[h p] ->]. eauto.
Qed.

Lemma name_accepted a n rt :
  sendable a n rt -> bool_decide (Acks.Name a = EmptyString) && Config.RequireNodeNames (conf rt) = false.
Proof.
  intros Hs. apply andb_false_iff. destruct (Config.RequireNodeNames (conf rt)) eqn:E; [left|by right].
  apply bool_decide_eq_false_2. by apply (named _ _ _ Hs).
Qed.

Lemma openPacket_opened c w buf label :
  RemoveLabelHeaderFromPacket w = Ok (buf, label) -> Config.Label c = label ->
  Config.SkipInboundLabelCheck c = false ->
  openPacket c w =
    let! plain := opened c buf label in Ret (match plain with Some buf => checkCrc buf | None => None end).
Proof.
  intros Hr Hl Hk. unfold openPacket, opened. rewrite Hr, Hk. simpl. by rewrite bool_decide_eq_true_2.
Qed.

Lemma packet_opens a n msg rt c2 :
  sendable a n rt -> compatible (conf rt) c2 -> isCommand msg ->
  exists w ns, rawSendMsgPacket a n msg rt = Ok (setSent (wires rt ++ [(a, w)]) ns (sentUpTo rt) rt) /\
    openPacket c2 w = Ret (Some (compressed (conf rt) msg)).
Proof.
  intros Hs Hc Hm. unfold rawSendMsgPacket.
  rewrite (name_accepted _ _ _ Hs).
  destruct (destination_found a n rt Hs) as [n' ->]. cbn [rbind].
  pose proof (compressed_command (conf rt) msg Hm) as Hcm.
  destruct (encrypted_opens a n rt c2 (withCrc n' (compressed (conf rt) msg)) Hs Hc (withCrc_head n' _ Hcm))
    as (buf & ns & -> & Ho & Hh).
  destruct (label_removed (Config.Label (conf rt)) buf (labelFits _ _ _ Hs) Hh) as (w & Hw & Hr).
  exists w, ns. unfold WriteToAddress. rewrite Hw. split; [done|].
  rewrite (openPacket_opened c2 w buf _ Hr (sameLabel _ _ Hc) (checksLabel _ _ Hc)), Ho. cbn [obind]. f_equal.
  by apply crc_undone.
Qed.

(** ** Nesting *)

Lemma fold_ret_mono {A} (f g : A -> runtime T -> outcome (runtime T)) (l : list A) r rt' :
  (forall x rt rt', f x rt = Ret rt' -> g x rt = Ret rt') ->
  fold_left (fun r x => obind r (f x)) l r = Ret rt' -> fold_left (fun r x => obind r (g x)) l r = Ret rt'.
Proof.
  intros Hfg. revert r. induction l as [|x l IH]; intros r; [done|]. simpl.
  assert (Hp : forall m, fold_left (fun r x => obind r (f x)) l (Panic m) <> Ret rt').
  { intros m. clear. induction l; [done|]. by simpl. }
  destruct r as [rt|m]; simpl; [|by intros ?%Hp].
  destruct (f x rt) as [rt1|m] eqn:E; [|by intros ?%Hp]. rewrite (Hfg _ _ _ E). apply IH.
Qed.

Lemma handleCommand_S d buf from ts rt rt' :
  handleCommand env d buf from ts rt = Ret rt' -> handleCommand env (S d) buf from ts rt = Ret rt'.
Proof.
  revert buf rt rt'. induction d as [|d IH]; intros buf rt rt' Hr; [done|].
  cbn [handleCommand] in Hr. remember (S d) as d1. cbn [handleCommand].
  destruct buf as [|b0 buf]; [done|]. case_match; [|case_match; [|done]].
  - unfold handleCompound in *. destruct (decodeCompoundMessage buf) as [[? parts]|]; [|done].
    eapply (fold_ret_mono (fun p rt => handleCommand env d p from ts rt)); [|exact Hr].
    intros p r r' Hp. subst d1. by apply IH.
  - unfold handleCompressed in *. destruct (decompressPayload buf) as [[payload|]|]; [|done..]. simpl in *. subst d1. by apply IH.
Qed.

Lemma packet_ingested a n msg d from ts rt1 rt2 rt2' :
  sendable a n rt1 -> compatible (conf rt1) (conf rt2) -> isCommand msg ->
  handleCommand env d msg from ts rt2 = Ret rt2' ->
  exists w ns, rawSendMsgPacket a n msg rt1 = Ok (setSent (wires rt1 ++ [(a, w)]) ns (sentUpTo rt1) rt1) /\
    ingestPacket env (S d) w from ts rt2 = Ret rt2'.
Proof.
  intros Hs Hc Hm Hh. destruct (packet_opens a n msg rt1 (conf rt2) Hs Hc Hm) as (w & ns & Hw & Ho).
  exists w, ns. split; [exact Hw|]. unfold ingestPacket. rewrite Ho. cbn [obind].
  destruct (compressed_cases (conf rt1) msg) as [->|(b & -> & Hd)]; [by apply handleCommand_S|].
  cbn [handleCommand]. rewrite Z_of_byte_small by done. simpl. unfold handleCompressed. by rewrite Hd.
Qed.

(** ** Sizes *)

(** The bytes encryption adds to a packet of this configuration, at most. *)
Definition overheadOf (c : Config.Config) : Z :=
  if encryptsOutgoing c then if encryptionVersion (Config.ProtocolVersion c) =? 0 then 45 else 29 else 0.

Lemma encryptedLength_overhead vsn n :
  vsn = 0 \/ vsn = 1 -> 0 <= n -> encryptedLength vsn n <= n + (if vsn =? 0 then 45 else 29).
Proof.
  intros [-> | ->] Hn; unfold encryptedLength; simpl; unfold versionSize, nonceSize, tagSize; [|lia].
  pose proof (goMod_bounds n blockSize Hn ltac:(done)). unfold blockSize in *. lia.
Qed.

Lemma compressed_shorter c msg : blen (compressed c msg) <= blen msg.
Proof. unfold compressed. repeat case_match; zify_bool; lia. Qed.

Lemma withCrc_length n msg : blen (withCrc n msg) <= blen msg + 5.
Proof.
  unfold withCrc. repeat case_match; try lia. rewrite blen_cons, blen_app. unfold putBE32.
  change (blen [_; _; _; _]) with 4. lia.
Qed.

Definition nonceOk (b : bytes) : Prop := length b = 12%nat.

Lemma encrypted_bound c ns msg buf ns' :
  Forall nonceOk ns -> encrypted c ns msg = Ok (buf, ns') ->
  blen buf <= blen msg + overheadOf c /\ Forall nonceOk ns'.
Proof.
  intros Hns. unfold encrypted, overheadOf. destruct (encryptsOutgoing c); [|intros [= <- <-]; split; [lia|done]].
  destruct Hns as [|nonce ns Hn Hns]; [done|].
  pose proof (encryptionVersion_cases (Config.ProtocolVersion c)) as Hv.
  destruct (aesKeyOk (primaryKey c)) eqn:Hk; [|by (unfold encryptPayload; rewrite Hk)].
  rewrite encryptPayload_eq by done. intros [= <- <-]. split; [|done]. cbn [app].
  rewrite encrypted_length by done. apply encryptedLength_overhead; [done|apply blen_nonneg].
Qed.

Lemma label_length label buf w :
  AddLabelHeaderToPacket buf label = Ok w -> blen w = blen buf + labelOverhead label.
Proof.
  unfold AddLabelHeaderToPacket, labelOverhead. repeat case_match; intros [= <-]; [lia|].
  unfold makeLabelHeader. rewrite !blen_cons, blen_app. unfold slen, blen at 1. rewrite length_bytes_of_string. lia.
Qed.

Lemma packet_size a n msg rt rt' :
  Forall nonceOk (nonces rt) -> rawSendMsgPacket a n msg rt = Ok rt' ->
  exists w ns, rt' = setSent (wires rt ++ [(a, w)]) ns (sentUpTo rt) rt /\ Forall nonceOk ns /\
    blen w <= blen msg + 5 + overheadOf (conf rt) + labelOverhead (Config.Label (conf rt)).
Proof.
  intros Hns. unfold rawSendMsgPacket. case_match; [done|].
  destruct (destination a n (ml rt)) as [n'|]; [|done]. cbn [rbind].
  destruct (encrypted (conf rt) (nonces rt) _) as [[buf ns]|] eqn:E; [|done].
  apply encrypted_bound in E as [Hb Hns']; [|done]. unfold WriteToAddress.
  destruct (AddLabelHeaderToPacket buf _) as [w|] eqn:Hw; [|done]. intros [= <-].
  exists w, ns. split_and!; [done..|]. rewrite (label_length _ _ _ Hw).
  pose proof (withCrc_length n' (compressed (conf rt) msg)). pose proof (compressed_shorter (conf rt) msg). lia.
Qed.

Lemma compound_length msgs : blen (makeCompoundMessage msgs) = 2 + Queue.sizeOf compoundOverhead msgs.
Proof.
  unfold makeCompoundMessage. rewrite !blen_cons, blen_app. unfold blen at 1. rewrite concat_lengths_length.
  replace (Queue.sizeOf compoundOverhead msgs) with (2 * Z.of_nat (length msgs) + blen (concat msgs)); [lia|].
  unfold compoundOverhead. induction msgs as [|m msgs IH]; [done|]. cbn [concat length Queue.sizeOf fold_right].
  rewrite blen_app. unfold Queue.sizeOf in *. simpl in *. lia.
Qed.

Lemma sizeOf_chunk chunks chunk :
  chunk ∈ chunks -> Queue.sizeOf compoundOverhead chunk <= Queue.sizeOf compoundOverhead (concat chunks).
Proof.
  induction 1 as [c l|c c0 l Hin IH]; cbn [concat]; rewrite Queue.sizeOf_app.
  - pose proof (Queue.sizeOf_nonneg compoundOverhead (concat l) ltac:(done)). lia.
  - pose proof (Queue.sizeOf_nonneg compoundOverhead c0 ltac:(done)). lia.
Qed.

Lemma gossipPackets_size msgs :
  Forall (fun p => blen p <= 2 + Queue.sizeOf compoundOverhead msgs) (gossipPackets msgs).
Proof.
  assert (Hc : Forall (fun p => blen p <= 2 + Queue.sizeOf compoundOverhead msgs) (makeCompoundMessages msgs)).
  { unfold makeCompoundMessages. destruct (makeCompoundMessagesLoop_chunks (S (length msgs)) msgs) as (cs & -> & Hm & _);
      [lia|]. apply Forall_map, Forall_forall. intros c Hin. simpl. rewrite compound_length, <- Hm.
    pose proof (sizeOf_chunk _ _ Hin). lia. }
  destruct msgs as [|m [|m' msgs]]; try exact Hc. repeat constructor.
  unfold Queue.sizeOf, compoundOverhead. simpl. lia.
Qed.

(** ** Gossip rounds *)

Context `{!Queue.BTreeLaws Queue.memberlistBroadcast T}.

(** What a sender keeps: its configuration, a well-formed queue, nonces. *)
Record senderOk rt : Prop := {
  so_queue : Queue.wf (broadcasts (ml rt));
  so_nonces : Forall nonceOk (nonces rt)
}.

(** From [rt] to [rt'] only packets of at most [lim] bytes were sent. *)
Record sends (lim : Z) rt rt' : Prop := {
  sd_ok : senderOk rt';
  sd_conf : conf rt' = conf rt;
  sd_wires : exists ws, wires rt' = wires rt ++ ws /\ Forall (fun p => blen p.2 <= lim) ws
}.

Lemma sends_refl lim rt : senderOk rt -> sends lim rt rt.
Proof. intros Hs. split; [done..|]. exists []. by rewrite app_nil_r. Qed.

Lemma sends_trans lim rt1 rt2 rt3 : sends lim rt1 rt2 -> sends lim rt2 rt3 -> sends lim rt1 rt3.
Proof.
  intros [_ C1 (w1 & E1 & F1)] [O2 C2 (w2 & E2 & F2)]. split; [done|congruence|].
  exists (w1 ++ w2). rewrite E2, E1, app_assoc. split; [done|]. by apply Forall_app.
Qed.

Lemma takeBroadcasts_spec lim avail rt :
  Queue.delegateOk (delegate env) -> senderOk rt ->
  exists msgs rt', takeBroadcasts env avail rt = Ret (msgs, rt') /\ sends lim rt rt' /\
    Queue.sizeOf compoundOverhead msgs <= Z.max 0 avail.
Proof.
  intros Hd [Hq Hn]. unfold takeBroadcasts.
  destruct (Queue.getBroadcasts_round compoundOverhead avail (estNumNodes (ml rt)) _ Hq)
    as (m0 & q' & fin & kept & sent & Eg & [_ _ _ _ _ _ Hq']).
  assert (Hex : exists msgs, Queue.getBroadcasts (delegate env) compoundOverhead avail (estNumNodes (ml rt))
    (broadcasts (ml rt)) = Some (msgs, q', fin)).
  { unfold Queue.getBroadcasts. rewrite Eg. repeat case_match; eauto. }
  destruct Hex as [msgs E]. rewrite E. do 2 eexists. split; [reflexivity|]. split.
  - split; [by split|done|]. exists []. by rewrite app_nil_r.
  - by eapply Queue.getBroadcasts_budget.
Qed.

Lemma sendPackets_spec n ps lim rt :
  senderOk rt ->
  Forall (fun p => blen p + 5 + overheadOf (conf rt) + labelOverhead (Config.Label (conf rt)) <= lim) ps ->
  sends lim rt (sendPackets n ps rt).
Proof.
  revert rt. induction ps as [|p ps IH]; intros rt Hok Hps; [by apply sends_refl|].
  apply Forall_cons in Hps as [Hp Hps]. unfold sendPackets. cbn [fold_left].
  assert (G1 : sends lim rt (sendResult rt (rawSendMsgPacket (Probe.FullAddress n) (Some n) p rt)).1).
  { destruct (rawSendMsgPacket _ _ p rt) as [rt1|] eqn:E; [|by apply sends_refl].
    apply packet_size in E as (w & ns & -> & Hns & Hw); [|apply Hok].
    split; [split; [apply Hok|done]|done|]. exists [(Probe.FullAddress n, w)]. split; [done|].
    repeat constructor. simpl. lia. }
  eapply sends_trans; [exact G1|]. apply IH; [apply G1|]. by rewrite (sd_conf _ _ _ G1).
Qed.

Lemma gossipTo_spec ns avail lim rt :
  Queue.delegateOk (delegate env) -> senderOk rt ->
  2 + Z.max 0 avail + 5 + overheadOf (conf rt) + labelOverhead (Config.Label (conf rt)) <= lim ->
  exists rt', gossipTo env ns avail rt = Ret rt' /\ sends lim rt rt'.
Proof.
  intros Hd. revert rt. induction ns as [|n ns IH]; intros rt Hok Hlim; [eauto using sends_refl|].
  cbn [gossipTo]. destruct (takeBroadcasts_spec lim avail rt Hd Hok) as (msgs & rt1 & -> & G1 & Hsz). cbn [obind].
  destruct msgs as [|m msgs]; [eauto|].
  assert (G2 : sends lim rt1 (sendPackets n (gossipPackets (m :: msgs)) rt1)).
  { apply sendPackets_spec; [apply G1|]. eapply Forall_impl; [apply gossipPackets_size|].
    intros p Hp. cbn beta in Hp |- *. rewrite (sd_conf _ _ _ G1). lia. }
  destruct (IH (sendPackets n (gossipPackets (m :: msgs)) rt1)) as (rt' & -> & G3).
  - apply G2.
  - by rewrite (sd_conf _ _ _ G2), (sd_conf _ _ _ G1).
  - exists rt'. split; [done|]. eauto using sends_trans.
Qed.

Lemma gossipBytesAvail_spec c :
  exists av, gossipBytesAvail c = Ret av /\
    2 + av + overheadOf c + labelOverhead (Config.Label c) <= Config.UDPBufferSize c.
Proof.
  unfold gossipBytesAvail, overheadOf, encryptsOutgoing, compoundHeaderOverhead, encryptOverhead.
  destruct (encryptionVersion_cases (Config.ProtocolVersion c)) as [-> | ->];
    destruct (Config.EncryptionEnabled c), (Config.GossipVerifyOutgoing c); simpl;
    eexists; (split; [reflexivity|lia]).
Qed.

(** ** The handoff queues *)

(** Handling a queued message leaves the queues alone, and fails only where an
    alive message has a truncated list of versions. *)
Definition versionsOk (h : msgHandoff) : Prop :=
  forall al : alive, decode (hBuf h) = Some al -> length (aVsn al) = 0%nat \/ (6 <= length (aVsn al))%nat.

Lemma handleNext_total nilAddr rnd now h rt :
  versionsOk h -> exists rt', handleNext env nilAddr rnd now h rt = Ret rt' /\
    highPriorityMsgQueue rt' = highPriorityMsgQueue rt /\ lowPriorityMsgQueue rt' = lowPriorityMsgQueue rt /\
    handoffCh rt' = handoffCh rt.
Proof.
  intros Hv. unfold handleNext. case_match; [unfold handleSuspect; case_match; eauto|].
  case_match; [|case_match; [unfold handleDead; case_match; eauto|
                 case_match; [unfold handleUser; case_match; eauto|eauto]]].
  unfold handleAlive. case_match; [eauto|]. destruct (decode (hBuf h)) as [al|] eqn:E; [|eauto].
  case_match; [eauto|].
  destruct (Guarantees.alive_well_versioned_safe (withPort (portOf (conf rt) al) al) None false rnd now (ml rt)
              (Hv al E)) as [m' Hm].
  rewrite Hm. simpl. eauto.
Qed.

Lemma drainQueues_spec its n rt :
  pendingMsgs rt = n -> Forall versionsOk (highPriorityMsgQueue rt) -> Forall versionsOk (lowPriorityMsgQueue rt) ->
  exists rt', drainQueues env its n rt = Ret rt' /\ pendingMsgs rt' = 0%nat /\ handoffCh rt' = handoffCh rt.
Proof.
  revert rt. induction n as [|n IH]; intros rt Hn Hh Hl; [eauto|]. cbn [drainQueues].
  assert (Hnext : exists h rt1, getNextMessage rt = Some (h, rt1) /\ versionsOk h /\ pendingMsgs rt1 = n /\
    Forall versionsOk (highPriorityMsgQueue rt1) /\ Forall versionsOk (lowPriorityMsgQueue rt1) /\
    handoffCh rt1 = handoffCh rt).
  { unfold getNextMessage, pendingMsgs in *.
    destruct (highPriorityMsgQueue rt) as [|h hs] using rev_ind.
    - destruct (lowPriorityMsgQueue rt) as [|h ls] using rev_ind; [done|].
      clear IHls. rewrite last_snoc, removelast_last. apply Forall_app in Hl as [Hl Hh'].
      do 2 eexists. split; [reflexivity|]. simpl. rewrite length_app in Hn. simpl in Hn.
      split_and!; [by inversion Hh'|lia|done..].
    - clear IHhs. rewrite last_snoc, removelast_last. apply Forall_app in Hh as [Hh Hh'].
      do 2 eexists. split; [reflexivity|]. simpl. rewrite length_app in Hn. simpl in Hn.
      split_and!; [by inversion Hh'|lia|done..]. }
  destruct Hnext as (h & rt1 & -> & Hv & Hp & G1 & G2 & G3). destruct (its n) as [[nilAddr rnd] now].
  destruct (handleNext_total nilAddr rnd now h rt1 Hv) as (rt2 & -> & E1 & E2 & E3). cbn [obind].
  destruct (IH rt2) as (rt' & -> & Hz & Hc); [unfold pendingMsgs in *; congruence|by rewrite E1|by rewrite E2|].
  exists rt'. split_and!; [done..|congruence].
Qed.

(** ** Properties *)

(** C5: A packet gets through: whatever the sender's compression, checksum,
    encryption and label settings, a command it sends is one packet on the wire,
    and a peer that has the same label and checks it, has encryption on exactly
    when the sender encrypts, and has the sender's key, does on ingesting this
    packet exactly what the command itself makes it do. One level of nesting more
    is enough. *)
Theorem packet_delivered a n msg d from ts rt1 rt2 rt2'
    (Hs : sendable a n rt1) (Hc : compatible (conf rt1) (conf rt2)) (Hm : isCommand msg)
    (Hh : handleCommand env d msg from ts rt2 = Ret rt2') :
  exists w ns, rawSendMsgPacket a n msg rt1 = Ok (setSent (wires rt1 ++ [(a, w)]) ns (sentUpTo rt1) rt1) /\
    ingestPacket env (S d) w from ts rt2 = Ret rt2'.
Proof. by apply packet_ingested. Qed.

(** Gossip about a node reaches the peer's membership: an alive message sent as a
    packet is the next message the peer handles, before everything already queued,
    and handling it is [aliveNode] on the message that was sent, with the port
    filled in, if the handoff queue has room and the addresses are allowed. *)
Theorem alive_reaches_peer `{!CodecLaws alive} a n (al : alive) msg from ts nilAddr rnd now rt1 rt2
    (Hs : sendable a n rt1) (Hc : compatible (conf rt1) (conf rt2)) (He : encode aliveMsg al = Some msg)
    (Hroom : Z.of_nat (length (highPriorityMsgQueue rt2)) < Config.HandoffQueueDepth (conf rt2))
    (Hfrom : ensureCanConnect (conf rt2) from = true) (Hip : Config.IPAllowed (conf rt2) (aAddr al) = true) :
  exists w ns rt2' h rt3,
    rawSendMsgPacket a n msg rt1 = Ok (setSent (wires rt1 ++ [(a, w)]) ns (sentUpTo rt1) rt1) /\
    ingestPacket env 2 w from ts rt2 = Ret rt2' /\ handoffCh rt2' = true /\
    getNextMessage rt2' = Some (h, rt3) /\ ml rt3 = ml rt2 /\
    handleNext env nilAddr rnd now h rt3 =
      let! m := aliveNode (withPort (portOf (conf rt2) al) al) None false rnd now (ml rt2) in Ret (setMl m rt3).
Proof.
  destruct (decode_encode _ _ _ He) as (b & -> & Hd).
  destruct (packet_ingested a n (byte_of_Z aliveMsg :: b) 1 from ts rt1 rt2 (enqueue aliveMsg b from rt2) Hs Hc)
    as (w & ns & Hw & Hi); [split; discriminate|reflexivity|].
  assert (Hq : enqueue aliveMsg b from rt2 = setQueues (highPriorityMsgQueue rt2 ++ [mkHandoff aliveMsg b from])
    (lowPriorityMsgQueue rt2) true rt2).
  { unfold enqueue. rewrite Z.eqb_refl, Z.geb_leb, (proj2 (Z.leb_gt _ _) Hroom). done. }
  rewrite Hq in Hi.
  exists w, ns. eexists. exists (mkHandoff aliveMsg b from), (setQueues (highPriorityMsgQueue rt2) (lowPriorityMsgQueue rt2) true rt2).
  split_and!; [exact Hw|exact Hi|done| |done|].
  - unfold getNextMessage. simpl. by rewrite last_snoc, removelast_last.
  - unfold handleNext. simpl. unfold handleAlive. change (conf (setQueues _ _ _ rt2)) with (conf rt2).
    by rewrite Hfrom, Hd, Hip, andb_false_r.
Qed.

(** C23: A gossip round always ends, and every packet it sends fits the configured
    packet size up to the five bytes of the checksum header, with all of the
    label, encryption, padding and compound overheads counted. *)
Theorem gossip_packets_fit rnds now rt av
    (Hd : Queue.delegateOk (delegate env)) (Hok : senderOk rt)
    (Hav : gossipBytesAvail (conf rt) = Ret av) (Hpos : 0 <= av) :
  exists rt' ws, gossip env rnds now rt = Ret rt' /\ wires rt' = wires rt ++ ws /\
    Forall (fun p => blen p.2 <= Config.UDPBufferSize (conf rt) + 5) ws.
Proof.
  unfold gossip. destruct (gossipBytesAvail_spec (conf rt)) as (av' & E & Hb). rewrite Hav in E |- *.
  injection E as <-. cbn [obind].
  destruct (gossipTo_spec (Probe.kRandomNodes (Z.to_nat (Config.GossipNodes (conf rt))) rnds (nodeStates (ml rt))
    (Probe.excludeGossip (self (ml rt)) (Config.GossipToTheDeadTime (conf rt)) now)) av
    (Config.UDPBufferSize (conf rt) + 5) rt Hd Hok) as (rt' & -> & [_ _ (ws & Hw & Hf)]); [lia|].
  exists rt', ws. auto.
Qed.

(** The checksum header is not counted: the largest message a gossip round hands
    out makes, for a peer that understands checksums, a packet one byte longer
    than the configured maximum. *)
Theorem checksum_not_counted n msg rt av
    (Hs : sendable (Probe.FullAddress n) (Some n) rt) (Hz : Config.EnableCompression (conf rt) = false)
    (He : Config.EncryptionEnabled (conf rt) = false) (Hn : 5 <= PMax n)
    (Hav : gossipBytesAvail (conf rt) = Ret av) (Hmsg : Queue.sizeOf compoundOverhead [msg] = av) :
  exists w ns, rawSendMsgPacket (Probe.FullAddress n) (Some n) msg rt =
      Ok (setSent (wires rt ++ [(Probe.FullAddress n, w)]) ns (sentUpTo rt) rt) /\
    blen w = Config.UDPBufferSize (conf rt) + 1.
Proof.
  unfold rawSendMsgPacket, compressed, encrypted, encryptsOutgoing, withCrc, destination. rewrite Hz, He.
  rewrite (name_accepted _ _ _ Hs).
  cbn [rbind andb]. unfold WriteToAddress.
  replace (PMax n >=? 5) with true by (symmetry; rewrite Z.geb_leb; by apply Z.leb_le).
  destruct (label_removed (Config.Label (conf rt)) (byte_of_Z hasCrcMsg :: putBE32 (checksumIEEE msg) ++ msg)
    (labelFits _ _ _ Hs)) as (w & Hw & _); [do 2 eexists; split; [reflexivity|discriminate]|].
  rewrite Hw. do 2 eexists. split; [reflexivity|]. rewrite (label_length _ _ _ Hw), blen_cons, blen_app.
  change (blen (putBE32 (checksumIEEE msg))) with 4. unfold gossipBytesAvail in Hav. rewrite He in Hav.
  injection Hav as <-. unfold Queue.sizeOf, compoundOverhead, compoundHeaderOverhead in Hmsg. simpl in Hmsg. lia.
Qed.

(** The packet handler catches up: after a notification it handles every queued
    message and stops with both queues empty, unless an alive message carries a
    truncated version list. *)
Theorem packetHandler_drains its rt
    (Hch : handoffCh rt = true)
    (Hv : Forall versionsOk (highPriorityMsgQueue rt ++ lowPriorityMsgQueue rt)) :
  exists rt', packetHandler env its rt = Ret rt' /\ pendingMsgs rt' = 0%nat /\ handoffCh rt' = false.
Proof. unfold packetHandler. rewrite Hch. apply Forall_app in Hv as [? ?]. by apply drainQueues_spec. Qed.

End Delivery.

(** ** Two concrete members *)

#[local] Existing Instances Queue.listTree Queue.listTree_laws Security.toyAEAD Security.toyAEADLaws.
#[local] Existing Instances countableCodec countableCodec_laws.

Abbreviation XR := (runtime (list (Queue.limitedBroadcast Queue.memberlistBroadcast))).

Definition exEnv : environment := mkEnv (Acks.mkIdentity Guarantees.xaddr 7946 "a") None None.

Definition exRing : Keyring.Keyring := Keyring.mkKeyring [demoKey16 x02; demoKey16 x01].

(** Labelled, encrypting and compressing. *)
Definition exConf : Config.Config := Config.withSecurity "dc1" (Some exRing) true true true (Config.DefaultLANConfig "a").

Definition exRt (c : Config.Config) : XR :=
  mkRuntime (newMemberlist c Guarantees.xhooks) Acks.newAckState [] [] false [] [] [demoNonce; demoNonce] 0.

Definition exPeer : Node := mkNode "b" Guarantees.yaddr 7946 [] 0 1 5 5 0 0 0.
Definition exTo : Acks.Address := Probe.FullAddress exPeer.
Definition exFrom : bytes := bytes_of_string "10.0.0.1:7946".
Definition exAlive : alive := mkAlive 3 "c" Guarantees.yaddr 0 [] [].

Lemma exSendable : sendable exTo (Some exPeer) (exRt exConf).
Proof. split; [done..|vm_compute; done|done|]. intros _. do 2 eexists. split; reflexivity. Qed.

Lemma exCompatible : compatible exConf exConf.
Proof. split; [done..|]. intros _. exists [], [demoKey16 x01]. split; [reflexivity|constructor]. Qed.

(** A user message, which is queued for the packet handler. *)
Lemma packet_delivered_witness :
  exists w ns rt2', rawSendMsgPacket exTo (Some exPeer) [byte_of_Z userMsg; x2a] (exRt exConf) =
      Ok (setSent [(exTo, w)] ns 0 (exRt exConf)) /\
    ingestPacket exEnv 2 w exFrom 5000 (exRt exConf) = Ret rt2' /\
    lowPriorityMsgQueue rt2' = [mkHandoff userMsg [x2a] exFrom].
Proof.
  destruct (handleCommand exEnv 1 [byte_of_Z userMsg; x2a] exFrom 5000 (exRt exConf)) as [rt2'|] eqn:E; [|discriminate E].
  destruct (packet_delivered exEnv exTo (Some exPeer) [byte_of_Z userMsg; x2a] 1 exFrom 5000 (exRt exConf) (exRt exConf) rt2')
    as (w & ns & Hw & Hi); [exact exSendable|exact exCompatible|split; discriminate|exact E|].
  exists w, ns, rt2'. split; [exact Hw|]. split; [exact Hi|]. injection E as <-. reflexivity.
Defined.

Lemma alive_reaches_peer_witness :
  exists msg w ns rt2' h rt3, encode aliveMsg exAlive = Some msg /\
    rawSendMsgPacket exTo (Some exPeer) msg (exRt exConf) = Ok (setSent [(exTo, w)] ns 0 (exRt exConf)) /\
    ingestPacket exEnv 2 w exFrom 5000 (exRt exConf) = Ret rt2' /\ getNextMessage rt2' = Some (h, rt3) /\
    ml rt3 = newMemberlist exConf Guarantees.xhooks.
Proof.
  destruct (encode aliveMsg exAlive) as [msg|] eqn:E; [|discriminate E].
  destruct (alive_reaches_peer exEnv exTo (Some exPeer) exAlive msg exFrom 5000 false 0 6000 (exRt exConf) (exRt exConf)
    exSendable exCompatible E) as (w & ns & rt2' & h & rt3 & Hw & Hi & _ & Hn & Hm & _); [done..|].
  exists msg, w, ns, rt2', h, rt3. split; [reflexivity|]. split_and!; [exact Hw|exact Hi|exact Hn|exact Hm].
Defined.

(** A member with a queue of one broadcast, and the peer known. *)
Definition exSender : XR :=
  setMl (setBroadcasts (Queue.ex2) [] Guarantees.x3) (exRt exConf).

Lemma gossip_packets_fit_witness :
  exists rt' ws, gossip exEnv [0; 0; 0; 0; 0; 0] 5000 exSender = Ret rt' /\ wires rt' = [] ++ ws /\
    Forall (fun p => blen p.2 <= 1405) ws /\ ws <> [].
Proof.
  destruct (gossip_packets_fit exEnv [0; 0; 0; 0; 0; 0] 5000 exSender 1398) as (rt' & ws & Hg & Hw & Hf).
  - exact I.
  - split; [exact Queue.ex2_wf|repeat constructor].
  - vm_compute. reflexivity.
  - lia.
  - exists rt', ws. split_and!; [exact Hg|exact Hw|exact Hf|]. intros ->.
    vm_compute in Hg. injection Hg as <-. discriminate Hw.
Defined.

Definition exPlain : Config.Config := Config.withSecurity "" None true true false (Config.DefaultLANConfig "a").

Lemma checksum_not_counted_witness :
  exists w ns, rawSendMsgPacket exTo (Some exPeer) (replicate 1396 x08) (exRt exPlain) =
      Ok (setSent [(exTo, w)] ns 0 (exRt exPlain)) /\ blen w = 1401.
Proof.
  apply (checksum_not_counted exPeer (replicate 1396 x08) (exRt exPlain) 1398);
    [split; [done..|vm_compute; done|done|done]|reflexivity|reflexivity|done|reflexivity|reflexivity].
Defined.

Lemma packetHandler_drains_witness :
  let rt := setQueues [mkHandoff aliveMsg [x09] exFrom] [mkHandoff userMsg [x09] exFrom] true (exRt exConf) in
  exists rt', packetHandler exEnv (fun _ => (false, 0, 5000)) rt = Ret rt' /\ pendingMsgs rt' = 0%nat /\
    handoffCh rt' = false.
Proof.
  intros rt. apply (packetHandler_drains exEnv (fun _ => (false, 0, 5000)) rt); [reflexivity|].
  apply Forall_cons; split; [|apply Forall_cons; split; [|constructor]];
    intros al E; vm_compute in E; discriminate E.
Defined.

End Delivery.
