(* ===== verification/Transport.v ===== *)
(** * Transports (transport.go, logging.go)

    The interfaces [Transport] and [NodeAwareTransport] as records of operations
    on a world [W], the two adapters the library puts around a transport -- the
    shim that forgets node names, the wrapper that puts the label in front -- and
    the choice among them in [newMemberlist]. The theorems relate the adapters to
    the packets [Net] and the streams [Stream] hand to the transport. *)

From Stdlib Require Import ZArith Lia Strings.Byte.
From stdpp Require Import tactics base numbers strings gmap list.
From S2P Require Import Prelude Compound Label Security Queue Config Addr Members Acks Wire Probe Net Delivery.

Local Open Scope Z_scope.
Local Open Scope go_scope.

Module Transport.

Import Label.

Record Packet := mkPacket { Buf : bytes; From : bytes; Timestamp : gotime }.

(** [Address.String]. *)
Definition addressString (a : Acks.Address) : bytes :=
  if bool_decide (Acks.Name a = EmptyString) then Acks.Addr a
  else bytes_of_string (Acks.Name a) ++ bytes_of_string " (" ++ Acks.Addr a ++ bytes_of_string ")".

(** ** Log lines (logging.go)

    A [net.Addr] is its text, [None] for nil; a connection is its remote address. *)

Definition LogAddress (addr : option bytes) : bytes :=
  match addr with
  | None => bytes_of_string "from=<unknown address>"
  | Some a => bytes_of_string "from=" ++ a
  end.

Definition LogStringAddress (addr : bytes) : bytes :=
  if bool_decide (addr = []) then bytes_of_string "from=<unknown address>" else bytes_of_string "from=" ++ addr.

Definition LogConn (remote : option (option bytes)) : bytes :=
  match remote with
  | None => LogAddress None
  | Some addr => LogAddress addr
  end.

(** ** The interfaces *)

Inductive transportErr :=
| ErrNoRoute (to : bytes)
| ErrResolve
| ErrIO (e : string)
| ErrParseAdvertise (ip : bytes)
| ErrNoPrivateIP
| ErrReadPacket (e : string)
| ErrPacketTooShort (from : bytes)
| ErrLabelHeader (e : labelErr).

(** [W] is everything the operations change, [C] a connection; [connWrite] is the
    method [Write] of the connections the transport makes. *)
Record Transport (W C : Type) := mkTransport {
  FinalAdvertiseAddr : bytes -> Z -> W -> res transportErr (bytes * Z);
  WriteTo : bytes -> bytes -> W -> res transportErr gotime * W;
  DialTimeout : bytes -> duration -> W -> res transportErr C * W;
  connWrite : C -> bytes -> W -> option string * W;
  Shutdown : W -> W
}.

Record NodeAwareTransport (W C : Type) := mkNodeAware {
  plain : Transport W C;
  WriteToAddress : bytes -> Acks.Address -> W -> res transportErr gotime * W;
  DialAddressTimeout : Acks.Address -> duration -> W -> res transportErr C * W
}.

Arguments mkTransport {W C}.
Arguments FinalAdvertiseAddr {W C}.
Arguments WriteTo {W C}.
Arguments DialTimeout {W C}.
Arguments connWrite {W C}.
Arguments Shutdown {W C}.
Arguments mkNodeAware {W C}.
Arguments plain {W C}.
Arguments WriteToAddress {W C}.
Arguments DialAddressTimeout {W C}.

Section Adapters.

Context {W C : Type}.

Implicit Types w : W.

(** ** The shim *)

Definition shimNodeAwareTransport (t : Transport W C) : NodeAwareTransport W C :=
  mkNodeAware t (fun b addr => WriteTo t b (Acks.Addr addr)) (fun addr => DialTimeout t (Acks.Addr addr)).

(** ** The label wrapper *)

(** What both writes do: the header, then the write of the wrapped transport. *)
Definition writeLabelled (label : string) (write : bytes -> W -> res transportErr gotime * W) (buf : bytes) w :
    res transportErr gotime * W :=
  match AddLabelHeaderToPacket buf label with
  | Err e => (Err (ErrLabelHeader e), w)
  | Ok buf => write buf w
  end.

(** What both dials do: a header that cannot be written is an error; the
    connection stays open. *)
Definition dialLabelled (label : string) (t : Transport W C) (r : res transportErr C * W) : res transportErr C * W :=
  match r with
  | (Err e, w) => (Err e, w)
  | (Ok conn, w) =>
      match AddLabelHeaderToStream label with
      | Err e => (Err (ErrLabelHeader e), w)
      | Ok [] => (Ok conn, w)
      | Ok header =>
          match connWrite t conn header w with
          | (Some e, w) => (Err (ErrIO e), w)
          | (None, w) => (Ok conn, w)
          end
      end
  end.

Definition labelWrappedTransport (label : string) (t : NodeAwareTransport W C) : NodeAwareTransport W C :=
  let p := plain t in
  mkNodeAware
    (mkTransport (FinalAdvertiseAddr p)
       (fun buf addr => writeLabelled label (fun buf => WriteTo p buf addr) buf)
       (fun addr timeout w => dialLabelled label p (DialTimeout p addr timeout w))
       (connWrite p) (Shutdown p))
    (fun buf addr => writeLabelled label (fun buf => WriteToAddress t buf addr) buf)
    (fun addr timeout w => dialLabelled label p (DialAddressTimeout t addr timeout w)).

(** ** What [newMemberlist] uses

    The configured transport may or may not know node names. *)
Definition nodeAware (t : Transport W C + NodeAwareTransport W C) : NodeAwareTransport W C :=
  match t with
  | inl t => shimNodeAwareTransport t
  | inr t => t
  end.

Definition memberTransport (label : string) (t : Transport W C + NodeAwareTransport W C) : NodeAwareTransport W C :=
  if bool_decide (label = EmptyString) then nodeAware t else labelWrappedTransport label (nodeAware t).

(** ** Lemmas *)

(** Labelling before the wrapped transport or in the wrapper is the same. *)
Lemma memberTransport_write label t buf a w :
  WriteToAddress (memberTransport label t) buf a w =
    match AddLabelHeaderToPacket buf label with
    | Err e => (Err (ErrLabelHeader e), w)
    | Ok buf => WriteToAddress (nodeAware t) buf a w
    end.
Proof.
  unfold memberTransport, AddLabelHeaderToPacket. destruct (bool_decide (label = EmptyString)) eqn:E; [done|].
  simpl. unfold writeLabelled, AddLabelHeaderToPacket. by rewrite E.
Qed.

(** A dialled connection has the header written to it, and nothing else. *)
Lemma memberTransport_dial label t a timeout w conn w1 w2 hdr :
  DialAddressTimeout (nodeAware t) a timeout w = (Ok conn, w1) ->
  AddLabelHeaderToStream label = Ok hdr ->
  (hdr <> [] -> connWrite (plain (nodeAware t)) conn hdr w1 = (None, w2)) -> (hdr = [] -> w2 = w1) ->
  DialAddressTimeout (memberTransport label t) a timeout w = (Ok conn, w2).
Proof.
  intros Hd Hh Hw Hn. unfold memberTransport. destruct (bool_decide (label = EmptyString)) eqn:E.
  - assert (hdr = []) as -> by (unfold AddLabelHeaderToStream in Hh; rewrite E in Hh; by injection Hh).
    by rewrite Hn, Hd.
  - simpl. rewrite Hd. unfold dialLabelled. rewrite Hh. destruct hdr as [|b hdr]; [by rewrite Hn|]. by rewrite Hw.
Qed.

(** Writing a list of packets, each whatever became of the one before. *)
Fixpoint writeAll (t : NodeAwareTransport W C) (ws : list (Acks.Address * bytes)) w : W :=
  match ws with
  | [] => w
  | (a, b) :: ws' => writeAll t ws' (snd (WriteToAddress t b a w))
  end.

Lemma writeAll_app t ws ws' w : writeAll t (ws ++ ws') w = writeAll t ws' (writeAll t ws w).
Proof. revert w. induction ws as [|[a b] ws IH]; intros w; simpl; auto. Qed.

End Adapters.

(** ** Members and their transport *)

Section Member.

Context {T : Type} `{!Queue.BTree Queue.memberlistBroadcast T} `{!Security.AEAD}.
Context `{!Wire.Codec Members.alive, !Wire.Codec Members.suspect, !Wire.Codec Members.dead, !Wire.Codec Wire.compress}.
Context {W C : Type}.

Implicit Types rt : Net.runtime T.

(** What a member has sent so far, as seen by the transport it was given. *)
Definition onWire (t : Transport W C + NodeAwareTransport W C) rt (w : W) : W := writeAll (nodeAware t) (Net.wires rt) w.

(** [Net.WriteToAddress] is the write of the member's own transport: the transport
    it was given sees one more packet, the labelled one. *)
Lemma write_through t a b ns rt rt' w :
  Net.WriteToAddress a b ns rt = Ok rt' ->
  onWire t rt' w = snd (WriteToAddress (memberTransport (Config.Label (Net.conf rt)) t) b a (onWire t rt w)).
Proof.
  unfold Net.WriteToAddress, onWire. rewrite memberTransport_write.
  destruct (AddLabelHeaderToPacket b _) as [buf|e]; [|done]. intros [= <-]. cbn [Net.wires Net.setSent]. by rewrite writeAll_app.
Qed.

End Member.

End Transport.
