(* ===== verification/NetTransport.v ===== *)
(** * The network transport (net_transport.go)

    [NewNetTransport] with its sockets, the choice of the advertised address,
    sending, and [IngestPacket]. The operating system is a parameter: a class of
    the socket calls with the laws the code relies on. The sockets a process has
    opened are a list with an open flag, so that what is closed and what is left
    open can be stated. The listening goroutines and [Shutdown] are in
    [Listeners]. *)

From Stdlib Require Import ZArith Lia Strings.Byte.
From stdpp Require Import tactics base numbers strings gmap list.
From S2P Require Import Prelude Label Config Addr Acks Transport.

Local Open Scope Z_scope.
Local Open Scope go_scope.

Module NetTransport.

Import Label Transport.

Definition udpPacketBufSize : Z := 65536.
Definition udpRecvBufSize : Z := 2 * 1024 * 1024.

Record NetTransportConfig := mkNetConfig { BindAddrs : list bytes; BindPort : Z }.

(** [net.TCPAddr] and [net.UDPAddr]. *)
Record endpoint := mkEndpoint { epIP : bytes; epPort : Z }.

Inductive proto := TCP | UDP.

#[global] Instance proto_eq_decision : EqDecision proto.
Proof. solve_decision. Defined.

(** ** The operating system

    [OS] is its state. [listen] is [net.ListenTCP] and [net.ListenUDP] (a nil
    address is [None]) and gives the local address; [setReadBuffer],
    [sendTo], [dial] and [writeConn] act on a socket or a connection and give the
    error, if there is one; [resolve] is [net.ResolveUDPAddr], [privateIP] is
    [sockaddr.GetPrivateIP]. *)
Class Sockets (OS : Type) := {
  listen : proto -> option bytes -> Z -> OS -> res string endpoint * OS;
  setReadBuffer : nat -> Z -> OS -> option string * OS;
  sendTo : nat -> bytes -> endpoint -> OS -> option string * OS;
  dialTCP : bytes -> duration -> OS -> res string nat * OS;
  writeConn : nat -> bytes -> OS -> option string * OS;
  resolve : bytes -> OS -> option endpoint;
  privateIP : OS -> res string bytes;
  now : OS -> gotime
}.

(** [IP.Equal]. *)
Definition ipEqual (a b : bytes) : bool :=
  bool_decide ((match Config.To4 a with Some x => x | None => a end) = (match Config.To4 b with Some x => x | None => b end)).

(** [IP.IsUnspecified]. *)
Definition isUnspecified (ip : bytes) : bool := Config.allZero (match Config.To4 ip with Some x => x | None => ip end).

(** A given port is the port of the socket, port zero is replaced by one the
    system chooses; a given address is the address of the socket, unless it is
    the wildcard. *)
Class SocketsLaws (OS : Type) `{!Sockets OS} : Prop := {
  listen_port pr ip p s e s' : listen pr ip p s = (Ok e, s') -> p <> 0 -> epPort e = p;
  listen_chosen pr ip s e s' : listen pr ip 0 s = (Ok e, s') -> 0 < epPort e < 65536;
  listen_ip pr ip p s e s' : listen pr (Some ip) p s = (Ok e, s') -> isUnspecified ip = false -> ipEqual (epIP e) ip = true
}.

Section Transport.

Context {OS : Type} `{!Sockets OS}.

(** ** Sockets of the process *)

Record sock := mkSock { skProto : proto; skAddr : endpoint; skOpen : bool }.

Record host := mkHost { sys : OS; socks : list sock }.

Implicit Types h : host.

(** A new socket gets the next number. *)
Definition listenSock (pr : proto) (ip : option bytes) (port : Z) h : res string nat * host :=
  match listen pr ip port (sys h) with
  | (Err e, s) => (Err e, mkHost s (socks h))
  | (Ok ep, s) => (Ok (length (socks h)), mkHost s (socks h ++ [mkSock pr ep true]))
  end.

Definition closeSock (i : nat) h : host :=
  mkHost (sys h) (alter (fun k => mkSock (skProto k) (skAddr k) false) i (socks h)).

(** [Addr()] of a listener. *)
Definition sockAddr (i : nat) h : endpoint :=
  match socks h !! i with Some k => skAddr k | None => mkEndpoint [] 0 end.

(** [setUDPRecvBuf]: halves the size until the system accepts it. *)
Fixpoint recvBufLoop (fuel : nat) (i : nat) (size : Z) (err : option string) h : option string * host :=
  match fuel with
  | O => (err, h)
  | S fuel' =>
      if size >? 0 then
        match setReadBuffer i size (sys h) with
        | (None, s) => (None, mkHost s (socks h))
        | (Some e, s) => recvBufLoop fuel' i (goDiv size 2) (Some e) (mkHost s (socks h))
        end
      else (err, h)
  end.

Definition setUDPRecvBuf (i : nat) h : option string * host := recvBufLoop 23 i udpRecvBufSize None h.

(** ** NewNetTransport *)

Record NetTransport := mkNT {
  config : NetTransportConfig;
  tcpListeners : list nat;
  udpListeners : list nat
}.

Inductive newErr :=
| ErrNoBindAddr
| ErrListenTCP (addr : bytes) (port : Z) (e : string)
| ErrListenUDP (addr : bytes) (port : Z) (e : string)
| ErrResizeBuffer (e : string).

Definition addTCP (i : nat) (t : NetTransport) : NetTransport := mkNT (config t) (tcpListeners t ++ [i]) (udpListeners t).
Definition addUDP (i : nat) (t : NetTransport) : NetTransport := mkNT (config t) (tcpListeners t) (udpListeners t ++ [i]).

(** One turn of the loop over the bind addresses: a TCP and a UDP socket. The
    transport is returned also with an error, for the deferred [Shutdown]. *)
Definition bindOne (addr : bytes) (port : Z) (t : NetTransport) h : option newErr * Z * NetTransport * host :=
  let ip := Addr.ParseIP addr in
  match listenSock TCP ip port h with
  | (Err e, h) => (Some (ErrListenTCP addr port e), port, t, h)
  | (Ok tcpLn, h) =>
      let t := addTCP tcpLn t in
      let port := if port =? 0 then epPort (sockAddr tcpLn h) else port in
      match listenSock UDP ip port h with
      | (Err e, h) => (Some (ErrListenUDP addr port e), port, t, h)
      | (Ok udpLn, h) =>
          match setUDPRecvBuf udpLn h with
          | (Some e, h) => (Some (ErrResizeBuffer e), port, t, h)
          | (None, h) => (None, port, addUDP udpLn t, h)
          end
      end
  end.

Fixpoint bindAll (addrs : list bytes) (port : Z) (t : NetTransport) h : option newErr * NetTransport * host :=
  match addrs with
  | [] => (None, t, h)
  | addr :: addrs' =>
      match bindOne addr port t h with
      | (Some e, _, t, h) => (Some e, t, h)
      | (None, port, t, h) => bindAll addrs' port t h
      end
  end.

(** The sockets [Shutdown] closes. *)
Definition closeAll (t : NetTransport) h : host :=
  foldl (fun h i => closeSock i h) h (tcpListeners t ++ udpListeners t).

(** No goroutine runs before all sockets are there, so the deferred [Shutdown]
    only closes. *)
Definition NewNetTransport (c : NetTransportConfig) h : res newErr NetTransport * host :=
  if bool_decide (BindAddrs c = []) then (Err ErrNoBindAddr, h)
  else
    match bindAll (BindAddrs c) (BindPort c) (mkNT c [] []) h with
    | (Some e, t, h) => (Err e, closeAll t h)
    | (None, t, h) => (Ok t, h)
    end.

(** ** Addresses *)

Definition firstListener (l : list nat) h : outcome endpoint :=
  match l with
  | [] => Panic "index out of range"
  | i :: _ => Ret (sockAddr i h)
  end.

Definition GetAutoBindPort (t : NetTransport) h : outcome Z :=
  let! a := firstListener (tcpListeners t) h in Ret (epPort a).

Definition FinalAdvertiseAddr (t : NetTransport) (ip : bytes) (port : Z) h : outcome (res transportErr (bytes * Z)) :=
  if negb (bool_decide (ip = [])) then
    match Addr.ParseIP ip with
    | None => Ret (Err (ErrParseAdvertise ip))
    | Some a => Ret (Ok (match Config.To4 a with Some ip4 => ip4 | None => a end, port))
    end
  else
    let! addr :=
      match BindAddrs (config t) with
      | [] => Panic "index out of range"
      | bind :: _ =>
          if bool_decide (bind = bytes_of_string "0.0.0.0") then
            match privateIP (sys h) with
            | Err e => Ret (Err (ErrIO e))
            | Ok [] => Ret (Err ErrNoPrivateIP)
            | Ok ip =>
                match Addr.ParseIP ip with
                | None => Ret (Err (ErrParseAdvertise ip))
                | Some a => Ret (Ok a)
                end
            end
          else let! a := firstListener (tcpListeners t) h in Ret (Ok (epIP a))
      end in
    match addr with
    | Err e => Ret (Err e)
    | Ok addr => let! port := GetAutoBindPort t h in Ret (Ok (addr, port))
    end.

(** ** Sending *)

(** [WriteToAddress]; a write to a closed socket is an error. *)
Definition netWriteToAddress (t : NetTransport) (b : bytes) (a : Acks.Address) h : outcome (res transportErr gotime * host) :=
  match resolve (Acks.Addr a) (sys h) with
  | None => Ret (Err ErrResolve, h)
  | Some to =>
      match udpListeners t with
      | [] => Panic "index out of range"
      | i :: _ =>
          match socks h !! i with
          | Some (mkSock _ _ true) =>
              match sendTo i b to (sys h) with
              | (Some e, s) => Ret (Err (ErrIO e), mkHost s (socks h))
              | (None, s) => Ret (Ok (now s), mkHost s (socks h))
              end
          | _ => Ret (Err (ErrIO "use of closed network connection"), h)
          end
      end
  end.

Definition netWriteTo (t : NetTransport) (b addr : bytes) h : outcome (res transportErr gotime * host) :=
  netWriteToAddress t b (Acks.mkAddress addr EmptyString) h.

Definition netDialAddressTimeout (t : NetTransport) (a : Acks.Address) (timeout : duration) h :
    res transportErr nat * host :=
  match dialTCP (Acks.Addr a) timeout (sys h) with
  | (Err e, s) => (Err (ErrIO e), mkHost s (socks h))
  | (Ok c, s) => (Ok c, mkHost s (socks h))
  end.

Definition netDialTimeout (t : NetTransport) (addr : bytes) (timeout : duration) h : res transportErr nat * host :=
  netDialAddressTimeout t (Acks.mkAddress addr EmptyString) timeout h.

(** ** Lemmas *)

Lemma recvBufLoop_socks fuel i size err h : socks (snd (recvBufLoop fuel i size err h)) = socks h.
Proof.
  revert size err h. induction fuel as [|fuel IH]; intros size err h; [done|]. simpl. destruct (size >? 0); [|done].
  destruct (setReadBuffer i size (sys h)) as [[e|] s]; [by rewrite IH|done].
Qed.

Lemma recvBufLoop_S fuel i size err h :
  recvBufLoop (S fuel) i size err h =
    if size >? 0 then
      match setReadBuffer i size (sys h) with
      | (None, s) => (None, mkHost s (socks h))
      | (Some e, s) => recvBufLoop fuel i (goDiv size 2) (Some e) (mkHost s (socks h))
      end
    else (err, h).
Proof. done. Qed.

(** A size below [2^k] is halved at most [k] times: more fuel than 23 makes no
    difference to [setUDPRecvBuf]. *)
Lemma recvBufLoop_fuel k n i size err h :
  0 <= size < 2 ^ Z.of_nat k -> recvBufLoop (S k + n) i size err h = recvBufLoop (S k) i size err h.
Proof.
  revert size err h. induction k as [|k IH]; intros size err h Hs.
  - assert (size = 0) as -> by (simpl in Hs; lia). done.
  - change (S (S k) + n)%nat with (S (S k + n)). rewrite (recvBufLoop_S (S k + n)), (recvBufLoop_S (S k)).
    destruct (size >? 0); [|done]. destruct (setReadBuffer i size (sys h)) as [[e|] s]; [|done].
    apply IH. rewrite Nat2Z.inj_succ, Z.pow_succ_r in Hs by lia. unfold goDiv. rewrite Z.quot_div_nonneg by lia.
    split; [apply Z.div_pos|apply Z.div_lt_upper_bound]; lia.
Qed.

Lemma setUDPRecvBuf_fuel n i h : recvBufLoop (23 + n) i udpRecvBufSize None h = setUDPRecvBuf i h.
Proof. apply (recvBufLoop_fuel 22). vm_compute. by split. Qed.

(** What one turn of the loop does to the sockets and the transport; [k1] and [k2]
    are the new sockets. *)
Definition madeBy (pr : proto) (addr : bytes) (port : Z) (k : sock) : Prop :=
  skProto k = pr /\ skOpen k = true /\
  (exists s s', listen pr (Addr.ParseIP addr) port s = (Ok (skAddr k), s')).

Inductive boundOne (addr : bytes) (port : Z) (t : NetTransport) h : option newErr * Z * NetTransport * host -> Prop :=
| BoundTCPErr e s :
    boundOne addr port t h (Some (ErrListenTCP addr port e), port, t, mkHost s (socks h))
| BoundUDPErr e s port' k1 :
    madeBy TCP addr port k1 -> port' = (if port =? 0 then epPort (skAddr k1) else port) ->
    boundOne addr port t h (Some (ErrListenUDP addr port' e), port', addTCP (length (socks h)) t,
      mkHost s (socks h ++ [k1]))
| BoundBufErr e s port' k1 k2 :
    madeBy TCP addr port k1 -> port' = (if port =? 0 then epPort (skAddr k1) else port) -> madeBy UDP addr port' k2 ->
    boundOne addr port t h (Some (ErrResizeBuffer e), port', addTCP (length (socks h)) t,
      mkHost s (socks h ++ [k1; k2]))
| BoundBoth s port' k1 k2 :
    madeBy TCP addr port k1 -> port' = (if port =? 0 then epPort (skAddr k1) else port) -> madeBy UDP addr port' k2 ->
    boundOne addr port t h (None, port', addUDP (S (length (socks h))) (addTCP (length (socks h)) t),
      mkHost s (socks h ++ [k1; k2])).

Lemma bindOne_spec addr port t h : boundOne addr port t h (bindOne addr port t h).
Proof.
  unfold bindOne, listenSock. destruct (listen TCP (Addr.ParseIP addr) port (sys h)) as [[ep|e] s1] eqn:E1; [|constructor].
  cbn [sys socks]. set (k1 := mkSock TCP ep true). assert (M1 : madeBy TCP addr port k1) by (split_and!; eauto).
  replace (sockAddr _ _) with ep by (unfold sockAddr; simpl; by rewrite lookup_app_r, Nat.sub_diag by done).
  set (port' := if port =? 0 then epPort ep else port).
  destruct (listen UDP (Addr.ParseIP addr) port' s1) as [[ep2|e] s2] eqn:E2; [|by apply BoundUDPErr].
  set (k2 := mkSock UDP ep2 true). assert (M2 : madeBy UDP addr port' k2) by (split_and!; eauto).
  rewrite length_app, Nat.add_1_r. rewrite <- app_assoc. simpl.
  set (h2 := mkHost s2 _). pose proof (recvBufLoop_socks 23 (S (length (socks h))) udpRecvBufSize None h2) as Hs.
  unfold setUDPRecvBuf. destruct (recvBufLoop _ _ _ _ h2) as [[e|] [s3 l3]]; simpl in Hs; subst l3;
    [by apply BoundBufErr with (k1 := k1) (k2 := k2)|by apply BoundBoth with (k1 := k1) (k2 := k2)].
Qed.

(** A listener of the transport: an open socket for one of the bind addresses. *)
Definition bound (pr : proto) (port : Z) h (addr : bytes) (i : nat) : Prop :=
  exists k, socks h !! i = Some k /\ skProto k = pr /\ skOpen k = true /\ epPort (skAddr k) = port /\
    (forall ip, Addr.ParseIP addr = Some ip -> isUnspecified ip = false -> ipEqual (epIP (skAddr k)) ip = true).

Lemma bound_mono pr port h h' addr i : socks h `prefix_of` socks h' -> bound pr port h addr i -> bound pr port h' addr i.
Proof. intros Hp (k & Hk & R). exists k. split; [by eapply prefix_lookup_Some|done]. Qed.

(** ** What an error leaves open *)

Definition listeners (t : NetTransport) : list nat := tcpListeners t ++ udpListeners t.

Definition closedSock (k : sock) : sock := mkSock (skProto k) (skAddr k) false.

Lemma closeAll_lookup t h i :
  socks (closeAll t h) !! i = (if decide (i ∈ listeners t) then closedSock else id) <$> socks h !! i.
Proof.
  unfold closeAll. fold (listeners t). revert h. induction (listeners t) as [|j l IH]; intros h; cbn [foldl].
  - rewrite decide_False by apply not_elem_of_nil. by destruct (socks h !! i).
  - rewrite IH. simpl. destruct (decide (i = j)) as [->|Hij].
    + rewrite list_lookup_alter_eq. rewrite (decide_True (P := j ∈ j :: l)) by set_solver.
      destruct (socks h !! j) as [k|]; simpl; [|done]. by case_decide.
    + rewrite list_lookup_alter_ne by done. destruct (decide (i ∈ l)) as [Hl|Hl].
      * by rewrite decide_True by set_solver.
      * by rewrite decide_False by set_solver.
Qed.

Lemma closeAll_length t h : length (socks (closeAll t h)) = length (socks h).
Proof.
  unfold closeAll. generalize (tcpListeners t ++ udpListeners t) as l. intros l. revert h.
  induction l as [|j l IH]; intros h; cbn [foldl]; [done|]. rewrite IH. simpl. apply length_alter.
Qed.

(** Closing the sockets from number [n] on, [m] of them. *)
Lemma closeAll_range t h l new m :
  socks h = l ++ new -> (m <= length new)%nat ->
  (forall i, i ∈ listeners t <-> (length l <= i < length l + m)%nat) ->
  socks (closeAll t h) = l ++ map closedSock (take m new) ++ drop m new.
Proof.
  intros Hs Hm Hl. apply list_eq. intros i. rewrite closeAll_lookup, Hs.
  destruct (decide (i < length l)%nat) as [Hi|Hi].
  { rewrite !lookup_app_l by done. rewrite decide_False by (rewrite Hl; lia). by destruct (l !! i). }
  rewrite !lookup_app_r by lia. destruct (decide (i - length l < m)%nat) as [Hj|Hj].
  - rewrite decide_True by (rewrite Hl; lia). rewrite lookup_app_l by (rewrite length_map, length_take; lia).
    rewrite list_lookup_fmap, lookup_take_lt by done. done.
  - rewrite decide_False by (rewrite Hl; lia). rewrite lookup_app_r by (rewrite length_map, length_take; lia).
    rewrite length_map, length_take, lookup_drop, Nat.min_l by done.
    replace (m + (i - length l - m))%nat with (i - length l)%nat by lia. by destruct (new !! _).
Qed.

Lemma map_closed l : Forall (fun k => skOpen k = false) (map closedSock l).
Proof. induction l; constructor; done. Qed.

(** With an error the transport knows all the new sockets, but for the UDP socket
    whose buffer could not be resized. *)
Definition known (e : newErr) (new : list sock) : Prop :=
  match e with
  | ErrResizeBuffer _ => exists front k, new = front ++ [k] /\ skProto k = UDP /\ skOpen k = true
  | _ => True
  end.

Definition knownLen (e : newErr) (new : list sock) : nat :=
  match e with ErrResizeBuffer _ => pred (length new) | _ => length new end.

Local Ltac new_listeners i :=
  match goal with |- context [length ?l] =>
    set_unfold; destruct (decide (i = length l)), (decide (i = S (length l))); intuition lia end.

Lemma bindAll_err addrs port t h e t' h' :
  bindAll addrs port t h = (Some e, t', h') ->
  exists new, socks h' = socks h ++ new /\ known e new /\
    forall i, i ∈ listeners t' <-> i ∈ listeners t \/ (length (socks h) <= i < length (socks h) + knownLen e new)%nat.
Proof.
  revert port t h. induction addrs as [|addr addrs IH]; intros port t h; cbn [bindAll]; [done|].
  destruct (bindOne_spec addr port t h) as [e1 s|e1 s q k1 _ _|e1 s q k1 k2 _ _ M2|s q k1 k2 _ _ _].
  - intros [= <- <- <-]. exists []. rewrite app_nil_r. split_and!; [done..|]. simpl. intros i. split; [auto|]. intros [|]; [done|lia].
  - intros [= <- <- <-]. exists [k1]. split_and!; [done..|]. intros i. unfold listeners. simpl. new_listeners i.
  - intros [= <- <- <-]. exists [k1; k2]. split_and!; [done|by exists [k1], k2; destruct M2 as (? & ? & ?)|].
    intros i. unfold listeners. simpl. new_listeners i.
  - intros (new & Hs & Hk & Hl)%IH. exists (k1 :: k2 :: new). simpl in Hs. rewrite <- app_assoc in Hs.
    assert (Hkl : knownLen e (k1 :: k2 :: new) = S (S (knownLen e new))).
    { destruct e; try done. destruct Hk as (front & k & -> & _). simpl. rewrite length_app. simpl. lia. }
    split_and!; [done| |].
    + destruct e; try done. destruct Hk as (front & k & -> & Hk). by exists (k1 :: k2 :: front), k.
    + intros i. rewrite Hl. simpl. rewrite length_app, Hkl. unfold listeners. simpl. new_listeners i.
Qed.

Context `{!SocketsLaws OS}.

Lemma madeBy_bound pr addr port p h i k :
  socks h !! i = Some k -> madeBy pr addr port k -> p = (if port =? 0 then epPort (skAddr k) else port) ->
  bound pr p h addr i.
Proof.
  intros Hk (Hpr & Ho & s & s' & Hl) ->. exists k. split_and!; [done..| |].
  - destruct (Z.eqb_spec port 0) as [->|Hn]; [done|]. by eapply listen_port.
  - intros ip Hip Hu. rewrite Hip in Hl. by eapply listen_ip.
Qed.

(** The port after a turn of the loop is not zero again. *)
Lemma madeBy_port pr addr port k : madeBy pr addr port k ->
  (if port =? 0 then epPort (skAddr k) else port) <> 0 /\ (port = 0 -> 0 < epPort (skAddr k) < 65536).
Proof.
  intros (_ & _ & s & s' & Hl). destruct (Z.eqb_spec port 0) as [->|Hn]; [|done].
  apply listen_chosen in Hl. lia.
Qed.

(** A successful run of the loop; [p] is the port all listeners use. *)
Record boundAll (addrs : list bytes) (p : Z) (t : NetTransport) h (t' : NetTransport) (h' : host)
    (tl ul : list nat) : Prop := {
  ba_prefix : socks h `prefix_of` socks h';
  ba_config : config t' = config t;
  ba_tcp : tcpListeners t' = tcpListeners t ++ tl;
  ba_udp : udpListeners t' = udpListeners t ++ ul;
  ba_tcp_bound : Forall2 (bound TCP p h') addrs tl;
  ba_udp_bound : Forall2 (bound UDP p h') addrs ul;
  ba_new : forall i, i ∈ tl ++ ul -> (length (socks h) <= i)%nat;
  ba_nodup : NoDup (tl ++ ul)
}.

Lemma boundAll_cons addr addrs port p t h s k1 k2 t' h' tl ul :
  let n := length (socks h) in
  madeBy TCP addr port k1 -> p = (if port =? 0 then epPort (skAddr k1) else port) -> p <> 0 -> madeBy UDP addr p k2 ->
  boundAll addrs p (addUDP (S n) (addTCP n t)) (mkHost s (socks h ++ [k1; k2])) t' h' tl ul ->
  boundAll (addr :: addrs) p t h t' h' (n :: tl) (S n :: ul).
Proof.
  intros n M1 Ep Hp M2 [B1 B2 B3 B4 B5 B6 B7 B8]. simpl in B1, B2, B3, B4, B7. rewrite length_app in B7. simpl in B7.
  set (h1 := mkHost s (socks h ++ [k1; k2])) in *.
  assert (Hk1 : socks h1 !! n = Some k1) by (simpl; by rewrite lookup_app_r, Nat.sub_diag).
  assert (Hk2 : socks h1 !! S n = Some k2)
    by (simpl; rewrite lookup_app_r by lia; unfold n; by rewrite Nat.sub_succ_l, Nat.sub_diag by lia).
  split; [|done|..].
  - etrans; [by apply prefix_app_r|done].
  - by rewrite B3, <- app_assoc.
  - by rewrite B4, <- app_assoc.
  - constructor; [|done]. apply (bound_mono _ _ h1); [done|]. by eapply madeBy_bound.
  - constructor; [|done]. apply (bound_mono _ _ h1); [done|]. eapply madeBy_bound; [done..|]. by destruct (Z.eqb_spec p 0).
  - intros i [[->|Hi]%elem_of_cons|[->|Hi]%elem_of_cons]%elem_of_app; [lia| |lia|];
      (assert (i ∈ tl ++ ul) as Hi'%B7 by (apply elem_of_app; auto)); lia.
  - rewrite <- Permutation_middle. simpl. repeat constructor; [..|done].
    + intros [|Hi%B7]%elem_of_cons; lia.
    + intros Hi%B7. lia.
Qed.

Lemma bindAll_ok addrs port t h t' h' :
  port <> 0 -> bindAll addrs port t h = (None, t', h') -> exists tl ul, boundAll addrs port t h t' h' tl ul.
Proof.
  intros Hp. revert t h. induction addrs as [|addr addrs IH]; intros t h; cbn [bindAll].
  - intros [= <- <-]. exists [], []. split; rewrite ?app_nil_r; try done; [constructor..|set_solver|constructor].
  - destruct (bindOne_spec addr port t h) as [e s|e s q k1 _ _|e s q k1 k2 _ _ _|s p k1 k2 M1 Ep M2];
      [intros Hb; discriminate Hb..|].
    assert (p = port) as -> by (subst p; by destruct (Z.eqb_spec port 0)).
    intros (tl & ul & B)%IH. do 2 eexists. by eapply boundAll_cons.
Qed.

(** From any port: zero becomes the port the system chose for the first socket. *)
Lemma bindAll_any addrs port t h t' h' :
  addrs <> [] -> bindAll addrs port t h = (None, t', h') ->
  exists p tl ul, boundAll addrs p t h t' h' tl ul /\ (if port =? 0 then 0 < p < 65536 else p = port).
Proof.
  destruct addrs as [|addr addrs]; [done|]. intros _. cbn [bindAll].
  destruct (bindOne_spec addr port t h) as [e s|e s q k1 _ _|e s q k1 k2 _ _ _|s p k1 k2 M1 Ep M2];
    [intros Hb; discriminate Hb..|].
  destruct (madeBy_port _ _ _ _ M1) as [Hp Hr]. rewrite <- Ep in Hp. intros (tl & ul & B)%bindAll_ok; [|done].
  do 3 eexists. split; [by eapply boundAll_cons|]. subst p. destruct (Z.eqb_spec port 0) as [->|]; [by apply Hr|done].
Qed.

Lemma bound_addr pr p h addr i : bound pr p h addr i -> epPort (sockAddr i h) = p.
Proof. intros (k & Hk & _ & _ & Hp & _). unfold sockAddr. by rewrite Hk. Qed.

(** ** Theorems *)

(** What a new transport has: one open TCP and one open UDP socket for each bind
    address, all different, all on the port [p]. *)
Record serves (c : NetTransportConfig) (p : Z) (t : NetTransport) h : Prop := {
  sv_config : config t = c;
  sv_nonempty : BindAddrs c <> [];
  sv_port : if BindPort c =? 0 then 0 < p < 65536 else p = BindPort c;
  sv_tcp : Forall2 (bound TCP p h) (BindAddrs c) (tcpListeners t);
  sv_udp : Forall2 (bound UDP p h) (BindAddrs c) (udpListeners t);
  sv_nodup : NoDup (listeners t)
}.

Lemma serves_auto_port c p t h : serves c p t h -> GetAutoBindPort t h = Ret p.
Proof.
  intros [_ Hne _ Ht _ _]. unfold GetAutoBindPort, firstListener.
  destruct Ht as [|addr i addrs tl Hb _]; [done|]. simpl. by rewrite (bound_addr _ _ _ _ _ Hb).
Qed.

Lemma NewNetTransport_serves c h t h' :
  NewNetTransport c h = (Ok t, h') -> exists p, serves c p t h' /\ socks h `prefix_of` socks h'.
Proof.
  unfold NewNetTransport. destruct (bool_decide (BindAddrs c = [])) eqn:E; [done|]. zify_bool.
  destruct (bindAll _ _ _ h) as [[[e|] t1] h1] eqn:Eb; [done|]. intros [= <- <-].
  destruct (bindAll_any _ _ _ _ _ _ E Eb) as (p & tl & ul & [B1 B2 B3 B4 B5 B6 _ B8] & Hp).
  exists p. split; [|done]. simpl in B3, B4. split; try done; [by rewrite B3|by rewrite B4|unfold listeners; by rewrite B3, B4].
Qed.

(** A new transport listens where it was told to. If [NewNetTransport] returns a
    transport, every bind address has an open TCP and an open UDP socket of its
    own, all of them on one port -- the configured one or, for port zero, one the
    system chose, which is what [GetAutoBindPort] reports -- and no socket that
    was there before is touched. *)
Theorem new_transport_listens c h t h' (Hn : NewNetTransport c h = (Ok t, h')) :
  exists p, serves c p t h' /\ GetAutoBindPort t h' = Ret p /\ socks h `prefix_of` socks h'.
Proof. destruct (NewNetTransport_serves _ _ _ _ Hn) as (p & Hs & Hp). eauto using serves_auto_port. Qed.

(** C34: A transport that fails cleans up, with one exception: after an error
    every socket that was opened is closed again, but if the receive buffer of a
    UDP socket could not be resized, this one socket stays open. Older sockets
    keep their state. *)
Theorem new_transport_cleans_up c h e h' (Hn : NewNetTransport c h = (Err e, h')) :
  exists new, socks h' = socks h ++ new /\
    match e with
    | ErrResizeBuffer _ =>
        exists front k, new = front ++ [k] /\ Forall (fun k => skOpen k = false) front /\
          skProto k = UDP /\ skOpen k = true
    | _ => Forall (fun k => skOpen k = false) new
    end.
Proof.
  unfold NewNetTransport in Hn. destruct (bool_decide (BindAddrs c = [])).
  { injection Hn as <- <-. exists []. by rewrite app_nil_r. }
  destruct (bindAll _ _ _ h) as [[[e1|] t1] h1] eqn:Eb; [|discriminate Hn]. injection Hn as <- <-.
  destruct (bindAll_err _ _ _ _ _ _ _ Eb) as (new & Hs & Hk & Hl).
  assert (Hm : (knownLen e1 new <= length new)%nat) by (destruct e1; simpl; lia).
  rewrite (closeAll_range t1 h1 (socks h) new (knownLen e1 new) Hs Hm) by (intros i; rewrite Hl; set_solver).
  eexists. split; [done|]. destruct e1; simpl; rewrite ?firstn_all, ?drop_all, ?app_nil_r; try apply map_closed.
  destruct Hk as (front & k & -> & Hk). rewrite length_app, Nat.add_1_r. simpl. rewrite take_app_length, drop_app_length.
  exists (map closedSock front), k. split; [done|]. split; [apply map_closed|done].
Qed.

End Transport.

Arguments host : clear implicits.

(** ** Ingestion

    [io.Copy] reads a connection to its end. [IngestPacket] of both transports: the
    packet to put on the channel, and whether the connection was closed. The
    address is not nil. *)
Definition copyAll (c : conn) : res string bytes :=
  match final c with
  | EOF => Ok (pending c)
  | OtherErr e => Err e
  end.

Definition IngestPacket (c : conn) (addr : bytes) (now : gotime) (shouldClose : bool) :
    res transportErr Packet * bool :=
  (match copyAll c with
   | Err e => Err (ErrReadPacket e)
   | Ok buf => if blen buf <? 1 then Err (ErrPacketTooShort (LogAddress (Some addr)))
               else Ok (mkPacket buf addr now)
   end, shouldClose).

(** ** Witnesses *)

(** A small system: it knows the addresses that are taken, chooses from 49152 on, and
    does not allow receive buffers above one megabyte. *)
Definition wildcard : bytes := replicate 16 "000"%byte.

#[local] Instance toyOS : Sockets (list (proto * option bytes * Z)) := {
  listen pr ip p s :=
    let p := if p =? 0 then 49152 + Z.of_nat (length s) mod 16384 else p in
    if bool_decide ((pr, ip, p) ∈ s) then (Err "address already in use", s)
    else (Ok (mkEndpoint (match ip with Some ip => ip | None => wildcard end) p), (pr, ip, p) :: s);
  setReadBuffer i size s := (if size <=? 1048576 then None else Some "too large", s);
  sendTo i b to s := (None, s);
  dialTCP addr timeout s := (Err "connection refused", s);
  writeConn c b s := (None, s);
  resolve addr s := None;
  privateIP s := Ok (bytes_of_string "10.0.0.9");
  now s := 0
}.

#[local] Instance toyOS_laws : SocketsLaws (list (proto * option bytes * Z)).
Proof.
  split.
  - intros pr ip p s e s'. simpl. case_bool_decide; [done|]. intros [= <- _] Hp. simpl. by destruct (Z.eqb_spec p 0).
  - intros pr ip s e s'. simpl. case_bool_decide; [done|]. intros [= <- _]. simpl.
    pose proof (Z.mod_pos_bound (Z.of_nat (length s)) 16384 ltac:(lia)). lia.
  - intros pr ip p s e s'. simpl. case_bool_decide; [done|]. intros [= <- _] _. simpl. unfold ipEqual. by apply bool_decide_eq_true_2.
Qed.

Definition exHost : host (list (proto * option bytes * Z)) := mkHost [] [].

Definition exNet (port : Z) (addrs : list string) : NetTransportConfig := mkNetConfig (map bytes_of_string addrs) port.

(** Two addresses, and a port the system chooses. *)
Lemma new_transport_listens_witness :
  exists t h', NewNetTransport (exNet 0 ["10.0.0.1"; "::1"]) exHost = (Ok t, h') /\ GetAutoBindPort t h' = Ret 49152 /\
    length (tcpListeners t) = 2%nat.
Proof.
  destruct (NewNetTransport (exNet 0 ["10.0.0.1"; "::1"]) exHost) as [[t|e] h'] eqn:E; [|vm_compute in E; discriminate E].
  destruct (new_transport_listens _ _ _ _ E) as (p & Hs & Hp & _). exists t, h'. split; [reflexivity|].
  vm_compute in E. injection E as <- <-. split; reflexivity.
Defined.

(** The second address finds the port taken. *)
Lemma new_transport_cleans_up_witness :
  exists e h', NewNetTransport (exNet 7946 ["10.0.0.1"; "10.0.0.1"]) exHost = (Err e, h') /\
    length (socks h') = 2%nat /\ Forall (fun k => skOpen k = false) (socks h').
Proof.
  destruct (NewNetTransport (exNet 7946 ["10.0.0.1"; "10.0.0.1"]) exHost) as [[t|e] h'] eqn:E; [vm_compute in E; discriminate E|].
  destruct (new_transport_cleans_up _ _ _ _ E) as (new & Hs & Hc). exists e, h'. split; [reflexivity|].
  vm_compute in E. injection E as <- <-. split; [reflexivity|]. rewrite Hs. exact Hc.
Defined.

End NetTransport.
