(* ===== verification/Listeners.v ===== *)
(** * Listening and shutting down (net_transport.go, memberlist.go, net.go)

    The goroutines around the transport's channels, as a step relation: one
    [tcpListen] and one [udpListen] for each bind address, which hand connections
    and packets over unbuffered channels; [streamListen] and [packetListen], which
    take them until [shutdownCh] is closed; and a caller of [Memberlist.Shutdown],
    which shuts down the transport first. A goroutine that sends on an unbuffered
    channel waits until the other side receives. *)

From Stdlib Require Import ZArith Lia Strings.Byte.
From stdpp Require Import tactics base numbers strings gmap list relations.
From S2P Require Import Prelude Transport NetTransport.

Local Open Scope Z_scope.

Module Listeners.

Import Transport NetTransport.

Definition baseDelay : duration := 5 * nsMillisecond.
Definition maxDelay : duration := 1 * nsSecond.

(** The delay after a failed [AcceptTCP]. *)
Definition nextDelay (loopDelay : duration) : duration :=
  let loopDelay := if loopDelay =? 0 then baseDelay else i64 (loopDelay * 2) in
  if loopDelay >? maxDelay then maxDelay else loopDelay.

Section Listeners.

Context {C : Type}.

(** ** The goroutines *)

(** Where [tcpListen] is: in [AcceptTCP], sending to [streamCh], in [time.Sleep], or
    returned. *)
Inductive tcpPc :=
| TAccept (loopDelay : duration)
| TSend (c : C)
| TSleep (loopDelay : duration)
| TDone.

(** The rest of the loop after [AcceptTCP]; [None] is an error. *)
Definition tcpListen (shutdown : bool) (loopDelay : duration) (r : option C) : tcpPc :=
  match r with
  | None => if shutdown then TDone else TSleep (nextDelay loopDelay)
  | Some c => TSend c
  end.

(** After the hand-over, and after the sleep. *)
Definition tcpResume (pc : tcpPc) : tcpPc :=
  match pc with
  | TSend _ => TAccept 0
  | TSleep d => TAccept d
  | pc => pc
  end.

Inductive udpPc :=
| URead
| USend (p : Packet)
| UDone.

(** The rest of the loop after [ReadFrom] into a buffer of [udpPacketBufSize]: the
    data of the datagram and its sender, or an error. *)
Definition udpListen (shutdown : bool) (r : option (bytes * bytes)) (ts : gotime) : udpPc :=
  match r with
  | None => if shutdown then UDone else URead
  | Some (data, addr) =>
      let buf := take (Z.to_nat udpPacketBufSize) data in
      if blen buf <? 1 then URead else USend (mkPacket buf addr ts)
  end.

(** ** The state

    A listener is its socket (open or closed) and its goroutine. [streams] and
    [packets] are what the channels delivered, with the listener it came from;
    [accepted] and [received] what the sockets gave; [logged] counts the errors
    that were logged. *)
Inductive shutPc :=
| Running
| Closing (i : nat)
| TransportDown
| Finished.

Record state := mkState {
  flag : bool;
  tcp : list (bool * tcpPc);
  udp : list (bool * udpPc);
  readers : bool;
  pc : shutPc;
  accepted : list (nat * C);
  streams : list (nat * C);
  received : list (nat * Packet);
  packets : list (nat * Packet);
  logged : nat
}.

Implicit Types s : state.

Definition setTcp i l s : state :=
  mkState (flag s) (<[i := l]> (tcp s)) (udp s) (readers s) (pc s) (accepted s) (streams s) (received s) (packets s) (logged s).

Definition setUdp i l s : state :=
  mkState (flag s) (tcp s) (<[i := l]> (udp s)) (readers s) (pc s) (accepted s) (streams s) (received s) (packets s) (logged s).

Definition setPc p s : state :=
  mkState (flag s) (tcp s) (udp s) (readers s) p (accepted s) (streams s) (received s) (packets s) (logged s).

Definition addAccepted x s : state :=
  mkState (flag s) (tcp s) (udp s) (readers s) (pc s) (accepted s ++ [x]) (streams s) (received s) (packets s) (logged s).

Definition addStream x s : state :=
  mkState (flag s) (tcp s) (udp s) (readers s) (pc s) (accepted s) (streams s ++ [x]) (received s) (packets s) (logged s).

Definition addReceived x s : state :=
  mkState (flag s) (tcp s) (udp s) (readers s) (pc s) (accepted s) (streams s) (received s ++ [x]) (packets s) (logged s).

Definition addPacket x s : state :=
  mkState (flag s) (tcp s) (udp s) (readers s) (pc s) (accepted s) (streams s) (received s) (packets s ++ [x]) (logged s).

Definition addLogged (b : bool) s : state :=
  mkState (flag s) (tcp s) (udp s) (readers s) (pc s) (accepted s) (streams s) (received s) (packets s)
    (if b then S (logged s) else logged s).

(** The first action of [NetTransport.Shutdown]. *)
Definition storeShutdown s : state :=
  mkState true (tcp s) (udp s) (readers s) (Closing 0) (accepted s) (streams s) (received s) (packets s) (logged s).

(** [Close] on the [i]-th listener, TCP first. *)
Definition closeListener (i : nat) s : state :=
  if decide (i < length (tcp s))%nat
  then mkState (flag s) (alter (fun l => (false, snd l)) i (tcp s)) (udp s) (readers s) (pc s) (accepted s) (streams s)
         (received s) (packets s) (logged s)
  else mkState (flag s) (tcp s) (alter (fun l => (false, snd l)) (i - length (tcp s))%nat (udp s)) (readers s) (pc s)
         (accepted s) (streams s) (received s) (packets s) (logged s).

Definition numListeners s : nat := length (tcp s) + length (udp s).

(** [wg.Wait] returns when all goroutines have returned. *)
Definition allDone s : Prop := Forall (fun l => snd l = TDone) (tcp s) /\ Forall (fun l => snd l = UDone) (udp s).

(** The rest of [Memberlist.Shutdown] after the transport: [shutdownCh] is closed
    and the readers stop. *)
Definition closeShutdownCh s : state :=
  mkState (flag s) (tcp s) (udp s) false Finished (accepted s) (streams s) (received s) (packets s) (logged s).

(** ** Steps

    An accept or a read gives an error at any time, and always on a closed socket. *)
Inductive step s : state -> Prop :=
| StepAccept i d c :
    tcp s !! i = Some (true, TAccept d) ->
    step s (addAccepted (i, c) (setTcp i (true, tcpListen (flag s) d (Some c)) s))
| StepAcceptErr i o d :
    tcp s !! i = Some (o, TAccept d) ->
    step s (addLogged (negb (flag s)) (setTcp i (o, tcpListen (flag s) d None) s))
| StepWake i o d :
    tcp s !! i = Some (o, TSleep d) ->
    step s (setTcp i (o, tcpResume (TSleep d)) s)
| StepStream i o c :
    tcp s !! i = Some (o, TSend c) -> readers s = true ->
    step s (addStream (i, c) (setTcp i (o, tcpResume (TSend c)) s))
| StepRead i data addr ts p :
    udp s !! i = Some (true, URead) -> udpListen (flag s) (Some (data, addr)) ts = USend p ->
    step s (addReceived (i, p) (setUdp i (true, USend p) s))
| StepShort i data addr ts :
    udp s !! i = Some (true, URead) -> udpListen (flag s) (Some (data, addr)) ts = URead ->
    step s (addLogged true s)
| StepReadErr i o ts :
    udp s !! i = Some (o, URead) ->
    step s (addLogged (negb (flag s)) (setUdp i (o, udpListen (flag s) None ts) s))
| StepPacket i o p :
    udp s !! i = Some (o, USend p) -> readers s = true ->
    step s (addPacket (i, p) (setUdp i (o, URead) s))
| StepShutdown :
    pc s = Running -> step s (storeShutdown s)
| StepClose i :
    pc s = Closing i -> (i < numListeners s)%nat -> step s (setPc (Closing (S i)) (closeListener i s))
| StepWait :
    pc s = Closing (numListeners s) -> allDone s -> step s (setPc TransportDown s)
| StepFinish :
    pc s = TransportDown -> step s (closeShutdownCh s).

(** [n] bind addresses, just started. *)
Definition started (n : nat) : state :=
  mkState false (replicate n (true, TAccept 0)) (replicate n (true, URead)) true Running [] [] [] [] 0.

Definition reachable (n : nat) s : Prop := rtc step (started n) s.

(** ** The invariant *)

(** What a listener has in its hands. *)
Definition inHand {A} (i : nat) (o : option A) : list (nat * A) := match o with Some x => [(i, x)] | None => [] end.

Definition sendingT (l : bool * tcpPc) : option C := match snd l with TSend c => Some c | _ => None end.
Definition sendingU (l : bool * udpPc) : option Packet := match snd l with USend p => Some p | _ => None end.

(** The entries of a log that come from listener [i]. *)
Definition from {A} (i : nat) (l : list (nat * A)) : list (nat * A) := filter (fun x => fst x = i) l.

(** Everything a socket gave was handed over in order, but for what the goroutine
    is still sending. *)
Definition accounted {L A} (sending : L -> option A) (ls : list L) (got out : list (nat * A)) : Prop :=
  forall i, from i got = from i out ++ match ls !! i with Some l => inHand i (sending l) | None => [] end.

(** How far [Shutdown] has come: the listeners below [i] are closed. *)
Definition closedTo s : nat :=
  match pc s with Running => 0 | Closing i => i | TransportDown | Finished => numListeners s end.

Record inv s : Prop := {
  inv_tcp_flag i l : tcp s !! i = Some l -> fst l = false \/ snd l = TDone -> flag s = true;
  inv_udp_flag i l : udp s !! i = Some l -> fst l = false \/ snd l = UDone -> flag s = true;
  inv_flag : pc s <> Running -> flag s = true;
  inv_tcp_closed i l : tcp s !! i = Some l -> (i < closedTo s)%nat -> fst l = false;
  inv_udp_closed i l : udp s !! i = Some l -> (length (tcp s) + i < closedTo s)%nat -> fst l = false;
  inv_closing i : pc s = Closing i -> (i <= numListeners s)%nat;
  inv_readers : pc s <> Finished -> readers s = true;
  inv_done : pc s = TransportDown \/ pc s = Finished -> allDone s;
  inv_streams : accounted sendingT (tcp s) (accepted s) (streams s);
  inv_packets : accounted sendingU (udp s) (received s) (packets s)
}.

Lemma inv_started n : inv (started n).
Proof.
  split; simpl; try done.
  - intros i l [-> _]%lookup_replicate [H|H]; discriminate H.
  - intros i l [-> _]%lookup_replicate [H|H]; discriminate H.
  - intros i l _ Hi. unfold closedTo in Hi. simpl in Hi. lia.
  - intros i l _ Hi. unfold closedTo in Hi. simpl in Hi. lia.
  - by intros [H|H].
  - intros i. simpl. destruct (replicate n _ !! i) as [l|] eqn:E; [|done]. by apply lookup_replicate in E as [-> _].
  - intros i. simpl. destruct (replicate n _ !! i) as [l|] eqn:E; [|done]. by apply lookup_replicate in E as [-> _].
Qed.

Lemma from_app {A} i (l k : list (nat * A)) : from i (l ++ k) = from i l ++ from i k.
Proof. apply filter_app. Qed.

Lemma from_one {A} i j (x : A) : from i [(j, x)] = if decide (j = i) then [(j, x)] else [].
Proof. unfold from. rewrite filter_cons. simpl. by repeat case_decide. Qed.

Section Accounted.

Context {L A : Type} (sending : L -> option A).

Lemma accounted_ext ls ls' got out :
  (forall i, sending <$> ls' !! i = sending <$> ls !! i) -> accounted sending ls got out -> accounted sending ls' got out.
Proof.
  intros He Ha i. rewrite (Ha i). f_equal. specialize (He i).
  destruct (ls !! i), (ls' !! i); simplify_eq/=; congruence.
Qed.

Lemma accounted_same ls i l l' got out :
  ls !! i = Some l -> sending l' = sending l -> accounted sending ls got out -> accounted sending (<[i := l']> ls) got out.
Proof.
  intros Hl He. apply accounted_ext. intros j. destruct (decide (i = j)) as [<-|Hij].
  - rewrite list_lookup_insert_eq by (by eapply lookup_lt_Some). rewrite Hl. simpl. by rewrite He.
  - by rewrite list_lookup_insert_ne.
Qed.

Lemma accounted_take ls i l l' x got out :
  ls !! i = Some l -> sending l = None -> sending l' = Some x -> accounted sending ls got out ->
  accounted sending (<[i := l']> ls) (got ++ [(i, x)]) out.
Proof.
  intros Hl Hn Hs Ha j. rewrite from_app, (Ha j), from_one. destruct (decide (i = j)) as [<-|Hij].
  - rewrite list_lookup_insert_eq by (by eapply lookup_lt_Some). rewrite Hl, Hn, Hs. simpl. by rewrite app_nil_r.
  - rewrite list_lookup_insert_ne by done. by rewrite app_nil_r.
Qed.

Lemma accounted_out ls i l l' x got out :
  ls !! i = Some l -> sending l = Some x -> sending l' = None -> accounted sending ls got out ->
  accounted sending (<[i := l']> ls) got (out ++ [(i, x)]).
Proof.
  intros Hl Hs Hn Ha j. rewrite from_app, (Ha j), from_one. destruct (decide (i = j)) as [<-|Hij].
  - rewrite list_lookup_insert_eq by (by eapply lookup_lt_Some). rewrite Hl, Hn, Hs. simpl. by rewrite app_nil_r.
  - rewrite list_lookup_insert_ne by done. by rewrite app_nil_r.
Qed.

End Accounted.

(** A step of one goroutine. *)
Lemma inv_tcp_step i o p p' got out lg s :
  inv s -> tcp s !! i = Some (o, p) -> p <> TDone -> (p' = TDone -> flag s = true) ->
  accounted sendingT (<[i := (o, p')]> (tcp s)) got out ->
  inv (mkState (flag s) (<[i := (o, p')]> (tcp s)) (udp s) (readers s) (pc s) got out (received s) (packets s) lg).
Proof.
  intros [I1 I2 I3 I4 I5 I6 I7 I8 I9 I10] Hi Hp Hp' Ha.
  split; simpl; try done; unfold closedTo, numListeners in *; simpl; rewrite ?length_insert; try done.
  - intros j l Hj. destruct (decide (i = j)) as [<-|]; [|rewrite list_lookup_insert_ne in Hj by done; by apply (I1 j)].
    rewrite list_lookup_insert_eq in Hj by (by eapply lookup_lt_Some). injection Hj as <-. simpl. intros [->|]; [|by apply Hp'].
    apply (I1 i (false, p)); auto.
  - intros j l Hj Hc. destruct (decide (i = j)) as [<-|]; [|rewrite list_lookup_insert_ne in Hj by done; by apply (I4 j)].
    rewrite list_lookup_insert_eq in Hj by (by eapply lookup_lt_Some). injection Hj as <-. simpl. by apply (I4 i (o, p)).
  - intros Hd. destruct (I8 Hd) as [Ht _]. eapply Forall_lookup_1 in Ht; [|done]. done.
Qed.

Lemma inv_udp_step i o p p' got out lg s :
  inv s -> udp s !! i = Some (o, p) -> p <> UDone -> (p' = UDone -> flag s = true) ->
  accounted sendingU (<[i := (o, p')]> (udp s)) got out ->
  inv (mkState (flag s) (tcp s) (<[i := (o, p')]> (udp s)) (readers s) (pc s) (accepted s) (streams s) got out lg).
Proof.
  intros [I1 I2 I3 I4 I5 I6 I7 I8 I9 I10] Hi Hp Hp' Ha.
  split; simpl; try done; unfold closedTo, numListeners in *; simpl; rewrite ?length_insert; try done.
  - intros j l Hj. destruct (decide (i = j)) as [<-|]; [|rewrite list_lookup_insert_ne in Hj by done; by apply (I2 j)].
    rewrite list_lookup_insert_eq in Hj by (by eapply lookup_lt_Some). injection Hj as <-. simpl. intros [->|]; [|by apply Hp'].
    apply (I2 i (false, p)); auto.
  - intros j l Hj Hc. destruct (decide (i = j)) as [<-|]; [|rewrite list_lookup_insert_ne in Hj by done; by apply (I5 j)].
    rewrite list_lookup_insert_eq in Hj by (by eapply lookup_lt_Some). injection Hj as <-. simpl. by apply (I5 i (o, p)).
  - intros Hd. destruct (I8 Hd) as [_ Hu]. eapply Forall_lookup_1 in Hu; [|done]. done.
Qed.

(** Closing a socket leaves its goroutine where it is. *)
Lemma close_lookup {P} (ls : list (bool * P)) i j l :
  alter (fun l => (false, snd l)) i ls !! j = Some l ->
  exists l0, ls !! j = Some l0 /\ snd l = snd l0 /\ (fst l = false \/ (j <> i /\ l = l0)).
Proof.
  destruct (decide (i = j)) as [<-|Hij].
  - rewrite list_lookup_alter_eq. destruct (ls !! i) as [l0|]; [|done]. intros [= <-]. exists l0. auto.
  - rewrite list_lookup_alter_ne by done. intros Hl. exists l. auto.
Qed.

Lemma close_sending {P A} (sending : bool * P -> option A) (ls : list (bool * P)) i :
  (forall o p, sending (o, p) = sending (false, p)) ->
  forall j, sending <$> alter (fun l => (false, snd l)) i ls !! j = sending <$> ls !! j.
Proof.
  intros Hs j. destruct (decide (i = j)) as [<-|Hij]; [|by rewrite list_lookup_alter_ne].
  rewrite list_lookup_alter_eq. destruct (ls !! i) as [[o p]|]; simpl; [|done]. by rewrite (Hs o p).
Qed.

Lemma inv_closeListener i s :
  inv s -> pc s = Closing i -> (i < numListeners s)%nat -> inv (setPc (Closing (S i)) (closeListener i s)).
Proof.
  intros [I1 I2 I3 I4 I5 I6 I7 I8 I9 I10] Hpc Hi. assert (Hf : flag s = true) by (apply I3; by rewrite Hpc).
  unfold closedTo in I4, I5. rewrite Hpc in I4, I5. unfold numListeners in Hi. unfold closeListener.
  destruct (decide (i < length (tcp s))%nat) as [Ht|Ht];
    (split; simpl; try done; unfold closedTo, numListeners; simpl; rewrite ?length_alter; try done).
  - intros j l (l0 & Hj & _ & Hc)%close_lookup Hlt. destruct Hc as [|[Hne ->]]; [done|]. apply (I4 j); [done|lia].
  - intros j l Hj Hlt. lia.
  - intros j [= <-]. lia.
  - intros _. apply I7. by rewrite Hpc.
  - by intros [|].
  - apply (accounted_ext _ (tcp s)); [|done]. by apply close_sending.
  - intros j l Hj Hlt. destruct (decide (j < i)%nat); [by apply (I4 j)|]. apply lookup_lt_Some in Hj. lia.
  - intros j l (l0 & Hj & _ & Hc)%close_lookup Hlt. destruct Hc as [|[Hne ->]]; [done|]. apply (I5 j); [done|lia].
  - intros j [= <-]. lia.
  - intros _. apply I7. by rewrite Hpc.
  - by intros [|].
  - apply (accounted_ext _ (udp s)); [|done]. by apply close_sending.
Qed.

Lemma udpListen_data shutdown data addr ts : udpListen shutdown (Some (data, addr)) ts <> UDone.
Proof. unfold udpListen. by destruct (blen _ <? 1). Qed.

Lemma inv_step s s' : inv s -> step s s' -> inv s'.
Proof.
  intros I. destruct 1 as [i d c Hi|i o d Hi|i o d Hi|i o c Hi Hr|i data addr ts p Hi Hu|i data addr ts Hi Hu|i o ts Hi|i o p Hi Hr|Hp|i Hp Hi|Hp Hd|Hp].
  - eapply (inv_tcp_step i _ _ _ _ _ _ s); try done. by eapply accounted_take; [..|apply I].
  - eapply (inv_tcp_step i _ _ _ _ _ _ s); try done; [by simpl; destruct (flag s)|]. eapply accounted_same; [done| |apply I].
    simpl. by destruct (flag s).
  - eapply (inv_tcp_step i _ _ _ _ _ _ s); try done. by eapply accounted_same; [..|apply I].
  - eapply (inv_tcp_step i _ _ _ _ _ _ s); try done. by eapply accounted_out; [..|apply I].
  - eapply (inv_udp_step i _ _ _ _ _ _ s); try done. by eapply accounted_take; [..|apply I].
  - by destruct I; split.
  - eapply (inv_udp_step i _ _ _ _ _ _ s); try done; [by simpl; destruct (flag s)|]. eapply accounted_same; [done| |apply I].
    simpl. by destruct (flag s).
  - eapply (inv_udp_step i _ _ _ _ _ _ s); try done. by eapply accounted_out; [..|apply I].
  - destruct I as [I1 I2 I3 I4 I5 I6 I7 I8 I9 I10]. split; simpl; try done; unfold closedTo; simpl.
    + intros; lia.
    + intros; lia.
    + intros i [= <-]. lia.
    + intros _. apply I7. by rewrite Hp.
    + by intros [|].
  - by apply inv_closeListener.
  - destruct I as [I1 I2 I3 I4 I5 I6 I7 I8 I9 I10]. unfold closedTo in I4, I5. rewrite Hp in *.
    split; simpl; try done; auto.
  - destruct I as [I1 I2 I3 I4 I5 I6 I7 I8 I9 I10]. unfold closedTo in I4, I5. rewrite Hp in *.
    split; simpl; try done; auto.
Qed.

Lemma inv_reachable n s : reachable n s -> inv s.
Proof. unfold reachable. intros Hr. pattern s. eapply rtc_ind_r; [apply inv_started| |exact Hr]. eauto using inv_step. Qed.

(** ** The end of [Shutdown]

    Once all sockets are closed each goroutine has at most two steps to go. *)
Definition weightT (l : bool * tcpPc) : nat := match snd l with TDone => 0 | TAccept _ => 1 | TSend _ | TSleep _ => 2 end.
Definition weightU (l : bool * udpPc) : nat := match snd l with UDone => 0 | URead => 1 | USend _ => 2 end.

Definition weightPc (p : shutPc) : nat := match p with Finished => 0 | TransportDown => 1 | _ => 2 end.

Definition toGo s : nat := sum_list_with weightT (tcp s) + sum_list_with weightU (udp s) + weightPc (pc s).

(** All sockets are closed. *)
Definition closedAll s : Prop := pc s <> Running /\ closedTo s = numListeners s.

Lemma closedAll_tcp s i l : inv s -> closedAll s -> tcp s !! i = Some l -> fst l = false.
Proof.
  intros I [_ Hc] Hl. apply (inv_tcp_closed _ I i); [done|]. rewrite Hc. apply lookup_lt_Some in Hl. unfold numListeners. lia.
Qed.

Lemma closedAll_udp s i l : inv s -> closedAll s -> udp s !! i = Some l -> fst l = false.
Proof.
  intros I [_ Hc] Hl. apply (inv_udp_closed _ I i); [done|]. rewrite Hc. apply lookup_lt_Some in Hl. unfold numListeners. lia.
Qed.

Lemma closedAll_step s s' : inv s -> closedAll s -> step s s' -> closedAll s' /\ (toGo s' < toGo s)%nat.
Proof.
  intros I Hc Hs. pose proof (closedAll_tcp s) as Ht. pose proof (closedAll_udp s) as Hu.
  assert (Hf : flag s = true) by (apply I, Hc). destruct Hc as [Hr Hc]. unfold closedAll, closedTo, numListeners, toGo in *.
  destruct Hs as [i d c Hi|i o d Hi|i o d Hi|i o c Hi _|i data addr ts p Hi _|i data addr ts Hi _|i o ts Hi|i o p Hi _|Hp|i Hp Hi|Hp Hd|Hp];
    simpl; rewrite ?length_insert, ?Hf; simpl.
  - by discriminate (Ht _ _ I (conj Hr Hc) Hi).
  - split; [done|]. pose proof (sum_insert weightT _ i _ (o, TDone) Hi) as E. cbn [weightT weightU snd] in E. lia.
  - split; [done|]. pose proof (sum_insert weightT _ i _ (o, TAccept d) Hi) as E. cbn [weightT weightU snd] in E. lia.
  - split; [done|]. pose proof (sum_insert weightT _ i _ (o, TAccept 0) Hi) as E. cbn [weightT weightU snd] in E. lia.
  - by discriminate (Hu _ _ I (conj Hr Hc) Hi).
  - by discriminate (Hu _ _ I (conj Hr Hc) Hi).
  - split; [done|]. pose proof (sum_insert weightU _ i _ (o, UDone) Hi) as E. cbn [weightT weightU snd] in E. lia.
  - split; [done|]. pose proof (sum_insert weightU _ i _ (o, URead) Hi) as E. cbn [weightT weightU snd] in E. lia.
  - done.
  - rewrite Hp in Hc. unfold numListeners in Hi. lia.
  - rewrite Hp. simpl. split; [done|lia].
  - rewrite Hp. simpl. split; [done|lia].
Qed.

Lemma toGo_bound s : (toGo s <= 2 * numListeners s + 2)%nat.
Proof.
  assert (Ht : forall l, (sum_list_with weightT l <= 2 * length l)%nat).
  { induction l as [|[o []] l IH]; simpl; lia. }
  assert (Hu : forall l, (sum_list_with weightU l <= 2 * length l)%nat).
  { induction l as [|[o []] l IH]; simpl; lia. }
  unfold toGo, numListeners. specialize (Ht (tcp s)). specialize (Hu (udp s)). destruct (pc s); simpl; lia.
Qed.

(** There is always a next step before [Shutdown] has returned. *)
Lemma closedAll_progress s : inv s -> pc s <> Running -> pc s <> Finished -> exists s', step s s'.
Proof.
  intros I Hr Hf. assert (Hrd : readers s = true) by (by apply I). destruct (pc s) as [|i| |] eqn:Hp; try done.
  2: { eexists. by apply StepFinish. }
  destruct (decide (i = numListeners s)) as [->|Hi].
  2: { pose proof (inv_closing _ I i Hp). eexists. apply StepClose; [done|lia]. }
  destruct (decide (Forall (fun l => weightT l = 0%nat) (tcp s))) as [Ht|Ht].
  2: { apply not_Forall_Exists, Exists_exists in Ht as ([o p] & Hin & Hw); [|intros; apply _].
       apply list_elem_of_lookup in Hin as [j Hj]. destruct p; [eexists; by eapply StepAcceptErr|eexists; by eapply StepStream|eexists; by eapply StepWake|by destruct Hw]. }
  destruct (decide (Forall (fun l => weightU l = 0%nat) (udp s))) as [Hu|Hu].
  2: { apply not_Forall_Exists, Exists_exists in Hu as ([o p] & Hin & Hw); [|intros; apply _].
       apply list_elem_of_lookup in Hin as [j Hj].
       destruct p; [eexists; by eapply (StepReadErr _ j o 0)|eexists; by eapply StepPacket|by destruct Hw]. }
  eexists. apply StepWait; [done|]. split; [eapply Forall_impl; [exact Ht|]|eapply Forall_impl; [exact Hu|]];
    intros [o []]; by cbn.
Qed.

Lemma closedAll_steps s s' k : inv s -> closedAll s -> nsteps step k s s' -> inv s' /\ closedAll s' /\ (k + toGo s' <= toGo s)%nat.
Proof.
  intros I Hc Hn. induction Hn as [s|k s s1 s' H1 Hn IH]; [auto|].
  destruct (closedAll_step s s1) as [Hc1 Hlt]; [done..|]. destruct IH as (? & ? & ?); [by eapply inv_step|done|]. split_and!; [done..|lia].
Qed.

Lemma step_lengths s s' : step s s' -> length (tcp s') = length (tcp s) /\ length (udp s') = length (udp s).
Proof.
  destruct 1; simpl; rewrite ?length_insert; try done.
  unfold closeListener. case_decide; simpl; by rewrite length_alter.
Qed.

Lemma reachable_lengths n s : reachable n s -> numListeners s = (n + n)%nat.
Proof.
  intros Hr. assert (length (tcp s) = n /\ length (udp s) = n) as [Ht Hu]; [|unfold numListeners; lia].
  apply (rtc_ind_r (R := step) (fun s => length (tcp s) = n /\ length (udp s) = n) (started n)); [|clear s Hr|exact Hr].
  - simpl. by rewrite !length_replicate.
  - intros x y _ [Ea Eb]%step_lengths [Ex Ey]. split; congruence.
Qed.

(** ** The delays *)

Definition delayAfter (k : nat) : duration := Z.min (baseDelay * 2 ^ Z.of_nat k) maxDelay.

Lemma delayAfter_range k : baseDelay <= delayAfter k <= maxDelay.
Proof.
  unfold delayAfter, baseDelay, maxDelay, nsMillisecond, nsSecond. assert (1 <= 2 ^ Z.of_nat k) by (apply (Z.pow_le_mono_r 2 0); lia).
  lia.
Qed.

Lemma nextDelay_first : nextDelay 0 = delayAfter 0.
Proof. reflexivity. Qed.

Lemma nextDelay_double k : nextDelay (delayAfter k) = delayAfter (S k).
Proof.
  pose proof (delayAfter_range k) as Hk. unfold nextDelay.
  destruct (Z.eqb_spec (delayAfter k) 0) as [E|_]; [unfold baseDelay, nsMillisecond in Hk; lia|].
  rewrite i64_small by (unfold minI64, maxI64, baseDelay, maxDelay, nsMillisecond, nsSecond in *; lia).
  unfold delayAfter in *. rewrite Nat2Z.inj_succ, Z.pow_succ_r by lia. rewrite Z.gtb_ltb.
  set (p := 2 ^ Z.of_nat k) in *. unfold baseDelay, maxDelay, nsMillisecond, nsSecond in *. gocase; zify_bool; lia.
Qed.

(** A goroutine that has seen [k] errors in a row. *)
Definition delayOk (l : bool * tcpPc) : Prop :=
  match snd l with
  | TAccept d => d = 0 \/ exists k, d = delayAfter k
  | TSleep d => exists k, d = delayAfter k
  | _ => True
  end.

Lemma nextDelay_ok d : d = 0 \/ (exists k, d = delayAfter k) -> exists k, nextDelay d = delayAfter k.
Proof. intros [->|[k ->]]; [exists 0%nat; apply nextDelay_first|exists (S k); apply nextDelay_double]. Qed.

Lemma delays_step s s' : Forall delayOk (tcp s) -> step s s' -> Forall delayOk (tcp s').
Proof.
  intros Hd Hs. destruct Hs as [i d c Hi|i o d Hi|i o d Hi|i o c Hi _| | | | | |i| |]; simpl; try done;
    try (apply Forall_insert; [done|]; pose proof (Forall_lookup_1 _ _ _ _ Hd Hi) as Hl; cbn in Hl |- *); try done.
  - destruct (flag s); [done|]. by apply nextDelay_ok.
  - by right.
  - by left.
  - unfold closeListener. case_decide; [|done]. simpl. apply Forall_alter; [done|]. by intros [o []].
Qed.

(** ** Packets *)

Definition packetOk (x : nat * Packet) : Prop := 1 <= blen (Buf (snd x)) <= udpPacketBufSize.

Lemma udpListen_packet shutdown data addr ts p :
  udpListen shutdown (Some (data, addr)) ts = USend p ->
  1 <= blen (Buf p) <= udpPacketBufSize /\ From p = addr /\ Timestamp p = ts.
Proof.
  unfold udpListen. destruct (Z.ltb_spec (blen (take (Z.to_nat udpPacketBufSize) data)) 1) as [|H1]; [done|].
  intros [= <-]. simpl. split_and!; [lia| |done..]. unfold blen. rewrite length_take. unfold udpPacketBufSize. lia.
Qed.

Lemma packets_step s s' : Forall packetOk (received s) -> step s s' -> Forall packetOk (received s').
Proof.
  intros Hd Hs. destruct Hs as [| | | |i data addr ts p Hi Hu| | | | |i| |]; simpl; try done.
  - apply Forall_app. split; [done|]. constructor; [|done]. by apply udpListen_packet in Hu as [? _].
  - unfold closeListener. by case_decide.
Qed.

Lemma reachable_ind (P : state -> Prop) n s :
  P (started n) -> (forall x y, P x -> step x y -> P y) -> reachable n s -> P s.
Proof. intros H0 Hs Hr. apply (rtc_ind_r (R := step) P (started n)); [done|eauto|exact Hr]. Qed.

(** ** Theorems *)

(** C20: The transport hands over everything it receives, in order: at any moment
    the connections a listener accepted are those [streamListen] took, in this
    order, and at most one more that is being handed over; the same for packets,
    none of which is empty or larger than the buffer. When the transport has shut
    down nothing is in between. *)
Theorem transport_hands_over n s (Hr : reachable n s) :
  accounted sendingT (tcp s) (accepted s) (streams s) /\ accounted sendingU (udp s) (received s) (packets s) /\
  Forall packetOk (received s) /\
  (pc s = TransportDown \/ pc s = Finished ->
     forall i, from i (accepted s) = from i (streams s) /\ from i (received s) = from i (packets s)).
Proof.
  pose proof (inv_reachable n s Hr) as I. split_and!; [apply I..| |].
  - apply (reachable_ind (fun s => Forall packetOk (received s)) n); [constructor|apply packets_step|done].
  - intros Hp i. destruct (inv_done _ I Hp) as [Ht Hu]. rewrite (inv_streams _ I i), (inv_packets _ I i).
    destruct (tcp s !! i) as [[o p]|] eqn:E1, (udp s !! i) as [[o' p']|] eqn:E2; rewrite ?app_nil_r; try done;
      repeat match goal with
      | H : _ !! _ = Some _ |- _ => eapply Forall_lookup_1 in H; [|eassumption]; cbn in H; subst
      end; cbn; by rewrite ?app_nil_r.
Qed.

(** C19: [Shutdown] comes to its end and leaves nothing behind: until it has
    returned some goroutine can always go on; once the sockets are closed, no run
    has more than [4 * n + 2] steps for [n] bind addresses; and when it has
    returned all sockets are closed, all listening goroutines have returned and
    nothing happens any more. *)
Theorem shutdown_completes n s (Hr : reachable n s) (Hp : pc s <> Running) :
  (pc s <> Finished -> exists s', step s s') /\
  (closedAll s -> forall k s', nsteps step k s s' -> (k <= 4 * n + 2)%nat) /\
  (pc s = Finished -> (forall l, l ∈ tcp s -> l = (false, TDone)) /\ (forall l, l ∈ udp s -> l = (false, UDone)) /\
     forall s', ~ step s s').
Proof.
  pose proof (inv_reachable n s Hr) as I. split_and!.
  - by apply closedAll_progress.
  - intros Hc k s' Hk. destruct (closedAll_steps s s' k I Hc Hk) as (_ & _ & Hle).
    pose proof (toGo_bound s). pose proof (reachable_lengths n s Hr). lia.
  - intros Hf. destruct (inv_done _ I) as [Ht Hu]; [by right|].
    assert (Hc : closedAll s) by (unfold closedAll, closedTo; by rewrite Hf). split_and!.
    + intros [o p] [i Hi]%list_elem_of_lookup. eapply Forall_lookup_1 in Ht as Hd; [|done].
      pose proof (closedAll_tcp s i _ I Hc Hi) as Ho. cbn in Hd, Ho. by subst.
    + intros [o p] [i Hi]%list_elem_of_lookup. eapply Forall_lookup_1 in Hu as Hd; [|done].
      pose proof (closedAll_udp s i _ I Hc Hi) as Ho. cbn in Hd, Ho. by subst.
    + intros s' Hs. destruct (closedAll_step s s' I Hc Hs) as [_ Hlt].
      destruct Hs as [i d c Hi|i o d Hi|i o d Hi|i o c Hi _|i data addr ts p Hi _|i data addr ts Hi _|i o ts Hi|i o p Hi _| | | |];
        try congruence; by (eapply Forall_lookup_1 in Hi; [|eassumption]).
Qed.

(** Failing accepts back off: in every reachable state the delay of a listener
    that sleeps after an error is [5ms * 2^k], up to one second. *)
Theorem accept_backs_off n s i o d (Hr : reachable n s) (Hi : tcp s !! i = Some (o, TSleep d)) :
  exists k, d = Z.min (5 * nsMillisecond * 2 ^ Z.of_nat k) nsSecond.
Proof.
  assert (Hd : Forall delayOk (tcp s)).
  { apply (reachable_ind (fun s => Forall delayOk (tcp s)) n); [|apply delays_step|done]. apply Forall_replicate. by left. }
  apply (Forall_lookup_1 _ _ _ _ Hd) in Hi as [k ->]. exists k. unfold delayAfter, baseDelay, maxDelay. by rewrite Z.mul_1_l.
Qed.

(** The order in [Memberlist.Shutdown] matters: if [shutdownCh] were closed first
    while a listener is handing over a connection, the shutdown of the transport
    would wait for ever. *)
Theorem readers_first_deadlocks s s' i o c (Hi : tcp s !! i = Some (o, TSend c)) (Hrd : readers s = false)
    (Hp : pc s <> TransportDown) (Hf : pc s <> Finished) (Hs : rtc step s s') :
  pc s' <> TransportDown /\ pc s' <> Finished /\ exists o', tcp s' !! i = Some (o', TSend c).
Proof.
  revert o Hi Hrd Hp Hf. induction Hs as [s|s s1 s' H1 Hs IH]; intros o Hi Hrd Hp Hf; [eauto|].
  assert (Hn : exists o', tcp s1 !! i = Some (o', TSend c)).
  { destruct H1 as [j d c' Hj|j o' d Hj|j o' d Hj|j o' c' Hj Hr'| | | | | |j| |]; simpl; try (by eauto); try congruence;
      try (destruct (decide (i = j)) as [<-|]; [congruence|rewrite list_lookup_insert_ne by done; eauto]).
    unfold closeListener. case_decide; simpl; [|eauto]. destruct (decide (i = j)) as [<-|Hne].
    - rewrite list_lookup_alter_eq, Hi. by eexists.
    - rewrite list_lookup_alter_ne by done. eauto. }
  destruct Hn as [o1 Hn]. apply (IH o1); [done| | |].
  - destruct H1; simpl; try done. unfold closeListener. by case_decide.
  - destruct H1 as [| | | | | | | | | |Hw [Hd _]|]; simpl; try done. eapply Forall_lookup_1 in Hd; [|exact Hi]. done.
  - destruct H1; simpl; done.
Qed.

End Listeners.

Arguments tcpPc : clear implicits.
Arguments state : clear implicits.

(** ** Witnesses *)

(** One bind address; a connection was accepted just before the shutdown. *)
Definition exClosing : state nat :=
  mkState true [(false, TSend 7%nat)] [(false, URead)] true (Closing 2) [(0%nat, 7%nat)] [] [] [] 0.

Lemma exClosing_reachable : reachable 1 exClosing.
Proof.
  eapply rtc_l; [by apply (StepAccept _ 0%nat 0 7%nat)|].
  eapply rtc_l; [by apply StepShutdown|].
  eapply rtc_l; [apply (StepClose _ 0%nat); [reflexivity|vm_compute; lia]|].
  eapply rtc_l; [apply (StepClose _ 1%nat); [reflexivity|vm_compute; lia]|]. apply rtc_refl.
Qed.

Lemma transport_hands_over_witness :
  from 0 (accepted exClosing) = [(0%nat, 7%nat)] /\ accounted sendingT (tcp exClosing) (accepted exClosing) (streams exClosing).
Proof. split; [reflexivity|]. exact (proj1 (transport_hands_over 1 exClosing exClosing_reachable)). Defined.

Lemma shutdown_completes_witness :
  (exists s', step exClosing s') /\ forall k s', nsteps step k exClosing s' -> (k <= 6)%nat.
Proof.
  destruct (shutdown_completes 1 exClosing exClosing_reachable) as (H1 & H2 & _); [discriminate|].
  split; [apply H1; discriminate|]. apply H2. split; [discriminate|reflexivity].
Defined.

(** Two errors in a row. *)
Definition exSleeping : state nat :=
  mkState false [(true, TSleep (10 * nsMillisecond))] [(true, URead)] true Running [] [] [] [] 2.

Lemma exSleeping_reachable : reachable 1 exSleeping.
Proof.
  eapply rtc_l; [by apply (StepAcceptErr _ 0%nat true 0)|].
  eapply rtc_l; [by apply (StepWake _ 0%nat true (5 * nsMillisecond))|].
  eapply rtc_l; [by apply (StepAcceptErr _ 0%nat true (5 * nsMillisecond))|]. apply rtc_refl.
Qed.

Lemma accept_backs_off_witness :
  exists k, 10 * nsMillisecond = Z.min (5 * nsMillisecond * 2 ^ Z.of_nat k) nsSecond.
Proof. exact (accept_backs_off 1 exSleeping 0 true (10 * nsMillisecond) exSleeping_reachable eq_refl). Defined.

Lemma readers_first_deadlocks_witness :
  let s := mkState true [(false, TSend 7%nat)] [(false, UDone)] false (Closing 2) [(0%nat, 7%nat)] [] [] [] 0 in
  forall s', rtc step s s' -> pc s' <> TransportDown /\ pc s' <> Finished.
Proof.
  intros s s' Hs. destruct (readers_first_deadlocks s s' 0 false 7%nat) as (H1 & H2 & _);
    [reflexivity|reflexivity|discriminate|discriminate|exact Hs|]. exact (conj H1 H2).
Defined.

End Listeners.
