(* ===== verification/Stream.v ===== *)
(** * Streams (net.go, state.go)

    User messages, pings and the exchange of the whole state over stream
    connections: what is written, how a connection is read, and what its handler
    does. A connection delivers the bytes and the final error of [Label.conn];
    what is written is a list of bytes. *)

From Stdlib Require Import ZArith Lia Strings.Byte.
From stdpp Require Import tactics base numbers strings gmap list.
From S2P Require Import Prelude Keyring Compound Label Security Lzw Queue Config Addr Members Guarantees Acks Wire Net.

Local Open Scope Z_scope.
Local Open Scope go_scope.

Module Stream.

Import Compound Label Security Members Wire Net.

(** ** Messages *)

Record pushPullHeader := mkPushPullHeader { Nodes : Z; UserStateLen : Z; Join : bool }.

Record userMsgHeader := mkUserMsgHeader { UserMsgLen : Z }.

Record errResp := mkErrResp { Error : string }.

Definition maxPushPullRequests : Z := 128.

Inductive streamErr :=
| SRead (e : ioErr)
| SDecode (eof : bool)
| SSecurity (e : secErr)
| SCompress (e : compressErr)
| SEncryptionNotConfigured
| SNotEncrypted
| SUnexpectedType (t : Z)
| SRemote (e : string)
| SSeqNo (got want : Z)
| SVerifyFailed
| SMergeCanceled
| SSend (e : netErr).

(** Whether the error is [io.EOF] itself. *)
Definition isEOF (e : streamErr) : bool :=
  match e with
  | SRead EOF => true
  | SDecode b => b
  | _ => false
  end.

(** ** Allocation *)

(** [make([]T, n)] panics for a negative length and beyond the address space;
    [size] is the size of an element, 48 bits of address are those of amd64. *)
Definition maxAlloc : Z := 2 ^ 48.

Definition makeslice (size n : Z) : outcome unit :=
  if (n <? 0) || (n * size >? maxAlloc) then Panic "makeslice: len out of range" else Ret tt.

Definition pushNodeStateSize : Z := 112.

(** The delegates the exchange calls: [LocalState] with nil told from empty, and
    [NotifyMerge], [true] where it returns nil; errors as text; whether the codec
    reports [io.EOF] on given bytes. *)
Record streamEnv := mkStreamEnv {
  base : environment;
  LocalState : bool -> option bytes;
  NotifyMerge : option (list Node -> bool);
  errorText : streamErr -> string;
  codecEOF : bytes -> bool
}.

Section Stream.

Context {T : Type} `{!Queue.BTree Queue.memberlistBroadcast T} `{!AEAD}.
Context `{!Codec alive, !Codec suspect, !Codec dead, !Codec compress}.
Context `{!Codec Acks.ping, !Codec Acks.ackResp}.
Context `{!Codec pushPullHeader, !Codec pushNodeState, !Codec userMsgHeader, !Codec errResp}.

#[local] Existing Instance gossipCodec.

Context (env : streamEnv).

(** The state the handlers of streams use: that of the packets, the number of
    pending push/pulls, and the calls of the delegate's [MergeRemoteState]. *)
Record streamState := mkStream {
  rt : runtime T;
  pushPullReq : Z;
  merged : list (bytes * bool)
}.

Implicit Types st : streamState.

Definition sconf st : Config.Config := conf (rt st).

Definition setRt r st : streamState := mkStream r (pushPullReq st) (merged st).

Definition setNonces ns st : streamState :=
  setRt (setSent (wires (rt st)) ns (sentUpTo (rt st)) (rt st)) st.

Definition addMerged b st : streamState := mkStream (rt st) (pushPullReq st) (merged st ++ [b]).

(** ** Writing *)

(** [rawSendMsgStream]: the bytes written. Compression is used in any case. *)
Definition rawSendMsgStream (sendBuf : bytes) (streamLabel : string) st : res netErr (bytes * streamState) :=
  let c := sconf st in
  let sendBuf := if Config.EnableCompression c
                 then match compressPayload sendBuf with None => sendBuf | Some compBuf => compBuf end
                 else sendBuf in
  if encryptsOutgoing c then
    match nonces (rt st) with
    | [] => Err ErrRand
    | nonce :: ns =>
        match encryptLocalState (Config.ProtocolVersion c) (primaryKey c) sendBuf (bytes_of_string streamLabel) nonce with
        | Err e => Err (ErrSecurity e)
        | Ok crypt => Ok (crypt, setNonces ns st)
        end
    end
  else Ok (sendBuf, st).

(** A dialled connection starts with the label header of the transport. *)
Definition dial (st : streamState) : res netErr bytes :=
  match AddLabelHeaderToStream (Config.Label (sconf st)) with Ok h => Ok h | Err e => Err (ErrLabel e) end.

Definition nameMissing (a : Acks.Address) st : bool :=
  bool_decide (Acks.Name a = EmptyString) && Config.RequireNodeNames (sconf st).

(** [sendUserMsg]: all the bytes of the new connection. *)
Definition sendUserMsg (a : Acks.Address) (sendBuf : bytes) st : res netErr (bytes * streamState) :=
  if nameMissing a st then Err ErrNodeNamesAreRequired
  else
    let? hdr := dial st in
    match encode userMsg (mkUserMsgHeader (blen sendBuf)) with
    | None => Err ErrEncode
    | Some h =>
        match rawSendMsgStream (h ++ sendBuf) (Config.Label (sconf st)) st with
        | Err e => Err e
        | Ok (out, st) => Ok (hdr ++ out, st)
        end
    end.

Fixpoint marshalAll {A} `{Codec A} (l : list A) : option bytes :=
  match l with
  | [] => Some []
  | x :: l' =>
      match marshal x, marshalAll l' with
      | Some b, Some bs => Some (b ++ bs)
      | _, _ => None
      end
  end.

(** The user's data, if there is a delegate and it returns some. *)
Definition userData (join : bool) : option bytes :=
  match delegate (base env) with None => None | Some _ => LocalState env join end.

Definition orNil (b : option bytes) : bytes := match b with Some b => b | None => [] end.

(** The size that is reported takes bytes 1 to 4 of the buffer. *)
Definition sendLocalState (join : bool) (streamLabel : string) st : outcome (res netErr (bytes * streamState)) :=
  let localNodes := localNodes (ml (rt st)) in
  let user := userData join in
  let header := mkPushPullHeader (Z.of_nat (length localNodes)) (blen (orNil user)) join in
  match encode pushPullMsg header, marshalAll localNodes with
  | Some h, Some ns =>
      let buf := h ++ ns ++ orNil user in
      if blen buf <? 5 then Panic "slice bounds out of range"
      else Ret (rawSendMsgStream buf streamLabel st)
  | _, _ => Ret (Err ErrEncode)
  end.

(** ** Reading *)

(** Decode one value, with the rest of the reader. *)
Definition decodeNext {A} `{Codec A} (buf : bytes) : res streamErr (A * bytes) :=
  match unmarshal buf with Some r => Ok r | None => Err (SDecode (codecEOF env buf)) end.

(** A compressed message is replaced by what it holds. *)
Definition readCompressed (msgType : Z) (buf : bytes) : outcome (res streamErr (Z * bytes)) :=
  if msgType =? compressMsg then
    match decodeNext buf with
    | Err e => Ret (Err e)
    | Ok (c, _) =>
        let! r := decompressBuffer c in
        match r with
        | Err e => Ret (Err (SCompress e))
        | Ok [] => Panic "index out of range"
        | Ok (t :: decomp) => Ret (Ok (Z_of_byte t, decomp))
        end
    end
  else Ret (Ok (msgType, buf)).

(** [readStream]: the type of the message and the bytes to read it from. *)
Definition readStream (c : Config.Config) (data : bytes) (final : ioErr) (streamLabel : string) :
    outcome (res streamErr (Z * bytes)) :=
  match data with
  | [] => Ret (Err (SRead final))
  | b0 :: data =>
      let msgType := Z_of_byte b0 in
      if msgType =? encryptMsg then
        if negb (Config.EncryptionEnabled c) then Ret (Err SEncryptionNotConfigured)
        else
          let! r := decryptRemoteState (keysOf c) data (bytes_of_string streamLabel) in
          match r with
          | Err ErrStreamEOF => Ret (Err (SRead final))
          | Err e => Ret (Err (SSecurity e))
          | Ok [] => Panic "index out of range"
          | Ok (t :: plain) => readCompressed (Z_of_byte t) plain
          end
      else if Config.EncryptionEnabled c && Config.GossipVerifyIncoming c then Ret (Err SNotEncrypted)
      else readCompressed msgType data
  end.

Fixpoint decodeStates (n : nat) (buf : bytes) : res streamErr (list pushNodeState * bytes) :=
  match n with
  | O => Ok ([], buf)
  | S n' =>
      match decodeNext buf with
      | Err e => Err e
      | Ok (s, buf) =>
          match decodeStates n' buf with
          | Err e => Err e
          | Ok (l, buf) => Ok (s :: l, buf)
          end
      end
  end.

Definition withDefaultPort (c : Config.Config) (r : pushNodeState) : pushNodeState :=
  if (Config.ProtocolVersion c <? 2) || (rPort r =? 0)
  then mkPush (rName r) (rAddr r) (u16 (Config.BindPort c)) (rMeta r) (rIncarnation r) (rState r) (rVsn r)
  else r.

(** A buffer of [len] bytes read from the rest of the stream. *)
Definition readUserBuf (len : Z) (buf : bytes) : outcome (res streamErr (option bytes)) :=
  if len >? 0 then
    let! _ := makeslice 1 len in
    if blen buf <? len then Ret (Err (SRead EOF)) else Ret (Ok (Some (take (Z.to_nat len) buf)))
  else Ret (Ok None).

Definition readRemoteState (c : Config.Config) (buf : bytes) :
    outcome (res streamErr (bool * list pushNodeState * option bytes)) :=
  match decodeNext buf with
  | Err e => Ret (Err e)
  | Ok (header, buf) =>
      let! _ := makeslice pushNodeStateSize (Nodes header) in
      match decodeStates (Z.to_nat (Nodes header)) buf with
      | Err e => Ret (Err e)
      | Ok (remoteNodes, buf) =>
          let! userBuf := readUserBuf (UserStateLen header) buf in
          match userBuf with
          | Err e => Ret (Err e)
          | Ok userBuf => Ret (Ok (Join header, map (withDefaultPort c) remoteNodes, userBuf))
          end
      end
  end.

(** ** Merging *)

Fixpoint mergeNodes (remote : list pushNodeState) : outcome (list Node) :=
  match remote with
  | [] => Ret []
  | n :: remote' =>
      match sixVersions (rVsn n) with
      | None => Panic "index out of range"
      | Some (v0, v1, v2, v3, v4, v5) =>
          let! l := mergeNodes remote' in
          Ret (mkNode (rName n) (rAddr n) (rPort n) (rMeta n) (rState n) v0 v1 v2 v3 v4 v5 :: l)
      end
  end.

(** The random number and the time of each entry's handler. *)
Definition timed (its : nat -> Z * gotime) (remote : list pushNodeState) : list (pushNodeState * Z * gotime) :=
  imap (fun i r => (r, (its i).1, (its i).2)) remote.

(** [None] is a nil error. *)
Definition mergeRemoteState (its : nat -> Z * gotime) (join : bool) (remote : list pushNodeState)
    (userBuf : option bytes) st : outcome (streamState * option streamErr) :=
  let! ok := verifyProtocol remote (ml (rt st)) in
  if negb ok then Ret (st, Some SVerifyFailed)
  else
    let! agreed := (match NotifyMerge env with
                    | Some f => if join then let! ns := mergeNodes remote in Ret (f ns) else Ret true
                    | None => Ret true
                    end) in
    if negb agreed then Ret (st, Some SMergeCanceled)
    else
      let! m := mergeState (timed its remote) (ml (rt st)) in
      let st := setRt (setMl m (rt st)) st in
      Ret (match userBuf, delegate (base env) with
           | Some b, Some _ => addMerged (b, join) st
           | _, _ => st
           end, None).

Definition readUserMsg (buf : bytes) st : outcome (streamState * option streamErr) :=
  match decodeNext buf with
  | Err e => Ret (st, Some e)
  | Ok (header, buf) =>
      let! userBuf := readUserBuf (UserMsgLen header) buf in
      match userBuf with
      | Err e => Ret (st, Some e)
      | Ok None => Ret (st, None)
      | Ok (Some b) => Ret (setRt (handleUser (base env) b (rt st)) st, None)
      end
  end.

(** ** The handler of a connection *)

(** The bytes written in answer; [writes] tells whether the peer takes them. *)
Definition answer (writes : bool) (r : res netErr (bytes * streamState)) st : streamState * bytes * bool :=
  match r with
  | Err _ => (st, [], false)
  | Ok (out, st) => if writes then (st, out, true) else (st, [], false)
  end.

(** A push/pull request: refused when too many are pending; otherwise the remote
    state is read, the local state sent, and only then the remote one merged. *)
Definition handlePushPull (its : nat -> Z * gotime) (writes : bool) (buf : bytes) (streamLabel : string) st :
    outcome (streamState * bytes) :=
  if u32 (pushPullReq st + 1) >=? maxPushPullRequests then Ret (st, [])
  else
    let! r := readRemoteState (sconf st) buf in
    match r with
    | Err _ => Ret (st, [])
    | Ok (join, remoteNodes, userState) =>
        let! s := sendLocalState join streamLabel st in
        let '(st, out, sent) := answer writes s st in
        if negb sent then Ret (st, out)
        else let! '(st, _) := mergeRemoteState its join remoteNodes userState st in Ret (st, out)
    end.

Definition handlePingStream (writes : bool) (buf : bytes) (streamLabel : string) st : streamState * bytes :=
  match decodeNext buf with
  | Err _ => (st, [])
  | Ok (p, _) =>
      if negb (bool_decide (Acks.pNode p = EmptyString)) && negb (bool_decide (Acks.pNode p = Config.Name (sconf st)))
      then (st, [])
      else
        match encode ackRespMsg (Acks.mkAckResp (Acks.pSeqNo p) []) with
        | None => (st, [])
        | Some out => fst (answer writes (rawSendMsgStream out streamLabel st) st)
        end
  end.

(** A stream that cannot be read is answered with the error, unless it ended. *)
Definition handleStreamErr (writes : bool) (e : streamErr) (streamLabel : string) st : streamState * bytes :=
  if isEOF e then (st, [])
  else
    match encode errMsg (mkErrResp (errorText env e)) with
    | None => (st, [])
    | Some out => fst (answer writes (rawSendMsgStream out streamLabel st) st)
    end.

Definition handleMessage (its : nat -> Z * gotime) (writes : bool) (msgType : Z) (buf : bytes) (streamLabel : string) st :
    outcome (streamState * bytes) :=
  if msgType =? userMsg then let! '(st, _) := readUserMsg buf st in Ret (st, [])
  else if msgType =? pushPullMsg then handlePushPull its writes buf streamLabel st
  else if msgType =? pingMsg then Ret (handlePingStream writes buf streamLabel st)
  else Ret (st, []).

Definition handleConn (its : nat -> Z * gotime) (writes : bool) (cn : conn) st : outcome (streamState * bytes) :=
  let c := sconf st in
  match RemoveLabelHeaderFromStream cn with
  | Err _ => Ret (st, [])
  | Ok (pc, streamLabel) =>
      if Config.SkipInboundLabelCheck c && negb (bool_decide (streamLabel = EmptyString)) then Ret (st, [])
      else
        let streamLabel := if Config.SkipInboundLabelCheck c then Config.Label c else streamLabel in
        if negb (bool_decide (Config.Label c = streamLabel)) then Ret (st, [])
        else
          let! r := readStream c (peekedPending pc) (final (Conn pc)) streamLabel in
          match r with
          | Err e => Ret (handleStreamErr writes e streamLabel st)
          | Ok (msgType, buf) => handleMessage its writes msgType buf streamLabel st
          end
  end.

(** ** The other end *)

(** [sendAndReceiveState] in two parts: what it sends... *)
Definition requestState (a : Acks.Address) (join : bool) st : outcome (res netErr (bytes * streamState)) :=
  if nameMissing a st then Ret (Err ErrNodeNamesAreRequired)
  else
    match dial st with
    | Err e => Ret (Err e)
    | Ok hdr =>
        let! r := sendLocalState join (Config.Label (sconf st)) st in
        Ret (match r with Err e => Err e | Ok (out, st) => Ok (hdr ++ out, st) end)
    end.

(** ... and what it makes of the answer. *)
Definition receiveState (data : bytes) (final : ioErr) st : outcome (res streamErr (list pushNodeState * option bytes)) :=
  let! r := readStream (sconf st) data final (Config.Label (sconf st)) in
  match r with
  | Err e => Ret (Err e)
  | Ok (msgType, buf) =>
      if msgType =? errMsg then
        Ret (match decodeNext buf with Err e => Err e | Ok (resp, _) => Err (SRemote (Error resp)) end)
      else if negb (msgType =? pushPullMsg) then Ret (Err (SUnexpectedType msgType))
      else
        let! s := readRemoteState (sconf st) buf in
        Ret (match s with Err e => Err e | Ok (_, remoteNodes, userState) => Ok (remoteNodes, userState) end)
  end.

(** [pushPullNode] once the answer is there. *)
Definition pushPullMerge (its : nat -> Z * gotime) (join : bool) (data : bytes) (final : ioErr) st :
    outcome (streamState * option streamErr) :=
  let! r := receiveState data final st in
  match r with
  | Err e => Ret (st, Some e)
  | Ok (remote, userState) => mergeRemoteState its join remote userState st
  end.

(** [sendPingAndWaitForAck]: the request and the check of the answer. *)
Definition requestPing (a : Acks.Address) (p : Acks.ping) st : res netErr (bytes * streamState) :=
  if nameMissing a st then Err ErrNodeNamesAreRequired
  else
    let? hdr := dial st in
    match encode pingMsg p with
    | None => Err ErrEncode
    | Some out =>
        match rawSendMsgStream out (Config.Label (sconf st)) st with
        | Err e => Err e
        | Ok (out, st) => Ok (hdr ++ out, st)
        end
    end.

Definition receiveAck (p : Acks.ping) (data : bytes) (final : ioErr) st : outcome (res streamErr bool) :=
  let! r := readStream (sconf st) data final (Config.Label (sconf st)) in
  Ret (match r with
       | Err e => Err e
       | Ok (msgType, buf) =>
           if negb (msgType =? ackRespMsg) then Err (SUnexpectedType msgType)
           else
             match decodeNext buf with
             | Err e => Err e
             | Ok (ack, _) =>
                 if Acks.aSeqNo ack =? Acks.pSeqNo p then Ok true
                 else Err (SSeqNo (Acks.aSeqNo ack) (Acks.pSeqNo p))
             end
       end).

End Stream.

Arguments streamState : clear implicits.

End Stream.
