(* ===== verification/Exchange.v ===== *)
(** * Streams end to end

    What [Stream] promises: a message written to a stream is the one the peer
    reads, however the network cuts the stream; a push/pull gives each side the
    state of the other; a ping over a stream is acknowledged. Then the inputs on
    which the handler of a connection fails. *)

From Stdlib Require Import ZArith Lia Strings.Byte.
From stdpp Require Import tactics base numbers strings gmap list countable.
From S2P Require Import Prelude Keyring Compound Label Security Lzw Queue Config Addr Members Guarantees Acks Wire Net Delivery Stream.

Local Open Scope Z_scope.
Local Open Scope go_scope.

Module Exchange.

Import Compound Label Security Members Wire Net Delivery Stream.

(** Types the stream reader does not unwrap. *)
Definition isStreamType (t : Z) : Prop := t <> encryptMsg /\ t <> compressMsg /\ t <> hasLabelMsg.

(** A codec that encodes every value of the type. *)
Class CodecTotal (A : Type) `{Codec A} : Prop := marshal_total : forall x : A, is_Some (marshal x).

(** User state of length zero is not sent. *)
Definition received (user : option bytes) : option bytes :=
  match user with Some (x :: u) => Some (x :: u) | _ => None end.

Section Exchange.

Context {T : Type} `{!Queue.BTree Queue.memberlistBroadcast T} `{!AEAD} `{!AEADLaws}.
Context `{!Codec alive, !Codec suspect, !Codec dead, !Codec compress}.
Context `{!Codec Acks.ping, !Codec Acks.ackResp}.
Context `{!Codec pushPullHeader, !Codec pushNodeState, !Codec userMsgHeader, !Codec errResp}.
Context `{!CodecLaws compress, !CodecLaws pushPullHeader, !CodecLaws pushNodeState, !CodecLaws userMsgHeader}.
Context `{!CodecLaws Acks.ping, !CodecLaws Acks.ackResp}.

#[local] Existing Instance gossipCodec.

Implicit Types st : streamState T.
Implicit Types env : streamEnv.

(** ** One message *)

(** What lets a message be written to a stream. *)
Record writable st : Prop := {
  wr_key : encryptsOutgoing (sconf st) = true -> aesKeyOk (primaryKey (sconf st)) = true;
  wr_nonce : encryptsOutgoing (sconf st) = true ->
    exists nonce ns, nonces (rt st) = nonce :: ns /\ length nonce = 12%nat
}.

(** The message as it is put into the stream, before encryption. *)
Definition packed (c : Config.Config) (msg : bytes) : bytes :=
  if Config.EnableCompression c
  then match compressPayload msg with None => msg | Some b => b end else msg.

Lemma packed_read env c t body :
  isStreamType (Z_of_byte t) ->
  exists t' body', packed c (t :: body) = t' :: body' /\ Z_of_byte t' <> encryptMsg /\ Z_of_byte t' <> hasLabelMsg /\
    readCompressed env (Z_of_byte t') body' = Ret (Ok (Z_of_byte t, body)).
Proof.
  intros (He & Hc & Hl). unfold packed.
  assert (Hplain : readCompressed env (Z_of_byte t) body = Ret (Ok (Z_of_byte t, body))).
  { unfold readCompressed. apply Z.eqb_neq in Hc. by rewrite Hc. }
  case_match; [|eauto 10]. unfold compressPayload, encode.
  destruct (marshal (mkCompress lzwAlgo (Lzw.lzwWrite (t :: body)))) as [b|] eqn:E; [|eauto 10].
  exists (byte_of_Z compressMsg), b. split_and!; [done|discriminate|discriminate|].
  unfold readCompressed, decodeNext. simpl. rewrite <- (app_nil_r b). rewrite (unmarshal_marshal _ _ [] E).
  unfold decompressBuffer. simpl. by rewrite Lzw.lzwRead_write.
Qed.

(** The only effect on the sender is a nonce used up. *)
Record wrote st st' : Prop := {
  wo_conf : sconf st' = sconf st;
  wo_ml : ml (rt st') = ml (rt st);
  wo_req : pushPullReq st' = pushPullReq st;
  wo_merged : merged st' = merged st;
  wo_user : userMsgs (rt st') = userMsgs (rt st)
}.

Lemma encLen_out pv key msg label nonce out :
  aesKeyOk key = true -> length nonce = 12%nat ->
  encryptLocalState pv key msg label nonce = Ok out ->
  blen out = 5 + encryptedLength (encryptionVersion pv) (blen msg).
Proof.
  intros Hk Hn. unfold encryptLocalState. rewrite encryptPayload_eq by done. intros [= <-].
  unfold putBE32. cbn [app]. do 5 rewrite blen_cons.
  rewrite encrypted_length by (auto using encryptionVersion_cases). lia.
Qed.

(** A message in the stream is read back as its type and its body. *)
Lemma stream_sent env c2 t body label fin st :
  writable st -> compatible (sconf st) c2 -> isStreamType (Z_of_byte t) ->
  exists out st', rawSendMsgStream (t :: body) label st = Ok (out, st') /\ wrote st st' /\
    (exists b r, out = b :: r /\ Z_of_byte b <> hasLabelMsg) /\
    (blen out <= maxPushStateBytes -> readStream env c2 out fin label = Ret (Ok (Z_of_byte t, body))).
Proof.
  intros Hw Hc Ht. destruct (packed_read env (sconf st) t body Ht) as (t' & body' & Ep & He & Hl & Hr).
  unfold rawSendMsgStream. fold (packed (sconf st) (t :: body)). rewrite Ep.
  destruct (encryptsOutgoing (sconf st)) eqn:E.
  - destruct (wr_nonce _ Hw E) as (nonce & ns & -> & Hn). pose proof (wr_key _ Hw E) as Hk.
    destruct (sharedKey _ _ Hc E) as (ks1 & ks2 & Hks & Hrej).
    destruct (Z.le_gt_cases (encryptedLength (encryptionVersion (Config.ProtocolVersion (sconf st))) (blen (t' :: body')))
      maxU32) as [Hmax|Hbig].
    + destruct (stream_decrypts ks1 ks2 (primaryKey (sconf st)) (t' :: body') (bytes_of_string label) nonce
        (Config.ProtocolVersion (sconf st)) Hk Hn Hmax) as (o & Ho & Hd).
      { eapply Forall_impl; [|exact Hrej]. intros k Hrk. apply Hrk. }
      rewrite Ho. do 2 eexists. split; [reflexivity|]. split; [by split|]. split.
      { do 2 eexists. split; [reflexivity|discriminate]. }
      intros Hsz. apply encLen_out in Ho; [|done..]. unfold readStream. simpl.
      rewrite (sameEncryption _ _ Hc), E, Hks, Hd. simpl.
      replace (_ >? maxPushStateBytes) with false by (symmetry; rewrite Z.gtb_ltb; apply Z.ltb_ge; lia). done.
    + assert (Hx : exists o, encryptLocalState (Config.ProtocolVersion (sconf st)) (primaryKey (sconf st)) (t' :: body')
        (bytes_of_string label) nonce = Ok (byte_of_Z encryptMsg :: o)).
      { unfold encryptLocalState. rewrite encryptPayload_eq by done. eauto. }
      destruct Hx as [o Ho]. rewrite Ho. do 2 eexists. split; [reflexivity|]. split; [by split|]. split.
      { do 2 eexists. split; [reflexivity|discriminate]. }
      intros Hsz. apply encLen_out in Ho; [|done..]. unfold maxPushStateBytes, maxU32 in *. lia.
  - do 2 eexists. split; [reflexivity|]. split; [by split|]. split; [eauto|]. intros _.
    unfold readStream. apply Z.eqb_neq in He. rewrite He, (sameEncryption _ _ Hc), E. exact Hr.
Qed.

(** ** One connection *)

(** The connection, cut anywhere, that carries the label and the message. *)
Definition carries (cn : conn) (data : bytes) : Prop := connWf cn /\ pending cn = data.

Lemma dial_label st hdr out :
  dial st = Ok hdr -> AddLabelHeaderToPacket out (Config.Label (sconf st)) = Ok (hdr ++ out).
Proof.
  unfold dial, AddLabelHeaderToStream, AddLabelHeaderToPacket.
  destruct (bool_decide _); [by intros [= <-]|]. destruct (_ >? _); [done|]. intros [= <-].
  unfold makeLabelHeader. cbn [app]. by rewrite app_nil_r.
Qed.

Lemma handleConn_label env its writes cn st1 st2 hdr out :
  slen (Config.Label (sconf st1)) <= LabelMaxSize -> compatible (sconf st1) (sconf st2) ->
  dial st1 = Ok hdr -> (exists b r, out = b :: r /\ Z_of_byte b <> hasLabelMsg) -> carries cn (hdr ++ out) ->
  exists fin, handleConn env its writes cn st2 =
    let! r := readStream env (sconf st2) out fin (Config.Label (sconf st2)) in
    match r with
    | Err e => Ret (handleStreamErr env writes e (Config.Label (sconf st2)) st2)
    | Ok (msgType, buf) => handleMessage env its writes msgType buf (Config.Label (sconf st2)) st2
    end.
Proof.
  intros Hlen Hc Hd Hout [Hwf Hp]. pose proof (stream_chunking cn Hwf) as Hs. unfold streamAnswer in Hs.
  assert (Hrem : RemoveLabelHeaderFromPacket (pending cn) = Ok (out, Config.Label (sconf st2))).
  { rewrite Hp, (sameLabel _ _ Hc). destruct (label_removed _ out Hlen Hout) as (w & Hw & <-).
    rewrite (dial_label _ _ out Hd) in Hw. by injection Hw as <-. }
  rewrite Hrem in Hs. destruct Hout as (b & r & -> & _).
  rewrite bool_decide_eq_false_2 in Hs by (rewrite Hp; by intros [_ ?]%app_nil).
  destruct Hs as (pc & Hpc & Hpp & _). exists (final (Conn pc)).
  unfold handleConn. rewrite Hpc, (checksLabel _ _ Hc), Hpp. simpl. by rewrite bool_decide_eq_true_2.
Qed.

(** ** The state *)

Lemma decodeStates_all env l bs rest :
  marshalAll l = Some bs -> decodeStates env (length l) (bs ++ rest) = Ok (l, rest).
Proof.
  revert bs. induction l as [|x l IH]; intros bs; simpl; [by intros [= <-]|].
  destruct (marshal x) as [b|] eqn:E; [|done]. destruct (marshalAll l) as [bs'|]; [|done]. intros [= <-].
  unfold decodeNext. rewrite <- app_assoc, (unmarshal_marshal x b (bs' ++ rest) E). by rewrite IH.
Qed.

Lemma marshalAll_total `{!CodecTotal pushNodeState} (l : list pushNodeState) : is_Some (marshalAll l).
Proof.
  induction l as [|x l [bs IH]]; [eauto|]. simpl. destruct (marshal_total x) as [b ->]. rewrite IH. eauto.
Qed.

Lemma readUserBuf_sent user :
  blen (orNil user) <= maxAlloc -> readUserBuf (blen (orNil user)) (orNil user) = Ret (Ok (received user)).
Proof.
  intros Hmax. unfold readUserBuf, makeslice. destruct user as [[|x u]|]; [done| |done].
  cbn [orNil received] in *. pose proof (blen_nonneg u) as Hn. rewrite blen_cons in *.
  destruct (Z.gtb_spec (1 + blen u) 0); [|lia]. destruct (Z.ltb_spec (1 + blen u) 0); [lia|].
  destruct (Z.gtb_spec ((1 + blen u) * 1) maxAlloc); [lia|]. cbn [orb obind].
  destruct (Z.ltb_spec (1 + blen u) (1 + blen u)); [lia|].
  by rewrite firstn_all2 by (unfold blen; simpl; lia).
Qed.

Lemma readRemoteState_sent env c nodes user join h ns :
  marshal (mkPushPullHeader (Z.of_nat (length nodes)) (blen (orNil user)) join) = Some h ->
  marshalAll nodes = Some ns -> Z.of_nat (length nodes) * pushNodeStateSize <= maxAlloc ->
  blen (orNil user) <= maxAlloc ->
  readRemoteState env c (h ++ ns ++ orNil user) = Ret (Ok (join, map (withDefaultPort c) nodes, received user)).
Proof.
  intros Hh Hns Hn Hu. unfold readRemoteState, decodeNext. rewrite (unmarshal_marshal _ _ _ Hh). cbn [Nodes UserStateLen Join].
  unfold makeslice. destruct (Z.ltb_spec (Z.of_nat (length nodes)) 0); [lia|].
  destruct (Z.gtb_spec (Z.of_nat (length nodes) * pushNodeStateSize) maxAlloc); [lia|]. cbn [orb obind].
  rewrite Nat2Z.id, (decodeStates_all _ _ _ _ Hns). by rewrite readUserBuf_sent.
Qed.

Context `{!CodecTotal pushPullHeader, !CodecTotal pushNodeState}.
Context (header_long : forall (x : pushPullHeader) b, marshal x = Some b -> 4 <= blen b).

(** A state that can be sent: within the limits of the receiver. *)
Record sharable env join st : Prop := {
  sh_write : writable st;
  sh_nodes : Z.of_nat (length (localNodes (ml (rt st)))) * pushNodeStateSize <= maxAlloc;
  sh_user : blen (orNil (userData env join)) <= maxAlloc;
  sh_size : forall out st', sendLocalState env join (Config.Label (sconf st)) st = Ret (Ok (out, st')) ->
    blen out <= maxPushStateBytes
}.

Lemma local_state_sent env1 env2 c2 join st :
  sharable env1 join st -> compatible (sconf st) c2 ->
  exists out st', sendLocalState env1 join (Config.Label (sconf st)) st = Ret (Ok (out, st')) /\ wrote st st' /\
    (exists b r, out = b :: r /\ Z_of_byte b <> hasLabelMsg) /\
    exists body, (forall fin, readStream env2 c2 out fin (Config.Label (sconf st)) = Ret (Ok (pushPullMsg, body))) /\
      readRemoteState env2 c2 body =
        Ret (Ok (join, map (withDefaultPort c2) (localNodes (ml (rt st))), received (userData env1 join))).
Proof.
  intros [Hw Hn Hu Hs] Hc. revert Hs. unfold sendLocalState, encode.
  destruct (marshal_total (mkPushPullHeader (Z.of_nat (length (localNodes (ml (rt st)))))
    (blen (orNil (userData env1 join))) join)) as [h Hh].
  destruct (marshalAll_total (localNodes (ml (rt st)))) as [ns Hns]. rewrite Hh, Hns. cbn [app].
  destruct (Z.ltb_spec (blen (byte_of_Z pushPullMsg :: h ++ ns ++ orNil (userData env1 join))) 5) as [Hl|_].
  { rewrite blen_cons, blen_app in Hl. pose proof (header_long _ _ Hh). pose proof (blen_nonneg (ns ++ orNil (userData env1 join))). lia. }
  assert (Ht : isStreamType (Z_of_byte (byte_of_Z pushPullMsg))) by (split_and!; discriminate).
  destruct (stream_sent env2 c2 _ (h ++ ns ++ orNil (userData env1 join)) (Config.Label (sconf st)) EOF st Hw Hc Ht)
    as (out & st' & E & Hwr & Hhd & _). rewrite E. intros Hs.
  exists out, st'. split_and!; [done..|]. exists (h ++ ns ++ orNil (userData env1 join)). split.
  - intros fin. destruct (stream_sent env2 c2 _ (h ++ ns ++ orNil (userData env1 join)) (Config.Label (sconf st)) fin st
      Hw Hc Ht) as (out2 & st2 & E2 & _ & _ & Hr). rewrite E in E2. injection E2 as <- <-.
    apply Hr. by eapply Hs.
  - by apply readRemoteState_sent.
Qed.

(** The message is within the limit of an encrypted stream. *)
Definition fits (msg : bytes) st : Prop :=
  forall out st', rawSendMsgStream msg (Config.Label (sconf st)) st = Ok (out, st') -> blen out <= maxPushStateBytes.

Lemma dial_ok st : slen (Config.Label (sconf st)) <= LabelMaxSize -> exists hdr, dial st = Ok hdr.
Proof.
  intros Hl. unfold dial, AddLabelHeaderToStream. destruct (bool_decide _); [eauto|].
  destruct (Z.gtb_spec (slen (Config.Label (sconf st))) LabelMaxSize); [lia|]. eauto.
Qed.

(** A message sent on a new connection arrives at the handler. *)
Lemma message_arrives env its writes t body st1 st2 :
  slen (Config.Label (sconf st1)) <= LabelMaxSize -> writable st1 -> compatible (sconf st1) (sconf st2) ->
  isStreamType (Z_of_byte t) -> fits (t :: body) st1 ->
  exists hdr out st1', dial st1 = Ok hdr /\
    rawSendMsgStream (t :: body) (Config.Label (sconf st1)) st1 = Ok (out, st1') /\ wrote st1 st1' /\
    forall cn, carries cn (hdr ++ out) ->
      handleConn env its writes cn st2 =
        handleMessage env its writes (Z_of_byte t) body (Config.Label (sconf st2)) st2.
Proof.
  intros Hl Hw Hc Ht Hf. destruct (dial_ok st1 Hl) as [hdr Hd].
  destruct (stream_sent env (sconf st2) t body (Config.Label (sconf st1)) EOF st1 Hw Hc Ht)
    as (out & st1' & E & Hwr & Hhd & _).
  exists hdr, out, st1'. split_and!; [done..|]. intros cn Hcn.
  destruct (handleConn_label env its writes cn st1 st2 hdr out Hl Hc Hd Hhd Hcn) as [fin ->].
  destruct (stream_sent env (sconf st2) t body (Config.Label (sconf st1)) fin st1 Hw Hc Ht)
    as (out2 & st2' & E2 & _ & _ & Hr). rewrite E in E2. injection E2 as <- <-.
  rewrite (sameLabel _ _ Hc), Hr by (by eapply Hf). done.
Qed.

(** Without encryption and labels, the handler reads the bytes as they are. *)
Lemma plain_conn env its writes cn t body st :
  Config.EncryptionEnabled (sconf st) = false -> Config.Label (sconf st) = EmptyString ->
  Config.SkipInboundLabelCheck (sconf st) = false ->
  Z_of_byte t <> hasLabelMsg -> Z_of_byte t <> encryptMsg -> carries cn (t :: body) ->
  handleConn env its writes cn st =
    let! r := readCompressed env (Z_of_byte t) body in
    match r with
    | Err e => Ret (handleStreamErr env writes e EmptyString st)
    | Ok (msgType, buf) => handleMessage env its writes msgType buf EmptyString st
    end.
Proof.
  intros He Hl Hk Ht Ht2 Hcn.
  assert (Hc : compatible (sconf st) (sconf st)).
  { split; [done|done| |]; unfold encryptsOutgoing; by rewrite He. }
  destruct (handleConn_label env its writes cn st st [] (t :: body)) as [fin E]; [|done| |eauto|done|].
  - rewrite Hl. done.
  - unfold dial, AddLabelHeaderToStream. by rewrite Hl.
  - rewrite E, Hl. unfold readStream. apply Z.eqb_neq in Ht2. by rewrite Ht2, He.
Qed.

Lemma exchange_complete env1 env2 its a join st1 st2
    (Hname : nameMissing a st1 = false) (Hl : slen (Config.Label (sconf st1)) <= LabelMaxSize)
    (H12 : compatible (sconf st1) (sconf st2)) (H21 : compatible (sconf st2) (sconf st1))
    (Hs1 : sharable env1 join st1) (Hs2 : sharable env2 join st2) (Hreq : 0 <= pushPullReq st2 < 127) :
  exists req st1', requestState env1 a join st1 = Ret (Ok (req, st1')) /\ wrote st1 st1' /\
    forall cn, carries cn req ->
      exists resp st2', wrote st2 st2' /\
        handleConn env2 its true cn st2 =
          (let! '(st, _) := mergeRemoteState env2 its join
             (map (withDefaultPort (sconf st2)) (localNodes (ml (rt st1)))) (received (userData env1 join)) st2' in
           Ret (st, resp)) /\
        forall fin, receiveState env1 resp fin st1' =
          Ret (Ok (map (withDefaultPort (sconf st1)) (localNodes (ml (rt st2))), received (userData env2 join))).
Proof.
  destruct (local_state_sent env1 env2 (sconf st2) join st1 Hs1 H12) as (out & st1' & E1 & W1 & Hh1 & body & R1 & M1).
  destruct (local_state_sent env2 env1 (sconf st1) join st2 Hs2 H21) as (resp & st2' & E2 & W2 & _ & body2 & R2 & M2).
  destruct (dial_ok st1 Hl) as [hdr Hd]. exists (hdr ++ out), st1'. split; [|split; [done|]].
  { unfold requestState. rewrite Hname, Hd, E1. done. }
  intros cn Hcn. exists resp, st2'. split; [done|]. split.
  - destruct (handleConn_label env2 its true cn st1 st2 hdr out Hl H12 Hd Hh1 Hcn) as [fin ->].
    rewrite (sameLabel _ _ H12), R1. cbn [obind]. unfold handleMessage. simpl. unfold handlePushPull.
    rewrite u32_small by (unfold maxU32; lia). unfold maxPushPullRequests.
    destruct (Z.geb_spec (pushPullReq st2 + 1) 128); [lia|]. rewrite M1. cbn [obind].
    rewrite <- (sameLabel _ _ H12), E2. done.
  - intros fin. unfold receiveState. rewrite (wo_conf _ _ W1), (sameLabel _ _ H21), R2. cbn [obind].
    simpl. by rewrite M2.
Qed.

(** ** Properties *)

(** C4: A push/pull exchange is complete and symmetric: the request one member
    sends makes the other answer with its own state and merge the sender's node
    states and user state, and the sender reads from the answer the node states
    and user state of the other, with whatever labels, encryption and compression
    both sides agree on (each can open what the other sends) and however the
    network cuts the stream, as long as the states are within the receiver's
    limits. They are the states as sent, but for the bind port that the receiver
    puts in where it speaks protocol version 1 or the port is 0, and for a user
    state that is empty. *)
Theorem push_pull_exchange env1 env2 its a join st1 st2
    (Hname : nameMissing a st1 = false) (Hl : slen (Config.Label (sconf st1)) <= LabelMaxSize)
    (H12 : compatible (sconf st1) (sconf st2)) (H21 : compatible (sconf st2) (sconf st1))
    (Hs1 : sharable env1 join st1) (Hs2 : sharable env2 join st2) (Hreq : 0 <= pushPullReq st2 < 127) :
  exists req st1', requestState env1 a join st1 = Ret (Ok (req, st1')) /\ wrote st1 st1' /\
    forall cn, carries cn req ->
      exists resp st2', wrote st2 st2' /\
        handleConn env2 its true cn st2 =
          (let! '(st, _) := mergeRemoteState env2 its join
             (map (withDefaultPort (sconf st2)) (localNodes (ml (rt st1)))) (received (userData env1 join)) st2' in
           Ret (st, resp)) /\
        forall fin, receiveState env1 resp fin st1' =
          Ret (Ok (map (withDefaultPort (sconf st1)) (localNodes (ml (rt st2))), received (userData env2 join))).
Proof. by apply exchange_complete. Qed.

(** A ping over a stream is acknowledged: a compatible member with the name the
    ping carries answers it, and the answer is accepted. *)
Theorem stream_ping_acked `{!CodecTotal Acks.ping, !CodecTotal Acks.ackResp} env1 env2 its a p st1 st2
    (Hname : nameMissing a st1 = false) (Hl : slen (Config.Label (sconf st1)) <= LabelMaxSize)
    (H12 : compatible (sconf st1) (sconf st2)) (H21 : compatible (sconf st2) (sconf st1))
    (Hw1 : writable st1) (Hw2 : writable st2) (Hp : Acks.pNode p = Config.Name (sconf st2))
    (Hf1 : forall msg, encode pingMsg p = Some msg -> fits msg st1)
    (Hf2 : forall msg, encode ackRespMsg (Acks.mkAckResp (Acks.pSeqNo p) []) = Some msg -> fits msg st2) :
  exists req st1', requestPing a p st1 = Ok (req, st1') /\
    forall cn, carries cn req -> exists resp st2', handleConn env2 its true cn st2 = Ret (st2', resp) /\
      forall fin, receiveAck env1 p resp fin st1' = Ret (Ok true).
Proof.
  unfold encode in Hf1, Hf2. destruct (marshal_total p) as [b Eb].
  destruct (marshal_total (Acks.mkAckResp (Acks.pSeqNo p) [])) as [b2 Eb2]. rewrite Eb in Hf1. rewrite Eb2 in Hf2.
  destruct (message_arrives env2 its true (byte_of_Z pingMsg) b st1 st2 Hl Hw1 H12) as (hdr & out & st1' & Hd & E & Hwr & Ha);
    [split_and!; discriminate|by apply Hf1|].
  exists (hdr ++ out), st1'. split; [unfold requestPing, encode; by rewrite Hname, Hd, Eb, E|].
  intros cn Hcn. rewrite (Ha cn Hcn). unfold handleMessage. simpl. unfold handlePingStream, decodeNext.
  rewrite <- (app_nil_r b), (unmarshal_marshal p b [] Eb), Hp, (bool_decide_eq_true_2 (Config.Name _ = Config.Name _)) by done.
  rewrite andb_false_r. unfold encode. rewrite Eb2.
  assert (Ht : isStreamType (Z_of_byte (byte_of_Z ackRespMsg))) by (split_and!; discriminate).
  destruct (stream_sent env1 (sconf st1) _ b2 (Config.Label (sconf st2)) EOF st2 Hw2 H21 Ht)
    as (resp & st2' & E2 & _ & _ & _).
  rewrite E2. exists resp, st2'. split; [done|]. intros fin.
  destruct (stream_sent env1 (sconf st1) _ b2 (Config.Label (sconf st2)) fin st2 Hw2 H21 Ht)
    as (resp2 & st3 & E3 & _ & _ & Hr). rewrite E2 in E3. injection E3 as <- <-.
  unfold receiveAck. rewrite (wo_conf _ _ Hwr), (sameLabel _ _ H21), Hr by (by eapply (Hf2 _ eq_refl)).
  simpl. unfold decodeNext. rewrite <- (app_nil_r b2), (unmarshal_marshal _ b2 [] Eb2). simpl. by rewrite Z.eqb_refl.
Qed.

(** A user message sent over a stream reaches the delegate of a compatible member,
    once and unchanged; nothing is written in answer. *)
Theorem user_msg_delivered `{!CodecTotal userMsgHeader} env its writes a buf st1 st2
    (Hname : nameMissing a st1 = false) (Hl : slen (Config.Label (sconf st1)) <= LabelMaxSize)
    (H12 : compatible (sconf st1) (sconf st2)) (Hw1 : writable st1) (Hbuf : 0 < blen buf <= maxAlloc)
    (Hd : is_Some (delegate (base env)))
    (Hf : forall h, encode userMsg (mkUserMsgHeader (blen buf)) = Some h -> fits (h ++ buf) st1) :
  exists req st1', sendUserMsg a buf st1 = Ok (req, st1') /\
    forall cn, carries cn req -> handleConn env its writes cn st2 = Ret (setRt (addUserMsg buf (rt st2)) st2, []).
Proof.
  unfold encode in Hf. destruct (marshal_total (mkUserMsgHeader (blen buf))) as [b Eb]. rewrite Eb in Hf.
  destruct (message_arrives env its writes (byte_of_Z userMsg) (b ++ buf) st1 st2 Hl Hw1 H12)
    as (hdr & out & st1' & Hdl & E & _ & Ha); [split_and!; discriminate|by apply (Hf _ eq_refl)|].
  exists (hdr ++ out), st1'. split; [unfold sendUserMsg, encode; rewrite Hname, Hdl, Eb; cbn [rbind app]; by rewrite E|].
  intros cn Hcn. rewrite (Ha cn Hcn). unfold handleMessage. simpl. unfold readUserMsg, decodeNext.
  rewrite (unmarshal_marshal _ b buf Eb). cbn [UserMsgLen].
  destruct buf as [|x buf]; [change (blen []) with 0 in Hbuf; lia|].
  pose proof (readUserBuf_sent (Some (x :: buf)) ltac:(apply Hbuf)) as Hr. cbn [orNil received] in Hr. rewrite Hr.
  cbn [obind]. unfold handleUser. destruct Hd as [d ->]. done.
Qed.

Lemma rawSend_user msg label st out st' :
  rawSendMsgStream msg label st = Ok (out, st') -> userMsgs (rt st') = userMsgs (rt st).
Proof.
  unfold rawSendMsgStream. repeat case_match; try done; by intros [= <- <-].
Qed.

Lemma handleStreamErr_user env writes e label st :
  userMsgs (rt (handleStreamErr env writes e label st).1) = userMsgs (rt st).
Proof.
  unfold handleStreamErr. destruct (isEOF e); [done|]. destruct (encode errMsg _) as [o|]; [|done].
  unfold answer. destruct (rawSendMsgStream o label st) as [[out st']|] eqn:E; [|done].
  destruct writes; simpl; by eapply rawSend_user.
Qed.

Lemma encryptedLength_ge vsn n : 0 <= n -> n <= encryptedLength vsn n.
Proof.
  intros Hn. pose proof (goMod_bounds n blockSize Hn ltac:(done)). unfold encryptedLength.
  unfold versionSize, nonceSize, tagSize, blockSize in *. case_match; lia.
Qed.

(** Reliable sends have a limit: with encryption a user message of more than 20 MB
    is written without an error, and the receiver drops it. *)
Theorem large_user_msg_lost `{!CodecTotal userMsgHeader} env its writes a buf st1 st2
    (Hname : nameMissing a st1 = false) (Hl : slen (Config.Label (sconf st1)) <= LabelMaxSize)
    (H12 : compatible (sconf st1) (sconf st2)) (Hw1 : writable st1)
    (He : encryptsOutgoing (sconf st1) = true) (Hz : Config.EnableCompression (sconf st1) = false)
    (Hbig : maxPushStateBytes < blen buf)
    (Hmax : forall h, encode userMsg (mkUserMsgHeader (blen buf)) = Some h -> blen h + blen buf + 45 <= maxU32) :
  exists req st1', sendUserMsg a buf st1 = Ok (req, st1') /\
    forall cn, carries cn req -> exists st2' resp,
      handleConn env its writes cn st2 = Ret (st2', resp) /\ userMsgs (rt st2') = userMsgs (rt st2).
Proof.
  unfold encode in Hmax. destruct (marshal_total (mkUserMsgHeader (blen buf))) as [b Eb]. rewrite Eb in Hmax.
  specialize (Hmax _ eq_refl). destruct (dial_ok st1 Hl) as [hdr Hd].
  destruct (wr_nonce _ Hw1 He) as (nonce & ns & Hns & Hn). pose proof (wr_key _ Hw1 He) as Hk.
  destruct (sharedKey _ _ H12 He) as (ks1 & ks2 & Hks & Hrej).
  set (msg := byte_of_Z userMsg :: b ++ buf). set (v := encryptionVersion (Config.ProtocolVersion (sconf st1))).
  assert (Hv : v = 0 \/ v = 1) by apply encryptionVersion_cases.
  assert (Hlen : blen msg = blen (byte_of_Z userMsg :: b) + blen buf) by (unfold msg; rewrite !blen_cons, blen_app; lia).
  pose proof (blen_nonneg (byte_of_Z userMsg :: b)) as Hb0.
  pose proof (encryptedLength_ge v (blen msg) (blen_nonneg msg)) as Hge.
  pose proof (encryptedLength_overhead v (blen msg) Hv (blen_nonneg msg)) as Hov.
  assert (Hfit : encryptedLength v (blen msg) <= maxU32) by (destruct (v =? 0); lia).
  destruct (stream_decrypts ks1 ks2 (primaryKey (sconf st1)) msg (bytes_of_string (Config.Label (sconf st1))) nonce
    (Config.ProtocolVersion (sconf st1)) Hk Hn Hfit) as (o & Ho & Hdec).
  { eapply Forall_impl; [|exact Hrej]. intros k Hrk. apply Hrk. }
  fold v in Hdec. destruct (Z.gtb_spec (encryptedLength v (blen msg)) maxPushStateBytes) as [_|]; [|lia].
  exists (hdr ++ byte_of_Z encryptMsg :: o), (setNonces ns st1). split.
  { unfold sendUserMsg, encode. rewrite Hname, Hd, Eb. cbn [rbind app]. fold msg. unfold rawSendMsgStream.
    by rewrite Hz, He, Hns, Ho. }
  intros cn Hcn.
  assert (Hhd : exists b r, byte_of_Z encryptMsg :: o = b :: r /\ Z_of_byte b <> hasLabelMsg)
    by (do 2 eexists; split; [reflexivity|discriminate]).
  destruct (handleConn_label env its writes cn st1 st2 hdr _ Hl H12 Hd Hhd Hcn) as [fin ->].
  unfold readStream. rewrite Z_of_byte_small, Z.eqb_refl by done.
  rewrite (sameEncryption _ _ H12), He, Hks, (sameLabel _ _ H12), Hdec. cbn [negb obind].
  eexists _, _. split; [apply f_equal, surjective_pairing|]. apply handleStreamErr_user.
Qed.

(** C39: A push/pull header with a negative number of nodes crashes a member that
    does not use encryption: the handler of the connection allocates the slice
    before it checks anything. *)
Theorem negative_nodes_panic env its writes cn body (header : pushPullHeader) rest st
    (He : Config.EncryptionEnabled (sconf st) = false) (Hl : Config.Label (sconf st) = EmptyString)
    (Hk : Config.SkipInboundLabelCheck (sconf st) = false) (Hcn : carries cn (byte_of_Z pushPullMsg :: body))
    (Hb : unmarshal body = Some (header, rest)) (Hneg : Nodes header < 0) (Hreq : 0 <= pushPullReq st < 127) :
  handleConn env its writes cn st = Panic "makeslice: len out of range".
Proof.
  rewrite (plain_conn env its writes cn (byte_of_Z pushPullMsg) body st He Hl Hk) by (done || discriminate).
  unfold readCompressed. simpl. unfold handleMessage. simpl. unfold handlePushPull.
  rewrite u32_small by (unfold maxU32; lia). unfold maxPushPullRequests.
  destruct (Z.geb_spec (pushPullReq st + 1) 128); [lia|]. unfold readRemoteState, decodeNext. rewrite Hb.
  unfold makeslice. destruct (Z.ltb_spec (Nodes header) 0); [|lia]. done.
Qed.

(** A compressed message that holds nothing crashes a member that does not use
    encryption: its first byte is taken without a check. *)
Theorem empty_compressed_panic env its writes cn body st
    (He : Config.EncryptionEnabled (sconf st) = false) (Hl : Config.Label (sconf st) = EmptyString)
    (Hk : Config.SkipInboundLabelCheck (sconf st) = false) (Hcn : carries cn (byte_of_Z compressMsg :: body))
    (Hb : marshal (mkCompress lzwAlgo (Lzw.lzwWrite [])) = Some body) :
  handleConn env its writes cn st = Panic "index out of range".
Proof.
  rewrite (plain_conn env its writes cn (byte_of_Z compressMsg) body st He Hl Hk) by (done || discriminate).
  unfold readCompressed, decodeNext. rewrite Z_of_byte_small, Z.eqb_refl by done.
  rewrite <- (app_nil_r body), (unmarshal_marshal _ _ [] Hb).
  unfold decompressBuffer. cbn [Algo Buf]. rewrite Z.eqb_refl. cbn [negb]. by rewrite Lzw.lzwRead_write.
Qed.

(** The limit on pending push/pulls refuses the 128th. *)
Theorem pushPull_127 env its writes buf label st
    (Hreq : pushPullReq st = maxPushPullRequests - 1) :
  handlePushPull env its writes buf label st = Ret (st, []).
Proof. unfold handlePushPull. by rewrite Hreq. Qed.

End Exchange.

(** ** Two concrete members *)

#[local] Existing Instances Queue.listTree Queue.listTree_laws Security.toyAEAD Security.toyAEADLaws.
#[local] Existing Instances countableCodec countableCodec_laws.

#[export] Instance pushNodeState_eq_dec : EqDecision pushNodeState.
Proof. solve_decision. Defined.

#[export] Instance pushNodeState_countable : Countable pushNodeState.
Proof.
  by refine (inj_countable' (fun r => (rName r, rAddr r, rPort r, rMeta r, rIncarnation r, rState r, rVsn r))
    (fun '(a, b, c, d, e, f, g) => mkPush a b c d e f g) _); intros [].
Defined.

#[export] Instance pushPullHeader_eq_dec : EqDecision pushPullHeader.
Proof. solve_decision. Defined.

#[export] Instance pushPullHeader_countable : Countable pushPullHeader.
Proof.
  by refine (inj_countable' (fun h => (Nodes h, UserStateLen h, Join h)) (fun '(a, b, c) => mkPushPullHeader a b c) _);
    intros [].
Defined.

#[export] Instance userMsgHeader_eq_dec : EqDecision userMsgHeader.
Proof. solve_decision. Defined.

#[export] Instance userMsgHeader_countable : Countable userMsgHeader.
Proof. by refine (inj_countable' UserMsgLen mkUserMsgHeader _); intros []. Defined.

#[export] Instance errResp_eq_dec : EqDecision errResp.
Proof. solve_decision. Defined.

#[export] Instance errResp_countable : Countable errResp.
Proof. by refine (inj_countable' Error mkErrResp _); intros []. Defined.

#[local] Instance countable_total {A} `{Countable A} : CodecTotal A.
Proof. intros x. eexists. reflexivity. Qed.

(** Headers with four bytes in front, as the field names of msgpack are. *)
Definition paddedCodec : Codec pushPullHeader := {|
  marshal x := Some ([x01; x01; x01; x01] ++ posBytes (countable.encode x));
  unmarshal b := @unmarshal pushPullHeader countableCodec (drop 4 b)
|}.

Lemma paddedCodec_laws : @CodecLaws pushPullHeader paddedCodec.
Proof. intros x b rest [= <-]. apply (@unmarshal_marshal _ countableCodec countableCodec_laws x _ rest). reflexivity. Qed.

Lemma paddedCodec_total : @CodecTotal pushPullHeader paddedCodec.
Proof. intros x. eexists. reflexivity. Qed.

Lemma padded_long (x : pushPullHeader) b : @marshal _ paddedCodec x = Some b -> 4 <= blen b.
Proof. intros [= <-]. rewrite !blen_cons. pose proof (blen_nonneg (posBytes (countable.encode x))). lia. Qed.

#[local] Existing Instances paddedCodec paddedCodec_laws paddedCodec_total.

Definition exDelegate : Z -> Z -> list bytes := fun _ _ => [].

Definition exSEnv : streamEnv :=
  mkStreamEnv (mkEnv (Acks.mkIdentity Guarantees.xaddr 7946 "a") None (Some exDelegate)) (fun _ => Some [x2a]) None
    (fun _ => EmptyString) (fun _ => false).

Abbreviation XS := (streamState (list (Queue.limitedBroadcast Queue.memberlistBroadcast))).

(** Labelled, encrypting, and not compressing, to keep the evaluation short. *)
Definition exSConf : Config.Config := Config.withSecurity "dc1" (Some exRing) true true false (Config.DefaultLANConfig "a").

(** A member with another configuration; [exList] has the two nodes of [Guarantees]. *)
Definition withConf (c : Config.Config) (m : Memberlist (list (Queue.limitedBroadcast Queue.memberlistBroadcast))) :
    Memberlist (list (Queue.limitedBroadcast Queue.memberlistBroadcast)) :=
  mkMemberlist c (hooks m) (incarnation m) (numNodes m) (leave m) (heap m) (nodes m) (nodeMap m)
    (nodeTimers m) (timers m) (fired m) (pendingDead m) (health m) (broadcasts m) (finished m) (events m).

Definition exList (c : Config.Config) : Memberlist (list (Queue.limitedBroadcast Queue.memberlistBroadcast)) :=
  withConf c Guarantees.x3.

Definition exSt (c : Config.Config) : XS := mkStream (setMl (exList c) (exRt c)) 0 [].

Lemma exSConf_compatible : compatible exSConf exSConf.
Proof. split; [done..|]. intros _. exists [], [demoKey16 x01]. split; [reflexivity|constructor]. Qed.

Lemma exWritable : writable (exSt exSConf).
Proof. split; [done|]. intros _. do 2 eexists. split; reflexivity. Qed.

Lemma exSharable : sharable exSEnv true (exSt exSConf).
Proof.
  split; [exact exWritable|vm_compute; discriminate|vm_compute; discriminate|].
  intros out st' E. vm_compute in E. injection E as <- _. vm_compute. discriminate.
Qed.

Lemma push_pull_exchange_witness :
  exists req st1', requestState exSEnv exTo true (exSt exSConf) = Ret (Ok (req, st1')) /\
    forall cn, carries cn req -> exists resp st2' s, handleConn exSEnv (fun _ => (0, 5000)) true cn (exSt exSConf) = Ret (s, resp) /\
      wrote (exSt exSConf) st2' /\
      receiveState exSEnv resp EOF st1' =
        Ret (Ok (map (withDefaultPort exSConf) (localNodes (exList exSConf)), Some [x2a])) /\
      length (localNodes (exList exSConf)) = 2%nat.
Proof.
  destruct (push_pull_exchange padded_long exSEnv exSEnv (fun _ => (0, 5000)) exTo true (exSt exSConf) (exSt exSConf))
    as (req & st1' & E & W & Hx);
    [reflexivity|vm_compute; discriminate|exact exSConf_compatible|exact exSConf_compatible|exact exSharable|
     exact exSharable|vm_compute; split; [discriminate|reflexivity]|].
  exists req, st1'. split; [exact E|]. intros cn Hcn. destruct (Hx cn Hcn) as (resp & st2' & W2 & Hh & Hr).
  unfold mergeRemoteState in Hh. rewrite (wo_ml _ _ W2) in Hh.
  match type of Hh with context [verifyProtocol ?r ?m] =>
    replace (verifyProtocol r m) with (@Ret bool true) in Hh by (vm_compute; reflexivity) end.
  cbn [obind negb NotifyMerge exSEnv] in Hh.
  match type of Hh with context [mergeState ?r ?m] =>
    destruct (mergeState r m) as [m'|] eqn:Em; [|vm_compute in Em; discriminate Em] end.
  cbn [obind] in Hh.
  eexists resp, st2', _. split; [exact Hh|]. split; [exact W2|]. split; [exact (Hr EOF)|]. reflexivity.
Defined.

Definition exPing : Acks.ping := Acks.mkPing 7 "a" [] 0 EmptyString.

Lemma stream_ping_acked_witness :
  exists req st1', requestPing exTo exPing (exSt exSConf) = Ok (req, st1').
Proof.
  destruct (stream_ping_acked exSEnv exSEnv (fun _ => (0, 5000)) exTo exPing (exSt exSConf) (exSt exSConf))
    as (req & st1' & E & _);
    [reflexivity|vm_compute; discriminate|exact exSConf_compatible|exact exSConf_compatible|exact exWritable|
     exact exWritable|reflexivity| | |exists req, st1'; exact E];
    intros msg Em out st' E; injection Em as <-; vm_compute in E; injection E as <- _; vm_compute; discriminate.
Defined.

Lemma user_msg_delivered_witness :
  exists req st1', sendUserMsg exTo [x01; x02] (exSt exSConf) = Ok (req, st1') /\
    handleConn exSEnv (fun _ => (0, 5000)) true (mkConn [req] EOF) (exSt exSConf) =
      Ret (setRt (addUserMsg [x01; x02] (rt (exSt exSConf))) (exSt exSConf), []).
Proof.
  destruct (user_msg_delivered exSEnv (fun _ => (0, 5000)) true exTo [x01; x02] (exSt exSConf) (exSt exSConf))
    as (req & st1' & E & Hd);
    [reflexivity|vm_compute; discriminate|exact exSConf_compatible|exact exWritable|
     vm_compute; split; [reflexivity|discriminate]|eexists; reflexivity| |].
  - intros msg Em out st' E. injection Em as <-. vm_compute in E. injection E as <- _. vm_compute. discriminate.
  - exists req, st1'. split; [exact E|]. apply Hd. split; [|unfold pending; simpl; apply app_nil_r].
    repeat constructor. intros ->. vm_compute in E. discriminate E.
Defined.

Definition bigBuf : bytes := replicate (Z.to_nat (maxPushStateBytes + 1)) x01.

Lemma bigBuf_length : blen bigBuf = maxPushStateBytes + 1.
Proof. unfold blen, bigBuf. rewrite length_replicate. apply Z2Nat.id. vm_compute. discriminate. Qed.

#[local] Opaque bigBuf.

Lemma large_user_msg_lost_witness :
  exists req st1', sendUserMsg exTo bigBuf (exSt exSConf) = Ok (req, st1').
Proof.
  destruct (large_user_msg_lost exSEnv (fun _ => (0, 5000)) true exTo bigBuf (exSt exSConf) (exSt exSConf))
    as (req & st1' & E & _);
    [reflexivity|vm_compute; discriminate|exact exSConf_compatible|exact exWritable|reflexivity|reflexivity|
     rewrite bigBuf_length; reflexivity| |exists req, st1'; exact E].
  intros h Eh. rewrite bigBuf_length in Eh |- *. injection Eh as <-. vm_compute. discriminate.
Defined.

Lemma negative_nodes_panic_witness :
  exists body, handleConn exSEnv (fun _ => (0, 5000)) true (mkConn [byte_of_Z pushPullMsg :: body] EOF) (exSt exPlain) =
    Panic "makeslice: len out of range".
Proof.
  eexists. eapply (negative_nodes_panic exSEnv (fun _ => (0, 5000)) true _
    ([x01; x01; x01; x01] ++ posBytes (countable.encode (mkPushPullHeader (-1) 0 true))) (mkPushPullHeader (-1) 0 true) [] (exSt exPlain));
    [reflexivity|reflexivity|reflexivity| |vm_compute; reflexivity|reflexivity|vm_compute; split; [discriminate|reflexivity]].
  split; [repeat constructor; discriminate|]. unfold pending. simpl. by rewrite app_nil_r.
Defined.

Lemma empty_compressed_panic_witness :
  exists body, handleConn exSEnv (fun _ => (0, 5000)) true (mkConn [byte_of_Z compressMsg :: body] EOF) (exSt exPlain) =
    Panic "index out of range".
Proof.
  eexists. eapply (empty_compressed_panic exSEnv (fun _ => (0, 5000)) true _ _ (exSt exPlain));
    [reflexivity|reflexivity|reflexivity| |reflexivity].
  split; [repeat constructor; discriminate|]. unfold pending. simpl. by rewrite app_nil_r.
Defined.

Lemma pushPull_127_witness :
  handlePushPull exSEnv (fun _ => (0, 5000)) true [x01] EmptyString (mkStream (exRt exPlain) 127 []) =
    Ret (mkStream (exRt exPlain) 127 [], []).
Proof. apply (pushPull_127 exSEnv (fun _ => (0, 5000)) true [x01] EmptyString (mkStream (exRt exPlain) 127 [])). reflexivity. Defined.

End Exchange.
