(* ===== verification/Lifecycle.v ===== *)
(** * Creating, joining, sending, shutting down (memberlist.go)

    The calls of the library's user that are not membership handlers: checking the
    configuration, [Create], resolving addresses and [Join], the user messages,
    [Leave] and [Shutdown]. The name servers, the transport and the peers are
    parameters. *)

From Stdlib Require Import ZArith Lia Strings.Byte.
From stdpp Require Import tactics base numbers strings gmap list.
From S2P Require Import Prelude Awareness Keyring Compound Label Security Queue Config Addr Members Membership Guarantees Learning Acks Wire Probe Net Delivery Stream Exchange.

Local Open Scope Z_scope.
Local Open Scope go_scope.

Module Lifecycle.

Import Compound Label Security Members Wire Net Delivery Stream Exchange.

Definition MetaMaxSize : Z := 512.

(** ** The configuration *)

Inductive createErr :=
| ErrVersionTooLow
| ErrVersionTooHigh
| ErrKey (e : Keyring.keyErr)
| ErrTwoLoggers
| ErrTransport
| ErrLabelSize
| ErrAdvertise.

Definition withKeyring (k : Keyring.Keyring) (c : Config.Config) : Config.Config :=
  Config.withSecurity (Config.Label c) (Some k) (Config.GossipVerifyIncoming c) (Config.GossipVerifyOutgoing c)
    (Config.EnableCompression c) c.

(** The secret key: a new ring, or the primary key of the given one. *)
Definition setupKeyring (c : Config.Config) : res createErr Config.Config :=
  if blen (Config.SecretKey c) >? 0 then
    match Config.Keyring c with
    | None =>
        match Keyring.NewKeyring [] (Config.SecretKey c) with
        | Err e => Err (ErrKey e)
        | Ok k => Ok (withKeyring k c)
        end
    | Some k =>
        match Keyring.AddKey (Config.SecretKey c) k with
        | Err e => Err (ErrKey e)
        | Ok k =>
            match Keyring.UseKey (Config.SecretKey c) k with
            | Err e => Err (ErrKey e)
            | Ok k => Ok (withKeyring k c)
            end
        end
    end
  else Ok c.

(** [makeNetRetry]: [tries] are the results of [NewNetTransport], one after the
    other; whatever the error, the next try is made. *)
Fixpoint makeNetRetry {A} (limit : nat) (tries : nat -> option A) : option A :=
  match limit with
  | O => None
  | S limit' =>
      match tries O with
      | Some nt => Some nt
      | None => makeNetRetry limit' (fun i => tries (S i))
      end
  end.

Definition retryLimit (c : Config.Config) : nat := if Config.BindPort c =? 0 then 10 else 1.

(** [newMemberlist] up to the transport; [twoLoggers] when both log settings are
    given. *)
Definition checkConfig (twoLoggers : bool) (c : Config.Config) : res createErr Config.Config :=
  if Config.ProtocolVersion c <? Config.ProtocolVersionMin then Err ErrVersionTooLow
  else if Config.ProtocolVersion c >? Config.ProtocolVersionMax then Err ErrVersionTooHigh
  else
    let? c := setupKeyring c in
    if (twoLoggers : bool) then Err ErrTwoLoggers else Ok c.

(** A port chosen by the system replaces the port zero. *)
Definition bindPort (p : Z) (c : Config.Config) : Config.Config :=
  if Config.BindPort c =? 0 then Config.withPorts p p c else c.

(** The check of the label, after the transport. *)
Definition checkLabel (c : Config.Config) : res createErr Config.Config :=
  if slen (Config.Label c) >? LabelMaxSize then Err ErrLabelSize else Ok c.

(** ** Addresses *)

Record ipPort := mkIpPort { ip : bytes; port : Z; nodeName : string }.

(** The records of a name server's answer. *)
Inductive dnsRR :=
| RR_A (a : bytes)
| RR_AAAA (a : bytes)
| RR_CNAME
| RR_other.

(** The name services: the resolver configuration (servers and port), the exchange
    with a server, and Go's resolver; [None] is an error. *)
Record nameServices := mkNames {
  ClientConfigFromFile : option (list bytes * bytes);
  Exchange : bytes -> bytes -> option (list dnsRR);
  LookupIP : bytes -> option (list bytes)
}.

Inductive resolveErr :=
| ErrEmptyNodeName
| ErrSplit
| ErrPort
| ErrLookup.

(** [strconv.ParseUint(s, 10, 16)]. *)
Fixpoint parseDigits (s : bytes) (acc : Z) : option Z :=
  match s with
  | [] => Some acc
  | x :: s' =>
      if Addr.isDigit x then
        let acc := acc * 10 + (Z_of_byte x - 48) in
        if acc >? 65535 then None else parseDigits s' acc
      else None
  end.

Definition ParseUint16 (s : bytes) : option Z := match s with [] => None | _ => parseDigits s 0 end.

Definition answerIPs (port : Z) (name : string) (rrs : list dnsRR) : list ipPort :=
  flat_map (fun r => match r with
                     | RR_A a | RR_AAAA a => [mkIpPort a port name]
                     | RR_CNAME | RR_other => []
                     end) rrs.

Definition tcpLookupIP (ns : nameServices) (host : bytes) (defaultPort : Z) (name : string) : option (list ipPort) :=
  if negb (Addr.has "."%byte host) then Some []
  else
    let dn := if bool_decide (last host = Some "."%byte) then host else host ++ ["."%byte] in
    match ClientConfigFromFile ns with
    | None => None
    | Some ([], _) => Some []
    | Some (server :: _, p) =>
        let server := if Config.hasPort server then server else Config.JoinHostPort server p in
        match Exchange ns server dn with
        | None => None
        | Some rrs => Some (answerIPs defaultPort name rrs)
        end
    end.

(** A leading node name, up to the first slash. *)
Definition splitName (hostStr : bytes) : res resolveErr (string * bytes) :=
  match Addr.indexByte "/"%byte hostStr with
  | None => Ok (EmptyString, hostStr)
  | Some O => Err ErrEmptyNodeName
  | Some i => Ok (string_of_bytes (take i hostStr), drop (S i) hostStr)
  end.

Definition resolveAddr (ns : nameServices) (c : Config.Config) (hostStr : bytes) : res resolveErr (list ipPort) :=
  match splitName hostStr with
  | Err e => Err e
  | Ok (name, hostStr) =>
      match Addr.SplitHostPort (Config.ensurePort hostStr (Config.BindPort c)) with
      | None => Err ErrSplit
      | Some (host, sport) =>
          match ParseUint16 sport with
          | None => Err ErrPort
          | Some port =>
              match Addr.ParseIP host with
              | Some ip => Ok [mkIpPort ip port name]
              | None =>
                  match tcpLookupIP ns host port name with
                  | Some (x :: ips) => Ok (x :: ips)
                  | _ =>
                      match LookupIP ns host with
                      | None => Err ErrLookup
                      | Some ans => Ok (map (fun ip => mkIpPort ip port name) ans)
                      end
                  end
              end
          end
      end
  end.

Section Lifecycle.

Context {T : Type} `{!Queue.BTree Queue.memberlistBroadcast T} `{!AEAD}.
Context `{!Codec alive, !Codec suspect, !Codec dead, !Codec compress}.
Context `{!Codec Acks.ping, !Codec Acks.ackResp}.
Context `{!Codec pushPullHeader, !Codec pushNodeState, !Codec userMsgHeader, !Codec errResp}.

#[local] Existing Instance gossipCodec.

Implicit Types st : streamState T.

(** ** Create *)

(** The delegate's metadata; too long is a panic. *)
Definition checkMeta (meta : bytes) : outcome bytes :=
  if blen meta >? MetaMaxSize then Panic "Node meta data provided is longer than the limit" else Ret meta.

(** The advertised address, which the pings of the member carry. *)
Definition getAdvertise (me : Acks.identity) : bytes * Z := (Acks.advAddr me, Acks.advPort me).

Definition setAdvertise (addr : bytes) (port : Z) (me : Acks.identity) : Acks.identity :=
  Acks.mkIdentity addr (u16 port) (Acks.advName me).

(** [refreshAdvertise]; [advertise] is the transport's [FinalAdvertiseAddr]. *)
Definition refreshAdvertise (advertise : option (bytes * Z)) (me : Acks.identity) : res createErr (bytes * Z) * Acks.identity :=
  match advertise with
  | None => (Err ErrAdvertise, me)
  | Some (addr, port) => (Ok (addr, port), setAdvertise addr port me)
  end.

(** [setAlive]: [advertise] is the transport's [FinalAdvertiseAddr], [goodAddr] the
    address parser of go-sockaddr. *)
Definition announce (advertise : option (bytes * Z)) (goodAddr : bytes -> bool) (meta : bytes) (rnd : Z)
    (now : gotime) (m : Memberlist T) : outcome (res createErr (Memberlist T)) :=
  match advertise with
  | None => Ret (Err ErrAdvertise)
  | Some (addr, port) =>
      if negb (goodAddr (Config.ipString addr)) then Ret (Err ErrAdvertise)
      else
        let! meta := checkMeta meta in
        let! m := setAlive addr (u16 port) meta rnd now m in
        Ret (Ok m)
  end.

(** The member, its background tasks and what was shut down. *)
Record member := mkMember {
  mlist : Memberlist T;
  tasks : Probe.taskState;
  shutdown : bool;
  shutdownChClosed : bool;
  transportDowns : nat
}.

Definition newMember (c : Config.Config) (hk : delegates) : member :=
  mkMember (newMemberlist c hk) (Probe.mkTasks 0 None [] 0) false false 0.

(** [Shutdown]: the transport first, then the channel, then the tasks; closing a
    closed channel would panic. *)
Definition Shutdown (mb : member) : outcome member :=
  if shutdown mb then Ret mb
  else if shutdownChClosed mb then Panic "close of closed channel"
  else Ret (mkMember (mlist mb) (Probe.deschedule (tasks mb)) true true (S (transportDowns mb))).

(** [Create]: a transport that cannot be had, or an address, end it. The goroutines
    that receive messages run from the end of [newMemberlist] on: [early] is what
    they do to the member list before [setAlive]. *)
Definition Create (early : Memberlist T -> Memberlist T) (twoLoggers : bool) (transport : nat -> option Z) (adv1 adv2 : option (bytes * Z))
    (goodAddr : bytes -> bool) (meta : bytes) (rnd : Z) (now : gotime) (hk : delegates) (c : Config.Config) :
    outcome (res createErr member) :=
  match checkConfig twoLoggers c with
  | Err e => Ret (Err e)
  | Ok c =>
      match makeNetRetry (retryLimit c) transport with
      | None => Ret (Err ErrTransport)
      | Some autoPort =>
          match checkLabel (bindPort autoPort c), adv1 with
          | Err e, _ => Ret (Err e)
          | Ok _, None => Ret (Err ErrAdvertise)
          | Ok c, Some _ =>
              let mb := newMember c hk in
              let! r := announce adv2 goodAddr meta rnd now (early (mlist mb)) in
              match r with
              | Err e => let! _ := Shutdown mb in Ret (Err e)
              | Ok m => Ret (Ok (mkMember m (Probe.schedule c (tasks mb)) false false 0))
              end
          end
      end
  end.

(** [LocalNode] takes the address of a field of the entry. *)
Definition LocalNode (m : Memberlist T) : outcome Node :=
  match lookupNode (self m) m with
  | None => Panic "nil pointer dereference"
  | Some (_, s) => Ret (node s)
  end.

Definition GetHealthScore (m : Memberlist T) : Z := Awareness.GetHealthScore (health m).

Definition ProtocolVersion (m : Memberlist T) : Z := Config.ProtocolVersion (config m).

Definition hasShutdown (mb : member) : bool := shutdown mb.

(** The sample that [checkBroadcastQueueDepth] takes at each interval. *)
Definition queueDepth (m : Memberlist T) : Z := Queue.NumQueued (broadcasts m).

(** [Leave] refuses to run after [Shutdown]. *)
Definition LeaveMember (now : gotime) (mb : member) : outcome (member * bool) :=
  if shutdown mb then Panic "leave after shutdown"
  else
    let '(m, wait) := Leave now (mlist mb) in
    Ret (mkMember m (tasks mb) (shutdown mb) (shutdownChClosed mb) (transportDowns mb), wait).

(** [UpdateNode] checks what the delegate says before anything else. *)
Definition UpdateMember (meta : bytes) (notify : nat) (rnd : Z) (now : gotime) (mb : member) : outcome (member * bool) :=
  let! meta := checkMeta meta in
  let! '(m, wait) := UpdateNode meta notify rnd now (mlist mb) in
  Ret (mkMember m (tasks mb) (shutdown mb) (shutdownChClosed mb) (transportDowns mb), wait).

(** ** User messages *)

Definition frameUser (msg : bytes) : bytes := byte_of_Z userMsg :: msg.

Definition SendToAddress (a : Acks.Address) (msg : bytes) (r : runtime T) : res netErr (runtime T) :=
  rawSendMsgPacket a None (frameUser msg) r.

Definition SendBestEffort (to : Node) (msg : bytes) (r : runtime T) : res netErr (runtime T) :=
  rawSendMsgPacket (Acks.mkAddress (nodeAddress to) (Name to)) (Some to) (frameUser msg) r.

Definition SendReliable (to : Node) (msg : bytes) st : res netErr (bytes * streamState T) :=
  sendUserMsg (Probe.FullAddress to) msg st.

(** The deprecated names. *)
Definition SendTo (to msg : bytes) (r : runtime T) : res netErr (runtime T) := SendToAddress (Acks.mkAddress to EmptyString) msg r.

Definition SendToUDP (to : Node) (msg : bytes) (r : runtime T) : res netErr (runtime T) := SendBestEffort to msg r.

Definition SendToTCP (to : Node) (msg : bytes) st : res netErr (bytes * streamState T) := SendReliable to msg st.

(** ** Join *)

Context (env : streamEnv) (ns : nameServices).

(** The peers: the bytes a peer answers to a request and how its stream ends,
    [None] when it cannot be reached. *)
Context (network : Acks.Address -> bytes -> option (bytes * ioErr)).

Inductive joinErr :=
| JResolve (e : resolveErr)
| JSend (e : netErr)
| JDial
| JPeer (e : streamErr).

(** [pushPullNode]; [None] is a nil error. *)
Definition pushPullNode (its : nat -> Z * gotime) (a : Acks.Address) (join : bool) st :
    outcome (streamState T * option joinErr) :=
  let! r := requestState env a join st in
  match r with
  | Err e => Ret (st, Some (JSend e))
  | Ok (req, st) =>
      match network a req with
      | None => Ret (st, Some JDial)
      | Some (resp, fin) =>
          let! '(st, e) := pushPullMerge env its join resp fin st in
          Ret (st, match e with Some e => Some (JPeer e) | None => None end)
      end
  end.

Definition joinAddress (x : ipPort) : Acks.Address :=
  Acks.mkAddress (Config.joinHostPort (Config.ipString (ip x)) (port x)) (nodeName x).

Fixpoint joinAddrs (its : nat -> Z * gotime) (addrs : list ipPort) st (ok : Z) (errs : list joinErr) :
    outcome (streamState T * Z * list joinErr) :=
  match addrs with
  | [] => Ret (st, ok, errs)
  | x :: addrs' =>
      let! '(st, e) := pushPullNode its (joinAddress x) true st in
      match e with
      | Some e => joinAddrs its addrs' st ok (errs ++ [e])
      | None => joinAddrs its addrs' st (ok + 1) errs
      end
  end.

Fixpoint joinHosts (its : nat -> Z * gotime) (existing : list bytes) st (ok : Z)
    (errs : list joinErr) : outcome (streamState T * Z * list joinErr) :=
  match existing with
  | [] => Ret (st, ok, errs)
  | host :: existing' =>
      match resolveAddr ns (sconf st) host with
      | Err e => joinHosts its existing' st ok (errs ++ [JResolve e])
      | Ok addrs =>
          let! '(st, ok, errs) := joinAddrs its addrs st ok errs in joinHosts its existing' st ok errs
      end
  end.

(** [Join]: the number of hosts contacted, and the errors if there was none. *)
Definition Join (its : nat -> Z * gotime) (existing : list bytes) st :
    outcome (streamState T * Z * list joinErr) :=
  let! '(st, ok, errs) := joinHosts its existing st 0 [] in
  Ret (st, ok, if ok >? 0 then [] else errs).

(** ** Lemmas *)

Lemma joinAddrs_count its addrs st ok errs st' ok' errs' :
  joinAddrs its addrs st ok errs = Ret (st', ok', errs') ->
  ok' + Z.of_nat (length errs') = ok + Z.of_nat (length errs) + Z.of_nat (length addrs) /\ ok <= ok'.
Proof.
  revert st ok errs. induction addrs as [|x addrs IH]; intros st ok errs; cbn [joinAddrs].
  - intros [= <- <- <-]. simpl. lia.
  - destruct (pushPullNode its (joinAddress x) true st) as [[st1 [e|]]|]; cbn [obind]; [| |done]; intros E%IH;
      rewrite ?length_app in E; simpl in *; lia.
Qed.

Lemma joinHosts_count its existing st ok errs st' ok' errs' :
  (forall h c, h ∈ existing -> resolveAddr ns c h <> Ok []) ->
  joinHosts its existing st ok errs = Ret (st', ok', errs') ->
  ok + Z.of_nat (length errs) + Z.of_nat (length existing) <= ok' + Z.of_nat (length errs') /\ ok <= ok'.
Proof.
  intros Hres. revert st ok errs. induction existing as [|h existing IH]; intros st ok errs; cbn [joinHosts].
  - intros [= <- <- <-]. simpl. lia.
  - assert (IH' := IH (fun h' c Hh => Hres h' c ltac:(by right))).
    destruct (resolveAddr ns (sconf st) h) as [addrs|e] eqn:Er.
    + destruct (joinAddrs its addrs st ok errs) as [[[st1 ok1] errs1]|] eqn:Ea; [|done]. cbn [obind]. intros E%IH'.
      apply joinAddrs_count in Ea. assert (addrs <> []) by (intros ->; by eapply (Hres h); [left|exact Er]).
      destruct addrs; [done|]. simpl in *. lia.
    + intros E%IH'. rewrite length_app in E. simpl in *. lia.
Qed.

Lemma resolveAddr_nonempty c h :
  (forall host ips, LookupIP ns host = Some ips -> ips <> []) -> resolveAddr ns c h <> Ok [].
Proof.
  intros Hl. unfold resolveAddr. destruct (splitName h) as [[name hs]|]; [|done].
  destruct (Addr.SplitHostPort _) as [[host sport]|]; [|done]. destruct (ParseUint16 sport) as [p|]; [|done].
  destruct (Addr.ParseIP host); [done|].
  assert (Hans : match LookupIP ns host with
    | None => Err ErrLookup | Some ans => Ok (map (fun ip => mkIpPort ip p name) ans) end <> Ok []).
  { destruct (LookupIP ns host) as [ans|] eqn:E; [|done]. intros [= Em%map_eq_nil]. by eapply Hl. }
  destruct (tcpLookupIP ns host p name) as [[|]|]; done.
Qed.

Lemma new_lookup c hk i nm : lookupNode nm (setIncarnation i (newMemberlist (T := T) c hk)) = None.
Proof. unfold lookupNode. simpl. by rewrite lookup_empty. Qed.

Lemma setAlive_blocked addr p meta rnd now hk c :
  Config.IPAllowed c addr = false ->
  setAlive addr p meta rnd now (newMemberlist (T := T) c hk) = Ret (setIncarnation 1 (newMemberlist (T := T) c hk)).
Proof.
  intros Hip. unfold setAlive, localAlive, aliveNode. cbn [nextIncarnation]. change (u32 (incarnation _ + 1)) with 1.
  rewrite new_lookup. cbn [aAddr]. change (config (setIncarnation 1 (newMemberlist (T := T) c hk))) with c. rewrite Hip.
  by repeat case_match.
Qed.

Lemma local_missing c hk : LocalNode (setIncarnation 1 (newMemberlist (T := T) c hk)) = Panic "nil pointer dereference".
Proof. unfold LocalNode. by rewrite new_lookup. Qed.

(** ** Properties *)

(** Joining reports an error exactly when it reached nobody: for a list of hosts
    that is not empty, the number returned is positive if and only if there is no
    error, and with no host reached every host has its error. *)
Theorem Join_reports its existing st st' n errs
    (Hl : forall host ips, LookupIP ns host = Some ips -> ips <> []) (Hne : existing <> [])
    (Hj : Join its existing st = Ret (st', n, errs)) :
  0 <= n /\ (0 < n <-> errs = []) /\ (n = 0 -> (length existing <= length errs)%nat).
Proof.
  unfold Join in Hj. destruct (joinHosts its existing st 0 []) as [[[st1 ok] errs1]|] eqn:E; [|done].
  cbn [obind] in Hj. injection Hj as <- <- <-.
  apply joinHosts_count in E; [|intros h c _; by apply resolveAddr_nonempty]. simpl in E.
  destruct (Z.gtb_spec ok 0) as [Hok|Hok]; [split_and!; [lia|naive_solver|lia]|].
  assert (length existing <> 0)%nat by (by destruct existing).
  split_and!; [lia| |lia]. split; [lia|]. intros ->. simpl in E. lia.
Qed.

(** Shutting down is idempotent and final: the first call stops the transport and
    the tasks, later calls do nothing, and leaving afterwards is a panic. *)
Theorem Shutdown_once now (mb : member)
    (Hinv : shutdownChClosed mb = shutdown mb) (Hup : shutdown mb = false) :
  exists mb', Shutdown mb = Ret mb' /\ Shutdown mb' = Ret mb' /\ transportDowns mb' = S (transportDowns mb) /\
    tasks mb' = Probe.deschedule (tasks mb) /\ LeaveMember now mb' = Panic "leave after shutdown".
Proof. unfold Shutdown. rewrite Hup, Hinv, Hup. eexists. split_and!; reflexivity. Qed.

(** A member whose own address is outside the allowed networks starts without
    an error (here, with no message before its announcement), and asking for its local node then dereferences a nil pointer. *)
Theorem Create_blocked_self transport addr port goodAddr meta rnd now hk c c' adv1
    (Hc : checkConfig false c = Ok c') (Hn : is_Some (makeNetRetry (retryLimit c') transport))
    (Hl : slen (Config.Label c') <= LabelMaxSize) (Hg : goodAddr (Config.ipString addr) = true) (Hm : blen meta <= MetaMaxSize)
    (Hip : Config.IPAllowed c' addr = false) :
  exists mb, Create (fun m => m) false transport (Some adv1) (Some (addr, port)) goodAddr meta rnd now hk c = Ret (Ok mb) /\
    LocalNode (mlist mb) = Panic "nil pointer dereference".
Proof.
  assert (Hb : forall p, checkLabel (bindPort p c') = Ok (bindPort p c') /\ Config.IPAllowed (bindPort p c') addr = false).
  { intros p. unfold checkLabel. replace (Config.Label (bindPort p c')) with (Config.Label c').
    2: { unfold bindPort. by case_match. }
    destruct (Z.gtb_spec (slen (Config.Label c')) LabelMaxSize); [lia|]. split; [done|].
    unfold bindPort. by case_match. }
  unfold Create. rewrite Hc. destruct Hn as [u ->]. destruct (Hb u) as [-> Hip']. unfold announce. rewrite Hg. cbn [negb]. unfold checkMeta.
  destruct (Z.gtb_spec (blen meta) MetaMaxSize); [lia|]. cbn [obind].
  cbn [mlist newMember]. rewrite setAlive_blocked by done. cbn [obind]. eexists. split; [reflexivity|]. apply local_missing.
Qed.

End Lifecycle.

Arguments member : clear implicits.

(** ** The secret key *)

Lemma addKey_ok key k :
  aesKeyOk key = true -> exists k', Keyring.AddKey key k = Ok k' /\ key ∈ Keyring.keys k' /\
    forall x, x ∈ Keyring.keys k -> x ∈ Keyring.keys k'.
Proof.
  intros Hk. unfold Keyring.AddKey.
  replace (Keyring.ValidateKey key) with (Ok (E := Keyring.keyErr) tt).
  2: { revert Hk. unfold Keyring.ValidateKey, aesKeyOk. by destruct (blen key =? 16), (blen key =? 24), (blen key =? 32). }
  destruct (Keyring.installed key k) eqn:Ei; [apply Keyring.installed_spec in Ei; eauto|].
  eexists. split; [reflexivity|]. split; [apply Keyring.elem_of_installKeys; set_solver|].
  intros x Hx. apply Keyring.elem_of_installKeys. set_solver.
Qed.

Lemma addKey_bad key k : aesKeyOk key = false -> Keyring.AddKey key k = Err Keyring.ErrKeySize.
Proof.
  unfold Keyring.AddKey, Keyring.ValidateKey, aesKeyOk.
  by destruct (blen key =? 16), (blen key =? 24), (blen key =? 32).
Qed.

Lemma setupKeyring_ok c :
  Config.SecretKey c <> [] -> aesKeyOk (Config.SecretKey c) = true ->
  exists k, setupKeyring c = Ok (withKeyring k c) /\ head (Keyring.keys k) = Some (Config.SecretKey c) /\
    forall x, x ∈ keysOf c -> x ∈ Keyring.keys k.
Proof.
  intros Hne Hk. unfold setupKeyring, keysOf, Keyring.GetKeys.
  assert (Hpos : 0 < blen (Config.SecretKey c)) by (destruct (Config.SecretKey c); [done|unfold blen; simpl; lia]).
  destruct (Z.gtb_spec (blen (Config.SecretKey c)) 0); [|lia].
  destruct (Config.Keyring c) as [k|].
  - destruct (addKey_ok (Config.SecretKey c) k Hk) as (k1 & -> & Hin%Keyring.installed_spec & Hkeep).
    unfold Keyring.UseKey. rewrite Hin. eexists. split; [reflexivity|]. split; [done|].
    intros x Hx. apply Keyring.elem_of_installKeys. auto.
  - unfold Keyring.NewKeyring. simpl. destruct (Z.ltb_spec 0 (blen (Config.SecretKey c))); [|lia].
    destruct (Z.eqb_spec (blen (Config.SecretKey c)) 0); [lia|].
    unfold Keyring.AddKey. replace (Keyring.ValidateKey (Config.SecretKey c)) with (Ok (E := Keyring.keyErr) tt).
    2: { revert Hk. unfold Keyring.ValidateKey, aesKeyOk.
         by destruct (_ =? 16), (_ =? 24), (_ =? 32). }
    simpl. eexists. split; [reflexivity|]. split; [done|]. set_solver.
Qed.

Lemma setupKeyring_cases c :
  (Config.SecretKey c = [] /\ setupKeyring c = Ok c) \/
  (Config.SecretKey c <> [] /\ aesKeyOk (Config.SecretKey c) = true /\ exists c', setupKeyring c = Ok c') \/
  (Config.SecretKey c <> [] /\ aesKeyOk (Config.SecretKey c) = false /\ setupKeyring c = Err (ErrKey Keyring.ErrKeySize)).
Proof.
  destruct (Config.SecretKey c) as [|x l] eqn:E; [left; unfold setupKeyring; by rewrite E|right].
  destruct (aesKeyOk (x :: l)) eqn:Ek; [left|right].
  - split_and!; [done..|]. rewrite <- E in Ek. destruct (setupKeyring_ok c) as (k & -> & _); [by rewrite E|done|eauto].
  - split_and!; [done..|]. unfold setupKeyring. rewrite E, blen_cons. pose proof (blen_nonneg l).
    destruct (Z.gtb_spec (1 + blen l) 0); [|lia]. destruct (Config.Keyring c); [by rewrite addKey_bad|].
    unfold Keyring.NewKeyring. rewrite blen_cons. destruct (Z.ltb_spec 0 (1 + blen l)); [|lia].
    destruct (Z.eqb_spec (1 + blen l) 0); [lia|]. rewrite orb_true_r. by rewrite addKey_bad.
Qed.

(** The configuration is accepted exactly when its protocol version is one the
    library speaks, its secret key is empty or a valid AES key, and not both log
    settings are given; an accepted secret key is then the primary key, encryption
    is on, and no key of a given ring is lost. *)
Theorem checkConfig_exact twoLoggers c :
  ((exists c', checkConfig twoLoggers c = Ok c') <->
     Config.ProtocolVersionMin <= Config.ProtocolVersion c <= Config.ProtocolVersionMax /\ twoLoggers = false /\
     (Config.SecretKey c = [] \/ aesKeyOk (Config.SecretKey c) = true)) /\
  (forall c', checkConfig twoLoggers c = Ok c' -> Config.SecretKey c <> [] ->
    primaryKey c' = Config.SecretKey c /\ Config.EncryptionEnabled c' = true /\
    forall x, x ∈ keysOf c -> x ∈ keysOf c').
Proof.
  unfold checkConfig. destruct (Z.ltb_spec (Config.ProtocolVersion c) Config.ProtocolVersionMin);
    [split; [split; [by intros []|lia]|done]|].
  destruct (Z.gtb_spec (Config.ProtocolVersion c) Config.ProtocolVersionMax);
    [split; [split; [by intros []|lia]|done]|].
  destruct (setupKeyring_cases c) as [[Hs ->]|[(Hs & Hk & c1 & E)|(Hs & Hk & ->)]]; cbn [rbind].
  - split; [destruct twoLoggers; split; [by intros []|naive_solver|naive_solver lia|eauto]|done].
  - destruct (setupKeyring_ok c Hs Hk) as (k & E' & Hh & Hkeep). rewrite E' in E |- *. cbn [rbind].
    split; [destruct twoLoggers; split; [by intros []|naive_solver|naive_solver lia|eauto]|].
    intros c' E2 _. destruct twoLoggers; [done|]. injection E2 as <-.
    destruct k as [[|k0 ks]]; [done|]. injection Hh as ->. done.
  - split; [split; [by intros []|naive_solver congruence]|done].
Qed.

(** ** Literal addresses *)

Lemma ParseUint16_itoa p : 0 <= p < 65536 -> ParseUint16 (Config.itoa p) = Some p.
Proof.
  intros Hp. pose (P n := match ParseUint16 (Config.itoa n) with Some v => v =? n | None => false end).
  assert (HP : P p = true) by (apply (checkFrom_sound 0 (Z.to_nat 65536) P); [vm_compute; reflexivity|lia]).
  unfold P in HP. destruct (ParseUint16 _); [|done]. by apply Z.eqb_eq in HP as ->.
Qed.

Lemma literal_resolves ns c name ip4 p :
  name <> EmptyString -> ~ "/"%byte ∈ bytes_of_string name -> length ip4 = 4%nat -> 0 <= p < 65536 ->
  resolveAddr ns c (bytes_of_string name ++ "/"%byte :: Config.joinHostPort (Config.ipString ip4) p) =
    Ok [mkIpPort (Addr.v4InV6 ip4) p name].
Proof.
  intros Hname Hslash Hip Hp. set (hp := Config.joinHostPort (Config.ipString ip4) p).
  assert (Hb : ~ "["%byte ∈ Config.ipString ip4) by (by apply Addr.v4String_notin).
  assert (Hb2 : ~ "]"%byte ∈ Config.ipString ip4) by (by apply Addr.v4String_notin).
  unfold resolveAddr, splitName. rewrite Addr.indexByte_app by done.
  destruct (length (bytes_of_string name)) as [|n] eqn:El.
  { rewrite length_bytes_of_string in El. by destruct name. }
  rewrite <- El, take_app_length, bytes_string_id.
  replace (S (length (bytes_of_string name))) with (length (bytes_of_string name ++ ["/"%byte]))
    by (rewrite length_app; simpl; lia).
  replace (bytes_of_string name ++ "/"%byte :: hp) with ((bytes_of_string name ++ ["/"%byte]) ++ hp)
    by (by rewrite <- app_assoc).
  rewrite drop_app_length. unfold Config.ensurePort, hp, Config.joinHostPort.
  rewrite Config.hasPort_join by done. fold (Config.joinHostPort (Config.ipString ip4) p).
  rewrite Addr.split_join, ParseUint16_itoa by done. unfold Addr.ParseIP. by rewrite Addr.ParseAddr_v4.
Qed.

(** A host given as a node name and a literal IPv4 address resolves to just that,
    whatever the name services say, and is dialled under the address it was
    written as. *)
Theorem resolve_literal ns c name ip4 p
    (Hname : name <> EmptyString) (Hslash : ~ "/"%byte ∈ bytes_of_string name)
    (Hip : length ip4 = 4%nat) (Hp : 0 <= p < 65536) :
  let hp := Config.joinHostPort (Config.ipString ip4) p in
  resolveAddr ns c (bytes_of_string name ++ "/"%byte :: hp) = Ok [mkIpPort (Addr.v4InV6 ip4) p name] /\
  joinAddress (mkIpPort (Addr.v4InV6 ip4) p name) = Acks.mkAddress hp name.
Proof.
  intros hp. split; [by apply literal_resolves|].
  unfold joinAddress, hp. simpl. do 2 f_equal. destruct ip4 as [|x [|y [|z [|w [|]]]]]; done.
Qed.

Lemma resolve_literal_witness :
  resolveAddr (mkNames None (fun _ _ => None) (fun _ => None)) (Config.DefaultLANConfig "a")
    (bytes_of_string "b/10.1.2.3:7946") = Ok [mkIpPort (Addr.v4InV6 Addr.exIP) 7946 "b"].
Proof.
  apply (resolve_literal (mkNames None (fun _ _ => None) (fun _ => None)) (Config.DefaultLANConfig "a") "b" Addr.exIP 7946);
    [discriminate| |reflexivity|lia].
  apply not_elem_of_cons. split; [discriminate|]. apply not_elem_of_nil.
Defined.

(** ** Joining a cluster *)

Section JoinPeer.

Context {T : Type} `{!Queue.BTree Queue.memberlistBroadcast T} `{!AEAD} `{!AEADLaws}.
Context `{!Codec alive, !Codec suspect, !Codec dead, !Codec compress}.
Context `{!Codec Acks.ping, !Codec Acks.ackResp}.
Context `{!Codec pushPullHeader, !Codec pushNodeState, !Codec userMsgHeader, !Codec errResp}.
Context `{!CodecLaws compress, !CodecLaws pushPullHeader, !CodecLaws pushNodeState, !CodecLaws userMsgHeader}.
Context `{!CodecLaws Acks.ping, !CodecLaws Acks.ackResp}.
Context `{!CodecTotal pushPullHeader, !CodecTotal pushNodeState}.
Context (header_long : forall (x : pushPullHeader) b, marshal x = Some b -> 4 <= blen b).

#[local] Existing Instance gossipCodec.

(** A network with one peer, which handles the connection with [handleConn]. *)
Definition onePeer (env2 : streamEnv) (its2 : nat -> Z * gotime) (st2 : streamState T) :
    Acks.Address -> bytes -> option (bytes * ioErr) :=
  fun _ req =>
    match handleConn env2 its2 true (mkConn [req] EOF) st2 with
    | Ret (_, resp) => Some (resp, EOF)
    | Panic _ => None
    end.

(** What the two sides merge: the other's nodes and user state. *)
Definition mergesFrom (env1 env2 : streamEnv) (join : bool) (its : nat -> Z * gotime) (st2 st1 : streamState T) :
    outcome (streamState T * option streamErr) :=
  mergeRemoteState env1 its join (map (withDefaultPort (sconf st1)) (localNodes (ml (rt st2))))
    (received (userData env2 join)) st1.

(** The entries have a port of their own, so that the receiver does not fill it in. *)
Definition portsKept (c : Config.Config) (m : Memberlist T) : Prop :=
  2 <= Config.ProtocolVersion c /\ Forall (fun r => rPort r <> 0) (localNodes m).

Lemma portsKept_sent c its (m : Memberlist T) :
  portsKept c m -> Learning.sentBy m (timed its (map (withDefaultPort c) (localNodes m))).
Proof.
  intros [Hv Hp]. unfold Learning.sentBy, timed. rewrite <- (map_id (localNodes m)) at 2.
  assert (E : map (withDefaultPort c) (localNodes m) = localNodes m).
  { induction Hp as [|r l Hr _ IH]; [done|]. simpl. rewrite IH. f_equal. unfold withDefaultPort.
    destruct (Z.ltb_spec (Config.ProtocolVersion c) 2); [lia|]. by destruct (Z.eqb_spec (rPort r) 0). }
  rewrite E. clear E Hp. generalize (localNodes m) as l. intros l. revert its. induction l as [|r l IH]; intros its; [done|].
  rewrite imap_cons. cbn [map]. f_equal. apply (IH (fun i => its (S i))).
Qed.

(** A merge without an error teaches what the peer knows. *)
Lemma merged_learns env1 env2 join its (st1 st2 st1' s : streamState T) :
  Membership.inv (ml (rt st1)) -> Membership.inv (ml (rt st2)) -> Learning.unsigned (ml (rt st2)) ->
  portsKept (sconf st1) (ml (rt st2)) -> wrote st1 st1' ->
  mergesFrom env1 env2 join its st2 st1' = Ret (s, None) -> Learning.learned (ml (rt st1)) (ml (rt st2)) (ml (rt s)).
Proof.
  intros I1 I2 Hu Hp W. unfold mergesFrom, mergeRemoteState. rewrite (wo_ml _ _ W), (wo_conf _ _ W).
  destruct (verifyProtocol _ _) as [[]|]; [|done..]. cbn [obind negb].
  destruct (match NotifyMerge env1 with Some _ => _ | None => _ end) as [[]|]; [|done..]. cbn [obind negb].
  destruct (mergeState _ _) as [m|] eqn:Em; [|done]. cbn [obind]. intros [= <-].
  replace (ml (rt (match _ with Some _ => _ | None => _ end))) with m by (by repeat case_match).
  eapply Learning.merge_learns; [done..| |exact Em]. by apply portsKept_sent.
Qed.

(** A merge without a delegate succeeds when the versions fit and no entry makes
    [mergeState] panic. *)
Lemma merges_ok env1 env2 join its (st1 st2 st' : streamState T) :
  NotifyMerge env1 = None ->
  verifyProtocol (map (withDefaultPort (sconf st1)) (localNodes (ml (rt st2)))) (ml (rt st1)) = Ret true ->
  match mergeState (timed its (map (withDefaultPort (sconf st1)) (localNodes (ml (rt st2))))) (ml (rt st1)) with
  | Ret _ => true | Panic _ => false end = true ->
  wrote st1 st' -> exists s, mergesFrom env1 env2 join its st2 st' = Ret (s, None).
Proof.
  intros Hn Hv Hm W. unfold mergesFrom, mergeRemoteState. rewrite (wo_ml _ _ W), (wo_conf _ _ W), Hv, Hn. cbn [obind negb].
  destruct (mergeState _ _) as [m|]; [|done]. cbn [obind]. by eexists.
Qed.

(** A push/pull with a compatible peer: the caller has merged the peer's state, and
    knows what the peer knew. *)
Lemma pushPullNode_syncs env1 env2 network its its2 a join (st1 st2 : streamState T)
    (Hnm : nameMissing a st1 = false) (Hnet : forall req, network a req = onePeer env2 its2 st2 a req)
    (Hl : slen (Config.Label (sconf st1)) <= LabelMaxSize)
    (H12 : compatible (sconf st1) (sconf st2)) (H21 : compatible (sconf st2) (sconf st1))
    (Hs1 : sharable env1 join st1) (Hs2 : sharable env2 join st2) (Hreq : 0 <= pushPullReq st2 < 127)
    (Hi1 : Membership.inv (ml (rt st1))) (Hi2 : Membership.inv (ml (rt st2))) (Hu : Learning.unsigned (ml (rt st2)))
    (Hports : portsKept (sconf st1) (ml (rt st2)))
    (Hm2 : forall st', wrote st2 st' -> exists r, mergesFrom env2 env1 join its2 st1 st' = Ret r)
    (Hm1 : forall st', wrote st1 st' -> exists s, mergesFrom env1 env2 join its st2 st' = Ret (s, None)) :
  exists st1' s, wrote st1 st1' /\ mergesFrom env1 env2 join its st2 st1' = Ret (s, None) /\
    Learning.learned (ml (rt st1)) (ml (rt st2)) (ml (rt s)) /\ pushPullNode env1 network its a join st1 = Ret (s, None).
Proof.
  destruct (exchange_complete header_long env1 env2 its2 a join st1 st2 Hnm Hl H12 H21 Hs1 Hs2 Hreq)
    as (req & st1' & Er & W1 & Hx).
  assert (Hne : req <> []).
  { intros ->. unfold requestState in Er. rewrite Hnm in Er. destruct (dial_ok st1 Hl) as [hdr Hd]. rewrite Hd in Er.
    destruct (local_state_sent header_long env1 env2 (sconf st2) join st1 Hs1 H12) as (out & s' & E & _ & (b & r & -> & _) & _).
    rewrite E in Er. cbn [obind] in Er. injection Er as Eo _. by destruct hdr. }
  destruct (Hx (mkConn [req] EOF)) as (resp & st2' & W2 & Hh & Hr).
  { split; [by repeat constructor|]. unfold pending. simpl. apply app_nil_r. }
  destruct (Hm2 st2' W2) as [[s2 e2] E2]. destruct (Hm1 st1' W1) as [s E1].
  exists st1', s. split_and!; [done..|by eapply merged_learns|].
  unfold mergesFrom in E1, E2. rewrite (wo_conf _ _ W1) in E1. rewrite (wo_conf _ _ W2) in E2.
  rewrite E2 in Hh. cbn [obind] in Hh.
  unfold pushPullNode. rewrite Er. cbn [obind]. rewrite Hnet. unfold onePeer. rewrite Hh. unfold pushPullMerge. rewrite Hr.
  cbn [obind]. by rewrite E1.
Qed.

(** C10: Joining synchronises: a member that joins through a literal address of a
    compatible peer reports one host contacted and no error, its state is its own
    merged with exactly the node states and user state the peer sends, provided
    both sides can merge what the other sends, and every node it did not know, may
    accept, and the peer knows alive is alive for it as well, with the same
    incarnation and data (for protocol version 2 or later and no port 0 among
    them). *)
Theorem join_syncs env1 env2 ns its its2 name ip4 p (st1 st2 : streamState T)
    (Hname : name <> EmptyString) (Hslash : ~ "/"%byte ∈ bytes_of_string name)
    (Hip : length ip4 = 4%nat) (Hp : 0 <= p < 65536)
    (Hl : slen (Config.Label (sconf st1)) <= LabelMaxSize)
    (H12 : compatible (sconf st1) (sconf st2)) (H21 : compatible (sconf st2) (sconf st1))
    (Hs1 : sharable env1 true st1) (Hs2 : sharable env2 true st2) (Hreq : 0 <= pushPullReq st2 < 127)
    (Hi1 : Membership.inv (ml (rt st1))) (Hi2 : Membership.inv (ml (rt st2))) (Hu : Learning.unsigned (ml (rt st2)))
    (Hports : portsKept (sconf st1) (ml (rt st2)))
    (Hm2 : forall st', wrote st2 st' -> exists r, mergesFrom env2 env1 true its2 st1 st' = Ret r)
    (Hm1 : forall st', wrote st1 st' -> exists s, mergesFrom env1 env2 true its st2 st' = Ret (s, None)) :
  exists st1' s, wrote st1 st1' /\ mergesFrom env1 env2 true its st2 st1' = Ret (s, None) /\
    Learning.learned (ml (rt st1)) (ml (rt st2)) (ml (rt s)) /\
    Join env1 ns (onePeer env2 its2 st2) its
      [bytes_of_string name ++ "/"%byte :: Config.joinHostPort (Config.ipString ip4) p] st1 = Ret (s, 1, []).
Proof.
  set (a := joinAddress (mkIpPort (Addr.v4InV6 ip4) p name)).
  assert (Hnm : nameMissing a st1 = false) by (unfold nameMissing; by rewrite bool_decide_eq_false_2).
  destruct (pushPullNode_syncs env1 env2 (onePeer env2 its2 st2) its its2 a true st1 st2) as (st1' & s & ? & ? & ? & Hpp); [done..|].
  exists st1', s. split_and!; [done..|].
  unfold Join. cbn [joinHosts]. rewrite (literal_resolves ns (sconf st1) name ip4 p) by done. cbn [joinAddrs].
  fold a. by rewrite Hpp.
Qed.

End JoinPeer.

(** ** Witnesses *)

#[local] Existing Instances Queue.listTree Queue.listTree_laws Security.toyAEAD Security.toyAEADLaws.
#[local] Existing Instances countableCodec countableCodec_laws Exchange.countable_total.
#[local] Existing Instances paddedCodec paddedCodec_laws paddedCodec_total.

Definition exNames : nameServices := mkNames None (fun _ _ => None) (fun _ => None).

(** A member that knows of no node yet. *)
Definition exAlone : XS := mkStream (exRt exSConf) 0 [].

Lemma Join_reports_witness :
  exists st' n errs, Join exSEnv exNames (fun _ _ => None) (fun _ => (0, 5000)) [bytes_of_string "b/10.1.2.3:7946"] exAlone =
    Ret (st', n, errs) /\ n = 0 /\ errs <> [].
Proof.
  destruct (Join exSEnv exNames (fun _ _ => None) (fun _ => (0, 5000)) [bytes_of_string "b/10.1.2.3:7946"] exAlone)
    as [[[st' n] errs]|] eqn:E; [|vm_compute in E; discriminate E].
  exists st', n, errs. split; [reflexivity|].
  destruct (Join_reports exSEnv exNames (fun _ _ => None) (fun _ => (0, 5000)) [bytes_of_string "b/10.1.2.3:7946"]
    exAlone st' n errs) as (_ & Hiff & _); [discriminate|discriminate|exact E|].
  assert (Hn : n = 0) by (vm_compute in E; injection E as _ <- _; reflexivity).
  split; [exact Hn|]. intros He. apply Hiff in He. lia.
Defined.

Abbreviation XM := (member (list (Queue.limitedBroadcast Queue.memberlistBroadcast))).

Definition exMember : XM :=
  mkMember Guarantees.x3 (Probe.schedule Guarantees.xconf Probe.exTasks) false false 0.

Lemma Shutdown_once_witness :
  exists mb', Shutdown exMember = Ret mb' /\ Shutdown mb' = Ret mb' /\ transportDowns mb' = 1%nat /\
    tasks mb' = Probe.deschedule (tasks exMember) /\ LeaveMember 5000 mb' = Panic "leave after shutdown".
Proof. apply (Shutdown_once 5000 exMember); reflexivity. Defined.

(** Only addresses in 10.0.0.0/8 are allowed, the member is at 192.0.2.1. *)
Definition exBlocked : Config.Config :=
  Config.withCIDRs [Config.mkIPNet ["010"; "000"; "000"; "000"]%byte ["255"; "000"; "000"; "000"]%byte]
    (Config.DefaultLANConfig "a").

Lemma Create_blocked_self_witness :
  exists mb : XM, Create (fun m => m) false (fun _ => Some 7946) (Some (["192"; "000"; "002"; "001"]%byte, 7946))
      (Some (["192"; "000"; "002"; "001"]%byte, 7946)) (fun _ => true) [] 0 1000 Guarantees.xhooks exBlocked = Ret (Ok mb) /\
    LocalNode (mlist mb) = Panic "nil pointer dereference".
Proof.
  apply (Create_blocked_self (fun _ => Some 7946) ["192"; "000"; "002"; "001"]%byte 7946 (fun _ => true) [] 0 1000
    Guarantees.xhooks exBlocked exBlocked); [reflexivity|eexists; reflexivity|vm_compute; discriminate|reflexivity|vm_compute; discriminate|reflexivity].
Defined.

(** The member [c] of [Learning], as the peer of a join. *)
Definition exCConf : Config.Config := Config.withSecurity "dc1" (Some exRing) true true false (Config.DefaultLANConfig "c").
Definition exC : XS := mkStream (setMl (withConf exCConf Learning.y3) (exRt exCConf)) 0 [].

Lemma exC_compatible : compatible exSConf exCConf /\ compatible exCConf exSConf.
Proof.
  split; (split; [done..|]); intros _; exists [], [demoKey16 x01]; (split; [reflexivity|constructor]).
Qed.

Lemma exC_sharable : sharable exSEnv true exC.
Proof.
  split; [split; [done|]|vm_compute; discriminate|vm_compute; discriminate|].
  - intros _. do 2 eexists. split; reflexivity.
  - intros out st' E. vm_compute in E. injection E as <- _. vm_compute. discriminate.
Qed.

Lemma inv_withConf c m : Membership.inv m -> Config.Name c = self m -> Membership.inv (withConf c m).
Proof.
  intros [[W1 W2 W3 W4] I2 I3 I4] Hn. split; [by split|exact I2|exact I3|].
  change (self (withConf c m)) with (Config.Name c). rewrite Hn. exact I4.
Qed.

(** [a], which knows [b], joins through [c] and learns about it. *)
Lemma join_syncs_witness :
  exists st1' s, wrote (exSt exSConf) st1' /\
    Join exSEnv exNames (onePeer exSEnv (fun _ => (0, 5000)) exC) (fun _ => (0, 6000))
      [bytes_of_string "c/10.1.2.3:7946"] (exSt exSConf) = Ret (s, 1, []) /\
    exists st, Membership.view (ml (rt s)) !! "c" = Some st /\ State st = StateAlive.
Proof.
  destruct (join_syncs padded_long exSEnv exSEnv exNames (fun _ => (0, 6000)) (fun _ => (0, 5000)) "c" Addr.exIP 7946
    (exSt exSConf) exC) as (st1' & s & W & _ & Hlearn & J).
  - discriminate.
  - apply not_elem_of_cons. split; [discriminate|]. apply not_elem_of_nil.
  - reflexivity.
  - lia.
  - vm_compute. discriminate.
  - apply exC_compatible.
  - apply exC_compatible.
  - exact exSharable.
  - exact exC_sharable.
  - vm_compute. split; [discriminate|reflexivity].
  - apply inv_withConf; [exact (Guarantees.reachable_inv _ _ _ Guarantees.x3_reachable)|reflexivity].
  - apply inv_withConf; [exact (Guarantees.reachable_inv _ _ _ Learning.y3_reachable)|reflexivity].
  - refine (bool_decide_unpack (map_Forall (fun _ st => 0 <= Incarnation st) (Membership.view (withConf exCConf Learning.y3))) _).
    vm_compute. exact I.
  - split; [vm_compute; discriminate|]. vm_compute. repeat constructor; discriminate.
  - intros st' W. destruct (merges_ok exSEnv exSEnv true (fun _ => (0, 5000)) exC (exSt exSConf) st') as [s E];
      [reflexivity|vm_compute; reflexivity|vm_compute; reflexivity|exact W|]. exists (s, None). exact E.
  - intros st' W. apply (merges_ok exSEnv exSEnv true (fun _ => (0, 6000)) (exSt exSConf) exC st');
      [reflexivity|vm_compute; reflexivity|vm_compute; reflexivity|exact W].
  - exists st1', s. split; [exact W|]. split; [exact J|].
    destruct (Hlearn "c" (mkNodeState (mkNode "c" Learning.caddr 7946 [] 0 1 5 2 0 0 0) 1 StateAlive 1000)) as (st & Hst & Hb & _);
      [discriminate|vm_compute; reflexivity|vm_compute; reflexivity|reflexivity|reflexivity|split; reflexivity|reflexivity|].
    exists st. split; [exact Hst|]. by injection Hb.
Defined.

End Lifecycle.
