(* ===== verification/Background.v ===== *)
(** * The background tasks (state.go)

    What [schedule] starts: [triggerFunc], which calls [probe] and [gossip] at each
    tick, and [pushPullTrigger], which calls [pushPull] at an interval that grows
    with the cluster. The goroutines are step relations; a [select] with several
    ready cases takes any of them. *)

From Stdlib Require Import ZArith Lia Strings.Byte.
From stdpp Require Import tactics base numbers strings gmap list relations.
From S2P Require Import Prelude Timing Compound Label Security Queue Config Addr Members Membership Guarantees Learning Acks Wire Probe Net Delivery Stream Exchange Lifecycle.

Local Open Scope Z_scope.
Local Open Scope go_scope.

Module Background.

(** ** Staggering *)

(** [time.Duration(uint64(rand.Int63()) % uint64(stagger))]; [r] is the random
    number. *)
Definition randStagger (r stagger : Z) : duration := i64 (u64 r mod u64 stagger).

Lemma randStagger_range r stagger :
  0 <= r <= maxI64 -> 0 < stagger <= maxI64 -> 0 <= randStagger r stagger < stagger.
Proof.
  unfold maxI64. intros Hr Hs. unfold randStagger, u64. rewrite !wrapU_small by lia.
  pose proof (Z.mod_pos_bound r stagger ltac:(lia)). rewrite i64_small; [done|]. unfold minI64, maxI64. lia.
Qed.

(** ** triggerFunc *)

(** Where it is: in the first [select], in the loop's [select], in [f], or returned. *)
Inductive trigPc := Staggering | Selecting | Calling | Ended.

(** A goroutine with its ticker: a ticker's channel holds at most one tick; [calls]
    counts the calls of [f] and [ticks] what the ticker sent. *)
Record task := mkTask { tickerOn : bool; pending : bool; pc : trigPc; calls : nat; ticks : nat }.

Definition newTask : task := mkTask true false Staggering 0 0.

(** One step of the goroutine or of its ticker; [stop] tells whether the stop channel
    is closed. *)
Inductive triggerFunc (stop : bool) : task -> task -> Prop :=
| t_stagger on p c k : triggerFunc stop (mkTask on p Staggering c k) (mkTask on p Selecting c k)
| t_staggerStop on p c k : stop = true -> triggerFunc stop (mkTask on p Staggering c k) (mkTask on p Ended c k)
| t_call on c k : triggerFunc stop (mkTask on true Selecting c k) (mkTask on false Calling (S c) k)
| t_return on p c k : triggerFunc stop (mkTask on p Calling c k) (mkTask on p Selecting c k)
| t_stop on p c k : stop = true -> triggerFunc stop (mkTask on p Selecting c k) (mkTask on p Ended c k)
| t_tick p pc c k : triggerFunc stop (mkTask true p pc c k) (mkTask true true pc c (S k)).

(** All tasks, and [deschedule]: it closes the channel, then stops each ticker. *)
Record background := mkBackground { stopClosed : bool; tasks : list task }.

Definition stopTicker (t : task) : task := mkTask false (pending t) (pc t) (calls t) (ticks t).

Inductive bgStep : background -> background -> Prop :=
| bg_task b i t t' : tasks b !! i = Some t -> triggerFunc (stopClosed b) t t' ->
    bgStep b (mkBackground (stopClosed b) (<[i := t']> (tasks b)))
| bg_close b : stopClosed b = false -> bgStep b (mkBackground true (tasks b))
| bg_stopTicker b i t : tasks b !! i = Some t -> stopClosed b = true -> tickerOn t = true ->
    bgStep b (mkBackground true (<[i := stopTicker t]> (tasks b))).

Definition started (n : nat) : background := mkBackground false (replicate n newTask).

(** *** Calls follow ticks *)

Definition taskOk (t : task) : Prop := (calls t + (if pending t then 1 else 0) <= ticks t)%nat.

Lemma trigger_ok stop t t' : triggerFunc stop t t' -> taskOk t -> taskOk t'.
Proof. unfold taskOk. destruct 1; simpl; repeat case_match; simplify_eq; lia. Qed.

Lemma bg_ok b b' : bgStep b b' -> Forall taskOk (tasks b) -> Forall taskOk (tasks b').
Proof.
  intros [b1 i t t' Hi Ht|b1 _|b1 i t Hi _ _] Hb; simpl; [|done|]; apply Forall_insert; try done.
  - eapply trigger_ok; [exact Ht|]. by eapply Forall_lookup_1.
  - pose proof (Forall_lookup_1 _ _ _ _ Hb Hi) as Ht. exact Ht.
Qed.

Lemma bg_reachable_ok n b : rtc bgStep (started n) b -> Forall taskOk (tasks b).
Proof.
  apply (rtc_ind_r (R := bgStep) (fun b => Forall taskOk (tasks b)) (started n)).
  - apply Forall_replicate. unfold taskOk. simpl. lia.
  - intros b1 b2 _ Hs IH. by eapply bg_ok.
Qed.

(** *** Ending *)

(** [deschedule] has returned. *)
Definition descheduled (b : background) : Prop := stopClosed b = true /\ Forall (fun t => tickerOn t = false) (tasks b).

(** The steps a task can still make without its ticker, and the calls among them. *)
Definition stepsLeft (t : task) : nat :=
  let p := if pending t then 2%nat else 0%nat in
  match pc t with Ended => 0 | Selecting => 1 + p | Staggering | Calling => 2 + p end.

Definition totalCalls (b : background) : nat := sum_list_with calls (tasks b).

Definition pendingTicks (b : background) : nat := sum_list_with (fun t => if pending t then 1 else 0)%nat (tasks b).

(** After [deschedule], every step brings the tasks closer to their end, and a call
    uses up a tick. *)
Lemma descheduled_step b b' :
  descheduled b -> bgStep b b' -> descheduled b' /\ length (tasks b') = length (tasks b) /\
    (sum_list_with stepsLeft (tasks b') < sum_list_with stepsLeft (tasks b))%nat /\
    (totalCalls b' + pendingTicks b' <= totalCalls b + pendingTicks b)%nat.
Proof.
  intros [Hc Ht] Hs. destruct Hs as [b i t t' Hi Hs|b Hb|b i t Hi _ Hon]; [|congruence|].
  2: { eapply Forall_lookup_1 in Ht; [|done]. congruence. }
  pose proof (Forall_lookup_1 _ _ _ _ Ht Hi) as Hoff. simpl in Hoff.
  assert (Ht' : tickerOn t' = false /\ (stepsLeft t' < stepsLeft t)%nat /\
    (calls t' + (if pending t' then 1 else 0) <= calls t + (if pending t then 1 else 0))%nat).
  { unfold stepsLeft. destruct Hs; simpl in *; repeat case_match; simplify_eq; split_and!; try done; lia. }
  destruct Ht' as (Hoff' & Hlt & Hcalls).
  pose proof (sum_insert stepsLeft _ i t t' Hi). pose proof (sum_insert calls _ i t t' Hi).
  pose proof (sum_insert (fun t => if pending t then 1 else 0)%nat _ i t t' Hi). unfold totalCalls, pendingTicks. simpl in *.
  split_and!; [split; [done|by apply Forall_insert]|apply length_insert|lia|lia].
Qed.

Lemma descheduled_steps k b b' :
  descheduled b -> nsteps bgStep k b b' -> descheduled b' /\
    (k + sum_list_with stepsLeft (tasks b') <= sum_list_with stepsLeft (tasks b))%nat /\
    (totalCalls b' + pendingTicks b' <= totalCalls b + pendingTicks b)%nat.
Proof.
  intros Hd Hk. induction Hk as [b|k b b1 b2 Hs _ IH]; [split_and!; [done|lia|lia]|].
  destruct (descheduled_step b b1 Hd Hs) as (Hd1 & _ & Hlt & Hc). destruct (IH Hd1) as (? & ? & ?). split_and!; [done|lia|lia].
Qed.

Lemma stepsLeft_bound (l : list task) : (sum_list_with stepsLeft l <= 4 * length l)%nat.
Proof. induction l as [|t l IH]; simpl; [lia|]. unfold stepsLeft at 1. repeat case_match; lia. Qed.

Lemma pending_bound b : (pendingTicks b <= length (tasks b))%nat.
Proof. unfold pendingTicks. induction (tasks b) as [|t l IH]; simpl; [lia|]. case_match; lia. Qed.

Lemma bg_length b b' : rtc bgStep b b' -> length (tasks b') = length (tasks b).
Proof. induction 1 as [|b b1 b2 Hs _ IH]; [done|]. rewrite IH. destruct Hs; simpl; by rewrite ?length_insert. Qed.

(** C30: The tasks that [triggerFunc] runs, probing and gossip, run with their
    tickers and end with [deschedule]: a task is called at most once for each
    tick; after [deschedule] the tasks make at most four more steps each and at
    most one more call each, and they can only come to rest when all have
    returned. *)
Theorem background_ends n b (Hr : rtc bgStep (started n) b) :
  (forall t, t ∈ tasks b -> (calls t <= ticks t)%nat) /\
  (descheduled b -> forall k b', nsteps bgStep k b b' -> (k <= 4 * n)%nat /\ (totalCalls b' <= totalCalls b + n)%nat) /\
  (descheduled b -> (forall b', ~ bgStep b b') -> Forall (fun t => pc t = Ended) (tasks b)).
Proof.
  pose proof (bg_length _ _ Hr) as Hlen. unfold started in Hlen. cbn [tasks] in Hlen. rewrite length_replicate in Hlen. split_and!.
  - intros t Ht. pose proof (bg_reachable_ok n b Hr) as Hok. rewrite Forall_forall in Hok. specialize (Hok t Ht). unfold taskOk in Hok. lia.
  - intros Hd k b' Hk. destruct (descheduled_steps k b b' Hd Hk) as (_ & Hs & Hc).
    pose proof (stepsLeft_bound (tasks b)). pose proof (pending_bound b). split; lia.
  - intros [Hc _] Hrest. apply Forall_lookup. intros i t Hi. destruct t as [on p q c k]. destruct q; simpl; [..|done]; exfalso.
    + eapply Hrest, bg_task; [exact Hi|apply t_stagger].
    + eapply Hrest, bg_task; [exact Hi|by apply t_stop].
    + eapply Hrest, bg_task; [exact Hi|apply t_return].
Qed.

(** ** pushPullTrigger *)

(** Waiting for the stagger or the tick until some time, in [pushPull], or returned. *)
Inductive ppPc := PStagger (until : gotime) | PTick (until : gotime) | PCalling | PEnded.

(** [at_] are the times at which [pushPull] was called. *)
Record ppState := mkPP { clock : gotime; ppc : ppPc; at_ : list gotime }.

Definition startPP (interval r : Z) (now : gotime) : ppState := mkPP now (PStagger (now + randStagger r interval)) [].

(** [estNumNodes] is the count of nodes at each time. *)
Inductive pushPullTrigger (interval : duration) (estNumNodes : gotime -> Z) (stop : bool) : ppState -> ppState -> Prop :=
| p_time c q l d : 0 <= d -> pushPullTrigger interval estNumNodes stop (mkPP c q l) (mkPP (c + d) q l)
| p_stagger c u l : u <= c ->
    pushPullTrigger interval estNumNodes stop (mkPP c (PStagger u) l)
      (mkPP c (PTick (c + Timing.pushPullScale interval (estNumNodes c))) l)
| p_staggerStop c u l : stop = true -> pushPullTrigger interval estNumNodes stop (mkPP c (PStagger u) l) (mkPP c PEnded l)
| p_call c u l : u <= c -> pushPullTrigger interval estNumNodes stop (mkPP c (PTick u) l) (mkPP c PCalling (l ++ [c]))
| p_return c l :
    pushPullTrigger interval estNumNodes stop (mkPP c PCalling l)
      (mkPP c (PTick (c + Timing.pushPullScale interval (estNumNodes c))) l)
| p_stop c u l : stop = true -> pushPullTrigger interval estNumNodes stop (mkPP c (PTick u) l) (mkPP c PEnded l).

(** Scaling never shortens the interval. *)
Lemma pushPullScale_ge interval n :
  0 < interval <= maxI64 / 8 -> n <= 1024 -> interval <= Timing.pushPullScale interval n.
Proof.
  intros Hi Hn. destruct (Timing.pushPullScale_exact interval n Hn) as [[_ ->]|(Hgt & k & -> & Hk & Hlo & _)]; [lia|].
  assert (k <= 6). { destruct (Z.le_gt_cases k 6) as [|Hk6]; [done|]. pose proof (Z.pow_le_mono_r 2 5 (k - 2) ltac:(lia) ltac:(lia)) as Hp.
    change (2 ^ 5) with 32 in Hp. lia. }
  assert (interval <= k * interval <= 6 * interval) by nia. change (maxI64 / 8) with 1152921504606846975 in Hi.
  rewrite i64_small by (unfold minI64, maxI64; lia). lia.
Qed.

(** The calls so far are an interval apart, and the next one will be. *)
Record paced (interval : duration) (s : ppState) : Prop := {
  pc_last : forall t, last (at_ s) = Some t -> t <= clock s /\ match ppc s with PTick u => t + interval <= u | PStagger _ => False | _ => True end;
  pc_apart : forall i t t', at_ s !! i = Some t -> at_ s !! S i = Some t' -> t + interval <= t'
}.

Lemma paced_step interval est stop s s' :
  0 < interval <= maxI64 / 8 -> (forall t, est t <= 1024) -> pushPullTrigger interval est stop s s' -> paced interval s -> paced interval s'.
Proof.
  intros Hi Hest Hs [Hl Ha]. destruct Hs as [c q l d Hd|c u l Hu|c u l Hs|c u l Hu|c l|c u l Hs]; cbn [at_ clock ppc] in *;
    split; cbn [at_ clock ppc]; try done.
  - intros t Ht. specialize (Hl t Ht). repeat case_match; intuition lia.
  - intros t Ht. by destruct (Hl t Ht).
  - intros t Ht. by destruct (Hl t Ht).
  - intros t. rewrite last_snoc. intros [= <-]. split; [lia|done].
  - intros j t t' H1 H2. destruct (decide (S j < length l)%nat).
    + rewrite lookup_app_l in H1, H2 by lia. by eapply Ha.
    + assert (length l = S j) as Hlen by (apply lookup_lt_Some in H2; rewrite length_app in H2; simpl in H2; lia).
      rewrite lookup_app_l in H1 by lia. rewrite lookup_app_r, Hlen, Nat.sub_diag in H2 by lia. injection H2 as <-.
      destruct (Hl t) as [_ Hle]; [|lia]. rewrite last_lookup, Hlen. exact H1.
  - intros t Ht. destruct (Hl t Ht). split; [done|]. pose proof (pushPullScale_ge interval (est c) Hi (Hest c)). lia.
  - intros t Ht. destruct (Hl t Ht). by split.
Qed.

(** C31: Push/pull does not saturate the network: however long the exchanges take,
    and however the cluster grows and shrinks while it has at most 1024 nodes, two
    of the periodic exchanges start at least the configured interval apart, for an
    interval that does not overflow when it is multiplied (at most 36 years). *)
Theorem push_pull_paced interval est stop r now s i t t'
    (Hi : 0 < interval <= maxI64 / 8) (Hest : forall u, est u <= 1024)
    (Hr : rtc (pushPullTrigger interval est stop) (startPP interval r now) s)
    (Ht : at_ s !! i = Some t) (Ht' : at_ s !! S i = Some t') : t + interval <= t'.
Proof.
  assert (Hp : paced interval s).
  { revert Hr. apply (rtc_ind_r (R := pushPullTrigger interval est stop) (paced interval)).
    - split; cbn; [done|]. intros j u u'. by rewrite lookup_nil.
    - intros s1 s2 _ Hs IH. by eapply paced_step. }
  by eapply (pc_apart _ _ Hp).
Qed.

(** ** pushPull *)

Import Compound Label Security Members Wire Net Delivery Stream Exchange Lifecycle.

Section PushPull.

Context {T : Type} `{!Queue.BTree Queue.memberlistBroadcast T} `{!AEAD} `{!AEADLaws}.
Context `{!Codec alive, !Codec suspect, !Codec dead, !Codec compress}.
Context `{!Codec Acks.ping, !Codec Acks.ackResp}.
Context `{!Codec pushPullHeader, !Codec pushNodeState, !Codec userMsgHeader, !Codec errResp}.

#[local] Existing Instance gossipCodec.

(** The error of the exchange is only logged. *)
Definition pushPull (env : streamEnv) (network : Acks.Address -> bytes -> option (bytes * ioErr)) (rnds : list Z)
    (its : nat -> Z * gotime) (st : streamState T) : outcome (streamState T) :=
  let m := ml (rt st) in
  match Probe.kRandomNodes 1 rnds (nodeStates m) (Probe.excludePushPull (self m)) with
  | [] => Ret st
  | n :: _ => let! '(st, _) := pushPullNode env network its (Probe.FullAddress n) false st in Ret st
  end.

Context `{!CodecLaws compress, !CodecLaws pushPullHeader, !CodecLaws pushNodeState, !CodecLaws userMsgHeader}.
Context `{!CodecLaws Acks.ping, !CodecLaws Acks.ackResp}.
Context `{!CodecTotal pushPullHeader, !CodecTotal pushNodeState}.
Context (header_long : forall (x : pushPullHeader) b, marshal x = Some b -> 4 <= blen b).

(** C6: The periodic push/pull spreads what members know: it is with another
    member that is alive, as far as the caller knows; and when that member answers
    with [handleConn], the settings of both are compatible, and both can merge
    what the other sends, then afterwards every node it knew to be alive, the
    caller did not know and may accept (by its alive delegate and allowed
    networks) is alive for the caller as well, with the same incarnation and data
    (for protocol version 2 or later and no port 0 among them). *)
Theorem push_pull_spreads env1 env2 network rnds its its2 n ns (st1 st2 : streamState T)
    (Hpick : Probe.kRandomNodes 1 rnds (nodeStates (ml (rt st1))) (Probe.excludePushPull (self (ml (rt st1)))) = n :: ns)
    (Hname : Name n <> EmptyString)
    (Hnet : forall req, network (Probe.FullAddress n) req = onePeer env2 its2 st2 (Probe.FullAddress n) req)
    (Hl : slen (Config.Label (sconf st1)) <= LabelMaxSize)
    (H12 : compatible (sconf st1) (sconf st2)) (H21 : compatible (sconf st2) (sconf st1))
    (Hs1 : sharable env1 false st1) (Hs2 : sharable env2 false st2) (Hreq : 0 <= pushPullReq st2 < 127)
    (Hi1 : Membership.inv (ml (rt st1))) (Hi2 : Membership.inv (ml (rt st2))) (Hu : Learning.unsigned (ml (rt st2)))
    (Hports : portsKept (sconf st1) (ml (rt st2)))
    (Hm2 : forall st', wrote st2 st' -> exists r, mergesFrom env2 env1 false its2 st1 st' = Ret r)
    (Hm1 : forall st', wrote st1 st' -> exists s, mergesFrom env1 env2 false its st2 st' = Ret (s, None)) :
  (exists st, st ∈ nodeStates (ml (rt st1)) /\ node st = n /\ State st = StateAlive /\ Name n <> self (ml (rt st1))) /\
  exists s, pushPull env1 network rnds its st1 = Ret s /\ Learning.learned (ml (rt st1)) (ml (rt st2)) (ml (rt s)).
Proof.
  split.
  - destruct (Probe.kRandomNodes_sound 1 rnds (nodeStates (ml (rt st1))) (Probe.excludePushPull (self (ml (rt st1))))) as (_ & _ & Hin).
    destruct (Hin n) as (st & Hst & Hn & Hx); [rewrite Hpick; by left|]. unfold Probe.excludePushPull in Hx.
    apply orb_false_iff in Hx as [Hself%bool_decide_eq_false Halive%negb_false_iff%bool_decide_eq_true].
    exists st. rewrite Hn in Hself. done.
  - assert (Hnm : nameMissing (Probe.FullAddress n) st1 = false) by (unfold nameMissing; by rewrite bool_decide_eq_false_2).
    destruct (pushPullNode_syncs header_long env1 env2 network its its2 (Probe.FullAddress n) false st1 st2)
      as (st1' & s & _ & _ & Hlearn & Hpp); [done..|].
    exists s. split; [|done]. unfold pushPull. by rewrite Hpick, Hpp.
Qed.

End PushPull.

(** ** Concrete runs *)

Lemma background_ends_witness :
  exists b, rtc bgStep (started 2) b /\ descheduled b /\
    forall k b', nsteps bgStep k b b' -> (k <= 8)%nat /\ (totalCalls b' <= 2)%nat.
Proof.
  set (off := mkTask false false Staggering 0 0).
  set (b := mkBackground true [off; off]).
  assert (Hr : rtc bgStep (started 2) b).
  { eapply rtc_l; [by apply bg_close|].
    eapply rtc_l; [exact (bg_stopTicker (mkBackground true [newTask; newTask]) 0 newTask eq_refl eq_refl eq_refl)|].
    apply rtc_once. exact (bg_stopTicker (mkBackground true [off; newTask]) 1 newTask eq_refl eq_refl eq_refl). }
  assert (Hd : descheduled b) by (split; [done|by repeat constructor]).
  exists b. split; [exact Hr|]. split; [exact Hd|]. intros k b' Hk.
  destruct (background_ends 2 b Hr) as (_ & He & _). destruct (He Hd k b' Hk) as [H1 H2]. by split.
Defined.

(** Two exchanges with an interval of 30 s, the first one taking 5 s, while the
    cluster grows from 3 to 40 nodes, which doubles the interval. *)
Lemma push_pull_paced_witness :
  exists s, rtc (pushPullTrigger (30 * nsSecond) (fun t => if t <? 2000 then 3 else 40) false) (startPP (30 * nsSecond) 0 1000) s /\
    at_ s = [1000 + 30 * nsSecond; 1000 + 95 * nsSecond] /\ 1000 + 30 * nsSecond + 30 * nsSecond <= 1000 + 95 * nsSecond.
Proof.
  set (est := fun t => if t <? 2000 then 3 else 40).
  set (s := mkPP (1000 + 95 * nsSecond) PCalling [1000 + 30 * nsSecond; 1000 + 95 * nsSecond]).
  assert (Hr : rtc (pushPullTrigger (30 * nsSecond) est false) (startPP (30 * nsSecond) 0 1000) s).
  { eapply rtc_l; [apply p_stagger; by vm_compute|].
    eapply rtc_l; [apply (p_time _ _ _ _ _ _ (30 * nsSecond)); by vm_compute|].
    eapply rtc_l; [apply p_call; by vm_compute|].
    eapply rtc_l; [apply (p_time _ _ _ _ _ _ (5 * nsSecond)); by vm_compute|].
    eapply rtc_l; [apply p_return|].
    eapply rtc_l; [apply (p_time _ _ _ _ _ _ (60 * nsSecond)); by vm_compute|].
    eapply rtc_l; [apply p_call; by vm_compute|]. apply rtc_refl. }
  exists s. split; [exact Hr|]. split; [reflexivity|].
  apply (push_pull_paced (30 * nsSecond) est false 0 1000 s 0 (1000 + 30 * nsSecond) (1000 + 95 * nsSecond));
    [by vm_compute| |exact Hr|reflexivity|reflexivity].
  intros u. unfold est. case_match; lia.
Defined.

#[local] Existing Instances Queue.listTree Queue.listTree_laws Security.toyAEAD Security.toyAEADLaws.
#[local] Existing Instances countableCodec countableCodec_laws Exchange.countable_total.
#[local] Existing Instances paddedCodec paddedCodec_laws paddedCodec_total.

#[local] Existing Instance Guarantees.toyCodec.

(** Member "a", which knows "b" and "c". *)
Definition cAlive : alive := mkAlive 1 "c" Learning.caddr 7946 [] [1; 5; 2; 0; 0; 0].
Definition z4 : Guarantees.XL := Guarantees.orElse (aliveNode cAlive None false 0 3000 Guarantees.x3) Guarantees.x3.
Definition exA : XS := mkStream (setMl (withConf exSConf z4) (exRt exSConf)) 0 [].

Lemma z4_reachable : Guarantees.reachable Guarantees.xconf Guarantees.xhooks z4.
Proof.
  eapply rtc_r; [apply Guarantees.x3_reachable|]. apply (step_alive cAlive 0 3000); [vm_compute; discriminate|]. vm_compute. reflexivity.
Qed.

Lemma exA_sharable : sharable exSEnv false exA /\ sharable exSEnv false exC.
Proof.
  split; (split; [split; [done|]|vm_compute; discriminate|vm_compute; discriminate|]);
    try (intros _; do 2 eexists; split; reflexivity);
    intros out st' E; vm_compute in E; injection E as <- _; vm_compute; discriminate.
Qed.

(** The exchange of "a" with "c". *)
Lemma push_pull_spreads_witness :
  exists s, pushPull exSEnv (onePeer exSEnv (fun _ => (0, 5000)) exC) [0; 0; 1; 2] (fun _ => (0, 6000)) exA = Ret s /\
    Learning.learned (ml (rt exA)) (ml (rt exC)) (ml (rt s)).
Proof.
  destruct (push_pull_spreads padded_long exSEnv exSEnv (onePeer exSEnv (fun _ => (0, 5000)) exC) [0; 0; 1; 2]
    (fun _ => (0, 6000)) (fun _ => (0, 5000)) (mkNode "c" Learning.caddr 7946 [] 0 1 5 2 0 0 0) [] exA exC) as [_ H]; [..|exact H].
  - vm_compute. reflexivity.
  - discriminate.
  - reflexivity.
  - vm_compute. discriminate.
  - apply exC_compatible.
  - apply exC_compatible.
  - apply exA_sharable.
  - apply exA_sharable.
  - vm_compute. split; [discriminate|reflexivity].
  - apply inv_withConf; [exact (Guarantees.reachable_inv _ _ _ z4_reachable)|reflexivity].
  - apply inv_withConf; [exact (Guarantees.reachable_inv _ _ _ Learning.y3_reachable)|reflexivity].
  - refine (bool_decide_unpack (map_Forall (fun _ st => 0 <= Incarnation st) (Membership.view (withConf exCConf Learning.y3))) _).
    vm_compute. exact I.
  - split; [vm_compute; discriminate|]. vm_compute. repeat constructor; discriminate.
  - intros st' W. destruct (merges_ok exSEnv exSEnv false (fun _ => (0, 5000)) exC exA st') as [s E];
      [reflexivity|vm_compute; reflexivity|vm_compute; reflexivity|exact W|]. exists (s, None). exact E.
  - intros st' W. apply (merges_ok exSEnv exSEnv false (fun _ => (0, 6000)) exA exC st');
      [reflexivity|vm_compute; reflexivity|vm_compute; reflexivity|exact W].
Defined.

End Background.
