(* ===== verification/Startup.v ===== *)
(** * Starting on the network (memberlist.go, net_transport.go)

    [Create] with the network transport: [newMemberlist] makes the transport, with
    its retries, asks it for the address to advertise, and the member announces
    itself there. The parts are those of [Lifecycle] and [NetTransport]; here they
    are put together, with the sockets that are open at the end of each path. *)

From Stdlib Require Import ZArith Lia Strings.Byte.
From stdpp Require Import tactics base numbers strings gmap list.
From S2P Require Import Prelude Keyring Label Security Queue Config Addr Members Membership Guarantees Learning Acks Wire Probe Transport NetTransport Lifecycle.

Local Open Scope Z_scope.
Local Open Scope go_scope.

Module Startup.

Import Members Membership Wire NetTransport Lifecycle.

(** ** The program *)

Section Startup.

Context {OS : Type} `{!Sockets OS}.
Context {T : Type} `{!Queue.BTree Queue.memberlistBroadcast T}.
Context `{!Codec alive, !Codec suspect, !Codec dead}.

#[local] Existing Instance gossipCodec.

Implicit Types h : host OS.

(** The configuration of the transport. *)
Definition netConfig (c : Config.Config) : NetTransportConfig :=
  mkNetConfig [bytes_of_string (Config.BindAddr c)] (Config.BindPort c).

(** [makeNetRetry] on the sockets of the process. *)
Fixpoint netRetry (limit : nat) (nc : NetTransportConfig) h : option NetTransport * host OS :=
  match limit with
  | O => (None, h)
  | S limit' =>
      match NewNetTransport nc h with
      | (Ok t, h) => (Some t, h)
      | (Err _, h) => netRetry limit' nc h
      end
  end.

(** [newMemberlist]: the configuration as it is then, and the transport. An error
    after the transport was made returns without shutting it down. *)
Definition newMemberlistNet (twoLoggers : bool) (c : Config.Config) h :
    outcome (res createErr (Config.Config * NetTransport) * host OS) :=
  match checkConfig twoLoggers c with
  | Err e => Ret (Err e, h)
  | Ok c =>
      match netRetry (retryLimit c) (netConfig c) h with
      | (None, h) => Ret (Err ErrTransport, h)
      | (Some t, h) =>
          let! p := GetAutoBindPort t h in
          match checkLabel (bindPort p c) with
          | Err e => Ret (Err e, h)
          | Ok c =>
              let! adv := FinalAdvertiseAddr t (bytes_of_string (Config.AdvertiseAddr c)) (Config.AdvertisePort c) h in
              match adv with
              | Err _ => Ret (Err ErrAdvertise, h)
              | Ok _ => Ret (Ok (c, t), h)
              end
          end
      end
  end.

(** [Create]; [early] is what the goroutines that [newMemberlist] starts do to the
    member list before [setAlive]. *)
Definition CreateNet (early : Memberlist T -> Memberlist T) (twoLoggers : bool) (goodAddr : bytes -> bool) (meta : bytes) (rnd : Z) (now : gotime)
    (hk : delegates) (c : Config.Config) h : outcome (res createErr (member T * NetTransport) * host OS) :=
  let! '(r, h) := newMemberlistNet twoLoggers c h in
  match r with
  | Err e => Ret (Err e, h)
  | Ok (c, t) =>
      let mb := newMember c hk in
      let! adv := FinalAdvertiseAddr t (bytes_of_string (Config.AdvertiseAddr c)) (Config.AdvertisePort c) h in
      let! r := announce (match adv with Ok a => Some a | Err _ => None end) goodAddr meta rnd now (early (mlist mb)) in
      match r with
      | Err e => let! _ := Shutdown mb in Ret (Err e, closeAll t h)
      | Ok m => Ret (Ok (mkMember m (Probe.schedule c (tasks mb)) false false 0, t), h)
      end
  end.

(** ** Lemmas *)

Context `{!SocketsLaws OS}.

Lemma netRetry_serves limit nc h t h' :
  netRetry limit nc h = (Some t, h') -> exists p, serves nc p t h'.
Proof.
  revert h. induction limit as [|limit IH]; intros h; cbn [netRetry]; [done|].
  destruct (NewNetTransport nc h) as [[t1|e] h1] eqn:E; [|by apply IH]. intros [= -> ->].
  apply NewNetTransport_serves in E as (p & Hs & _). by exists p.
Qed.

(** ** Messages before the announcement *)

(** What can happen before [Create] returns: messages and timers, but no call of the
    user. *)
Inductive earlyStep : Memberlist T -> Memberlist T -> Prop :=
| es_alive a rnd now m m' : 0 <= aIncarnation a -> aliveNode a None false rnd now m = Ret m' -> earlyStep m m'
| es_suspect s now m : earlyStep m (suspectNode s now m)
| es_dead d now m : earlyStep m (deadNode d now m)
| es_expire i now m : earlyStep m (expireTimer i now m)
| es_timeout j m : earlyStep m (runTimeout j m)
| es_deliver j now m : earlyStep m (deliverDead j now m).

Lemma early_step m m' : earlyStep m m' -> step m m'.
Proof. destruct 1; [by eapply step_alive|constructor..]. Qed.

Lemma leave_broadcast nm g nt (m : Memberlist T) : leave (encodeBroadcastNotify nm g nt m) = leave m.
Proof. destruct (broadcast_shape nm g nt m) as (q & fin & ->). done. Qed.

Lemma leave_notify st st' (m : Memberlist T) : leave (notifyAlive st st' m) = leave m.
Proof. unfold notifyAlive. repeat case_match; rewrite ?notifyEvent_shape; done. Qed.

Lemma leave_refute l me inc (m : Memberlist T) : leave (refute l me inc m) = leave m.
Proof. destruct (refute_shape l me inc m) as (q & fin & ->). done. Qed.

Lemma leave_aliveUpdate a l st moved nt boot now (m m' : Memberlist T) :
  aliveUpdate a l st moved nt boot now m = Ret m' -> leave m' = leave m.
Proof.
  unfold aliveUpdate. do 2 (case_match; [by intros [= <-]|]). case_match.
  - case_match; intros [= <-]; [done|]. by rewrite leave_notify, leave_refute.
  - destruct (setVersions _ _) as [n|]; [|done]. intros [= <-]. rewrite leave_notify. cbn [setNode leave]. by rewrite leave_broadcast.
Qed.

Lemma leave_alive a nt boot rnd now (m m' : Memberlist T) : aliveNode a nt boot rnd now m = Ret m' -> leave m' = leave m.
Proof.
  unfold aliveNode. do 3 (case_match; [by intros [= <-]|]). destruct (lookupNode (aNode a) m) as [[l st]|].
  - case_match; [|apply leave_aliveUpdate]. case_match; [by intros [= <-]|]. case_match; [apply leave_aliveUpdate|].
    intros [= <-]. by case_match.
  - case_match; [by intros [= <-]|]. intros E%leave_aliveUpdate. exact E.
Qed.

Lemma leave_suspect s now (m : Memberlist T) : leave (suspectNode s now m) = leave m.
Proof.
  unfold suspectNode. repeat (case_match; try done); unfold confirmTimer, startTimer, encodeAndBroadcast;
    repeat case_match; cbn [setTimers setNode leave]; rewrite ?leave_broadcast, ?leave_refute; done.
Qed.

Lemma leave_dead d now (m : Memberlist T) : leave (deadNode d now m) = leave m.
Proof.
  unfold deadNode. repeat (case_match; try done); rewrite ?leave_refute, ?notifyEvent_shape; cbn [setEvents setNode leave];
    rewrite ?leave_broadcast; done.
Qed.

Lemma early_keeps m m' :
  rtc earlyStep m m' -> steps m m' /\ leave m' = leave m.
Proof.
  induction 1 as [|m m1 m2 Hs _ [IH1 IH2]]; [split; [apply rtc_refl|done]|].
  split; [eapply rtc_l; [by apply early_step|done]|]. rewrite IH2. clear IH1 IH2 m2.
  destruct Hs as [a rnd now m m' _ E|s now m|d now m|i now m|j m|j now m].
  - by eapply leave_alive.
  - apply leave_suspect.
  - apply leave_dead.
  - unfold expireTimer. by repeat case_match.
  - unfold runTimeout. by repeat case_match.
  - unfold deliverDead. case_match; [|done]. by rewrite leave_dead.
Qed.

(** ** The announcement *)

(** The node as it announces itself. *)
Definition ownNode (c : Config.Config) (addr : bytes) (p : Z) (meta : bytes) : Node :=
  mkNode (Config.Name c) addr p meta 0 Config.ProtocolVersionMin Config.ProtocolVersionMax (Config.ProtocolVersion c)
    (Config.DelegateProtocolMin c) (Config.DelegateProtocolMax c) (Config.DelegateProtocolVersion c).

(** The allowed networks and the alive delegate let the node in. *)
Definition welcome (hk : delegates) (c : Config.Config) (n : Node) : bool :=
  match AliveD hk with None => true | Some f => f n end && Config.IPAllowed c (Members.Addr n).

(** The first announcement of a member that is not in its own list yet. *)
Lemma setAlive_first addr p meta rnd now (m : Memberlist T) :
  wfTable m -> lookupNode (self m) m = None -> leave m = false ->
  let n := ownNode (Members.config m) addr p meta in
  exists m', setAlive addr p meta rnd now m = Ret m' /\
    if welcome (hooks m) (Members.config m) n
    then exists st, view m' !! self m = Some st /\ State st = StateAlive /\ node st = n
    else view m' !! self m = None.
Proof.
  intros Hwf0 E0 Hleave n. unfold setAlive, localAlive. cbn [nextIncarnation]. set (m1 := setIncarnation _ _).
  change (self m1) with (self m). change (Members.config m1) with (Members.config m). set (c := Members.config m).
  set (a := mkAlive _ _ addr p meta _).
  assert (Hwf : wfTable m1) by (by apply (wfTable_ext m)). assert (E : lookupNode (aNode a) m1 = None) by exact E0.
  assert (Hnone : view m1 !! self m = None) by (by apply lookupNode_None).
  unfold aliveNode. change (hasLeft m1) with (leave m). rewrite Hleave. cbn [andb]. change (badVersions (aVsn a)) with false. cbv iota.
  assert (Hacc : aliveAccepted a m1 = match AliveD (hooks m) with None => true | Some f => f n end) by done.
  rewrite Hacc. unfold welcome. destruct (match AliveD (hooks m) with None => true | Some f => f n end); cbn [negb andb];
    [|eexists; split; [reflexivity|exact Hnone]].
  rewrite E. change (Members.config m1) with c. change (aAddr a) with addr. change (Members.Addr n) with addr.
  destruct (Config.IPAllowed c addr); cbn [negb]; [|eexists; split; [reflexivity|exact Hnone]].
  destruct (addNode_spec a rnd m1 Hwf E) as [Hwf2 Hlk]. destruct (addNode a rnd m1) as [l m2] eqn:Em. cbn [fst snd] in *.
  assert (Hs : self m2 = self m) by (unfold addNode in Em; by simplify_eq/=).
  assert (E2 : lookupNode (aNode a) m2 = Some (l, newNodeState a)) by (by rewrite Hlk, decide_True).
  unfold aliveUpdate. rewrite Hs. rewrite bool_decide_eq_true_2 by done. rewrite andb_false_r. cbn [negb andb].
  replace (aIncarnation a <? Incarnation (newNodeState a)) with false
    by (symmetry; apply Z.ltb_ge; exact (proj1 (u32_range (incarnation m + 1)))). cbn [andb].
  eexists. split; [reflexivity|]. eexists. change (self m) with (aNode a). rewrite Learning.alive_accept_view by done.
  rewrite lookup_insert_eq. split; [reflexivity|]. by split.
Qed.

(** Allowed networks do not tell the two forms of an IPv4 address apart. *)
Lemma ipEqual_allowed c a b : ipEqual a b = true -> Config.IPAllowed c a = Config.IPAllowed c b.
Proof.
  unfold ipEqual. intros E%bool_decide_eq_true. unfold Config.IPAllowed. destruct (negb _); [done|].
  induction (Config.CIDRsAllowed c) as [|n l IH]; [done|]. simpl. rewrite IH. f_equal. unfold Config.Contains. by rewrite E.
Qed.

(** Where the configuration says to be, which none of the checks changes. *)
Definition sameSite (c c' : Config.Config) : Prop :=
  Config.Name c' = Config.Name c /\ Config.BindAddr c' = Config.BindAddr c /\
  Config.AdvertiseAddr c' = Config.AdvertiseAddr c /\ Config.CIDRsAllowed c' = Config.CIDRsAllowed c /\
  Config.BuildVsnArray c' = Config.BuildVsnArray c.

Lemma checkConfig_site two c c' : checkConfig two c = Ok c' -> sameSite c c' /\ Config.BindPort c' = Config.BindPort c.
Proof.
  unfold checkConfig, setupKeyring, withKeyring. repeat case_match; simpl; try done;
    repeat case_match; intros [= <-]; done.
Qed.

Lemma bindPort_site p c : sameSite c (bindPort p c).
Proof. unfold bindPort. by case_match. Qed.

Lemma sameSite_allowed c c' a : sameSite c c' -> Config.IPAllowed c' a = Config.IPAllowed c a.
Proof. intros (_ & _ & _ & E & _). unfold Config.IPAllowed, Config.IPMustBeChecked. by rewrite E. Qed.

Lemma sameSite_trans c1 c2 c3 : sameSite c1 c2 -> sameSite c2 c3 -> sameSite c1 c3.
Proof. unfold sameSite. intros (? & ? & ? & ? & ?) (? & ? & ? & ? & ?). split_and!; congruence. Qed.

Lemma sameSite_own c c' addr p meta : sameSite c c' -> ownNode c' addr p meta = ownNode c addr p meta.
Proof. intros (En & _ & _ & _ & Ev). unfold Config.BuildVsnArray in Ev. unfold ownNode. by simplify_eq; f_equal. Qed.

(** Without a configured address the transport advertises the address it is bound
    to, if it is not the wildcard. *)
Lemma advertise_bound nc p t h addr port ip :
  serves nc p t h -> BindAddrs nc = [addr] -> Addr.ParseIP addr = Some ip -> isUnspecified ip = false ->
  exists a, FinalAdvertiseAddr t [] port h = Ret (Ok (a, p)) /\ ipEqual a ip = true.
Proof.
  intros Hs Ha Hip Hu. pose proof (serves_auto_port _ _ _ _ Hs) as Hp. destruct Hs as [Hc _ _ Ht _ _].
  rewrite Ha in Ht. apply Forall2_cons_inv_l in Ht as (i & l & (k & Hk & _ & _ & Hep & Hki) & _ & El).
  unfold FinalAdvertiseAddr. rewrite bool_decide_eq_true_2 by done. cbn [negb]. rewrite Hc, Ha.
  rewrite bool_decide_eq_false_2.
  2: { intros ->. vm_compute in Hip. injection Hip as <-. vm_compute in Hu. discriminate Hu. }
  rewrite El. unfold firstListener, sockAddr. rewrite Hk. cbn [obind]. rewrite Hp. cbn [obind]. eexists. split; [done|].
  by apply Hki.
Qed.

(** ** Theorems *)

(** C21: A member is where it says: if [Create] succeeds with the network
    transport, for a bind address that is a specific IP address and no configured
    address to advertise, then there are an open TCP and an open UDP socket on one
    port, the configured one or one the system chose; and whatever messages were
    handled before the member announced itself, as long as none of them left an
    entry with its own name, its entry is alive with the bound address and that
    port if the allowed networks and the alive delegate admit the node, and
    otherwise the member is not in its own list. *)
Theorem create_serves_address early two goodAddr meta rnd now hk c h mb t h' ip
    (Hbind : Addr.ParseIP (bytes_of_string (Config.BindAddr c)) = Some ip) (Hspec : isUnspecified ip = false)
    (Hadv : Config.AdvertiseAddr c = EmptyString) (Hport : 0 <= Config.BindPort c < 65536)
    (Hearly : forall c', Config.Name c' = Config.Name c ->
       let m := newMemberlist c' hk in rtc earlyStep m (early m) /\ view (early m) !! self m = None)
    (Hc : CreateNet early two goodAddr meta rnd now hk c h = Ret (Ok (mb, t), h')) :
  exists p addr, serves (netConfig c) p t h' /\ ipEqual addr ip = true /\
    let n := ownNode c addr p meta in
    if welcome hk c n
    then exists st, view (mlist mb) !! Config.Name c = Some st /\ State st = StateAlive /\ node st = n
    else view (mlist mb) !! Config.Name c = None.
Proof.
  unfold CreateNet, newMemberlistNet in Hc. destruct (checkConfig two c) as [c1|] eqn:E1; [|done].
  apply checkConfig_site in E1 as [S1 P1]. destruct (netRetry _ _ h) as [[t1|] h1] eqn:E2; [|done].
  assert (En : netConfig c1 = netConfig c) by (unfold netConfig; destruct S1 as (_ & -> & _); by rewrite P1).
  rewrite En in E2. apply netRetry_serves in E2 as [p Hs]. rewrite (serves_auto_port _ _ _ _ Hs) in Hc. cbn [obind] in Hc.
  destruct (checkLabel (bindPort p c1)) as [c2|] eqn:E3; [|done].
  assert (c2 = bindPort p c1) as -> by (unfold checkLabel in E3; case_match; congruence).
  pose proof (sameSite_trans _ _ _ S1 (bindPort_site p c1)) as S2. set (c2 := bindPort p c1) in *.
  assert (Ha : Config.AdvertiseAddr c2 = EmptyString) by (destruct S2 as (_ & _ & ? & _); congruence).
  rewrite Ha in Hc. change (bytes_of_string "") with (@nil byte) in Hc.
  destruct (advertise_bound _ p t1 h1 _ (Config.AdvertisePort c2) ip Hs eq_refl Hbind Hspec) as (a & Hfa & Heq).
  rewrite Hfa in Hc. cbn [obind] in Hc. rewrite Ha in Hc. change (bytes_of_string "") with (@nil byte) in Hc.
  rewrite Hfa in Hc. cbn [obind] in Hc. unfold announce in Hc.
  destruct (goodAddr _); cbn [negb obind] in Hc; [|discriminate Hc].
  unfold checkMeta in Hc. destruct (blen meta >? MetaMaxSize); [discriminate Hc|]. cbn [obind mlist newMember] in Hc.
  assert (Hp : u16 p = p).
  { apply u16_small. pose proof (sv_port _ _ _ _ Hs) as Hp. simpl in Hp. destruct (Config.BindPort c =? 0); lia. }
  destruct (Hearly c2) as [He Hn]; [by destruct S2|]. set (m0 := early (newMemberlist c2 hk)) in *.
  destruct (early_keeps _ _ He) as [Hst Hl]. pose proof (Guarantees.reachable_inv c2 hk m0 Hst) as Hinv.
  assert (Hcm : Members.config m0 = c2 /\ hooks m0 = hk)
    by exact (Guarantees.evolves_config _ _ (steps_evolve _ _ (inv_new c2 hk) Hst)).
  destruct Hcm as [Hcm Hhk]. assert (Hself : self m0 = Config.Name c2) by (unfold self; by rewrite Hcm).
  destruct (setAlive_first a (u16 p) meta rnd now m0) as (m & Em & Hm); [apply Hinv| |exact Hl|].
  { apply lookupNode_None. by rewrite Hself. }
  rewrite Em in Hc. cbn [obind] in Hc. injection Hc as <- <- <-. exists p, a. cbn [mlist]. split; [done|]. split; [done|].
  rewrite Hcm, Hhk, Hself, Hp, (sameSite_own c c2) in Hm by done.
  replace (Config.Name c) with (Config.Name c2) by (by destruct S2 as (? & _)). unfold welcome in *.
  by rewrite (sameSite_allowed c c2) in Hm by done.
Qed.

(** Errors after the transport was made leak it: with a label that is too long
    [Create] returns an error and the sockets of the transport stay open, with
    nobody left to close them. *)
Theorem label_error_leaks early two goodAddr meta rnd now hk c c1 h t h1
    (Hc : checkConfig two c = Ok c1) (Hn : NewNetTransport (netConfig c1) h = (Ok t, h1))
    (Hl : Label.LabelMaxSize < Label.slen (Config.Label c1)) :
  CreateNet early two goodAddr meta rnd now hk c h = Ret (Err ErrLabelSize, h1) /\
  Forall (fun i => exists k, socks h1 !! i = Some k /\ skOpen k = true) (listeners t).
Proof.
  destruct (NewNetTransport_serves _ _ _ _ Hn) as (p & Hs & _). split.
  - unfold CreateNet, newMemberlistNet. rewrite Hc. unfold retryLimit.
    assert (Hr : netRetry (if Config.BindPort c1 =? 0 then 10 else 1) (netConfig c1) h = (Some t, h1))
      by (destruct (Config.BindPort c1 =? 0); cbn [netRetry]; by rewrite Hn).
    rewrite Hr, (serves_auto_port _ _ _ _ Hs). cbn [obind]. unfold checkLabel.
    replace (Config.Label (bindPort p c1)) with (Config.Label c1) by (unfold bindPort; by case_match).
    destruct (Z.gtb_spec (Label.slen (Config.Label c1)) Label.LabelMaxSize); [done|lia].
  - destruct Hs as [_ _ _ Ht Hu _]. apply Forall_app. split; apply Forall_lookup; intros j i Hi;
      [eapply Forall2_lookup_r in Ht as (addr & _ & k & Hk & _ & Ho & _)|eapply Forall2_lookup_r in Hu as (addr & _ & k & Hk & _ & Ho & _)];
      eauto.
Qed.

End Startup.

(** ** Witnesses *)

#[local] Existing Instances Queue.listTree countableCodec NetTransport.toyOS NetTransport.toyOS_laws.

Abbreviation XT := (list (Queue.limitedBroadcast Queue.memberlistBroadcast)).

(** Bound to 10.0.0.1, at a port the system chooses. *)
Definition exBind (c : Config.Config) : Config.Config :=
  Config.mkConfig (Config.Name c) (Config.Label c) (Config.SkipInboundLabelCheck c) "10.0.0.1" 0 EmptyString 0
    (Config.ProtocolVersion c) (Config.DelegateProtocolVersion c) (Config.DelegateProtocolMin c) (Config.DelegateProtocolMax c)
    (Config.TCPTimeout c) (Config.IndirectChecks c) (Config.RetransmitMult c) (Config.SuspicionMult c)
    (Config.SuspicionMaxTimeoutMult c) (Config.PushPullInterval c) (Config.ProbeTimeout c) (Config.ProbeInterval c)
    (Config.DisableTcpPings c) (Config.AwarenessMaxMultiplier c) (Config.GossipNodes c) (Config.GossipInterval c)
    (Config.GossipToTheDeadTime c) (Config.GossipVerifyIncoming c) (Config.GossipVerifyOutgoing c)
    (Config.EnableCompression c) (Config.SecretKey c) (Config.Keyring c) (Config.DeadNodeReclaimTime c)
    (Config.RequireNodeNames c) (Config.HandoffQueueDepth c) (Config.UDPBufferSize c) (Config.CIDRsAllowed c)
    (Config.QueueCheckInterval c) (Config.MsgpackUseNewTimeFormat c).

#[local] Existing Instance gossipCodec.

(** A message about "b" comes before the announcement of "a". *)
Definition exEarly (m : Memberlist XT) : Memberlist XT :=
  match aliveNode (Guarantees.bAlive 1) None false 0 500 m with Ret m' => m' | Panic _ => m end.

Lemma exEarly_ok c' : let m := newMemberlist c' Guarantees.xhooks in
  Config.Name c' <> "b" -> rtc earlyStep m (exEarly m) /\ view (exEarly m) !! self m = None.
Proof.
  intros m Hb. unfold exEarly. destruct (aliveNode (Guarantees.bAlive 1) None false 0 500 m) as [m'|] eqn:E.
  - split; [apply rtc_once; eapply es_alive; [|exact E]; vm_compute; discriminate|].
    pose proof (Learning.alive_view (Guarantees.bAlive 1) None false 0 500 m (inv_new _ _)) as Hv. rewrite E in Hv.
    destruct Hv as (o & _ & ->); [by apply not_eq_sym|]. rewrite Learning.withEntry_ne by (by apply not_eq_sym).
    by apply lookupNode_None.
  - split; [apply rtc_refl|by apply lookupNode_None].
Qed.

Lemma create_serves_address_witness :
  exists (mb : member XT) t h' st,
    CreateNet exEarly false (fun _ => true) [] 0 1000 Guarantees.xhooks (exBind (Config.DefaultLANConfig "a")) exHost = Ret (Ok (mb, t), h') /\
    view (mlist mb) !! "a" = Some st /\ State st = StateAlive /\ Port (node st) = 49152.
Proof.
  destruct (CreateNet (T := XT) exEarly false (fun _ => true) [] 0 1000 Guarantees.xhooks (exBind (Config.DefaultLANConfig "a")) exHost)
    as [[[[mb t]|e] h']|w] eqn:E; [|vm_compute in E; discriminate E..].
  destruct (create_serves_address exEarly false (fun _ => true) [] 0 1000 Guarantees.xhooks (exBind (Config.DefaultLANConfig "a")) exHost mb t h'
    (Addr.v4InV6 Guarantees.xaddr)) as (p & a & Hs & _ & Hw);
    [reflexivity|reflexivity|reflexivity|vm_compute; split; [discriminate|reflexivity]| |exact E|].
  - intros c' Hname. apply exEarly_ok. rewrite Hname. discriminate.
  - destruct Hw as (st & Hv & Hst & Hn). exists mb, t, h', st. split; [reflexivity|]. split; [exact Hv|]. split; [exact Hst|].
    rewrite Hn. simpl. pose proof (serves_auto_port _ _ _ _ Hs) as Ha. vm_compute in E. injection E as _ <- <-. vm_compute in Ha. congruence.
Defined.

End Startup.
