(* ===== verification/MockNet.v ===== *)
(** * The mock network (mock_transport.go) and clusters on it

    [MockNetwork] connects the members of one process: a packet is put on the
    channel of the destination, a dial makes a pipe. The channels are unbuffered;
    their state is the list of the senders that wait, with what they send, in order.
    On top of it, a cluster of members and the steps that send a packet and that
    take one from the channel ([packetListen] of net.go), so that the delivery of
    [Delivery] can be stated between two members of a whole system. *)

From Stdlib Require Import ZArith Lia Strings.Byte.
From stdpp Require Import tactics base numbers strings gmap list.
From S2P Require Import Prelude Compound Label Security Queue Config Addr Members Membership Guarantees Learning Acks Wire Probe Net Delivery Transport NetTransport Lifecycle.

Local Open Scope Z_scope.
Local Open Scope go_scope.

Module MockNet.

Import Transport.

(** ** The network *)

Record MockAddress := mkMockAddress { addr : bytes; name : string }.

(** [net.Addr]: the network and the text of an address. *)
Definition Network (a : MockAddress) : string := "mock".
Definition MockAddress_String (a : MockAddress) : bytes := addr a.

(** A pipe: what the dialling side and what the other side has written. *)
Record pipe := mkPipe { fromDialer : bytes; fromPeer : bytes }.

Record MockTransport := mkMockTransport {
  mockAddr : MockAddress;
  packetCh : list Packet;
  streamCh : list nat
}.

(** Transports are referred to by their number. A nil map reads as empty. *)
Record MockNetwork := mkMockNetwork {
  transportsByAddr : gmap string nat;
  transportsByName : gmap string nat;
  port : Z;
  transports : list MockTransport;
  pipes : list pipe
}.

Definition newMockNetwork : MockNetwork := mkMockNetwork ∅ ∅ 0 [] [].

Implicit Types n : MockNetwork.

Definition mockHost : bytes := bytes_of_string "127.0.0.1".

(** [fmt.Sprintf("127.0.0.1:%d", n.port)]. *)
Definition mockAddrText (p : Z) : bytes := bytes_of_string "127.0.0.1:" ++ Config.itoa p.

Definition NewTransport (nm : string) n : nat * MockNetwork :=
  let p := i64 (port n + 1) in
  let a := mockAddrText p in
  let i := length (transports n) in
  (i, mkMockNetwork (<[string_of_bytes a := i]> (transportsByAddr n)) (<[nm := i]> (transportsByName n)) p
        (transports n ++ [mkMockTransport (mkMockAddress a nm) [] []]) (pipes n)).

(** How [%s] prints an [Address] value: its method [String] is only there for
    pointers, so as a structure. *)
Definition structText (a : Acks.Address) : bytes :=
  bytes_of_string "{" ++ Acks.Addr a ++ bytes_of_string " " ++ bytes_of_string (Acks.Name a) ++ bytes_of_string "}".

(** [getPeer]: by name if there is one, else by address. *)
Definition getPeer (a : Acks.Address) n : res transportErr nat :=
  match (if negb (bool_decide (Acks.Name a = EmptyString)) then transportsByName n !! Acks.Name a
         else transportsByAddr n !! string_of_bytes (Acks.Addr a)) with
  | None => Err (ErrNoRoute (structText a))
  | Some i => Ok i
  end.

Definition setTransport (i : nat) (f : MockTransport -> MockTransport) n : MockNetwork :=
  mkMockNetwork (transportsByAddr n) (transportsByName n) (port n) (alter f i (transports n)) (pipes n).

(** The send on the channel of a transport. *)
Definition offerPacket (p : Packet) (t : MockTransport) : MockTransport :=
  mkMockTransport (mockAddr t) (packetCh t ++ [p]) (streamCh t).

Definition offerStream (c : nat) (t : MockTransport) : MockTransport :=
  mkMockTransport (mockAddr t) (packetCh t) (streamCh t ++ [c]).

(** The address of transport [me]. *)
Definition addrOf (me : nat) n : bytes :=
  match transports n !! me with Some t => MockAddress_String (mockAddr t) | None => [] end.

Definition mockWriteToAddress (me : nat) (now : gotime) (b : bytes) (a : Acks.Address) n : res transportErr gotime * MockNetwork :=
  match getPeer a n with
  | Err e => (Err e, n)
  | Ok dest => (Ok now, setTransport dest (offerPacket (mkPacket b (addrOf me n) now)) n)
  end.

Definition mockWriteTo (me : nat) (now : gotime) (b to : bytes) n : res transportErr gotime * MockNetwork :=
  mockWriteToAddress me now b (Acks.mkAddress to EmptyString) n.

(** [net.Pipe]: one end goes to the peer, the other to the caller. *)
Definition mockDialAddressTimeout (a : Acks.Address) (timeout : duration) n : res transportErr nat * MockNetwork :=
  match getPeer a n with
  | Err e => (Err e, n)
  | Ok dest =>
      let c := length (pipes n) in
      let n := setTransport dest (offerStream c) n in
      (Ok c, mkMockNetwork (transportsByAddr n) (transportsByName n) (port n) (transports n) (pipes n ++ [mkPipe [] []]))
  end.

Definition mockDialTimeout (to : bytes) (timeout : duration) n : res transportErr nat * MockNetwork :=
  mockDialAddressTimeout (Acks.mkAddress to EmptyString) timeout n.

(** [Write] on the dialling end of a pipe. *)
Definition pipeWrite (c : nat) (b : bytes) n : option string * MockNetwork :=
  (None, mkMockNetwork (transportsByAddr n) (transportsByName n) (port n) (transports n)
           (alter (fun p => mkPipe (fromDialer p ++ b) (fromPeer p)) c (pipes n))).

(** [strconv.ParseInt(s, 10, 16)]: a signed 16-bit number. *)
Definition ParseInt16 (s : bytes) : option Z :=
  let pos s := match Lifecycle.ParseUint16 s with Some u => if u >=? 2 ^ 15 then None else Some u | None => None end in
  let neg s := match Lifecycle.ParseUint16 s with Some u => if u >? 2 ^ 15 then None else Some (- u) | None => None end in
  match s with
  | "+"%byte :: s => pos s
  | "-"%byte :: s => neg s
  | _ => pos s
  end.

(** [FinalAdvertiseAddr] ignores what was configured. *)
Definition mockFinalAdvertiseAddr (me : nat) (ip : bytes) (p : Z) n : res transportErr (bytes * Z) :=
  match Addr.SplitHostPort (addrOf me n) with
  | None => Err ErrResolve
  | Some (host, portStr) =>
      match Addr.ParseIP host with
      | None => Err (ErrParseAdvertise host)
      | Some ip =>
          match ParseInt16 portStr with
          | None => Err ErrResolve
          | Some p => Ok (ip, p)
          end
      end
  end.

(** [MockTransport] as a [NodeAwareTransport]; its [Shutdown] does nothing. *)
Definition mockTransport (me : nat) (now : gotime) : NodeAwareTransport MockNetwork nat :=
  mkNodeAware
    (mkTransport (mockFinalAdvertiseAddr me) (mockWriteTo me now) mockDialTimeout pipeWrite (fun n => n))
    (mockWriteToAddress me now) mockDialAddressTimeout.

(** [IngestPacket] and [IngestStream] put on the transport's own channels. *)
Definition mockIngestPacket (me : nat) (c : Label.conn) (from : bytes) (now : gotime) (shouldClose : bool) n :
    option transportErr * MockNetwork :=
  match fst (NetTransport.IngestPacket c from now shouldClose) with
  | Err e => (Some e, n)
  | Ok p => (None, setTransport me (offerPacket p) n)
  end.

Definition mockIngestStream (me : nat) (c : nat) n : MockNetwork := setTransport me (offerStream c) n.

(** ** Addresses are unique *)

(** A network after a number of [NewTransport]s: transport [i] has the port [i + 1]
    and is found under its address. *)
Record numbered n : Prop := {
  nb_port : port n = Z.of_nat (length (transports n));
  nb_addr i t : transports n !! i = Some t ->
    addr (mockAddr t) = mockAddrText (Z.of_nat i + 1) /\
    (Z.of_nat i + 1 < 65536 -> transportsByAddr n !! string_of_bytes (addr (mockAddr t)) = Some i)
}.

Lemma mockAddrText_inj p q : 0 <= p < 65536 -> 0 <= q < 65536 -> mockAddrText p = mockAddrText q -> p = q.
Proof.
  intros Hp Hq E. apply (app_inv_head (bytes_of_string "127.0.0.1:")) in E.
  pose proof (Lifecycle.ParseUint16_itoa p Hp) as Ep. rewrite E, (Lifecycle.ParseUint16_itoa q Hq) in Ep. by injection Ep.
Qed.

Lemma numbered_new : numbered newMockNetwork.
Proof. split; [done|]. intros i t E. apply lookup_lt_Some in E. simpl in E. lia. Qed.

Lemma NewTransport_numbered nm n :
  numbered n -> Z.of_nat (length (transports n)) + 1 < 65536 -> numbered (NewTransport nm n).2.
Proof.
  intros [Hp Ha] Hlt. assert (Hi : i64 (port n + 1) = Z.of_nat (length (transports n)) + 1).
  { rewrite Hp. apply i64_small. unfold minI64, maxI64. lia. }
  unfold NewTransport. simpl. split; simpl.
  - rewrite Hi, length_app. simpl. lia.
  - intros i t. rewrite lookup_app_Some. intros [Ht|[Hge Ht]].
    + destruct (Ha i t Ht) as [Et Hm]. split; [done|]. intros Hi1. rewrite lookup_insert_ne; [by apply Hm|].
      intros E%(f_equal bytes_of_string). rewrite !string_bytes_id, Et, Hi in E. apply lookup_lt_Some in Ht.
      apply mockAddrText_inj in E; lia.
    + apply list_lookup_singleton_Some in Ht as [Hz <-]. assert (i = length (transports n)) as -> by lia.
      rewrite Hi. split; [done|]. intros _. apply lookup_insert_eq.
Qed.

Lemma setTransport_numbered i f n :
  (forall t, mockAddr (f t) = mockAddr t) -> numbered n -> numbered (setTransport i f n).
Proof.
  intros Hf [Hp Ha]. split; simpl; [by rewrite length_alter|]. intros j t Ht.
  destruct (decide (i = j)) as [<-|Hij].
  - rewrite list_lookup_alter_eq in Ht. destruct (transports n !! i) as [t0|] eqn:E; [|done]. injection Ht as <-.
    rewrite Hf. by apply Ha.
  - rewrite list_lookup_alter_ne in Ht by done. by apply Ha.
Qed.

(** ** The advertised address *)

Lemma mockAddrText_join p : mockAddrText p = Config.joinHostPort mockHost p.
Proof. reflexivity. Qed.

Lemma itoa_ParseInt16 p : 0 <= p < 65536 -> ParseInt16 (Config.itoa p) = if p >=? 2 ^ 15 then None else Some p.
Proof.
  intros Hp. pose proof (Lifecycle.ParseUint16_itoa p Hp) as E.
  pose proof (Config.itoa_notin p "+"%byte) as H1. assert (~ "-"%byte ∈ Config.itoa p) as H2.
  { unfold Config.itoa. destruct (Z.ltb_spec p 0); [lia|]. intros Hc%Config.digits_10; [|lia]. change (Z_of_byte "-"%byte) with 45 in Hc. lia. }
  unfold ParseInt16. destruct (Config.itoa p) as [|b s]; [done|].
  assert (b <> "+"%byte) by (intros ->; apply H1; [left; done|by left]). assert (b <> "-"%byte) by (intros ->; apply H2; by left).
  rewrite E. destruct b; done.
Qed.

(** The address of the transport, if its port is below [2^15]. *)
Theorem mock_advertises n me t ip p
    (Hn : numbered n) (Ht : transports n !! me = Some t) (Hme : Z.of_nat me + 1 < 65536) :
  mockFinalAdvertiseAddr me ip p n =
    if Z.of_nat me + 1 >=? 2 ^ 15 then Err ErrResolve else Ok (Addr.v4InV6 ["127"; "000"; "000"; "001"]%byte, Z.of_nat me + 1).
Proof.
  unfold mockFinalAdvertiseAddr, addrOf, MockAddress_String. rewrite Ht. destruct (nb_addr _ Hn _ _ Ht) as [-> _].
  rewrite mockAddrText_join, Addr.split_join by (intros Hc%Addr.has_in; discriminate Hc). rewrite itoa_ParseInt16 by lia.
  change (Addr.ParseIP mockHost) with (Some (Addr.v4InV6 ["127"; "000"; "000"; "001"]%byte)). by destruct (Z.of_nat me + 1 >=? 2 ^ 15).
Qed.

(** ** Clusters *)

Section Cluster.

#[local] Existing Instance Wire.gossipCodec.

Context {T : Type} `{!Queue.BTree Queue.memberlistBroadcast T} `{!Security.AEAD}.
Context `{!Wire.Codec Acks.ping, !Wire.Codec Acks.indirectPingReq, !Wire.Codec Acks.ackResp, !Wire.Codec Acks.nackResp}.
Context `{!Wire.Codec Members.alive, !Wire.Codec Members.suspect, !Wire.Codec Members.dead, !Wire.Codec Wire.compress}.

(** Member [i] of the cluster has transport [i] of the network. *)
Record cluster := mkCluster { net : MockNetwork; members : list (Net.runtime T) }.

Implicit Types cl : cluster.

(** What a member hands to its transport between two states. *)
Definition newWires (rt rt' : Net.runtime T) : list (Acks.Address * bytes) := drop (length (Net.wires rt)) (Net.wires rt').

(** Any operation of member [i], and the packets it sends. *)
Definition act (i : nat) (now : gotime) (f : Net.runtime T -> outcome (Net.runtime T)) cl : outcome cluster :=
  match members cl !! i with
  | None => Ret cl
  | Some rt =>
      let! rt' := f rt in
      Ret (mkCluster (writeAll (mockTransport i now) (newWires rt rt') (net cl)) (<[i := rt']> (members cl)))
  end.

(** The receive of [packetListen]: the first sender that waits goes on. *)
Definition takePacket (t : MockTransport) : MockTransport := mkMockTransport (mockAddr t) (tail (packetCh t)) (streamCh t).

(** One turn of the loop of [packetListen] of member [j]; without a sender it waits.
    The case of [shutdownCh], which ends the loop, is with the other goroutines that
    end at a shutdown, in [Listeners]. *)
Definition packetListen (env : nat -> Net.environment) (depth : nat) (j : nat) cl : outcome cluster :=
  match transports (net cl) !! j with
  | None => Ret cl
  | Some t =>
      match packetCh t with
      | [] => Ret cl
      | p :: _ =>
          act j (Timestamp p) (Net.ingestPacket (env j) depth (Buf p) (From p) (Timestamp p))
            (mkCluster (setTransport j takePacket (net cl)) (members cl))
      end
  end.

(** [rawSendMsgPacket] by member [i]. *)
Definition sendPacket (i : nat) (a : Acks.Address) (o : option Members.Node) (msg : bytes) (now : gotime) cl : outcome cluster :=
  act i now (fun rt => Ret (fst (Net.sendResult rt (Net.rawSendMsgPacket a o msg rt)))) cl.

Context `{!Security.AEADLaws} `{!Wire.CodecLaws Wire.compress}.

(** A packet on its way: the one sender that waits at member [j]. *)
Lemma sendPacket_waits i j a o msg now rt1 w ns t cl :
  members cl !! i = Some rt1 -> getPeer a (net cl) = Ok j -> transports (net cl) !! j = Some t ->
  Net.rawSendMsgPacket a o msg rt1 = Ok (Net.setSent (Net.wires rt1 ++ [(a, w)]) ns (Net.sentUpTo rt1) rt1) ->
  exists rt1', sendPacket i a o msg now cl =
    Ret (mkCluster (setTransport j (offerPacket (mkPacket w (addrOf i (net cl)) now)) (net cl)) (<[i := rt1']> (members cl))).
Proof.
  intros Hi Hr Ht Hs. eexists. unfold sendPacket, act. rewrite Hi, Hs. cbn [Net.sendResult fst obind].
  unfold newWires. cbn [Net.wires Net.setSent]. rewrite drop_app_length. cbn [writeAll WriteToAddress mockTransport].
  unfold mockWriteToAddress. by rewrite Hr.
Qed.

(** ... and its arrival. *)
Lemma packetListen_takes env d j p t rt2 rt2' cl :
  transports (net cl) !! j = Some t -> packetCh t = [p] -> members cl !! j = Some rt2 ->
  Net.ingestPacket (env j) d (Buf p) (From p) (Timestamp p) rt2 = Ret rt2' ->
  exists n', packetListen env d j cl = Ret (mkCluster n' (<[j := rt2']> (members cl))).
Proof.
  intros Ht Hp Hj Hin. eexists. unfold packetListen. rewrite Ht, Hp. unfold act. cbn [members net]. rewrite Hj, Hin. reflexivity.
Qed.

(** Packets cross a cluster: in a cluster of any members on a mock network, a
    command that one member sends to an address that belongs to a compatible one
    waits at that member, and when [packetListen] takes it, the receiver does what
    the command itself makes it do, with the sender's address as its source; all
    other members are as before. *)
Theorem cluster_delivers env cl i j rt1 rt2 rt2' t a o msg d now
    (Hi : members cl !! i = Some rt1) (Hj : members cl !! j = Some rt2) (Hij : i <> j)
    (Ht : transports (net cl) !! j = Some t) (Hempty : packetCh t = []) (Hroute : getPeer a (net cl) = Ok j)
    (Hs : Delivery.sendable a o rt1) (Hc : Delivery.compatible (Net.conf rt1) (Net.conf rt2)) (Hm : Delivery.isCommand msg)
    (Hh : Net.handleCommand (env j) d msg (addrOf i (net cl)) now rt2 = Ret rt2') :
  exists cl1 cl2 rt1', sendPacket i a o msg now cl = Ret cl1 /\ packetListen env (S d) j cl1 = Ret cl2 /\
    members cl2 = <[j := rt2']> (<[i := rt1']> (members cl)).
Proof.
  destruct (Delivery.packet_ingested (env j) a o msg d (addrOf i (net cl)) now rt1 rt2 rt2' Hs Hc Hm Hh) as (w & ns & Hw & Hin).
  destruct (sendPacket_waits i j a o msg now rt1 w ns t cl Hi Hroute Ht Hw) as [rt1' Hsend].
  set (p := mkPacket w (addrOf i (net cl)) now) in *.
  set (cl1 := mkCluster (setTransport j (offerPacket p) (net cl)) (<[i := rt1']> (members cl))) in *.
  destruct (packetListen_takes env (S d) j p (offerPacket p t) rt2 rt2' cl1) as [n' Hl].
  - simpl. by rewrite list_lookup_alter_eq, Ht.
  - simpl. by rewrite Hempty.
  - simpl. by rewrite list_lookup_insert_ne.
  - exact Hin.
  - by exists cl1, (mkCluster n' (<[j := rt2']> (members cl1))), rt1'.
Qed.

(** An idle [packetHandler] wakes up for one alive message. *)
Lemma packetHandler_one env its (al : Members.alive) b from (rt : Net.runtime T) m
    (Hh : Net.highPriorityMsgQueue rt = []) (Hl : Net.lowPriorityMsgQueue rt = [])
    (Hd : 0 < Config.HandoffQueueDepth (Net.conf rt)) (Hb : Wire.decode b = Some al)
    (Hfrom : Net.ensureCanConnect (Net.conf rt) from = true) (Hip : Config.IPAllowed (Net.conf rt) (Members.aAddr al) = true)
    (Hm : Members.aliveNode (Net.withPort (Net.portOf (Net.conf rt) al) al) None false (its 0%nat).1.2 (its 0%nat).2 (Net.ml rt) = Ret m) :
  exists rt', Net.packetHandler env its (Net.enqueue Compound.aliveMsg b from rt) = Ret rt' /\ Net.ml rt' = m /\ Net.wires rt' = Net.wires rt.
Proof.
  unfold Net.enqueue. rewrite Z.eqb_refl, Z.geb_leb, (proj2 (Z.leb_gt _ _)) by (by rewrite Hh).
  unfold Net.packetHandler, Net.pendingMsgs. cbn. rewrite Hh, Hl. cbn.
  destruct (its 0%nat) as [[nilAddr rnd] now]. cbn in Hm |- *.
  unfold Net.handleNext, Net.handleAlive. cbn. change (Net.conf (Net.setQueues _ _ _ _)) with (Net.conf rt).
  rewrite Hfrom, Hb, Hip, andb_false_r. cbn. rewrite Hm. cbn. by eexists.
Qed.

(** C3: News travels: when a member of a cluster sends an alive message to another
    one, with compatible settings (its label, checked; encryption on exactly when
    the sender encrypts, with the sender's key), empty queues and an address that
    is allowed to connect, about a node other than the receiver and at an allowed
    address, then after the other's [packetListen] and [packetHandler] have had a
    turn, the other's view of the cluster is what [hearAlive] makes of its entry
    for that node, and all its other entries are as before; label, encryption,
    compression and checksum, the network and the queues on the way do not show. *)
Theorem cluster_gossips `{!Wire.CodecLaws Members.alive} env its cl i j rt1 rt2 t a o (al : Members.alive) msg now later e
    (Hi : members cl !! i = Some rt1) (Hj : members cl !! j = Some rt2) (Hij : i <> j)
    (Ht : transports (net cl) !! j = Some t) (Hempty : packetCh t = []) (Hroute : getPeer a (net cl) = Ok j)
    (Hs : Delivery.sendable a o rt1) (Hc : Delivery.compatible (Net.conf rt1) (Net.conf rt2))
    (He : Wire.encode Compound.aliveMsg al = Some msg)
    (Hh : Net.highPriorityMsgQueue rt2 = []) (Hl : Net.lowPriorityMsgQueue rt2 = [])
    (Hd : 0 < Config.HandoffQueueDepth (Net.conf rt2))
    (Hfrom : Net.ensureCanConnect (Net.conf rt2) (addrOf i (net cl)) = true)
    (Hip : Config.IPAllowed (Net.conf rt2) (Members.aAddr al) = true)
    (Hinv : Membership.inv (Net.ml rt2)) (Hne : Members.aNode al <> Members.self (Net.ml rt2))
    (Hear : let al' := Net.withPort (Net.portOf (Net.conf rt2) al) al in
       Learning.hearAlive (Members.aliveAccepted al' (Net.ml rt2)) (Net.conf rt2) al' (its 0%nat).2
         (Membership.view (Net.ml rt2) !! Members.aNode al) = Ret e) :
  exists cl1 cl2 cl3 rt2', sendPacket i a o msg now cl = Ret cl1 /\ packetListen env 2 j cl1 = Ret cl2 /\
    act j later (Net.packetHandler (env j) its) cl2 = Ret cl3 /\ members cl3 !! j = Some rt2' /\
    Membership.view (Net.ml rt2') = Learning.withEntry (Members.aNode al) e (Membership.view (Net.ml rt2)).
Proof.
  destruct (Wire.decode_encode _ _ _ He) as (b & -> & Hb).
  set (al' := Net.withPort (Net.portOf (Net.conf rt2) al) al) in *.
  pose proof (Learning.alive_view al' None false (its 0%nat).1.2 (its 0%nat).2 (Net.ml rt2) Hinv Hne) as Hv.
  change (Members.aNode al') with (Members.aNode al) in Hv. cbv zeta in Hear.
  destruct (Members.aliveNode al' None false _ _ (Net.ml rt2)) as [m|w] eqn:Hm;
    [|change (Members.config (Net.ml rt2)) with (Net.conf rt2) in Hv; congruence].
  destruct Hv as (e' & Hear' & Hv). change (Members.config (Net.ml rt2)) with (Net.conf rt2) in Hear'.
  assert (e' = e) as -> by congruence.
  destruct (packetHandler_one (env j) its al b (addrOf i (net cl)) rt2 m) as (rt3 & Hp & <- & Hw); try done.
  destruct (cluster_delivers env cl i j rt1 rt2 (Net.enqueue Compound.aliveMsg b (addrOf i (net cl)) rt2) t a o
    (byte_of_Z Compound.aliveMsg :: b) 1 now) as (cl1 & cl2 & rt1' & Hsend & Hlisten & Hms); try done.
  exists cl1, cl2. do 2 eexists. split; [exact Hsend|]. split; [exact Hlisten|].
  assert (Hlt : (j < length (<[i := rt1']> (members cl)))%nat)
    by (rewrite length_insert; by eapply lookup_lt_Some).
  split; [|split; [|exact Hv]].
  - unfold act. rewrite Hms, list_lookup_insert_eq by done. rewrite Hp. reflexivity.
  - cbn [members]. apply list_lookup_insert_eq. by rewrite length_insert.
Qed.

End Cluster.

Arguments cluster : clear implicits.

(** ** A cluster of two members *)

Import Wire.

#[local] Existing Instances Queue.listTree Security.toyAEAD Security.toyAEADLaws.
#[local] Existing Instances Wire.countableCodec Wire.countableCodec_laws Wire.gossipCodec.

Definition exConfB : Config.Config :=
  Config.withSecurity "dc1" (Some Delivery.exRing) true true true (Config.DefaultLANConfig "b").

Definition exCluster : cluster (list (Queue.limitedBroadcast Queue.memberlistBroadcast)) :=
  mkCluster (NewTransport "b" (NewTransport "a" newMockNetwork).2).2 [Delivery.exRt Delivery.exConf; Delivery.exRt exConfB].

Lemma exCompatibleB : Delivery.compatible Delivery.exConf exConfB.
Proof. split; [done..|]. intros _. exists [], [Security.demoKey16 x01]. split; [reflexivity|constructor]. Qed.

(** Member "a" tells "b" about a node "c". *)
Lemma cluster_gossips_witness :
  exists msg cl1 cl2 cl3 (rt2' : Delivery.XR) st, Wire.encode Compound.aliveMsg Delivery.exAlive = Some msg /\
    sendPacket 0 Delivery.exTo (Some Delivery.exPeer) msg 5000 exCluster = Ret cl1 /\
    packetListen (fun _ => Delivery.exEnv) 2 1 cl1 = Ret cl2 /\
    act 1 7000 (Net.packetHandler Delivery.exEnv (fun _ => (false, 0, 6000))) cl2 = Ret cl3 /\
    members cl3 !! 1%nat = Some rt2' /\ Membership.view (Net.ml rt2') = {["c" := st]} /\
    Members.State st = Members.StateAlive /\ Members.Incarnation st = 3 /\ Members.Port (Members.node st) = 7946.
Proof.
  destruct (Wire.encode Compound.aliveMsg Delivery.exAlive) as [msg|] eqn:E; [|discriminate E].
  edestruct (cluster_gossips (fun _ => Delivery.exEnv) (fun _ => (false, 0, 6000)) exCluster 0 1
    (Delivery.exRt Delivery.exConf) (Delivery.exRt exConfB) (mkMockTransport (mkMockAddress (mockAddrText 2) "b") [] [])
    Delivery.exTo (Some Delivery.exPeer) Delivery.exAlive msg 5000 7000)
    as (cl1 & cl2 & cl3 & rt2' & H1 & H2 & H3 & H4 & H5);
    [done|done|done|reflexivity|done|reflexivity|exact Delivery.exSendable|exact exCompatibleB|exact E|done|done|done|done|done|apply Membership.inv_new|done|vm_compute; reflexivity|].
  do 6 eexists. split; [reflexivity|]. split; [exact H1|]. split; [exact H2|]. split; [exact H3|]. split; [exact H4|].
  split; [rewrite H5; reflexivity|]. repeat split; reflexivity.
Defined.

End MockNet.
