(* ===== verification/Retry.v ===== *)
(** * Repeating tests (internal/retry/retry.go)

    [run] repeats a test until it passes or a retryer gives up, and then reports
    what all attempts have said, each line once. A test acts on its [R] by a
    sequence of calls, which may differ between attempts; a call may end the
    goroutine of the attempt. Time is passed along: a body takes some time, and a
    retryer sleeps. *)

From Stdlib Require Import ZArith Lia Strings.Byte.
From stdpp Require Import tactics base numbers strings gmap list.
From S2P Require Import Prelude Config.

Local Open Scope Z_scope.

Module Retry.

(** ** R *)

Record R := mkR { fail : bool; output : list string }.

(** The caller that [runtime.Caller(3)] finds: file and line. *)
Abbreviation caller := (option (bytes * Z)).

Definition decorate (c : caller) (s : string) : string :=
  let '(file, line) :=
    match c with
    | Some (file, line) =>
        let n := Config.lastIndex "/"%byte file in
        ((if n >=? 0 then drop (Z.to_nat (n + 1)) file else file), line)
    | None => (bytes_of_string "???", 1)
    end in
  string_of_bytes file +:+ ":" +:+ string_of_bytes (Config.itoa line) +:+ ": " +:+ s.

(** [fmt.Sprint]: operands by their text; a space goes between two operands that
    are not strings. *)
Record operand := mkOperand { isString : bool; text : string }.

Fixpoint sprintAfter (prev : operand) (args : list operand) : string :=
  match args with
  | [] => EmptyString
  | a :: args =>
      (if isString prev || isString a then EmptyString else " ") +:+ text a +:+ sprintAfter a args
  end.

Definition Sprint (args : list operand) : string :=
  match args with [] => EmptyString | a :: args => text a +:+ sprintAfter a args end.

Definition log (c : caller) (s : string) (r : R) : R := mkR (fail r) (output r ++ [decorate c s]).

(** The operations: the new [R], and whether the goroutine has exited. *)
Definition FailNow (r : R) : R * bool := (mkR true (output r), true).

Definition Fatal (c : caller) (args : list operand) (r : R) : R * bool := FailNow (log c (Sprint args) r).

(** The formatted text [s] is what [fmt.Sprintf] makes of the arguments. *)
Definition Fatalf (c : caller) (s : string) (r : R) : R * bool := FailNow (log c s r).

Definition Error (c : caller) (args : list operand) (r : R) : R * bool :=
  (mkR true (output (log c (Sprint args) r)), false).

Definition Errorf (c : caller) (s : string) (r : R) : R * bool := (mkR true (output (log c s r)), false).

(** [Check]: an error by its text. *)
Definition CheckErr (c : caller) (err : option string) (r : R) : R * bool :=
  match err with None => (r, false) | Some e => FailNow (log c e r) end.

(** ** What a test does *)

Inductive call :=
  | CFailNow
  | CFatal (c : caller) (args : list operand)
  | CFatalf (c : caller) (s : string)
  | CError (c : caller) (args : list operand)
  | CErrorf (c : caller) (s : string)
  | CCheck (c : caller) (err : option string).

Definition doCall (k : call) (r : R) : R * bool :=
  match k with
  | CFailNow => FailNow r
  | CFatal c args => Fatal c args r
  | CFatalf c s => Fatalf c s r
  | CError c args => Error c args r
  | CErrorf c s => Errorf c s r
  | CCheck c err => CheckErr c err r
  end.

(** The goroutine of an attempt, [f(rr)]. *)
Fixpoint attempt (ks : list call) (r : R) : R :=
  match ks with
  | [] => r
  | k :: ks => let '(r, exited) := doCall k r in if exited then r else attempt ks r
  end.

(** ** dedup *)

Fixpoint countAll (a : list string) (m : gmap string Z) : gmap string Z :=
  match a with [] => m | s :: a => countAll a (<[s := i64 (default 0 (m !! s) + 1)]> m) end.

Definition newline : string := String (Ascii.ascii_of_nat 10) EmptyString.

Fixpoint writeOnce (a : list string) (m : gmap string Z) : string :=
  match a with
  | [] => EmptyString
  | s :: a =>
      match m !! s with
      | Some _ => s +:+ newline +:+ writeOnce a (delete s m)
      | None => writeOnce a m
      end
  end.

Definition dedup (a : list string) : string :=
  match a with [] => EmptyString | _ => writeOnce a (countAll a ∅) end.

(** ** Retryers *)

(** What is called on the [Failer]. *)
Inductive failerCall := CallLog (out : string) | CallFailNow.

(** [NextOr(fail)] at some time: its result, the retryer, what [fail] has changed
    and the time slept. *)
Class Retryer (A : Type) :=
  NextOr : forall {W : Type}, (W -> W) -> A -> gotime -> W -> bool * A * W * duration.

(** The documented contract: [NextOr] returns true, or calls [fail] and returns
    false. *)
Class RetryerLaws (A : Type) `{Retryer A} : Prop :=
  NextOr_fails : forall W (f : W -> W) r now w, let '(again, _, w', _) := NextOr f r now w in w' = if again then w else f w.

Definition Sleep (d : duration) : duration := Z.max 0 d.

Record Counter := mkCounter { Count : Z; CWait : duration; count : Z }.

#[export] Instance Counter_NextOr : Retryer Counter := fun W f r now w =>
  if count r =? Count r then (false, r, f w, 0)
  else (true, mkCounter (Count r) (CWait r) (i64 (count r + 1)), w, if count r >? 0 then Sleep (CWait r) else 0).

Record Timer := mkTimer { Timeout : duration; TWait : duration; stop : gotime }.

#[export] Instance Timer_NextOr : Retryer Timer := fun W f r now w =>
  if stop r =? zeroTime then (true, mkTimer (Timeout r) (TWait r) (now + Timeout r), w, 0)
  else if now >? stop r then (false, r, f w, 0)
  else (true, r, w, Sleep (TWait r)).

Definition DefaultFailer : Timer := mkTimer (7 * nsSecond) (25 * nsMillisecond) zeroTime.
Definition TwoSeconds : Timer := mkTimer (2 * nsSecond) (25 * nsMillisecond) zeroTime.
Definition ThreeTimes : Counter := mkCounter 3 (25 * nsMillisecond) 0.

(** ** run *)

(** The closure [fail] of [run]. *)
Definition giveUp (rr : R) (w : list failerCall) : list failerCall :=
  let out := dedup (output rr) in
  (if bool_decide (out = EmptyString) then w else w ++ [CallLog out]) ++ [CallFailNow].

Record ran := mkRan { attempts : nat; calls : list failerCall; endTime : gotime }.

(** The loop of [run]: attempt [i] makes the calls [f i] and takes the time [dur i]. *)
Fixpoint loop {A : Type} `{Retryer A} (fuel : nat) (r : A) (f : nat -> list call) (dur : nat -> duration)
    (i : nat) (rr : R) (now : gotime) (w : list failerCall) : option ran :=
  match fuel with
  | O => None
  | S fuel =>
      let '(again, r, w, slept) := NextOr (giveUp rr) r now w in
      if negb again then Some (mkRan i w (now + slept))
      else
        let rr := attempt (f i) rr in
        let now := now + slept + dur i in
        if fail rr then loop fuel r f dur (S i) (mkR false (output rr)) now w
        else Some (mkRan (S i) w now)
  end.

Definition run {A : Type} `{Retryer A} (fuel : nat) (r : A) (f : nat -> list call) (dur : nat -> duration) (now : gotime) :
    option ran := loop fuel r f dur 0 (mkR false []) now [].

Definition RunWith {A : Type} `{Retryer A} (fuel : nat) (r : A) (f : nat -> list call) (dur : nat -> duration) (now : gotime) :
    option ran := run fuel r f dur now.

Definition Run (fuel : nat) (f : nat -> list call) (dur : nat -> duration) (now : gotime) : option ran :=
  run fuel DefaultFailer f dur now.

(** ** Specification *)

(** Whether the calls of an attempt make it fail, and what they log: calls after
    one that exits do not count. *)
Fixpoint failed (ks : list call) : bool :=
  match ks with
  | [] => false
  | CCheck _ None :: ks => failed ks
  | _ => true
  end.

Fixpoint said (ks : list call) : list string :=
  match ks with
  | [] => []
  | CFailNow :: _ => []
  | CFatal c args :: _ => [decorate c (Sprint args)]
  | CFatalf c s :: _ => [decorate c s]
  | CError c args :: ks => decorate c (Sprint args) :: said ks
  | CErrorf c s :: ks => decorate c s :: said ks
  | CCheck c None :: ks => said ks
  | CCheck c (Some e) :: _ => [decorate c e]
  end.

Lemma attempt_spec ks r : attempt ks r = mkR (fail r || failed ks) (output r ++ said ks).
Proof.
  revert r. induction ks as [|k ks IH]; intros [b out]; simpl; [by rewrite orb_false_r, app_nil_r|].
  destruct k as [|c a|c a|c a|c a|c [e|]]; simpl; rewrite ?IH; simpl; by rewrite ?orb_true_r, ?app_nil_r, <- ?app_assoc.
Qed.

(** The first occurrences of the strings of a list, without those [seen] before. *)
Fixpoint firsts (seen : gset string) (a : list string) : list string :=
  match a with
  | [] => []
  | s :: a => if decide (s ∈ seen) then firsts seen a else s :: firsts ({[s]} ∪ seen) a
  end.

Definition lines (a : list string) : string := foldr (fun s t => s +:+ newline +:+ t) EmptyString a.

Lemma countAll_dom a m : dom (countAll a m) = dom m ∪ list_to_set a.
Proof. revert m. induction a as [|s a IH]; intros m; simpl; [set_solver|]. rewrite IH. set_solver. Qed.

Lemma writeOnce_firsts a m seen :
  (forall s, s ∈ a -> s ∈ dom m <-> s ∉ seen) -> writeOnce a m = lines (firsts seen a).
Proof.
  revert m seen. induction a as [|s a IH]; intros m seen H; simpl; [done|].
  pose proof (H s ltac:(by left)) as Hs. rewrite elem_of_dom in Hs.
  destruct (m !! s) as [v|] eqn:E.
  - rewrite decide_False by (by apply Hs). simpl. f_equal. f_equal. apply IH.
    intros t Ht. rewrite dom_delete_L, elem_of_difference, (H t) by (by right). set_solver.
  - rewrite decide_True by (destruct (decide (s ∈ seen)); [done|]; by destruct (proj2 Hs)).
    apply IH. intros t Ht. apply H. by right.
Qed.

Lemma dedup_lines a : dedup a = lines (firsts ∅ a).
Proof.
  unfold dedup. destruct a as [|s a]; [done|]. apply writeOnce_firsts.
  intros t Ht. rewrite countAll_dom. set_solver.
Qed.

Lemma firsts_elem seen a s : s ∈ firsts seen a <-> s ∈ a /\ s ∉ seen.
Proof.
  revert seen. induction a as [|t a IH]; intros seen; simpl; [set_solver|].
  destruct (decide (t ∈ seen)); rewrite ?elem_of_cons, IH; [|destruct (decide (s = t))]; set_solver.
Qed.

(** [dedup] prints every string once, where it occurs first. *)
Theorem dedup_once a :
  exists l, dedup a = lines l /\ NoDup l /\ l `sublist_of` a /\ (forall s, s ∈ l <-> s ∈ a).
Proof.
  exists (firsts ∅ a). split; [apply dedup_lines|]. split; [|split; [|intros s; rewrite firsts_elem; set_solver]].
  - generalize (∅ : gset string). induction a as [|s a IH]; intros seen; simpl; [constructor|].
    destruct (decide _); [done|]. constructor; [rewrite firsts_elem; set_solver|done].
  - generalize (∅ : gset string). induction a as [|s a IH]; intros seen; simpl; [done|].
    destruct (decide _); [by apply sublist_cons|by apply sublist_skip].
Qed.

(** What a failed run tells the test. *)
Definition report (out : list string) : list failerCall :=
  match out with [] => [CallFailNow] | _ => [CallLog (lines (firsts ∅ out)); CallFailNow] end.

Lemma giveUp_report b out : giveUp (mkR b out) [] = report out.
Proof.
  unfold giveUp. simpl. rewrite dedup_lines. destruct out as [|s out]; [done|].
  simpl. rewrite decide_False, bool_decide_eq_false_2; [done|by destruct s|set_solver].
Qed.

(** All that the attempts [i], ..., [n-1] say. *)
Definition saidBy (f : nat -> list call) (i n : nat) : list string := concat (map (fun k => said (f k)) (seq i (n - i))).

Lemma saidBy_step f i n : (i < n)%nat -> saidBy f i n = said (f i) ++ saidBy f (S i) n.
Proof. intros H. unfold saidBy. by replace (n - i)%nat with (S (n - S i))%nat by lia. Qed.

(** ** run *)

(** The attempts from [i] to the one before [n] were the right ones: all but the
    last failed; if the last passed, nothing is reported, else everything. *)
Definition ended (f : nat -> list call) (i n : nat) (out : list string) (w : list failerCall) : Prop :=
  (i < n /\ (forall k, i <= k < n - 1 -> failed (f k) = true) /\ failed (f (n - 1)) = false /\ w = [])%nat \/
  (i <= n /\ (forall k, i <= k < n -> failed (f k) = true) /\ w = report (out ++ saidBy f i n))%nat.

Lemma ended_next f i n out w :
  failed (f i) = true -> ended f (S i) n (out ++ said (f i)) w -> ended f i n out w.
Proof.
  intros Hi [(Hn & Hf & Hl & Hw)|(Hn & Hf & Hw)].
  - left. split_and!; [lia| |done..]. intros k Hk. destruct (decide (k = i)) as [->|]; [done|apply Hf; lia].
  - right. split_and!; [lia| |].
    + intros k Hk. destruct (decide (k = i)) as [->|]; [done|apply Hf; lia].
    + by rewrite (saidBy_step f i n), app_assoc by lia.
Qed.

(** One iteration, for a retryer that keeps its contract. *)
Lemma loop_unfold {A} `{RetryerLaws A} fuel (r : A) f dur i out now :
  loop (S fuel) r f dur i (mkR false out) now [] =
  let '(again, r', _, slept) := NextOr (giveUp (mkR false out)) r now [] in
  if negb again then Some (mkRan i (report out) (now + slept))
  else if failed (f i) then loop fuel r' f dur (S i) (mkR false (out ++ said (f i))) (now + slept + dur i) []
  else Some (mkRan (S i) [] (now + slept + dur i)).
Proof.
  cbn [loop]. pose proof (NextOr_fails _ (giveUp (mkR false out)) r now []) as Hw.
  destruct (NextOr (giveUp (mkR false out)) r now []) as [[[again r'] w] slept]. subst w.
  destruct again; cbn [negb]; [|by rewrite giveUp_report]. rewrite attempt_spec. reflexivity.
Qed.

Lemma loop_ended {A} `{RetryerLaws A} fuel (r : A) f dur i out now x :
  loop fuel r f dur i (mkR false out) now [] = Some x -> ended f i (attempts x) out (calls x).
Proof.
  revert r i out now. induction fuel as [|fuel IH]; intros r i out now; [done|]. rewrite loop_unfold.
  destruct (NextOr (giveUp (mkR false out)) r now []) as [[[again r'] w] slept].
  destruct again; cbn [negb].
  - destruct (failed (f i)) eqn:E.
    + intros Hx. by apply ended_next, (IH _ _ _ _ Hx).
    + intros [= <-]. left. cbn [attempts calls]. split_and!; [lia|lia| |done]. by replace (S i - 1)%nat with i by lia.
  - intros [= <-]. right. cbn [attempts calls]. split_and!; [lia|lia|]. unfold saidBy. by rewrite Nat.sub_diag, app_nil_r.
Qed.

#[export] Instance Counter_laws : RetryerLaws Counter.
Proof. intros W f r now w. unfold NextOr, Counter_NextOr. by destruct (count r =? Count r). Qed.

#[export] Instance Timer_laws : RetryerLaws Timer.
Proof. intros W f r now w. unfold NextOr, Timer_NextOr. destruct (stop r =? zeroTime); [done|]. by destruct (now >? stop r). Qed.

(** A counter allows as many attempts as it has left. *)
Lemma counter_loop n (c : Counter) f dur i out now :
  Count c = count c + Z.of_nat n -> 0 <= count c -> Count c <= maxI64 ->
  exists x, loop (S n) c f dur i (mkR false out) now [] = Some x /\
    (attempts x <= i + n)%nat /\ (calls x <> [] -> attempts x = i + n)%nat.
Proof.
  revert c i out now. induction n as [|n IH]; intros c i out now Hc H0 Hm; rewrite loop_unfold; unfold NextOr, Counter_NextOr.
  - rewrite (proj2 (Z.eqb_eq _ _)) by lia. eexists. split; [reflexivity|]. simpl. lia.
  - rewrite (proj2 (Z.eqb_neq _ _)) by lia. cbn [negb]. rewrite i64_small by (unfold minI64; lia). destruct (failed (f i)).
    + edestruct (IH (mkCounter (Count c) (CWait c) (count c + 1)) (S i)) as (x & -> & Hle & Hcalls);
        [simpl; lia..|]. exists x. split; [done|]. split; [lia|]. intros H. specialize (Hcalls H). lia.
    + eexists. split; [reflexivity|]. simpl. split; [lia|done].
Qed.

(** A test that is run with a counter is repeated until it passes, at most
    [Count] times: it stops after the first attempt that does not fail, and then
    reports nothing; if none of the [Count] attempts passes, it fails the test once,
    with what all attempts have logged, each text once, where it came first. *)
Theorem counter_repeats (c : Counter) f dur now
    (H0 : count c = 0) (Hc : 0 <= Count c <= maxI64) :
  exists x, RunWith (S (Z.to_nat (Count c))) c f dur now = Some x /\
    ended f 0 (attempts x) [] (calls x) /\ Z.of_nat (attempts x) <= Count c /\
    (calls x <> [] -> Z.of_nat (attempts x) = Count c).
Proof.
  destruct (counter_loop (Z.to_nat (Count c)) c f dur 0 [] now) as (x & Hx & Hle & Hcalls); [lia..|].
  exists x. split; [exact Hx|]. split; [by apply loop_ended in Hx|]. split; [lia|]. intros H. specialize (Hcalls H). lia.
Qed.

(** While a started timer runs, every attempt but the last takes [TWait] of what is
    left. *)
Lemma timer_loop n (t : Timer) f dur i out now :
  0 < TWait t -> stop t <> zeroTime -> (forall k, 0 <= dur k) -> stop t - now < Z.of_nat n * TWait t ->
  exists x, loop (S n) t f dur i (mkR false out) now [] = Some x /\
    (attempts x <= i + n)%nat /\ (calls x <> [] -> stop t < endTime x).
Proof.
  intros Hw Hs Hd. revert i out now. induction n as [|n IH]; intros i out now Hn; rewrite loop_unfold; unfold NextOr, Timer_NextOr;
    rewrite (proj2 (Z.eqb_neq _ _)) by done; destruct (Z.gtb_spec now (stop t)); cbn [negb]; try lia;
    try (eexists; split; [reflexivity|]; simpl; lia).
  unfold Sleep. rewrite Z.max_r by lia. pose proof (Hd i). destruct (failed (f i)).
  - destruct (IH (S i) (out ++ said (f i)) (now + TWait t + dur i)) as (x & Hl & Hle & Hx); [lia|].
    exists x. split; [exact Hl|]. split; [lia|done].
  - eexists. split; [reflexivity|]. simpl. split; [lia|done].
Qed.

(** C40: A test that is run with a timer ends, is tried at least once and at most
    [Timeout/TWait + 2] times, stops after the first attempt that does not fail,
    and fails the test only once the timeout has passed, with what all attempts
    have logged. *)
Theorem timer_repeats (t : Timer) f dur now
    (Hw : 0 < TWait t) (H0 : 0 <= Timeout t) (Hs : stop t = zeroTime) (Hnow : 0 < now) (Hd : forall k, 0 <= dur k) :
  exists x, RunWith (Z.to_nat (Timeout t / TWait t + 3)) t f dur now = Some x /\
    ended f 0 (attempts x) [] (calls x) /\ 1 <= Z.of_nat (attempts x) <= Timeout t / TWait t + 2 /\
    (calls x <> [] -> now + Timeout t < endTime x).
Proof.
  pose proof (Z.div_pos (Timeout t) (TWait t) H0 Hw) as Hq.
  pose proof (Z.mul_succ_div_gt (Timeout t) (TWait t) Hw) as Hlt.
  assert (exists x, RunWith (Z.to_nat (Timeout t / TWait t + 3)) t f dur now = Some x /\
    (1 <= attempts x <= Z.to_nat (Timeout t / TWait t + 2))%nat /\ (calls x <> [] -> now + Timeout t < endTime x)) as (x & Hx & Hle & He).
  { replace (Z.to_nat _) with (S (S (Z.to_nat (Timeout t / TWait t + 1)))) by lia.
    unfold RunWith, run. rewrite loop_unfold. unfold NextOr, Timer_NextOr. rewrite Hs. cbn [Z.eqb negb]. change (0 =? 0) with true.
    cbn [negb]. destruct (failed (f 0%nat)).
    - pose proof (Hd 0%nat).
      destruct (timer_loop (Z.to_nat (Timeout t / TWait t + 1)) (mkTimer (Timeout t) (TWait t) (now + Timeout t)) f dur 1
        ([] ++ said (f 0%nat)) (now + 0 + dur 0%nat)) as (x & Hx & Hle & He); simpl; unfold zeroTime; [lia..|done|simpl; nia|].
      exists x. split; [exact Hx|]. split; [|done]. apply loop_ended in Hx as [|]; lia.
    - eexists. split; [reflexivity|]. simpl. split; [lia|done]. }
  exists x. split; [exact Hx|]. split; [by apply loop_ended in Hx|]. split; [lia|done].
Qed.

(** A test that never passes, with the two texts it logs in turn. *)
Definition exTest (i : nat) : list call :=
  [CErrorf (Some (bytes_of_string "src/net_test.go", 12)) (if Nat.even i then "timeout" else "refused"); CCheck None None].

Lemma timer_repeats_witness :
  exists x, RunWith 83 TwoSeconds exTest (fun _ => 10 * nsMillisecond) 1000 = Some x /\
    attempts x = 58%nat /\ 2 * nsSecond + 1000 < endTime x /\
    calls x = [CallLog (lines ["net_test.go:12: timeout"; "net_test.go:12: refused"]); CallFailNow].
Proof.
  destruct (timer_repeats TwoSeconds exTest (fun _ => 10 * nsMillisecond) 1000) as (x & Hx & _ & _ & He); [done..|].
  exists x. split; [exact Hx|]. vm_compute in Hx. injection Hx as <-. repeat split.
Defined.

End Retry.
